(* ===== verification/_CoqProject ===== *)
-Q . S2P
Prelude.v
GoStrconv.v
GoEffects.v
GoConc.v
Errors.v
Resource.v
Sdt.v
SdtContainer.v
Lifecycle.v
Rules.v
Executor.v
TaskBuffer.v
Validation.v
Message.v
DirectPublisher.v
PersistentPublisher.v
DirectReceiver.v
DirectReceiverSafety.v
DirectReceiverRuns.v
RequestReplyReceiver.v
Events.v
CorePublisher.v
RequestReplyPublisher.v
Correlation.v
CoreReceiver.v
Metrics.v
Callbacks.v
Transport.v
CoreCache.v
ReceiverCache.v
NestedMaps.v
ServiceBuilder.v
MessagingService.v
EndpointProvisioner.v
EndpointProvisionerRuns.v
PersistentReceiverBuilder.v
PersistentReceiver.v
PersistentReceiverSafety.v
PersistentReceiverRuns.v
