(* ===== verification/Prelude.v ===== *)
(** The Go client of PubSub+: a verification of its core.

    * The program

    The client wraps the C library of the broker (internal/ccsmp) in the public API of
    pkg/solace.  Between the two, internal/impl holds the code that is verified here.  A
    messaging service (impl) owns one session of the C library, and a transport (impl/core)
    owns what the publishers and receivers of that session share: the events of the session,
    the sending of messages and the routing of acknowledgements and replies, the
    subscriptions and the callbacks for received messages, the provisioning of endpoints,
    the metrics, and the cache requests.  A publisher buffers messages behind a lock and hands
    one task per message to a task buffer; the task buffers of a service take turns on one
    send queue; notifications to the application run on an executor.  A receiver has a
    buffer that the thread of the C library fills and that the application, or a goroutine
    that calls its handler, empties.  Publishers and receivers are started and terminated
    once, by any number of goroutines, and end by themselves when the session goes down.

    * The files

    - [Prelude]: results of fallible functions, strings.
    - [GoStrconv]: machine integers with their wrap-around, the parsing and formatting of
      numbers.  [GoEffects]: panics, blocking, channels, locks and the state monad of
      sequential code.  [GoConc]: programs of atomic actions ([prog]), their interleavings
      ([pool_step]), and the rely/guarantee arguments ([proto], and [kproto] with stable
      knowledge) by which one check of each goroutine gives a theorem about any number of them.
    - [Errors]: pkg/solace/errors.go, core/error.go.  [Resource]: pkg/solace/resource.
    - [Sdt]: pkg/solace/message/sdt, the getters of maps and streams.  [SdtContainer]: the containers
      of the C library (ccsmp/ccsmp_container.go) and the conversion of structured data to and from
      them.  [Message]: ccsmp/ccsmp_message.go and ccsmp_message_tracing.go, impl/message, and the
      builder of outbound messages.  Containers and messages of the library are classes
      ([CContainers], [CMessages]) with its documented laws, which concrete ones satisfy.
    - [Lifecycle]: the state machine of starting and terminating and its futures
      (future/future_error.go, publisher/message_publisher_impl.go,
      receiver/message_receiver_impl.go); [HasLifecycle] is what a publisher or receiver
      embeds, [EmbedsLifecycle] what its invariant owes to the machine.  [Rules]: the proof rules
      for goroutines over a state with that machine.
    - [Executor]: executor/executor.go.  [TaskBuffer]: publisher/buffer.
    - [Validation]: validation/validator.go and the builders of direct and persistent publishers.
    - [DirectPublisher], [PersistentPublisher], [RequestReplyPublisher]: the publishers.  The last two
      run the code of the direct one on a part of their state, around a table of correlation
      contexts or of requests.
    - [DirectReceiver], [DirectReceiverSafety], [DirectReceiverRuns]: the direct receiver, its
      behaviour under interleaving, and its operations one at a time.  [RequestReplyReceiver]: the
      receiver of requests, which is a direct one, and the replier.
    - [PersistentReceiverBuilder], [PersistentReceiver], [PersistentReceiverSafety],
      [PersistentReceiverRuns]: the persistent receiver in the same way, with its builder.
    - [Callbacks]: the tables by which the callbacks of the C library find their session or flow
      (ccsmp/ccsmp_core.go, ccsmp_flow.go).  [Events], [CorePublisher], [Correlation], [CoreReceiver],
      [Metrics], [CoreCache]: the services of core; [HandlerRegistry] is what the other services ask of
      the events.  [Transport]: core/transport.go, which starts and ends them together.
    - [ReceiverCache]: the cache requests of a direct receiver, over [CoreCache].
    - [NestedMaps]: the maps of properties of pkg/solace/config and their nested form
      (format_utils.go).  [ServiceBuilder], [MessagingService]: the builder of a messaging service, with
      the mapping of its properties, and the service (impl/messaging_service_*.go).
    - [EndpointProvisioner], [EndpointProvisionerRuns]: impl/provisioner, over the provisioner of core.

    Go names are kept: a definition is called like the function or type it models, and a part
    of a function has a name of its own.

    * How the code is modelled

    Sequential code is a function on an explicit state, or in the monad [M] of [GoEffects]; a
    panic and an operation that would block for ever are results, so that their absence is
    part of a theorem.  Code that runs on several goroutines is a [prog]: each atomic access,
    lock or channel operation and each call into another component is one action, and a
    theorem quantifies over all interleavings of all programs of a list of calls.  A [select] may take any of its
    ready cases, a timer may fire at any time.  Numbers keep their width where it matters.
    What the C library answers is an argument or a list that the theorems leave arbitrary.
    The iteration over a Go map takes an order as an argument.

    Every component is used by the next one through what its own theorems show: the
    publishers use the task buffer and the executor as queues, which [TaskBuffer.buffer_fifo]
    and [Executor.executor_fifo] show them to be; the services of core use the events through
    a class whose laws [Events] proves.

    * Fuel

    Four kinds of functions take fuel.  The loops that drain a closed channel take the capacity
    of the channel and one more, which is enough because no channel holds more than its
    capacity, and running out is a crash, so that the theorems that exclude crashes show it.
    The loops that serve a goroutine for ever ([run] of the executor, the task buffer and the receivers)
    take the number of turns they are observed for, and the theorems hold for every number.  The
    formatting of numbers takes their binary logarithm ([GoStrconv.format_uint_value]).  The
    conversions between structured data and containers take the depth of the data or of the container,
    which is enough since what is inside is less deep ([SdtContainer.add_item_fuel] and the law
    [depth_fields]).

    * What the theorems show

    Messages: what a message is built with is what its getters give, structured data is read back with its
    types, and nothing is built from wrong properties (Message, SdtContainer).
    Publishers and receivers under interleaving: what each accepted or arrived message becomes,
    in which order, and that nothing panics where the code excludes it (DirectPublisher,
    PersistentPublisher, DirectReceiverSafety, PersistentReceiverSafety); requests are answered once and
    replies reach them (RequestReplyPublisher, RequestReplyReceiver); the flow of a persistent receiver
    follows the marks of its buffer (PersistentReceiverRuns); the sections of the lifecycle are entered
    once (Lifecycle).  Queues: order, bounds and termination (Executor, TaskBuffer).  The
    services of core: callbacks reach whom they are for, each request is answered once, acknowledgements
    and replies reach the one that waits for them, the services are started and ended together and
    their termination leaves nothing registered and nobody waiting (Callbacks, Events, CorePublisher,
    Correlation, CoreReceiver, Transport, CoreCache, ReceiverCache).  The service and the provisioner: one
    connection and one end, answers that are those of the library (MessagingService,
    EndpointProvisionerRuns).  Data and configuration: the conversions between number types and strings
    accept exactly what fits (Sdt), properties are checked before anything is built and become the
    properties the C library is given (Validation, NestedMaps, ServiceBuilder, EndpointProvisioner,
    PersistentReceiverBuilder).  Some theorems show a behaviour that the code does not mean to have; the
    manifest lists these as findings.

    * Not modelled

    What the C library itself does, and the wrappers of internal/ccsmp that only pass a call on to it
    through cgo: their answers are arguments.  The text of errors built with formats, logging and the
    dump of a message: output only.  The JSON of encoding/json around the nested maps of
    properties.  Replication group message identifiers: each operation is one call of the
    library.  Generated constants but for those the code uses, generators, the initialisation of the
    library, tests.  The interfaces of pkg/solace: declarations only.  The freeing of Go objects by
    finalizers.  Time: a timer may fire at any moment.  The memory model of Go beyond the order of
    atomic actions. *)

From Stdlib Require Import ZArith Lia.
From stdpp Require Import base list gmap strings.

(** * Results

    A Go function returning [(T, error)] is modelled by [res E T]: [Ok v] when the
    error is nil, [Err e] otherwise.  Every such function modelled here returns the
    zero value of [T] next to a non-nil error, so the sum loses nothing. *)

Inductive res (E A : Type) : Type :=
| Ok (a : A)
| Err (e : E).
Arguments Ok {E A} a.
Arguments Err {E A} e.

Definition res_bind {E A B} (r : res E A) (f : A → res E B) : res E B :=
  match r with
  | Ok a => f a
  | Err e => Err e
  end.

Definition is_ok {E A} (r : res E A) : bool :=
  match r with Ok _ => true | Err _ => false end.

Declare Scope go_scope.
Delimit Scope go_scope with go.
Notation "'let?' x ':=' r 'in' k" := (res_bind r (fun x => k))
  (at level 200, x pattern, r at level 100, k at level 200) : go_scope.
#[global] Open Scope go_scope.

Lemma res_bind_ok {E A B} (r : res E A) (f : A → res E B) b :
  res_bind r f = Ok b ↔ ∃ a, r = Ok a ∧ f a = Ok b.
Proof. destruct r; simpl; naive_solver. Qed.

(** * Strings *)

Lemma string_app_cons c s t : String c s +:+ t = String c (s +:+ t).
Proof. done. Qed.

Lemma string_app_assoc s t u : (s +:+ t) +:+ u = s +:+ (t +:+ u).
Proof. induction s as [|c s IH]; [done|]. by rewrite !string_app_cons, IH. Qed.

Lemma string_length_app s t :
  String.length (s +:+ t) = (String.length s + String.length t)%nat.
Proof. induction s as [|c s IH]; [done|]. rewrite string_app_cons. simpl. by rewrite IH. Qed.

(** All of a string but what follows its first part. *)
Lemma substring_app s t : String.substring 0 (String.length s) (s +:+ t) = s.
Proof.
  induction s as [|c s IH]; [by destruct t|]. rewrite string_app_cons. simpl. by rewrite IH.
Qed.

(** * Lists of names and values, as the C library takes them *)

(** The value that a list of names and values gives to a name: the last one. *)
Fixpoint effective (l : list string) (c : string) : option string :=
  match l with
  | name :: v :: l =>
      match effective l c with
      | Some v' => Some v'
      | None => if decide (name = c) then Some v else None
      end
  | _ => None
  end.

Definition flat_pairs (ps : list (string * string)) : list string :=
  flat_map (λ p, [p.1; p.2]) ps.

Lemma flat_pairs_app ps1 ps2 : flat_pairs (ps1 ++ ps2) = flat_pairs ps1 ++ flat_pairs ps2.
Proof. apply flat_map_app. Qed.

Lemma effective_app ps1 ps2 c :
  effective (flat_pairs ps1 ++ flat_pairs ps2) c =
  match effective (flat_pairs ps2) c with Some v => Some v | None => effective (flat_pairs ps1) c end.
Proof.
  induction ps1 as [|[name v] ps1 IH]; simpl; [by destruct (effective _ c)|].
  fold (flat_pairs ps1). rewrite IH. by destruct (effective (flat_pairs ps2) c).
Qed.

Lemma effective_none ps c : c ∉ ps.*1 → effective (flat_pairs ps) c = None.
Proof.
  induction ps as [|[name v] ps IH]; simpl; [done|]. intros [Hc Hps]%not_elem_of_cons.
  fold (flat_pairs ps). by rewrite IH, decide_False.
Qed.

Lemma effective_unique ps c v : NoDup ps.*1 → (c, v) ∈ ps → effective (flat_pairs ps) c = Some v.
Proof.
  induction ps as [|[name v'] ps IH]; [by intros _ []%elem_of_nil|].
  rewrite fmap_cons. intros [Hn Hps]%NoDup_cons [Heq|Hin]%elem_of_cons; simpl; fold (flat_pairs ps).
  - injection Heq as <- <-. by rewrite effective_none, decide_True.
  - by rewrite IH.
Qed.
