(* ===== verification/GoStrconv.v ===== *)
(** Machine integers and the part of Go's [strconv], [fmt] and [strings] packages
    that the client uses: fixed-width integers with their wrap-around, [ParseUint]
    and [ParseInt] (bases 10 and 16), decimal and hexadecimal formatting and
    [strings.Split].  Go strings are byte sequences, as is [string] here. *)

From Stdlib Require Import ZArith Lia Ascii.
From stdpp Require Import base list gmap strings.
From S2P Require Import Prelude.

#[local] Open Scope Z_scope.

(** * Fixed-width integers *)

(** Conversion to an unsigned integer type of [w] bits. *)
Definition wrapU (w z : Z) : Z := z mod 2 ^ w.

(** Conversion to a signed (two's complement) integer type of [w] bits. *)
Definition wrapS (w z : Z) : Z := (z + 2 ^ (w - 1)) mod 2 ^ w - 2 ^ (w - 1).

Definition inU (w z : Z) : Prop := 0 ≤ z < 2 ^ w.
Definition inS (w z : Z) : Prop := - 2 ^ (w - 1) ≤ z < 2 ^ (w - 1).

#[export] Instance inU_dec w z : Decision (inU w z).
Proof. unfold inU. apply _. Defined.
#[export] Instance inS_dec w z : Decision (inS w z).
Proof. unfold inS. apply _. Defined.

Lemma pow2_pos w : 0 ≤ w → 0 < 2 ^ w.
Proof. intros. apply Z.pow_pos_nonneg; lia. Qed.

Lemma pow2_half w : 0 < w → 2 ^ w = 2 * 2 ^ (w - 1).
Proof. intros. rewrite <-Z.pow_succ_r by lia. f_equal. lia. Qed.

Lemma wrapU_id w z : inU w z → wrapU w z = z.
Proof. intros H. apply Z.mod_small. exact H. Qed.

Lemma wrapU_range w z : 0 ≤ w → inU w (wrapU w z).
Proof. intros. apply Z.mod_pos_bound, pow2_pos; lia. Qed.

Lemma wrapS_id w z : 0 < w → inS w z → wrapS w z = z.
Proof.
  intros Hw [H1 H2]. pose proof (pow2_half w Hw).
  unfold wrapS. rewrite Z.mod_small; lia.
Qed.

Lemma wrapS_range w z : 0 < w → inS w (wrapS w z).
Proof.
  intros Hw. pose proof (pow2_half w Hw). pose proof (pow2_pos w ltac:(lia)).
  unfold wrapS, inS. pose proof (Z.mod_pos_bound (z + 2 ^ (w - 1)) (2 ^ w)). lia.
Qed.

Lemma inU_mono w w' z : 0 ≤ w → w ≤ w' → inU w z → inU w' z.
Proof.
  intros ?? [??]. pose proof (Z.pow_le_mono_r 2 w w' ltac:(lia) ltac:(lia)).
  split; lia.
Qed.

#[export] Hint Resolve wrapU_id wrapS_id wrapU_range wrapS_range : go_int.

(** * Digits *)

Definition code (c : Ascii.ascii) : Z := Z.of_N (Ascii.N_of_ascii c).

(** The digit value of a byte: decimal digits, then letters of either case (the
    source lowers a byte by or-ing 0x20 into it). *)
Definition digit_of (c : Ascii.ascii) : option Z :=
  let z := code c in
  let l := Z.lor z 32 in
  if (48 <=? z) && (z <=? 57) then Some (z - 48)
  else if (97 <=? l) && (l <=? 122) then Some (l - 97 + 10)
  else None.

(** The upper-case digit that [%X] and decimal formatting print. *)
Definition digit_char (d : Z) : Ascii.ascii :=
  Ascii.ascii_of_N (Z.to_N (if d <? 10 then 48 + d else 55 + d)).

Lemma digit_of_char d : 0 ≤ d < 36 → digit_of (digit_char d) = Some d.
Proof.
  intros H.
  assert (∃ n, (n < 36)%nat ∧ d = Z.of_nat n) as (n & Hn & ->).
  { exists (Z.to_nat d). lia. }
  do 36 (destruct n as [|n]; [reflexivity|]). lia.
Qed.

Lemma digit_of_nonneg c d : digit_of c = Some d → 0 ≤ d.
Proof.
  unfold digit_of. intros H. repeat case_match; simplify_eq;
  rewrite ?andb_true_iff, ?Z.leb_le in *; lia.
Qed.

(** * strconv.ParseUint and strconv.ParseInt *)

Inductive num_err_kind : Type := ErrSyntax | ErrRange.

(** [strconv.NumError]: the failing function, its input and the cause. *)
Record num_error : Type := NumError {
  ne_func : string;
  ne_num : string;
  ne_err : num_err_kind;
}.

#[export] Instance num_err_kind_eq_dec : EqDecision num_err_kind.
Proof. solve_decision. Defined.
#[export] Instance num_error_eq_dec : EqDecision num_error.
Proof. solve_decision. Defined.

Definition maxUint64 : Z := 2 ^ 64 - 1.

(** The digit loop of [ParseUint], from accumulator [n]: the accumulator is a
    uint64, so both the product and the sum wrap around. *)
Fixpoint parse_digits (base maxVal n : Z) (s : string) : Z * option num_err_kind :=
  match s with
  | EmptyString => (n, None)
  | String c s' =>
      match digit_of c with
      | None => (0, Some ErrSyntax)
      | Some d =>
          if base <=? d then (0, Some ErrSyntax)
          else if maxUint64 / base + 1 <=? n then (maxVal, Some ErrRange)
          else
            let n := wrapU 64 (n * base) in
            let n1 := wrapU 64 (n + d) in
            if (n1 <? n) || (maxVal <? n1) then (maxVal, Some ErrRange)
            else parse_digits base maxVal n1 s'
      end
  end.

(** [strconv.ParseUint(s, base, bits)] for an explicit base (2 to 36) and a bit
    size between 1 and 64: the value and a nil-able error. *)
Definition ParseUint (s : string) (base bits : Z) : Z * option num_error :=
  match s with
  | EmptyString => (0, Some (NumError "ParseUint" s ErrSyntax))
  | _ =>
      let '(n, e) := parse_digits base (2 ^ bits - 1) 0 s in
      (n, NumError "ParseUint" s <$> e)
  end.

(** [strconv.ParseInt(s, base, bits)]. *)
Definition ParseInt (s : string) (base bits : Z) : Z * option num_error :=
  match s with
  | EmptyString => (0, Some (NumError "ParseInt" s ErrSyntax))
  | String c s' =>
      let '(neg, body) :=
        if Ascii.eqb c "+"%char then (false, s')
        else if Ascii.eqb c "-"%char then (true, s') else (false, s) in
      let '(un, err) := ParseUint body base bits in
      match err with
      | Some (NumError _ _ ErrSyntax) => (0, Some (NumError "ParseInt" s ErrSyntax))
      | _ =>
          let cutoff := 2 ^ (bits - 1) in
          if negb neg && (cutoff <=? un)
          then (cutoff - 1, Some (NumError "ParseInt" s ErrRange))
          else if neg && (cutoff <? un)
          then (- cutoff, Some (NumError "ParseInt" s ErrRange))
          else ((if neg then - un else un), None)
      end
  end.

(** * Formatting *)

(** Digits of [n] in [base], most significant first, in front of [acc]. *)
Fixpoint format_digits (fuel : nat) (base n : Z) (acc : string) : string :=
  match fuel with
  | O => acc
  | S fuel =>
      if n <? base then String (digit_char n) acc
      else format_digits fuel base (n / base) (String (digit_char (n mod base)) acc)
  end.

(** [strconv.FormatUint(n, base)] with upper-case digits.  One digit per bit is
    fuel enough for every base from 2 on. *)
Definition format_uint (base n : Z) : string :=
  format_digits (S (Z.to_nat (Z.log2 n))) base n EmptyString.

(** [fmt.Sprint] of an integer. *)
Definition sprint_int (z : Z) : string :=
  if z <? 0 then String "-" (format_uint 10 (- z)) else format_uint 10 z.

(** Left padding with ['0'] to a width, as the [0] flag of a format verb does. *)
Definition pad0 (width : nat) (s : string) : string :=
  (String.string_of_list_ascii (replicate (width - String.length s) "0"%char) +:+ s).

(** [fmt.Sprintf("%016X", n)] of a uint64. *)
Definition sprintf_016X (n : Z) : string := pad0 16 (format_uint 16 n).

(** * Reference value of a digit string *)

Fixpoint digits_value (base n : Z) (s : string) : option Z :=
  match s with
  | EmptyString => Some n
  | String c s' =>
      match digit_of c with
      | Some d => if base <=? d then None else digits_value base (n * base + d) s'
      | None => None
      end
  end.

(** * Parsing refines the reference value *)

Section parse.
Context (base maxVal : Z) (Hbase : 2 ≤ base ≤ 36) (Hmax : 0 ≤ maxVal ≤ maxUint64).

(** One step of the loop, with the wrap-around resolved. *)
Lemma parse_digits_cons n c s :
  0 ≤ n ≤ maxVal →
  parse_digits base maxVal n (String c s) =
    match digit_of c with
    | None => (0, Some ErrSyntax)
    | Some d =>
        if base <=? d then (0, Some ErrSyntax)
        else if maxVal <? n * base + d then (maxVal, Some ErrRange)
        else parse_digits base maxVal (n * base + d) s
    end.
Proof.
  intros Hn. simpl. destruct (digit_of c) as [d|] eqn:Hd; [|done].
  apply digit_of_nonneg in Hd.
  destruct (base <=? d) eqn:Hb; [done|]. apply Z.leb_gt in Hb.
  pose proof (Z.div_mod maxUint64 base ltac:(lia)) as Hdm.
  pose proof (Z.mod_pos_bound maxUint64 base ltac:(lia)) as Hmb.
  unfold maxUint64 in *. set (q := (2 ^ 64 - 1) / base) in *.
  set (m := (2 ^ 64 - 1) mod base) in *. clearbody q m.
  change (2 ^ 64) with 18446744073709551616 in *.
  destruct (q + 1 <=? n) eqn:Hc.
  - apply Z.leb_le in Hc.
    assert (base * (q + 1) ≤ n * base) by nia.
    assert (maxVal < n * base + d) as ->%Z.ltb_lt by lia. done.
  - apply Z.leb_gt in Hc. assert (0 ≤ n * base ≤ base * q) by nia.
    rewrite (wrapU_id 64 (n * base)) by (unfold inU; lia).
    destruct (decide (n * base + d < 18446744073709551616)).
    + rewrite (wrapU_id 64 (n * base + d)) by (unfold inU; lia).
      assert ((n * base + d <? n * base) = false) as -> by lia. done.
    + assert (wrapU 64 (n * base + d) = n * base + d - 18446744073709551616) as ->.
      { unfold wrapU. change (2 ^ 64) with 18446744073709551616.
        symmetry. apply Z.mod_unique with 1; lia. }
      assert ((n * base + d - 18446744073709551616 <? n * base) = true) as -> by lia.
      assert (maxVal < n * base + d) as ->%Z.ltb_lt by lia. done.
Qed.

Lemma digits_value_ge n s v :
  0 ≤ n → digits_value base n s = Some v → n ≤ v.
Proof.
  revert n. induction s as [|c s IH]; simpl; intros n Hn Hv; [naive_solver lia|].
  destruct (digit_of c) as [d|] eqn:Hd; [|done]. apply digit_of_nonneg in Hd.
  destruct (base <=? d); [done|]. apply IH in Hv; nia.
Qed.

(** The loop succeeds exactly on the digit strings whose value fits. *)
Lemma parse_digits_ok n s v :
  0 ≤ n ≤ maxVal →
  parse_digits base maxVal n s = (v, None) ↔
  digits_value base n s = Some v ∧ v ≤ maxVal.
Proof.
  revert n. induction s as [|c s IH]; intros n Hn; [naive_solver lia|].
  rewrite parse_digits_cons by done. simpl.
  destruct (digit_of c) as [d|] eqn:Hd; [|naive_solver].
  apply digit_of_nonneg in Hd.
  destruct (base <=? d); [naive_solver|].
  destruct (maxVal <? n * base + d) eqn:Hm.
  - apply Z.ltb_lt in Hm. split; [done|]. intros [Hv ?].
    apply digits_value_ge in Hv; [lia|nia].
  - apply Z.ltb_ge in Hm. apply IH. nia.
Qed.

(** A digit string whose value does not fit is a range error, whatever follows the
    digit that overflows. *)
Lemma parse_digits_range n s v :
  0 ≤ n ≤ maxVal →
  digits_value base n s = Some v → maxVal < v →
  parse_digits base maxVal n s = (maxVal, Some ErrRange).
Proof.
  revert n. induction s as [|c s IH]; intros n Hn; [naive_solver lia|].
  rewrite parse_digits_cons by done. simpl.
  destruct (digit_of c) as [d|] eqn:Hd; [|naive_solver].
  apply digit_of_nonneg in Hd.
  destruct (base <=? d); [naive_solver|].
  destruct (maxVal <? n * base + d) eqn:Hm; [done|].
  apply Z.ltb_ge in Hm. apply IH. nia.
Qed.

Lemma parse_digits_range_value n s v :
  0 ≤ n ≤ maxVal → parse_digits base maxVal n s = (v, Some ErrRange) → v = maxVal.
Proof using Hbase Hmax.
  revert n. induction s as [|c s IH]; intros n Hn; [done|].
  rewrite parse_digits_cons by done.
  destruct (digit_of c) as [d|] eqn:Hd; [|done].
  apply digit_of_nonneg in Hd.
  destruct (base <=? d); [done|].
  destruct (maxVal <? n * base + d) eqn:Hm; [naive_solver|].
  apply Z.ltb_ge in Hm. apply IH. nia.
Qed.

(** The value next to a range error is [maxVal], next to a syntax error zero. *)
Lemma parse_digits_bound n s v e :
  0 ≤ n ≤ maxVal → parse_digits base maxVal n s = (v, e) → 0 ≤ v ≤ maxVal.
Proof.
  revert n. induction s as [|c s IH]; intros n Hn; [naive_solver lia|].
  rewrite parse_digits_cons by done.
  destruct (digit_of c) as [d|] eqn:Hd; [|naive_solver lia].
  apply digit_of_nonneg in Hd.
  destruct (base <=? d); [naive_solver lia|].
  destruct (maxVal <? n * base + d) eqn:Hm; [naive_solver lia|].
  apply Z.ltb_ge in Hm. apply IH. nia.
Qed.
End parse.

(** * Formatting is read back *)

Lemma format_digits_value fuel base n acc :
  2 ≤ base ≤ 36 → 0 ≤ n < 2 ^ Z.of_nat fuel →
  digits_value base 0 (format_digits fuel base n acc) = digits_value base n acc.
Proof.
  intros Hb. revert n acc. induction fuel as [|f IH]; intros n acc Hn.
  { simpl in *. assert (n = 0) as -> by lia. done. }
  rewrite Nat2Z.inj_succ, Z.pow_succ_r in Hn by lia.
  simpl. destruct (n <? base) eqn:Hlt.
  - apply Z.ltb_lt in Hlt. cbn [digits_value]. rewrite digit_of_char by lia.
    assert ((base <=? n) = false) as -> by lia. f_equal; lia.
  - apply Z.ltb_ge in Hlt.
    pose proof (Z.div_mod n base ltac:(lia)).
    pose proof (Z.mod_pos_bound n base ltac:(lia)).
    rewrite IH by (split; [apply Z.div_pos; lia | apply Z.div_lt_upper_bound; nia]).
    cbn [digits_value]. rewrite digit_of_char by lia.
    assert ((base <=? n mod base) = false) as -> by lia. f_equal; lia.
Qed.

Lemma log2_fuel n : 0 ≤ n → n < 2 ^ Z.of_nat (S (Z.to_nat (Z.log2 n))).
Proof.
  intros. rewrite Nat2Z.inj_succ, Z2Nat.id by apply Z.log2_nonneg.
  destruct (decide (n = 0)) as [->|]; [simpl; lia|].
  apply Z.log2_spec. lia.
Qed.

Lemma format_uint_value base n :
  2 ≤ base ≤ 36 → 0 ≤ n → digits_value base 0 (format_uint base n) = Some n.
Proof.
  intros. unfold format_uint. rewrite format_digits_value; [done|done|].
  pose proof (log2_fuel n). lia.
Qed.

Lemma format_digits_nonempty fuel base n acc :
  acc ≠ EmptyString → format_digits fuel base n acc ≠ EmptyString.
Proof.
  revert n acc. induction fuel as [|f IH]; intros; simpl; [done|].
  case_match; [done|]. by apply IH.
Qed.

Lemma format_uint_nonempty base n : format_uint base n ≠ EmptyString.
Proof.
  unfold format_uint. simpl. case_match; [done|]. by apply format_digits_nonempty.
Qed.

(** * Specifications of ParseUint and ParseInt *)

Lemma pow2_bits_max bits : 1 ≤ bits ≤ 64 → 0 ≤ 2 ^ bits - 1 ≤ maxUint64.
Proof.
  intros. unfold maxUint64.
  pose proof (Z.pow_le_mono_r 2 bits 64 ltac:(lia) ltac:(lia)).
  pose proof (pow2_pos bits ltac:(lia)). lia.
Qed.

Section parse_spec.
Context (base bits : Z) (Hbase : 2 ≤ base ≤ 36) (Hbits : 1 ≤ bits ≤ 64).

Lemma ParseUint_unfold s :
  s ≠ EmptyString →
  ParseUint s base bits =
    (let '(n, e) := parse_digits base (2 ^ bits - 1) 0 s in
     (n, NumError "ParseUint" s <$> e)).
Proof. by destruct s. Qed.

Lemma ParseUint_ok s v :
  ParseUint s base bits = (v, None) ↔
  s ≠ EmptyString ∧ digits_value base 0 s = Some v ∧ v < 2 ^ bits.
Proof.
  destruct (decide (s = EmptyString)) as [->|Hs]; [simpl; naive_solver|].
  rewrite ParseUint_unfold by done.
  pose proof (pow2_bits_max bits Hbits) as Hmax.
  pose proof (parse_digits_ok base (2 ^ bits - 1) Hbase Hmax 0 s v ltac:(lia)) as Hok.
  destruct (parse_digits base (2 ^ bits - 1) 0 s) as [n [e|]]; simpl.
  - split; [done|]. intros (_ & Hv & Hlt). assert (v ≤ 2 ^ bits - 1) as H by lia. by apply proj2 in Hok; specialize (Hok (conj Hv H)).
  - split.
    + intros [= ->]. destruct (proj1 Hok eq_refl). naive_solver lia.
    + intros (_ & Hv & Hlt). assert (v ≤ 2 ^ bits - 1) as H by lia. apply proj2 in Hok.
      by injection (Hok (conj Hv H)) as ->.
Qed.

Lemma ParseUint_range s v :
  s ≠ EmptyString → digits_value base 0 s = Some v → 2 ^ bits ≤ v →
  ParseUint s base bits = (2 ^ bits - 1, Some (NumError "ParseUint" s ErrRange)).
Proof.
  intros Hs Hv Hr. rewrite ParseUint_unfold by done.
  pose proof (pow2_bits_max bits Hbits) as Hmax.
  by rewrite (parse_digits_range base (2 ^ bits - 1) Hbase Hmax 0 s v) by (done || lia).
Qed.

Lemma ParseUint_bound s v e : ParseUint s base bits = (v, e) → inU bits v.
Proof.
  pose proof (pow2_bits_max bits Hbits) as Hmax. unfold inU.
  destruct (decide (s = EmptyString)) as [->|Hs]; [simpl; naive_solver lia|].
  rewrite ParseUint_unfold by done.
  destruct (parse_digits base (2 ^ bits - 1) 0 s) as [n e'] eqn:Hp.
  intros [= <- _].
  pose proof (parse_digits_bound base _ Hbase Hmax 0 s n e' ltac:(lia) Hp). lia.
Qed.

Lemma ParseInt_bound s v : ParseInt s base bits = (v, None) → inS bits v.
Proof.
  pose proof (pow2_pos (bits - 1) ltac:(lia)) as Hp.
  unfold ParseInt, inS. destruct s as [|c s']; [done|].
  destruct (if Ascii.eqb c _ then _ else _) as [neg body].
  destruct (ParseUint body base bits) as [un err] eqn:Hu.
  apply ParseUint_bound in Hu as [Hu _].
  destruct err as [[f nm []]|]; [done|..]; destruct neg; simpl;
    repeat case_match; intros; simplify_eq;
    rewrite ?Z.leb_gt, ?Z.ltb_ge in *; lia.
Qed.
End parse_spec.

(** The value of an optionally signed digit string. *)
Definition unsigned_value (base : Z) (s : string) : option Z :=
  match s with EmptyString => None | _ => digits_value base 0 s end.

Definition signed_value (base : Z) (s : string) : option Z :=
  match s with
  | EmptyString => None
  | String c s' =>
      if Ascii.eqb c "+"%char then unsigned_value base s'
      else if Ascii.eqb c "-"%char then Z.opp <$> unsigned_value base s'
      else unsigned_value base s
  end.

Lemma unsigned_value_Some base s v :
  unsigned_value base s = Some v ↔ s ≠ EmptyString ∧ digits_value base 0 s = Some v.
Proof. destruct s; simpl; naive_solver. Qed.

(** The three outcomes of [ParseUint], by the reference value. *)
Lemma ParseUint_cases base bits s :
  2 ≤ base ≤ 36 → 1 ≤ bits ≤ 64 →
  match ParseUint s base bits with
  | (v, None) => unsigned_value base s = Some v ∧ inU bits v
  | (_, Some (NumError _ _ ErrSyntax)) => unsigned_value base s = None
  | (v, Some (NumError _ _ ErrRange)) =>
      v = 2 ^ bits - 1 ∧ ∀ v', unsigned_value base s = Some v' → 2 ^ bits ≤ v'
  end.
Proof.
  intros Hbase Hbits. pose proof (pow2_bits_max bits Hbits) as Hmax.
  destruct (ParseUint s base bits) as [v [[f nm k]|]] eqn:Hp.
  - destruct (unsigned_value base s) as [v'|] eqn:Hv.
    + apply unsigned_value_Some in Hv as [Hs Hv].
      destruct (decide (v' < 2 ^ bits)) as [Hlt|Hge].
      { assert (ParseUint s base bits = (v', None)) by (apply ParseUint_ok; done). congruence. }
      rewrite (ParseUint_range base bits Hbase Hbits s v') in Hp by (done || lia).
      simplify_eq. split; [done|]. intros. simplify_eq. lia.
    + destruct k; [done|]. split; [|done].
      destruct s as [|c s]; [by simplify_eq|].
      rewrite ParseUint_unfold in Hp by done.
      destruct (parse_digits _ _ _ _) as [n [e|]] eqn:Hd; simpl in Hp; simplify_eq.
      by apply (parse_digits_range_value base _ Hbase Hmax 0 (String c s) v ltac:(lia)).
  - pose proof (ParseUint_bound base bits Hbase Hbits s v None Hp).
    apply ParseUint_ok in Hp as (? & ? & ?); [|done..].
    by rewrite unsigned_value_Some.
Qed.

(** [ParseInt] succeeds exactly on the signed digit strings whose value fits. *)
Lemma ParseInt_ok base bits s v :
  2 ≤ base ≤ 36 → 2 ≤ bits ≤ 64 →
  ParseInt s base bits = (v, None) ↔ signed_value base s = Some v ∧ inS bits v.
Proof.
  intros Hbase Hbits. pose proof (pow2_half bits ltac:(lia)) as Hhalf.
  pose proof (Z.pow_le_mono_r 2 1 (bits - 1) ltac:(lia) ltac:(lia)) as Hpos.
  destruct s as [|c s]; [simpl; naive_solver|]. unfold ParseInt, signed_value.
  set (neg := Ascii.eqb c "-"%char && negb (Ascii.eqb c "+"%char)).
  set (body := if Ascii.eqb c "+"%char || Ascii.eqb c "-"%char then s else String c s).
  assert ((if Ascii.eqb c "+"%char then (false, s)
           else if Ascii.eqb c "-"%char then (true, s) else (false, String c s)) =
          (neg, body)) as ->.
  { unfold neg, body. destruct (Ascii.eqb c "+"%char), (Ascii.eqb c "-"%char); done. }
  assert ((if Ascii.eqb c "+"%char then unsigned_value base s
           else if Ascii.eqb c "-"%char then Z.opp <$> unsigned_value base s
           else unsigned_value base (String c s)) =
          (if neg then Z.opp else id) <$> unsigned_value base body) as ->.
  { unfold neg, body. destruct (Ascii.eqb c "+"%char), (Ascii.eqb c "-"%char); simpl;
      by rewrite ?option_fmap_id. }
  clearbody neg body.
  pose proof (ParseUint_cases base bits body Hbase ltac:(lia)) as Hu.
  destruct (ParseUint body base bits) as [un [[f nm []]|]].
  - rewrite Hu. simpl. split; [done|intros [? _]; done].
  - destruct Hu as [-> Hu]. split.
    + destruct neg; simpl; case_match eqn:Hc; try done;
        rewrite ?Z.leb_gt, ?Z.ltb_ge in Hc; lia.
    + intros [Hv [??]]. apply fmap_Some in Hv as (v' & Hv' & ->).
      apply Hu in Hv'. destruct neg; simpl in *; lia.
  - destruct Hu as [Hu [??]]. rewrite Hu. unfold inS. simpl.
    destruct neg; simpl; case_match eqn:Hc; rewrite ?Z.leb_le, ?Z.leb_gt, ?Z.ltb_lt, ?Z.ltb_ge in Hc;
      split; intros; destruct_and?; simplify_eq/=; try done; try lia; split; done || lia.
Qed.

(** The first byte of a formatted number is a digit, never a sign. *)
Lemma digit_char_not_sign d :
  0 ≤ d < 36 → Ascii.eqb (digit_char d) "+"%char = false ∧
               Ascii.eqb (digit_char d) "-"%char = false.
Proof.
  intros H.
  assert (∃ n, (n < 36)%nat ∧ d = Z.of_nat n) as (n & Hn & ->).
  { exists (Z.to_nat d). lia. }
  do 36 (destruct n as [|n]; [split; reflexivity|]). lia.
Qed.

Definition starts_with_digit (s : string) : Prop :=
  ∃ d s', s = String (digit_char d) s' ∧ 0 ≤ d < 36.

Lemma format_digits_starts fuel base n acc :
  2 ≤ base ≤ 36 → 0 ≤ n → starts_with_digit acc ∨ fuel ≠ O →
  starts_with_digit (format_digits fuel base n acc).
Proof.
  intros Hb. revert n acc. induction fuel as [|f IH]; intros n acc Hn Ha; simpl.
  { by destruct Ha. }
  destruct (n <? base) eqn:Hlt.
  - apply Z.ltb_lt in Hlt. exists n, acc. split; [done|lia].
  - apply IH; [by apply Z.div_pos; lia|]. left.
    eexists _, _. split; [done|]. pose proof (Z.mod_pos_bound n base). lia.
Qed.

Lemma format_uint_starts base n :
  2 ≤ base ≤ 36 → 0 ≤ n → starts_with_digit (format_uint base n).
Proof. intros. apply format_digits_starts; [done|done|by right]. Qed.

(** Reading an unsigned number with [ParseInt]. *)
Lemma ParseInt_digit s base bits :
  starts_with_digit s →
  ParseInt s base bits =
    (let '(un, err) := ParseUint s base bits in
     match err with
     | Some (NumError _ _ ErrSyntax) => (0, Some (NumError "ParseInt" s ErrSyntax))
     | _ => if 2 ^ (bits - 1) <=? un
            then (2 ^ (bits - 1) - 1, Some (NumError "ParseInt" s ErrRange))
            else (un, None)
     end).
Proof.
  intros (d & s' & -> & Hd). destruct (digit_char_not_sign d Hd) as [Hp Hm].
  unfold ParseInt. rewrite Hp, Hm.
  destruct (ParseUint _ _ _) as [un [[f nm []]|]]; simpl; done.
Qed.

Lemma ParseInt_minus s base bits :
  ParseInt (String "-" s) base bits =
    (let '(un, err) := ParseUint s base bits in
     match err with
     | Some (NumError _ _ ErrSyntax) =>
         (0, Some (NumError "ParseInt" (String "-" s) ErrSyntax))
     | _ => if 2 ^ (bits - 1) <? un
            then (- 2 ^ (bits - 1), Some (NumError "ParseInt" (String "-" s) ErrRange))
            else (- un, None)
     end).
Proof.
  unfold ParseInt. change (Ascii.eqb "-" "+"%char) with false.
  change (Ascii.eqb "-" "-"%char) with true. cbv iota.
  destruct (ParseUint _ _ _) as [un [[f nm []]|]]; simpl; done.
Qed.

(** Parsing a formatted integer: the value when it fits, a range error otherwise. *)
Lemma ParseInt_sprint bits z :
  2 ≤ bits ≤ 64 →
  ParseInt (sprint_int z) 10 bits =
    if decide (inS bits z) then (z, None)
    else ((if z <? 0 then - 2 ^ (bits - 1) else 2 ^ (bits - 1) - 1),
          Some (NumError "ParseInt" (sprint_int z) ErrRange)).
Proof.
  intros Hb. pose proof (pow2_half bits ltac:(lia)) as Hhalf.
  pose proof (Z.pow_le_mono_r 2 1 (bits - 1) ltac:(lia) ltac:(lia)) as Hpos.
  set (m := Z.abs z). pose proof (format_uint_value 10 m ltac:(lia) ltac:(lia)) as Hv.
  pose proof (format_uint_nonempty 10 m) as Hne.
  assert (ParseUint (format_uint 10 m) 10 bits =
    if m <? 2 ^ bits then (m, None)
    else (2 ^ bits - 1, Some (NumError "ParseUint" (format_uint 10 m) ErrRange))) as Hu.
  { destruct (m <? 2 ^ bits) eqn:Hm.
    - apply ParseUint_ok; naive_solver lia.
    - apply ParseUint_range with m; naive_solver lia. }
  unfold sprint_int. destruct (z <? 0) eqn:Hz.
  - assert (- z = m) as -> by lia. rewrite ParseInt_minus, Hu.
    destruct (m <? 2 ^ bits) eqn:Hm; destruct (decide (inS bits z)) as [Hi|Hi];
      unfold inS in Hi; case_match; f_equal; lia.
  - assert (m = z) as Hmz by lia. clearbody m. subst m.
    rewrite ParseInt_digit, Hu by (apply format_uint_starts; lia).
    destruct (z <? 2 ^ bits) eqn:Hm; destruct (decide (inS bits z)) as [Hi|Hi];
      unfold inS in Hi; case_match; f_equal; lia.
Qed.

Lemma ParseUint_sprint bits z :
  1 ≤ bits ≤ 64 →
  ParseUint (sprint_int z) 10 bits =
    if z <? 0 then (0, Some (NumError "ParseUint" (sprint_int z) ErrSyntax))
    else if z <? 2 ^ bits then (z, None)
    else (2 ^ bits - 1, Some (NumError "ParseUint" (sprint_int z) ErrRange)).
Proof.
  intros Hb. unfold sprint_int. destruct (z <? 0) eqn:Hz; [done|].
  pose proof (format_uint_value 10 z ltac:(lia) ltac:(lia)) as Hv.
  pose proof (format_uint_nonempty 10 z) as Hne.
  destruct (z <? 2 ^ bits) eqn:Hm.
  - apply ParseUint_ok; naive_solver lia.
  - apply ParseUint_range with z; naive_solver lia.
Qed.

(** * strings.Split *)

(** [strings.Split(s, sep)] for a one-byte separator: never empty. *)
Fixpoint split (sep : Ascii.ascii) (s : string) : list string :=
  match s with
  | EmptyString => [EmptyString]
  | String c s' =>
      if Ascii.eqb c sep then EmptyString :: split sep s'
      else match split sep s' with
           | x :: xs => String c x :: xs
           | [] => [String c EmptyString]
           end
  end.

Fixpoint has_char (sep : Ascii.ascii) (s : string) : bool :=
  match s with
  | EmptyString => false
  | String c s' => Ascii.eqb c sep || has_char sep s'
  end.

Lemma split_nonempty sep s : split sep s ≠ [].
Proof. destruct s; simpl; repeat case_match; done. Qed.

Lemma split_no_sep sep s : has_char sep s = false → split sep s = [s].
Proof.
  induction s as [|c s IH]; simpl; [done|].
  intros [-> Hs]%orb_false_iff. by rewrite IH.
Qed.

(** The parts of a string are the parts before a separator, then those after it. *)
Lemma split_app_sep sep p s :
  ∃ l, l ≠ [] ∧ split sep (p +:+ String sep s) = l ++ split sep s.
Proof.
  induction p as [|c p (l & Hl & IH)].
  - exists [EmptyString]. split; [done|].
    change ("" +:+ String sep s) with (String sep s). simpl. by rewrite Ascii.eqb_refl.
  - change (String c p +:+ String sep s) with (String c (p +:+ String sep s)).
    destruct l as [|x l]; [done|]. simpl. rewrite IH. simpl.
    case_match; [exists (EmptyString :: x :: l) | exists (String c x :: l)]; done.
Qed.

Lemma split_last sep p s :
  has_char sep s = false → last (split sep (p +:+ String sep s)) = Some s.
Proof.
  intros Hs. destruct (split_app_sep sep p s) as (l & _ & ->).
  by rewrite split_no_sep, last_snoc.
Qed.

(** * Hexadecimal identifiers *)

Lemma has_char_digits fuel base n acc sep :
  2 ≤ base ≤ 36 → 0 ≤ n → (∀ d, 0 ≤ d < 36 → Ascii.eqb (digit_char d) sep = false) →
  has_char sep acc = false → has_char sep (format_digits fuel base n acc) = false.
Proof.
  intros Hb Hn Hsep. revert n acc Hn. induction fuel as [|f IH]; intros n acc Hn Ha; simpl; [done|].
  destruct (n <? base) eqn:Hlt; simpl.
  - rewrite Hsep by lia. done.
  - pose proof (Z.mod_pos_bound n base ltac:(lia)).
    apply IH; [by apply Z.div_pos; lia|]. simpl. rewrite Hsep by lia. done.
Qed.

Lemma slash_not_digit d : 0 ≤ d < 36 → Ascii.eqb (digit_char d) "/"%char = false.
Proof.
  intros H.
  assert (∃ n, (n < 36)%nat ∧ d = Z.of_nat n) as (n & Hn & ->).
  { exists (Z.to_nat d). lia. }
  do 36 (destruct n as [|n]; [reflexivity|]). lia.
Qed.

Lemma zeros_value base k s :
  2 ≤ base →
  digits_value base 0 (String.string_of_list_ascii (replicate k "0"%char) +:+ s) =
  digits_value base 0 s.
Proof.
  intros Hb. induction k as [|k IH]; [done|].
  change (digits_value base 0 (String "0" (String.string_of_list_ascii (replicate k "0"%char) +:+ s))
          = digits_value base 0 s).
  cbn [digits_value]. change (digit_of "0") with (Some 0). cbv beta iota.
  assert ((base <=? 0) = false) as -> by lia. exact IH.
Qed.

Lemma zeros_no_slash k s :
  has_char "/" (String.string_of_list_ascii (replicate k "0"%char) +:+ s) = has_char "/" s.
Proof. induction k as [|k IH]; [done|]. exact IH. Qed.

Lemma sprintf_016X_nonempty n : sprintf_016X n ≠ EmptyString.
Proof.
  unfold sprintf_016X, pad0. pose proof (format_uint_nonempty 16 n).
  by destruct (16 - _)%nat.
Qed.

(** A uint64 printed with [%016X] is read back by [ParseUint(_, 16, 64)]. *)
Lemma ParseUint_016X n :
  inU 64 n → ParseUint (sprintf_016X n) 16 64 = (n, None).
Proof.
  intros [??]. apply ParseUint_ok; [lia|lia|].
  split; [apply sprintf_016X_nonempty|]. split; [|lia].
  unfold sprintf_016X, pad0. rewrite zeros_value by lia.
  apply format_uint_value; lia.
Qed.

Lemma sprintf_016X_no_slash n : 0 ≤ n → has_char "/" (sprintf_016X n) = false.
Proof.
  intros. unfold sprintf_016X, pad0. rewrite zeros_no_slash. unfold format_uint.
  apply has_char_digits; [lia|done|apply slash_not_digit|done].
Qed.
