(* ===== verification/GoEffects.v ===== *)
(** Effects of Go code: run-time panics, operations that block, channels and locks.

    A function that runs on one goroutine over a state of type [S] is an element of
    [M S A]: it finishes with a value, panics, or reaches an operation that blocks in
    the state it has left.  Interleavings of several goroutines are step relations in
    the components that need them. *)

From Stdlib Require Import ZArith Lia.
From stdpp Require Import base list gmap strings.
From S2P Require Import Prelude.

(** * The state monad with panics and blocking *)

Inductive go_panic : Type :=
| SendOnClosedChannel
| CloseOfClosedChannel
| CloseOfNilChannel
| IndexOutOfRange
| NilDereference
| UnlockOfUnlocked.

#[export] Instance go_panic_eq_dec : EqDecision go_panic.
Proof. solve_decision. Defined.

Inductive outcome (S A : Type) : Type :=
| Done (a : A) (s : S)
| Panicked (p : go_panic) (s : S)
| Blocked (s : S).
Arguments Done {S A} a s.
Arguments Panicked {S A} p s.
Arguments Blocked {S A} s.

Definition M (S A : Type) : Type := S → outcome S A.

Definition ret {S A} (a : A) : M S A := λ s, Done a s.
Definition bind {S A B} (m : M S A) (f : A → M S B) : M S B :=
  λ s, match m s with
       | Done a s' => f a s'
       | Panicked p s' => Panicked p s'
       | Blocked s' => Blocked s'
       end.
Definition get {S} : M S S := λ s, Done s s.
Definition gets {S A} (f : S → A) : M S A := λ s, Done (f s) s.
Definition modify {S} (f : S → S) : M S unit := λ s, Done tt (f s).
Definition panic {S A} (p : go_panic) : M S A := λ s, Panicked p s.
Definition block {S A} : M S A := λ s, Blocked s.

Declare Scope eff_scope.
Delimit Scope eff_scope with eff.
Notation "'let*' x ':=' m 'in' k" := (bind m (fun x => k))
  (at level 200, x pattern, m at level 100, k at level 200) : eff_scope.
Notation "m ;;; k" := (bind m (fun _ => k))
  (at level 100, k at level 200, right associativity, only parsing) : eff_scope.
#[global] Open Scope eff_scope.

Definition when {S} (b : bool) (m : M S unit) : M S unit := if b then m else ret tt.

(** Running an operation of a component inside the state that contains it. *)
Definition zoom {S T A} (view : S → T) (put : T → S → S) (m : M T A) : M S A :=
  λ s, match m (view s) with
       | Done a t => Done a (put t s)
       | Panicked p t => Panicked p (put t s)
       | Blocked t => Blocked (put t s)
       end.

Definition final_state {S A} (o : outcome S A) : S :=
  match o with Done _ s | Panicked _ s | Blocked s => s end.

Definition result {S A} (o : outcome S A) : option A :=
  match o with Done a _ => Some a | _ => None end.

(** * Channels *)

Record chan (A : Type) : Type := mkChan {
  chan_cap : nat;
  chan_buf : list A;
  chan_closed : bool;
}.
Arguments mkChan {A} _ _ _.
Arguments chan_cap {A} _.
Arguments chan_buf {A} _.
Arguments chan_closed {A} _.

Definition make_chan {A} (cap : nat) : chan A := mkChan cap [] false.

(** [c <- v] where the channel is buffered; an unbuffered one blocks without a peer. *)
Definition chan_send {A} (v : A) : M (chan A) unit := λ c,
  if chan_closed c then Panicked SendOnClosedChannel c
  else if decide (length (chan_buf c) < chan_cap c)%nat
  then Done tt (mkChan (chan_cap c) (chan_buf c ++ [v]) (chan_closed c))
  else Blocked c.

(** [select { case c <- v: ... default: ... }]: whether the value was sent. *)
Definition chan_try_send {A} (v : A) : M (chan A) bool := λ c,
  if chan_closed c then Panicked SendOnClosedChannel c
  else if decide (length (chan_buf c) < chan_cap c)%nat
  then Done true (mkChan (chan_cap c) (chan_buf c ++ [v]) (chan_closed c))
  else Done false c.

(** [v, ok := <-c]: [None] is the zero value of a closed and empty channel. *)
Definition chan_recv {A} : M (chan A) (option A) := λ c,
  match chan_buf c with
  | x :: xs => Done (Some x) (mkChan (chan_cap c) xs (chan_closed c))
  | [] => if chan_closed c then Done None c else Blocked c
  end.

(** [select { case v, ok := <-c: ... default: ... }]: the outer [None] is the default. *)
Definition chan_try_recv {A} : M (chan A) (option (option A)) := λ c,
  match chan_buf c with
  | x :: xs => Done (Some (Some x)) (mkChan (chan_cap c) xs (chan_closed c))
  | [] => if chan_closed c then Done (Some None) c else Done None c
  end.

(** [close(c)]. *)
Definition chan_close {A} : M (chan A) unit := λ c,
  if chan_closed c then Panicked CloseOfClosedChannel c
  else Done tt (mkChan (chan_cap c) (chan_buf c) true).

(** A channel never holds more than its capacity. *)
Definition chan_ok {A} (c : chan A) : Prop := (length (chan_buf c) ≤ chan_cap c)%nat.

(** * Reader-writer locks *)

(** The readers that hold a [sync.RWMutex] and whether a writer holds it. *)
Record rwmutex : Type := mkRW { rw_readers : nat; rw_writer : bool }.
Definition rw_free : rwmutex := mkRW 0 false.

Definition RLock : M rwmutex unit := λ l,
  if rw_writer l then Blocked l else Done tt (mkRW (S (rw_readers l)) false).
Definition RUnlock : M rwmutex unit := λ l,
  match rw_readers l with
  | O => Panicked UnlockOfUnlocked l
  | S n => Done tt (mkRW n (rw_writer l))
  end.
Definition Lock : M rwmutex unit := λ l,
  if rw_writer l || negb (Nat.eqb (rw_readers l) 0) then Blocked l
  else Done tt (mkRW 0 true).
Definition Unlock : M rwmutex unit := λ l,
  if rw_writer l then Done tt (mkRW (rw_readers l) false) else Panicked UnlockOfUnlocked l.

(** * Iteration over a map *)

(** [for k, v := range m] visits every entry once, in an unspecified order. *)
Definition range_order {K V} `{Countable K} (m : gmap K V) (l : list (K * V)) : Prop :=
  l ≡ₚ map_to_list m.

(** * Lemmas *)

Lemma bind_done {S A B} (m : M S A) (f : A → M S B) s b s' :
  bind m f s = Done b s' ↔ ∃ a s1, m s = Done a s1 ∧ f a s1 = Done b s'.
Proof.
  unfold bind. destruct (m s) as [a s1|p s1|s1].
  - split; [by exists a, s1|]. by intros (a' & s1' & [= <- <-] & ?).
  - split; [done|]. by intros (? & ? & ? & _).
  - split; [done|]. by intros (? & ? & ? & _).
Qed.

Lemma chan_try_send_ok {A} (v : A) c b c' :
  chan_ok c → chan_try_send v c = Done b c' → chan_ok c'.
Proof.
  unfold chan_ok, chan_try_send. intros Hc H.
  repeat case_match; simplify_eq/=; [|done]. rewrite length_app. simpl. lia.
Qed.

Lemma range_order_elem {K V} `{Countable K} (m : gmap K V) l k v :
  range_order m l → (k, v) ∈ l ↔ m !! k = Some v.
Proof. intros Hl. unfold range_order in Hl. rewrite Hl. apply elem_of_map_to_list. Qed.

Lemma range_order_length {K V} `{Countable K} (m : gmap K V) l :
  range_order m l → length l = size m.
Proof. intros Hl. rewrite (Permutation_length Hl). apply length_map_to_list. Qed.

Lemma range_order_NoDup {K V} `{Countable K} (m : gmap K V) l :
  range_order m l → NoDup (l.*1).
Proof.
  intros Hl. unfold range_order in Hl. rewrite Hl. apply NoDup_fst_map_to_list.
Qed.

Lemma range_order_exists {K V} `{Countable K} (m : gmap K V) : range_order m (map_to_list m).
Proof. by unfold range_order. Qed.

(** Deleting every key, in any order, empties the map. *)
Lemma delete_all {K V} `{Countable K} (m : gmap K V) l :
  range_order m l → foldr delete m l.*1 = ∅.
Proof.
  intros Hl. apply map_eq. intros k. rewrite lookup_empty.
  destruct (foldr delete m l.*1 !! k) as [v|] eqn:Hk; [|done].
  assert (∀ ks : list K, foldr delete m ks !! k = Some v → k ∉ ks ∧ m !! k = Some v) as Hd.
  { induction ks as [|k' ks IH]; simpl; [set_solver|].
    rewrite lookup_delete_Some. intros [Hne Hk']. apply IH in Hk' as [? ?]. set_solver. }
  apply Hd in Hk as [Hn Hm]. exfalso. apply Hn.
  apply list_elem_of_fmap. exists (k, v). split; [done|]. by apply (range_order_elem m).
Qed.

#[export] Hint Resolve range_order_exists : go_eff.
