(* ===== verification/GoConc.v ===== *)
(** Programs of goroutines over shared memory, and their interleavings.

    A [prog S A] is a sequence of atomic actions on a shared state [S] (an atomic load,
    a compare-and-swap, a channel or lock operation, a call to another component) that
    ends with a value.  [run] executes one program alone; a pool of programs is
    interleaved action by action by [pool_step].  The predicate [proto] is a
    rely/guarantee argument with a linear resource: it bounds what all goroutines
    together can do, so that "at most once" claims about any number of concurrent callers
    follow from a check of each caller alone. *)

From Stdlib Require Import ZArith Lia.
From stdpp Require Import base list relations.
From S2P Require Import Prelude GoEffects.

(** * Programs *)

Inductive act (S B : Type) : Type :=
| AOk (b : B) (s : S)
| ABlock
| APanic (p : go_panic).
Arguments AOk {S B} b s.
Arguments ABlock {S B}.
Arguments APanic {S B} p.

Inductive prog (S A : Type) : Type :=
| PRet (a : A)
| PAct (B : Type) (f : S → act S B) (k : B → prog S A)
| PSel (B : Type) (fs : list (S → act S B)) (k : B → prog S A).
Arguments PRet {S A} a.
Arguments PAct {S A B} f k.
Arguments PSel {S A B} fs k.

Fixpoint pbind {S A B} (p : prog S A) (f : A → prog S B) : prog S B :=
  match p with
  | PRet a => f a
  | PAct g k => PAct g (λ b, pbind (k b) f)
  | PSel gs k => PSel gs (λ b, pbind (k b) f)
  end.

Definition action {S B} (f : S → act S B) : prog S B := PAct f PRet.

(** A [select] without default: any case that does not block may be taken. *)
Definition select {S B} (fs : list (S → act S B)) : prog S B := PSel fs PRet.

Declare Scope prog_scope.
Delimit Scope prog_scope with prog.
Notation "'let!' x ':=' p 'in' k" := (pbind p (fun x => k))
  (at level 200, x pattern, p at level 100, k at level 200) : prog_scope.
Notation "p ;;;; k" := (pbind p (fun _ => k))
  (at level 100, k at level 200, right associativity, only parsing) : prog_scope.
#[global] Open Scope prog_scope.

(** Atomic operations on a field of the state. *)
Definition load {S V} (view : S → V) : prog S V := action (λ s, AOk (view s) s).
Definition update {S} (f : S → S) : prog S unit := action (λ s, AOk tt (f s)).
Definition store {S V} (put : V → S → S) (v : V) : prog S unit := update (put v).

(** [atomic.CompareAndSwap]: whether the field held [old] and is now [new]. *)
Definition compare_and_swap {S V} `{EqDecision V} (view : S → V) (put : V → S → S)
    (old new : V) : prog S bool :=
  action (λ s, if decide (view s = old) then AOk true (put new s) else AOk false s).

(** [<-c] on a channel that only ever gets closed. *)
Definition await_closed {S} (view : S → bool) : prog S unit :=
  action (λ s, if view s then AOk tt s else ABlock).

(** [close(c)] on such a channel. *)
Definition close_signal {S} (view : S → bool) (put : bool → S → S) : prog S unit :=
  action (λ s, if view s then APanic CloseOfClosedChannel else AOk tt (put true s)).

(** An operation of a part of the state as one atomic action. *)
Definition atomically {S T A} (view : S → T) (put : T → S → S) (m : M T A) : prog S A :=
  action (λ s, match m (view s) with
               | Done a t => AOk a (put t s)
               | Panicked p _ => APanic p
               | Blocked _ => ABlock
               end).

(** The first case of a select that does not block. *)
Fixpoint first_ready {S B} (fs : list (S → act S B)) (s : S) : act S B :=
  match fs with
  | [] => ABlock
  | f :: fs => match f s with ABlock => first_ready fs s | a => a end
  end.

(** Running a program alone, with the first ready case of each select. *)
Fixpoint run {S A} (p : prog S A) : M S A := λ s,
  match p with
  | PRet a => Done a s
  | PAct f k =>
      match f s with
      | AOk b s' => run (k b) s'
      | ABlock => Blocked s
      | APanic e => Panicked e s
      end
  | PSel fs k =>
      match first_ready fs s with
      | AOk b s' => run (k b) s'
      | ABlock => Blocked s
      | APanic e => Panicked e s
      end
  end.

Lemma first_ready_elem {S B} (fs : list (S → act S B)) s b s' :
  first_ready fs s = AOk b s' → ∃ f, f ∈ fs ∧ f s = AOk b s'.
Proof.
  induction fs as [|f fs IH]; simpl; [done|]. destruct (f s) eqn:Hf; [|intros H..].
  - intros [= <- <-]. exists f. split; [apply list_elem_of_here|done].
  - destruct (IH H) as (g & ? & ?). exists g. split; [by apply list_elem_of_further|done].
  - done.
Qed.

(** Running a sequence. *)
Lemma run_bind {S A B} (p : prog S A) (k : A → prog S B) s :
  run (pbind p k) s = bind (run p) (λ a, run (k a)) s.
Proof.
  unfold bind. revert s. induction p as [a|C f g IH|C fs g IH]; intros s; simpl; [done|..].
  - destruct (f s); [apply IH|done..].
  - destruct (first_ready fs s); [apply IH|done..].
Qed.

Lemma run_then {S A B} (p : prog S A) (k : A → prog S B) s a s' o :
  run p s = Done a s' → run (k a) s' = o → run (pbind p k) s = o.
Proof. intros Hp. rewrite run_bind. unfold bind. by rewrite Hp. Qed.

(** Running action by action. *)
Lemma run_atomically {S T A B} (view : S → T) put (m : M T A) (k : A → prog S B) s a t o :
  m (view s) = Done a t → run (k a) (put t s) = o →
  run (pbind (atomically view put m) k) s = o.
Proof. simpl. by intros ->. Qed.

Lemma run_load {S V B} (view : S → V) (k : V → prog S B) s o :
  run (k (view s)) s = o → run (pbind (load view) k) s = o.
Proof. done. Qed.

(** * Interleaving *)

Inductive pool_step {S A} : S * list (prog S A) → S * list (prog S A) → Prop :=
| pool_step_at i B (f : S → act S B) k s b s' ts :
    ts !! i = Some (PAct f k) → f s = AOk b s' →
    pool_step (s, ts) (s', <[i := k b]> ts)
| pool_step_sel i B (fs : list (S → act S B)) f k s b s' ts :
    ts !! i = Some (PSel fs k) → f ∈ fs → f s = AOk b s' →
    pool_step (s, ts) (s', <[i := k b]> ts).

Definition pool_steps {S A} : relation (S * list (prog S A)) := rtc pool_step.

(** Some goroutine's next action panics. *)
Definition pool_panics {S A} (c : S * list (prog S A)) : Prop :=
  ∃ i B (f : S → act S B) k p, f c.1 = APanic p ∧
    (c.2 !! i = Some (PAct f k) ∨ ∃ fs, c.2 !! i = Some (PSel fs k) ∧ f ∈ fs).

(** * The protocol argument *)

Section protocol.
Context {S A P : Type}.
(** An invariant of the shared state, a relation every action respects, kinds of
    permits [P], the permits the state holds, and the total of each kind. *)
Context (Inv : S → Prop) (R : S → S → Prop) (held : S → P → nat) (total : P → nat).

(** What a goroutine that owns the permits [n] knows of the state it runs in: no permit is
    in two places. *)
Definition fits (s : S) (n : P → nat) : Prop := ∀ x, held s x + n x ≤ total x.

(** An action moves permits between the state and its goroutine and creates none. *)
Definition conserves (s : S) (n : P → nat) (s' : S) (n' : P → nat) : Prop :=
  ∀ x, held s' x + n' x ≤ held s x + n x.

(** A program that owns [n] keeps the invariant, moves the state by [R], never
    panics and creates no permit; at its end [Q] holds of its result and of what it owns. *)
Fixpoint proto {B} (n : P → nat) (p : prog S B) (Q : B → (P → nat) → Prop) : Prop :=
  match p with
  | PRet b => Q b n
  | PAct f k =>
      ∀ s, Inv s → fits s n →
      match f s with
      | AOk b s' => Inv s' ∧ R s s' ∧ ∃ n', conserves s n s' n' ∧ proto n' (k b) Q
      | ABlock => True
      | APanic _ => False
      end
  | PSel fs k =>
      ∀ s, Inv s → fits s n → ∀ f, f ∈ fs →
      match f s with
      | AOk b s' => Inv s' ∧ R s s' ∧ ∃ n', conserves s n s' n' ∧ proto n' (k b) Q
      | ABlock => True
      | APanic _ => False
      end
  end.

Definition anything {B} : B → (P → nat) → Prop := λ _ _, True.

Lemma proto_weaken {B} n (p : prog S B) (Q Q' : B → (P → nat) → Prop) :
  (∀ b m, Q b m → Q' b m) → proto n p Q → proto n p Q'.
Proof.
  intros HQ. revert n. induction p as [b|C f k IH|C fs k IH]; intros n; simpl; [by apply HQ|..].
  - intros Hp s Hinv Hs. specialize (Hp s Hinv Hs). destruct (f s); [|done..].
    destruct Hp as (? & ? & m & ? & ?). split_and!; [done..|]. exists m. split; [done|].
    by apply IH.
  - intros Hp s Hinv Hs f Hf. specialize (Hp s Hinv Hs f Hf). destruct (f s); [|done..].
    destruct Hp as (? & ? & m & ? & ?). split_and!; [done..|]. exists m. split; [done|].
    by apply IH.
Qed.

(** Permits are counted, nothing else of them matters. *)
Lemma proto_ext {B} n n' (p : prog S B) (Q : B → (P → nat) → Prop) :
  (∀ x, n x = n' x) → (∀ b m m', (∀ x, m x = m' x) → Q b m → Q b m') →
  proto n p Q → proto n' p Q.
Proof.
  intros Hn HQ. destruct p as [b|C f k|C fs k]; simpl; [by apply HQ|..].
  - intros Hp s Hinv Hs. specialize (Hp s Hinv). destruct (f s); [|done|].
    + destruct Hp as (? & ? & m & Hm & ?); [intros x; rewrite Hn; apply Hs|].
      split_and!; [done..|]. exists m. split; [|done]. intros x. rewrite <-Hn. apply Hm.
    + apply Hp. intros x. rewrite Hn. apply Hs.
  - intros Hp s Hinv Hs f Hf. specialize (Hp s Hinv).
    assert (fits s n) as Hs' by (intros x; rewrite Hn; apply Hs).
    specialize (Hp Hs' f Hf). destruct (f s); [|done..].
    destruct Hp as (? & ? & m & Hm & ?). split_and!; [done..|]. exists m. split; [|done].
    intros x. rewrite <-Hn. apply Hm.
Qed.

(** Sequencing: the first program hands what it owns to the second. *)
Lemma proto_bind {B C} n (p : prog S B) (f : B → prog S C) Q :
  proto n p (λ b m, proto m (f b) Q) → proto n (pbind p f) Q.
Proof.
  revert n. induction p as [b|D g k IH|D gs k IH]; intros n; simpl; [done|..].
  - intros Hp s Hinv Hs. specialize (Hp s Hinv Hs). destruct (g s); [|done..].
    destruct Hp as (? & ? & m & ? & Hk). split_and!; [done..|]. exists m. split; [done|].
    by apply IH.
  - intros Hp s Hinv Hs g Hg. specialize (Hp s Hinv Hs g Hg). destruct (g s); [|done..].
    destruct Hp as (? & ? & m & ? & Hk). split_and!; [done..|]. exists m. split; [done|].
    by apply IH.
Qed.

Lemma proto_unbind {B} n (p : prog S B) Q : proto n (pbind p PRet) Q → proto n p Q.
Proof.
  revert n. induction p as [b|D g k IH|D gs k IH]; intros n; simpl; [done|..].
  - intros Hp s Hinv Hs. specialize (Hp s Hinv Hs). destruct (g s); [|done..].
    destruct Hp as (? & ? & m & ? & Hk). split_and!; [done..|]. exists m. split; [done|].
    by apply IH.
  - intros Hp s Hinv Hs g Hg. specialize (Hp s Hinv Hs g Hg). destruct (g s); [|done..].
    destruct Hp as (? & ? & m & ? & Hk). split_and!; [done..|]. exists m. split; [done|].
    by apply IH.
Qed.

(** Permits may be dropped before an action. *)
Lemma proto_drop {B} n n' (p : prog S B) Q :
  (∀ b, p ≠ PRet b) → (∀ x, n' x ≤ n x) → proto n' p Q → proto n p Q.
Proof.
  intros Hr Hl.
  assert (∀ s, fits s n → fits s n') as Hf by (intros s Hf x; specialize (Hf x); specialize (Hl x); lia).
  assert (∀ s s' m, conserves s n' s' m → conserves s n s' m) as Hc.
  { intros s s' m Hm x. specialize (Hm x). specialize (Hl x). lia. }
  destruct p as [b|C f k|C fs k]; simpl; [by destruct (Hr b)|..].
  - intros Hp s Hs Hfl. specialize (Hp s Hs (Hf s Hfl)). destruct (f s); [|done..].
    destruct Hp as (? & ? & m & Hm & ?). split_and!; [done..|]. exists m. split; [by apply Hc|done].
  - intros Hp s Hs Hfl g Hg. specialize (Hp s Hs (Hf s Hfl) g Hg). destruct (g s); [|done..].
    destruct Hp as (? & ? & m & Hm & ?). split_and!; [done..|]. exists m. split; [by apply Hc|done].
Qed.

(** A pool whose members own shares of the permits. *)
Definition pool_ok (c : S * list (prog S A)) : Prop :=
  ∃ ns, Inv c.1 ∧ Forall2 (λ n p, proto n p anything) ns c.2 ∧
        ∀ x, held c.1 x + sum_list ((λ n, n x) <$> ns) ≤ total x.

Lemma sum_list_lookup (ns : list nat) i n : ns !! i = Some n → n ≤ sum_list ns.
Proof.
  revert i. induction ns as [|m ns IH]; intros [|i] Hi; simplify_eq/=; [lia|].
  apply IH in Hi. lia.
Qed.

Lemma sum_list_insert (ns : list nat) i n m :
  ns !! i = Some n → sum_list (<[i := m]> ns) + n = sum_list ns + m.
Proof.
  revert i. induction ns as [|x ns IH]; intros [|i] Hi; simplify_eq/=; [lia|].
  apply IH in Hi. lia.
Qed.

Lemma pool_fits s (ns : list (P → nat)) i n :
  (∀ x, held s x + sum_list ((λ n, n x) <$> ns) ≤ total x) → ns !! i = Some n → fits s n.
Proof.
  intros Hsum Hn x. specialize (Hsum x).
  assert (((λ n, n x) <$> ns) !! i = Some (n x)) as Hx by (by rewrite list_lookup_fmap, Hn).
  apply sum_list_lookup in Hx. lia.
Qed.

(** A member's action replaces its share. *)
Lemma pool_update s ts ns i n m p s' :
  Forall2 (λ n p, proto n p anything) ns ts → ns !! i = Some n →
  (∀ x, held s x + sum_list ((λ n, n x) <$> ns) ≤ total x) →
  Inv s' → conserves s n s' m → proto m p anything → pool_ok (s', <[i := p]> ts).
Proof.
  intros Hts Hn Hsum Hinv' Hm Hk.
  exists (<[i := m]> ns). split_and!; [done|by apply Forall2_insert|].
  intros x. rewrite list_fmap_insert.
  assert (((λ n, n x) <$> ns) !! i = Some (n x)) as Hx by (by rewrite list_lookup_fmap, Hn).
  pose proof (sum_list_insert _ i _ (m x) Hx). specialize (Hm x). specialize (Hsum x).
  simpl. lia.
Qed.

Lemma pool_step_ok c c' : pool_ok c → pool_step c c' → pool_ok c' ∧ R c.1 c'.1.
Proof.
  intros (ns & Hinv & Hts & Hsum) Hstep.
  destruct Hstep as [i B f k s b s' ts Hi Hf|i B fs f k s b s' ts Hi Hin Hf]; simpl in *;
    destruct (Forall2_lookup_r _ _ _ _ _ Hts Hi) as (n & Hn & Hp); simpl in Hp;
    specialize (Hp s Hinv (pool_fits s ns i n Hsum Hn));
    [|specialize (Hp f Hin)]; rewrite Hf in Hp;
    destruct Hp as (Hinv' & HR & m & Hm & Hk); split; [|done| |done]; by eapply pool_update.
Qed.

Lemma pool_steps_ok c c' : pool_ok c → pool_steps c c' → pool_ok c' ∧ rtc R c.1 c'.1.
Proof.
  intros Hok Hsteps. revert Hok. induction Hsteps as [c|c1 c2 c3 Hstep _ IH]; intros Hok.
  { split; [done|apply rtc_refl]. }
  destruct (pool_step_ok c1 c2 Hok Hstep) as [Hok2 HR].
  destruct (IH Hok2) as [? ?]. split; [done|]. by eapply rtc_l.
Qed.

Lemma pool_ok_no_panic c : pool_ok c → ¬ pool_panics c.
Proof.
  intros (ns & Hinv & Hts & Hsum) (i & B & f & k & p & Hf & [Hi|(fs & Hi & Hin)]);
    destruct (Forall2_lookup_r _ _ _ _ _ Hts Hi) as (n & Hn & Hp); simpl in Hp;
    specialize (Hp (c.1) Hinv (pool_fits _ ns i n Hsum Hn)); [|specialize (Hp f Hin)];
    by rewrite Hf in Hp.
Qed.

Lemma pool_ok_held c x : pool_ok c → held c.1 x ≤ total x.
Proof. intros (ns & _ & _ & Hsum). specialize (Hsum x). lia. Qed.

Lemma pool_ok_inv c : pool_ok c → Inv c.1.
Proof. by intros (ns & ? & _). Qed.

(** Programs that own nothing to begin with form a pool of any size. *)
Lemma pool_init s ts :
  Inv s → fits s (λ _, 0) → Forall (λ p, proto (λ _, 0) p anything) ts → pool_ok (s, ts).
Proof.
  intros Hinv Hs Hts. exists (replicate (length ts) (λ _, 0)). split_and!; [done| |].
  - simpl. induction Hts; simpl; by constructor.
  - intros x. simpl. rewrite fmap_replicate.
    enough (sum_list (replicate (length ts) 0) = 0) by (specialize (Hs x); simpl in *; lia).
    generalize (length ts); intros m; induction m; simpl; lia.
Qed.
End protocol.

Arguments anything {P B} _ _ /.

(** * Knowledge *)

(** What a goroutine has seen of the state may be used later when no action takes it back. *)
Section knowledge.
Context {S A P : Type}.
Context (Inv : S → Prop) (R : S → S → Prop) (held : S → P → nat) (total : P → nat).

Definition stable (K : S → Prop) : Prop := ∀ s s', Inv s → R s s' → K s → K s'.

(** The predicate [proto] for a goroutine that knows [K]. *)
Fixpoint kproto {B} (K : S → Prop) (n : P → nat) (p : prog S B)
    (Q : B → (S → Prop) → (P → nat) → Prop) : Prop :=
  match p with
  | PRet b => Q b K n
  | PAct f k =>
      ∀ s, Inv s → fits held total s n → K s →
      match f s with
      | AOk b s' => Inv s' ∧ R s s' ∧ ∃ n' K', conserves held s n s' n' ∧ K' s' ∧ stable K' ∧
                      kproto K' n' (k b) Q
      | ABlock => True
      | APanic _ => False
      end
  | PSel fs k =>
      ∀ s, Inv s → fits held total s n → K s → ∀ f, f ∈ fs →
      match f s with
      | AOk b s' => Inv s' ∧ R s s' ∧ ∃ n' K', conserves held s n s' n' ∧ K' s' ∧ stable K' ∧
                      kproto K' n' (k b) Q
      | ABlock => True
      | APanic _ => False
      end
  end.

Lemma stable_True : stable (λ _, True).
Proof. done. Qed.

Lemma stable_and K1 K2 : stable K1 → stable K2 → stable (λ s, K1 s ∧ K2 s).
Proof. intros H1 H2 s s' Hs HR [? ?]. split; [by eapply H1|by eapply H2]. Qed.

Lemma stable_impl (X : Prop) K : stable K → stable (λ s, X → K s).
Proof. intros H s s' Hs HR HK x. eapply H; eauto. Qed.

Lemma kproto_weaken {B} K n (p : prog S B) (Q Q' : B → (S → Prop) → (P → nat) → Prop) :
  (∀ b K m, stable K → Q b K m → Q' b K m) → stable K → kproto K n p Q → kproto K n p Q'.
Proof.
  intros HQ. revert K n. induction p as [b|C f k IH|C fs k IH]; intros K n HK; simpl; [by apply HQ|..].
  - intros Hp s Hinv Hs HKs. specialize (Hp s Hinv Hs HKs). destruct (f s); [|done..].
    destruct Hp as (? & ? & m & K' & ? & ? & ? & ?). split_and!; [done..|]. exists m, K'.
    split_and!; [done..|]. by apply IH.
  - intros Hp s Hinv Hs HKs f Hf. specialize (Hp s Hinv Hs HKs f Hf). destruct (f s); [|done..].
    destruct Hp as (? & ? & m & K' & ? & ? & ? & ?). split_and!; [done..|]. exists m, K'.
    split_and!; [done..|]. by apply IH.
Qed.

(** Permits may be dropped before an action, and knowledge forgotten. *)
Lemma kproto_drop {B} K K' n n' (p : prog S B) Q :
  (∀ b, p ≠ PRet b) → (∀ x, n' x ≤ n x) → (∀ s, K s → K' s) → kproto K' n' p Q → kproto K n p Q.
Proof.
  intros Hr Hl HK.
  assert (∀ s, fits held total s n → fits held total s n') as Hf
    by (intros s Hf x; specialize (Hf x); specialize (Hl x); lia).
  assert (∀ s s' m, conserves held s n' s' m → conserves held s n s' m) as Hc.
  { intros s s' m Hm x. specialize (Hm x). specialize (Hl x). lia. }
  destruct p as [b|C f k|C fs k]; simpl; [by destruct (Hr b)|..].
  - intros Hp s Hs Hfl HKs. specialize (Hp s Hs (Hf s Hfl) (HK s HKs)). destruct (f s); [|done..].
    destruct Hp as (? & ? & m & K1 & Hm & ? & ? & ?). split_and!; [done..|]. exists m, K1.
    split_and!; [by apply Hc|done..].
  - intros Hp s Hs Hfl HKs g Hg. specialize (Hp s Hs (Hf s Hfl) (HK s HKs) g Hg).
    destruct (g s); [|done..].
    destruct Hp as (? & ? & m & K1 & Hm & ? & ? & ?). split_and!; [done..|]. exists m, K1.
    split_and!; [by apply Hc|done..].
Qed.

Lemma kproto_bind {B C} K n (p : prog S B) (f : B → prog S C) Q :
  kproto K n p (λ b K m, kproto K m (f b) Q) → kproto K n (pbind p f) Q.
Proof.
  revert K n. induction p as [b|D g k IH|D gs k IH]; intros K n; simpl; [done|..].
  - intros Hp s Hinv Hs HK. specialize (Hp s Hinv Hs HK). destruct (g s); [|done..].
    destruct Hp as (? & ? & m & K' & ? & ? & ? & Hk). split_and!; [done..|]. exists m, K'.
    split_and!; [done..|]. by apply IH.
  - intros Hp s Hinv Hs HK g Hg. specialize (Hp s Hinv Hs HK g Hg). destruct (g s); [|done..].
    destruct Hp as (? & ? & m & K' & ? & ? & ? & Hk). split_and!; [done..|]. exists m, K'.
    split_and!; [done..|]. by apply IH.
Qed.

Lemma kproto_unbind {B} K n (p : prog S B) Q : kproto K n (pbind p PRet) Q → kproto K n p Q.
Proof.
  revert K n. induction p as [b|D g k IH|D gs k IH]; intros K n; simpl; [done|..].
  - intros Hp s Hinv Hs HK. specialize (Hp s Hinv Hs HK). destruct (g s); [|done..].
    destruct Hp as (? & ? & m & K' & ? & ? & ? & Hk). split_and!; [done..|]. exists m, K'.
    split_and!; [done..|]. by apply IH.
  - intros Hp s Hinv Hs HK g Hg. specialize (Hp s Hinv Hs HK g Hg). destruct (g s); [|done..].
    destruct Hp as (? & ? & m & K' & ? & ? & ? & Hk). split_and!; [done..|]. exists m, K'.
    split_and!; [done..|]. by apply IH.
Qed.

(** A program checked without knowledge keeps what its goroutine knows. *)
Lemma kproto_frame {B C} K n (p : prog S B) (f : B → prog S C) Q :
  stable K → proto Inv R held total n p (λ b m, kproto K m (f b) Q) →
  kproto K n (pbind p f) Q.
Proof.
  intros Hst. revert n. induction p as [b|D g k IH|D gs k IH]; intros n; simpl; [done|..].
  - intros Hp s Hinv Hs HK. specialize (Hp s Hinv Hs). destruct (g s); [|done..].
    destruct Hp as (? & ? & m & ? & Hk). split_and!; [done..|]. exists m, K.
    split_and!; [done|by eapply Hst|done|]. by apply IH.
  - intros Hp s Hinv Hs HK g Hg. specialize (Hp s Hinv Hs g Hg). destruct (g s); [|done..].
    destruct Hp as (? & ? & m & ? & Hk). split_and!; [done..|]. exists m, K.
    split_and!; [done|by eapply Hst|done|]. by apply IH.
Qed.

(** A pool whose members own shares of the permits and know something each. *)
Definition member_ok (s : S) (x : (P → nat) * (S → Prop)) (p : prog S A) : Prop :=
  kproto x.2 x.1 p (λ _ _ _, True) ∧ stable x.2 ∧ x.2 s.

Definition kpool_ok (c : S * list (prog S A)) : Prop :=
  ∃ ns, Inv c.1 ∧ Forall2 (member_ok c.1) ns c.2 ∧
        ∀ x, held c.1 x + sum_list ((λ n, n.1 x) <$> ns) ≤ total x.

Lemma kpool_fits s (ns : list ((P → nat) * (S → Prop))) i n :
  (∀ x, held s x + sum_list ((λ n, n.1 x) <$> ns) ≤ total x) → ns !! i = Some n →
  fits held total s n.1.
Proof.
  intros Hsum Hn x. specialize (Hsum x).
  assert (((λ n, n.1 x) <$> ns) !! i = Some (n.1 x)) as Hx by (by rewrite list_lookup_fmap, Hn).
  apply sum_list_lookup in Hx. lia.
Qed.

Lemma kpool_update s ts ns i n m K p s' :
  Inv s → Forall2 (member_ok s) ns ts → ns !! i = Some n →
  (∀ x, held s x + sum_list ((λ n, n.1 x) <$> ns) ≤ total x) →
  Inv s' → R s s' → conserves held s n.1 s' m → member_ok s' (m, K) p →
  kpool_ok (s', <[i := p]> ts).
Proof.
  intros Hs Hts Hn Hsum Hinv' HR Hm Hk.
  exists (<[i := (m, K)]> ns). split_and!; [done| |].
  - apply Forall2_insert; [|done]. eapply Forall2_impl; [exact Hts|].
    intros x q (? & Hst & HK). split_and!; [done..|]. exact (Hst s s' Hs HR HK).
  - intros x. rewrite list_fmap_insert.
    assert (((λ n, n.1 x) <$> ns) !! i = Some (n.1 x)) as Hx by (by rewrite list_lookup_fmap, Hn).
    pose proof (sum_list_insert _ i _ (m x) Hx). specialize (Hm x). specialize (Hsum x).
    simpl. lia.
Qed.

Lemma kpool_step_ok c c' : kpool_ok c → pool_step c c' → kpool_ok c' ∧ R c.1 c'.1.
Proof.
  intros (ns & Hinv & Hts & Hsum) Hstep.
  destruct Hstep as [i B f k s b s' ts Hi Hf|i B fs f k s b s' ts Hi Hin Hf]; simpl in *;
    destruct (Forall2_lookup_r _ _ _ _ _ Hts Hi) as (n & Hn & Hp & Hst & HK); simpl in Hp;
    specialize (Hp s Hinv (kpool_fits s ns i n Hsum Hn) HK);
    [|specialize (Hp f Hin)]; rewrite Hf in Hp;
    destruct Hp as (Hinv' & HR & m & K' & Hm & HK' & Hst' & Hk); split; [|done| |done];
    by apply (kpool_update s ts ns i n m K').
Qed.

Lemma kpool_steps_ok c c' : kpool_ok c → pool_steps c c' → kpool_ok c' ∧ rtc R c.1 c'.1.
Proof.
  intros Hok Hsteps. revert Hok. induction Hsteps as [c|c1 c2 c3 Hstep _ IH]; intros Hok.
  { split; [done|apply rtc_refl]. }
  destruct (kpool_step_ok c1 c2 Hok Hstep) as [Hok2 HR].
  destruct (IH Hok2) as [? ?]. split; [done|]. by eapply rtc_l.
Qed.

Lemma kpool_ok_no_panic c : kpool_ok c → ¬ pool_panics c.
Proof.
  intros (ns & Hinv & Hts & Hsum) (i & B & f & k & p & Hf & [Hi|(fs & Hi & Hin)]);
    destruct (Forall2_lookup_r _ _ _ _ _ Hts Hi) as (n & Hn & Hp & _ & HK); simpl in Hp;
    specialize (Hp (c.1) Hinv (kpool_fits _ ns i n Hsum Hn) HK); [|specialize (Hp f Hin)];
    by rewrite Hf in Hp.
Qed.

Lemma kpool_ok_inv c : kpool_ok c → Inv c.1.
Proof. by intros (ns & ? & _). Qed.

(** Programs that own and know nothing to begin with form a pool of any size. *)
Lemma kpool_init s ts :
  Inv s → fits held total s (λ _, 0) →
  Forall (λ p, kproto (λ _, True) (λ _, 0) p (λ _ _ _, True)) ts → kpool_ok (s, ts).
Proof.
  intros Hinv Hs Hts. exists (replicate (length ts) (λ _, 0, λ _, True)). split_and!; [done| |].
  - simpl. induction Hts; simpl; constructor; [|done]. by split_and!.
  - intros x. simpl. rewrite fmap_replicate.
    enough (sum_list (replicate (length ts) 0) = 0) by (specialize (Hs x); simpl in *; lia).
    generalize (length ts); intros m; induction m; simpl; lia.
Qed.
End knowledge.

(** One goroutine at a time: a thread whose program runs to the end moves the pool. *)
Lemma run_pool_at {S A} (p : prog S A) s a s' ts i :
  ts !! i = Some p → run p s = Done a s' →
  pool_steps (s, ts) (s', <[i := PRet a]> ts).
Proof.
  assert (∀ s s1 (q : prog S A) ts i, ts !! i = Some q → ∀ p',
    (∀ ts, ts !! i = Some p' → pool_steps (s1, ts) (s', <[i := PRet a]> ts)) →
    pool_step (s, ts) (s1, <[i := p']> ts) →
    pool_steps (s, ts) (s', <[i := PRet a]> ts)) as Hone.
  { intros s0 s1 q ts0 i0 Hi0 p' Hrest Hstep. eapply rtc_l; [exact Hstep|].
    assert (<[i0 := PRet a]> ts0 = <[i0 := PRet a]> (<[i0 := p']> ts0)) as ->
      by (by rewrite list_insert_insert_eq).
    apply Hrest. apply list_lookup_insert_eq. by eapply lookup_lt_Some. }
  revert s ts. induction p as [b|B f k IH|B fs k IH]; intros s ts Hi; simpl.
  - intros [= -> ->]. rewrite list_insert_id by done. apply rtc_refl.
  - destruct (f s) as [b s1| |] eqn:Hf; [|done..]. intros Hr.
    eapply Hone; [exact Hi| |by eapply pool_step_at]. intros ts' Hi'. by eapply IH.
  - destruct (first_ready fs s) as [b s1| |] eqn:Hf; [|done..]. intros Hr.
    destruct (first_ready_elem _ _ _ _ Hf) as (f & Hin & Hf').
    eapply Hone; [exact Hi| |by eapply pool_step_sel]. intros ts' Hi'. by eapply IH.
Qed.

(** Every run of one program is an interleaving of the pool that holds it alone. *)
Lemma run_pool {S A} (p : prog S A) s a s' :
  run p s = Done a s' → pool_steps (s, [p]) (s', [PRet a]).
Proof. apply (run_pool_at p s a s' [p] 0). done. Qed.

(** The first [n] actions of a program. *)
Fixpoint advance {S A} (n : nat) (p : prog S A) (s : S) : option (prog S A * S) :=
  match n, p with
  | O, _ => Some (p, s)
  | Datatypes.S _, PRet _ => None
  | Datatypes.S n, PAct f k =>
      match f s with AOk b s' => advance n (k b) s' | _ => None end
  | Datatypes.S n, PSel fs k =>
      match first_ready fs s with AOk b s' => advance n (k b) s' | _ => None end
  end.

Lemma advance_pool_at {S A} n (p : prog S A) s p' s' ts i :
  ts !! i = Some p → advance n p s = Some (p', s') →
  pool_steps (s, ts) (s', <[i := p']> ts).
Proof.
  revert p s ts. induction n as [|n IH]; intros p s ts Hi; simpl.
  { intros [= -> ->]. rewrite list_insert_id by done. apply rtc_refl. }
  assert (∀ q s1, pool_step (s, ts) (s1, <[i := q]> ts) → advance n q s1 = Some (p', s') →
    pool_steps (s, ts) (s', <[i := p']> ts)) as Hone.
  { intros q s1 Hstep Hr. eapply rtc_l; [exact Hstep|].
    assert (<[i := p']> ts = <[i := p']> (<[i := q]> ts)) as ->
      by (by rewrite list_insert_insert_eq).
    apply (IH q s1); [|done]. apply list_lookup_insert_eq. by eapply lookup_lt_Some. }
  destruct p as [a|B f k|B fs k]; [done|..].
  - destruct (f s) as [b s1| |] eqn:Hf; [|done..]. apply Hone. by eapply pool_step_at.
  - destruct (first_ready fs s) as [b s1| |] eqn:Hf; [|done..].
    destruct (first_ready_elem _ _ _ _ Hf) as (f & Hin & Hf'). apply Hone.
    by eapply pool_step_sel.
Qed.

(** Playing a schedule: which goroutine takes how many actions. *)
Fixpoint play {S A} (sched : list (nat * nat)) (c : S * list (prog S A)) :
    option (S * list (prog S A)) :=
  match sched with
  | [] => Some c
  | (i, n) :: sched =>
      match c.2 !! i with
      | Some p =>
          match advance n p c.1 with
          | Some (p', s') => play sched (s', <[i := p']> c.2)
          | None => None
          end
      | None => None
      end
  end.

Lemma play_steps {S A} sched (c c' : S * list (prog S A)) :
  play sched c = Some c' → pool_steps c c'.
Proof.
  revert c. induction sched as [|[i n] sched IH]; intros [s ts]; simpl.
  { intros [= <-]. apply rtc_refl. }
  destruct (ts !! i) as [p|] eqn:Hi; [|done].
  destruct (advance n p s) as [[p' s']|] eqn:Hp; [|done]. intros Hr.
  etrans; [by eapply advance_pool_at|by apply IH].
Qed.

(** A check of the state a schedule leads to. *)
Definition plays_to {S A} (sched : list (nat * nat)) (c : S * list (prog S A))
    (check : S → bool) : bool :=
  match play sched c with Some (s, _) => check s | None => false end.

Lemma plays_to_steps {S A} sched (c : S * list (prog S A)) check :
  plays_to sched c check = true → ∃ s ts, pool_steps c (s, ts) ∧ check s = true.
Proof.
  unfold plays_to. destruct (play sched c) as [[s ts]|] eqn:Hp; [|done].
  intros Hc. exists s, ts. split; [by eapply play_steps|done].
Qed.

(** The next action of a program cannot be taken. *)
Definition waits {S A} (s : S) (p : prog S A) : bool :=
  match p with
  | PRet _ => false
  | PAct f _ => match f s with ABlock => true | _ => false end
  | PSel fs _ => forallb (λ f, match f s with ABlock => true | _ => false end) fs
  end.

(** A pool whose members have all finished or wait takes no step. *)
Lemma pool_stuck {S A} (s : S) (ts : list (prog S A)) :
  Forall (λ p, waits s p = true ∨ ∃ a, p = PRet a) ts → ∀ c, ¬ pool_step (s, ts) c.
Proof.
  intros Hts c Hstep. rewrite Forall_lookup in Hts.
  inversion Hstep as [i B f k ? b s' ? Hi Hf|i B fs f k ? b s' ? Hi Hin Hf]; simplify_eq;
    destruct (Hts i _ Hi) as [Hw|[a [=]]]; simpl in Hw; [by rewrite Hf in Hw|].
  rewrite forallb_forall in Hw. apply list_elem_of_In in Hin. specialize (Hw f Hin).
  by rewrite Hf in Hw.
Qed.

(** What a finished program returned. *)
Definition returned {S A} (p : prog S A) : option A :=
  match p with PRet a => Some a | _ => None end.

(** A check of the state and the results a schedule leads to, where nobody can go on. *)
Definition plays_out {S A} (sched : list (nat * nat)) (c : S * list (prog S A))
    (check : S → list (option A) → bool) : bool :=
  match play sched c with
  | Some (s, ts) =>
      check s (returned <$> ts) && forallb (λ p, waits s p || bool_decide (is_Some (returned p))) ts
  | None => false
  end.

Lemma plays_out_steps {S A} sched (c : S * list (prog S A)) check :
  plays_out sched c check = true →
  ∃ s ts, pool_steps c (s, ts) ∧ check s (returned <$> ts) = true ∧ ∀ c', ¬ pool_step (s, ts) c'.
Proof.
  unfold plays_out. destruct (play sched c) as [[s ts]|] eqn:Hp; [|done].
  intros [Hc Hw]%andb_true_iff. exists s, ts. split_and!; [by eapply play_steps|done|].
  apply pool_stuck. rewrite Forall_forall. rewrite forallb_forall in Hw.
  intros p Hin. apply list_elem_of_In, Hw, orb_true_iff in Hin as [|Hr%bool_decide_eq_true]; [by left|].
  right. destruct p as [a| |]; [by exists a|by destruct Hr..].
Qed.

(** A schedule after which the next action of goroutine [i] panics. *)
Definition plays_panic {S A} (sched : list (nat * nat)) (i : nat) (c : S * list (prog S A)) : bool :=
  match play sched c with
  | Some (s, ts) =>
      match ts !! i with
      | Some (PAct f _) => match f s with APanic _ => true | _ => false end
      | _ => false
      end
  | None => false
  end.

Lemma plays_panic_steps {S A} sched i (c : S * list (prog S A)) :
  plays_panic sched i c = true → ∃ c', pool_steps c c' ∧ pool_panics c'.
Proof.
  unfold plays_panic. destruct (play sched c) as [[s ts]|] eqn:Hp; [|done].
  destruct (ts !! i) as [[| B f k|]|] eqn:Hi; try done. destruct (f s) as [| |p] eqn:Hf; try done.
  intros _. exists (s, ts). split; [by eapply play_steps|]. exists i, B, f, k, p. auto.
Qed.

(** After [n2] actions of the second of two goroutines and then [n1] of the first, both wait. *)
Definition deadlocks {S A} (n1 n2 : nat) (p q : prog S A) (s : S) : bool :=
  match advance n2 q s with
  | Some (q', s1) =>
      match advance n1 p s1 with
      | Some (p', s2) => waits s2 p' && waits s2 q'
      | None => false
      end
  | None => false
  end.

Lemma deadlocks_pool {S A} n1 n2 (p q : prog S A) s : deadlocks n1 n2 p q s = true →
  ∃ s' ts, pool_steps (s, [p; q]) (s', ts) ∧ Forall (λ p, waits s' p = true) ts ∧
    ∀ c, ¬ pool_step (s', ts) c.
Proof.
  unfold deadlocks. destruct (advance n2 q s) as [[q' s1]|] eqn:Hq; [|done].
  destruct (advance n1 p s1) as [[p' s2]|] eqn:Hp; [|done].
  intros [Hw1 Hw2]%andb_true_iff. exists s2, [p'; q']. split_and!.
  - etrans; [exact (advance_pool_at n2 q s q' s1 [p; q] 1 eq_refl Hq)|].
    exact (advance_pool_at n1 p s1 p' s2 [p; q'] 0 eq_refl Hp).
  - by repeat constructor.
  - apply pool_stuck. apply Forall_cons. split; [by left|].
    apply Forall_cons. split; [by left|]. by apply Forall_nil.
Qed.

(** * A component inside another *)

(** A program over a part of the state, run in the state that contains it. *)
Definition lift_act {S T B} (view : S → T) (put : T → S → S) (f : T → act T B) (s : S) : act S B :=
  match f (view s) with
  | AOk b t => AOk b (put t s)
  | ABlock => ABlock
  | APanic p => APanic p
  end.

Fixpoint lift {S T A} (view : S → T) (put : T → S → S) (p : prog T A) : prog S A :=
  match p with
  | PRet a => PRet a
  | PAct f k => PAct (lift_act view put f) (λ b, lift view put (k b))
  | PSel fs k => PSel (lift_act view put <$> fs) (λ b, lift view put (k b))
  end.

(** The permits of the part and those of the whole. *)
Definition join {P1 P2} (n1 : P1 → nat) (n2 : P2 → nat) (x : P1 + P2) : nat :=
  match x with inl x => n1 x | inr y => n2 y end.

Section lifting.
Context {S T P1 P2 : Type} (view : S → T) (put : T → S → S).
Context (Inv1 : T → Prop) (R1 : T → T → Prop) (held1 : T → P1 → nat) (total1 : P1 → nat).
Context (Inv : S → Prop) (R : S → S → Prop) (held2 : S → P2 → nat) (total2 : P2 → nat).

(** What the whole asks of the part: its invariant and its moves keep those of the whole, and
    give nothing of the permits of the whole. *)
Class Embeds : Prop := {
  part_view : ∀ t s, view (put t s) = t;
  part_inv : ∀ s, Inv s → Inv1 (view s);
  part_move : ∀ s t, Inv s → Inv1 t → R1 (view s) t → Inv (put t s) ∧ R s (put t s);
  part_held : ∀ s t y, Inv s → R1 (view s) t → held2 (put t s) y ≤ held2 s y;
}.

Definition whole_held (s : S) : P1 + P2 → nat := join (held1 (view s)) (held2 s).
Definition whole_total : P1 + P2 → nat := join total1 total2.

Lemma proto_lift `{!Embeds} {A B} n1 n2 (p : prog T A) (k : A → prog S B) Q :
  proto Inv1 R1 held1 total1 n1 p
    (λ a m, proto Inv R whole_held whole_total (join m n2) (k a) Q) →
  proto Inv R whole_held whole_total (join n1 n2) (pbind (lift view put p) k) Q.
Proof using Type.
  assert (∀ s n, fits whole_held whole_total s (join n n2) → fits held1 total1 (view s) n) as Hfit.
  { intros s n Hf x. apply (Hf (inl x)). }
  assert (∀ s t n m, Inv s → R1 (view s) t → conserves held1 (view s) n t m →
            conserves whole_held s (join n n2) (put t s) (join m n2)) as Hcons.
  { intros s t n m Hs Hm Hc [x|y]; simpl; [rewrite part_view; apply Hc|].
    pose proof (part_held s t y Hs Hm). lia. }
  revert n1. induction p as [a|C f g IH|C fs g IH]; intros n1; simpl; [done|..].
  - intros Hp s Hs Hf. specialize (Hp (view s) (part_inv s Hs) (Hfit s n1 Hf)). unfold lift_act.
    destruct (f (view s)) as [b t| |]; [|done..]. destruct Hp as (Ht & Hm & m & Hc & Hk).
    destruct (part_move s t Hs Ht Hm) as [? ?]. split_and!; [done..|]. exists (join m n2).
    split; [by apply Hcons|by apply IH].
  - intros Hp s Hs Hf f' Hin. apply list_elem_of_fmap in Hin as (f & -> & Hin).
    specialize (Hp (view s) (part_inv s Hs) (Hfit s n1 Hf) f Hin). unfold lift_act.
    destruct (f (view s)) as [b t| |]; [|done..]. destruct Hp as (Ht & Hm & m & Hc & Hk).
    destruct (part_move s t Hs Ht Hm) as [? ?]. split_and!; [done..|]. exists (join m n2).
    split; [by apply Hcons|by apply IH].
Qed.
End lifting.

(** * Permits as lists *)

Section own.
Context {P : Type} `{!EqDecision P}.

(** How many permits of a kind a list of them holds. *)
Fixpoint own (l : list P) (x : P) : nat :=
  match l with
  | [] => 0
  | y :: l => (if decide (x = y) then 1 else 0) + own l x
  end.

Lemma own_here x l : 1 ≤ own (x :: l) x.
Proof. simpl. rewrite decide_True by done. lia. Qed.

Lemma own_second x y l : 1 ≤ own (y :: x :: l) x.
Proof. simpl. rewrite (decide_True (P := x = x)) by done. lia. Qed.

Lemma sum_own_replicate n l x : sum_list ((λ m, m x) <$> replicate n (own l)) = n * own l x.
Proof. rewrite fmap_replicate. induction n as [|n IH]; simpl; [done|]. by rewrite IH. Qed.
End own.

#[export] Hint Resolve rtc_refl : go_conc.
