(* ===== verification/Errors.v ===== *)
(** Errors: the error types of pkg/solace/errors.go, the error information of the C
    library as internal/ccsmp/ccsmp_core.go wraps it, and the mapping between the
    two in internal/impl/core/error.go. *)

From Stdlib Require Import ZArith Lia.
From stdpp Require Import base list gmap strings.
From S2P Require Import Prelude GoStrconv.

#[local] Open Scope Z_scope.

(** * Errors of the public API *)

Inductive error_kind : Type :=
| AuthenticationError
| IllegalStateError
| IllegalArgumentError
| InvalidConfigurationError
| PublisherOverflowError
| IncompleteMessageDeliveryError
| ServiceUnreachableError
| TimeoutError
| MessageReplayError.

#[export] Instance error_kind_eq_dec : EqDecision error_kind.
Proof. solve_decision. Defined.

(** An error value: an error of the API, a native error with its subcode, or a plain
    error ([fmt.Errorf], an error of the application). *)
Inductive go_error : Type :=
| SolaceError (kind : error_kind) (message : string) (wrapped : option go_error)
| NativeError (message : string) (subcode : Z)
| PlainError (message : string).

#[export] Instance go_error_eq_dec : EqDecision go_error.
Proof.
  refine (fix go (x y : go_error) {struct x} : Decision (x = y) :=
    match x, y with
    | SolaceError k m None, SolaceError k' m' None =>
        cast_if_and (decide (k = k')) (decide (m = m'))
    | SolaceError k m (Some w), SolaceError k' m' (Some w') =>
        cast_if_and3 (decide (k = k')) (decide (m = m')) (go w w')
    | NativeError m c, NativeError m' c' => cast_if_and (decide (m = m')) (decide (c = c'))
    | PlainError m, PlainError m' => cast_if (decide (m = m'))
    | _, _ => right _
    end); congruence.
Defined.

(** [NewError] sets the message and the wrapped error of a fresh error of a kind. *)
Definition NewError (kind : error_kind) (message : string) (wrapped : option go_error) : go_error :=
  SolaceError kind message wrapped.

Definition NewNativeError (message : string) (subcode : Z) : go_error :=
  NativeError message subcode.

Definition Error (e : go_error) : string :=
  match e with
  | SolaceError _ message _ => message
  | NativeError message _ => message
  | PlainError message => message
  end.

Definition Unwrap (e : go_error) : option go_error :=
  match e with SolaceError _ _ wrapped => wrapped | _ => None end.

(** The kind of an error of the API. *)
Definition kind_of (e : go_error) : option error_kind :=
  match e with SolaceError k _ _ => Some k | _ => None end.

(** * Error information of the C library *)

Inductive SolClientReturnCode : Type :=
| ReturnCodeOk
| ReturnCodeWouldBlock
| ReturnCodeInProgress
| ReturnCodeNotReady
| ReturnCodeEos
| ReturnCodeNotFound
| ReturnCodeNoevent
| ReturnCodeIncomplete
| ReturnCodeRollback
| ReturnCodeFail.

#[export] Instance return_code_eq_dec : EqDecision SolClientReturnCode.
Proof. solve_decision. Defined.

(** [solClient_errorInfo_t], the error the library last stored on the thread. *)
Record detailed_error : Type := mkDetailed {
  subCode : Z;
  responseCode : Z;
  errorStr : string;
}.

(** [SolClientErrorInfoWrapper]; the wrapped struct may be absent. *)
Record ErrorInfo : Type := mkErrorInfo {
  ReturnCode : SolClientReturnCode;
  DetailedErrorInfo : option detailed_error;
}.

Definition GetMessageAsString (info : ErrorInfo) : string :=
  match DetailedErrorInfo info with
  | None => ""
  | Some d => errorStr d
  end.

Definition SubCode (info : ErrorInfo) : Z :=
  match DetailedErrorInfo info with Some d => subCode d | None => 0 end.

(** The number of a return code. *)
Definition return_code_number (r : SolClientReturnCode) : Z :=
  match r with
  | ReturnCodeOk => 0 | ReturnCodeWouldBlock => 1 | ReturnCodeInProgress => 2
  | ReturnCodeNotReady => 3 | ReturnCodeEos => 4 | ReturnCodeNotFound => 5
  | ReturnCodeNoevent => 6 | ReturnCodeIncomplete => 7 | ReturnCodeRollback => 8
  | ReturnCodeFail => -1
  end.

(** [String] of an error information that is not nil. *)
Definition ErrorInfo_String (info : ErrorInfo) : string :=
  "{ReturnCode: " +:+ sprint_int (return_code_number (ReturnCode info)) +:+
  match DetailedErrorInfo info with
  | None => ", SubCode: nil, ResponseCode: nil, ErrorStr: nil}"
  | Some d =>
      ", SubCode: " +:+ sprint_int (subCode d) +:+
      ", ResponseCode: " +:+ sprint_int (responseCode d) +:+
      ", ErrorStr: " +:+ errorStr d +:+ "}"
  end.

Definition ResponseCode (info : ErrorInfo) : Z :=
  match DetailedErrorInfo info with Some d => responseCode d | None => 0 end.

Definition GetLastErrorInfoReturnCodeOnly (returnCode : SolClientReturnCode) : ErrorInfo :=
  mkErrorInfo returnCode None.

(** [lastError] is what [solClient_getLastErrorInfo] returns on the thread. *)
Definition GetLastErrorInfo (lastError : detailed_error)
    (returnCode : SolClientReturnCode) : ErrorInfo :=
  if decide (returnCode = ReturnCodeNotFound)
  then GetLastErrorInfoReturnCodeOnly returnCode
  else mkErrorInfo returnCode (Some lastError).

(** [handleCcsmpError] over the return code of the wrapped call. *)
Definition handleCcsmpError (returnCode : SolClientReturnCode)
    (lastError : detailed_error) : option ErrorInfo :=
  if decide (returnCode = ReturnCodeFail ∨ returnCode = ReturnCodeNotReady)
  then Some (GetLastErrorInfo lastError returnCode)
  else if decide (returnCode ≠ ReturnCodeOk ∧ returnCode ≠ ReturnCodeInProgress)
  then Some (GetLastErrorInfoReturnCodeOnly returnCode)
  else None.

(** * Native errors *)

(** The subcodes [ToNativeError] names, with the values of subcode_generated.go. *)
Definition LoginFailure : Z := 19.
Definition UnresolvedHost : Z := 89.
Definition ParamOutOfRange : Z := 1.
Definition ParamNullPtr : Z := 2.
Definition ParamConflict : Z := 3.

(** [ReplayNotSupported] to [OutOfReplayResources], [ReplayStartMessageUnavailable]
    and [ReplayAnonymousNotSupported]. *)
Definition replay_subcodes : list Z :=
  [133; 134; 135; 136; 137; 138; 139; 140; 141; 142; 143; 144; 145; 146; 147; 156; 158].

Definition LoginFailure_msg : string := "failed to authenticate with the broker: ".
Definition UnresolvedSession_msg : string := "requested service is unreachable: ".
Definition InvalidConfiguration_msg : string := "invalid configuration provided: ".

(** [ToNativeError err prefix]; without an argument the prefix is empty. *)
Definition ToNativeError (err : ErrorInfo) (prefix : string) : go_error :=
  let message := prefix +:+ GetMessageAsString err in
  let code := SubCode err in
  let nativeError := NewNativeError message code in
  if code =? LoginFailure
  then NewError AuthenticationError (LoginFailure_msg +:+ message) (Some nativeError)
  else if code =? UnresolvedHost
  then NewError ServiceUnreachableError (UnresolvedSession_msg +:+ message) (Some nativeError)
  else if bool_decide (code ∈ [ParamConflict; ParamOutOfRange; ParamNullPtr])
  then NewError InvalidConfigurationError (InvalidConfiguration_msg +:+ message)
         (Some nativeError)
  else if bool_decide (code ∈ replay_subcodes)
  then NewError MessageReplayError (GetMessageAsString err) (Some nativeError)
  else nativeError.

(** * Properties *)

(** The native error inside a converted error. *)
Definition native_of (e : go_error) : option go_error :=
  match e with
  | NativeError _ _ => Some e
  | _ => Unwrap e
  end.

Lemma handleCcsmpError_None returnCode lastError :
  handleCcsmpError returnCode lastError = None ↔
  returnCode = ReturnCodeOk ∨ returnCode = ReturnCodeInProgress.
Proof. unfold handleCcsmpError. destruct returnCode; simpl; naive_solver. Qed.

(** The error a failed C call turns into keeps the subcode and the prefixed message as
    a native error (itself or wrapped), and its kind is decided by the subcode alone: login
    failure, unresolved host, parameter and replay subcodes get their own kinds, every
    other one stays a plain native error. *)
Theorem ToNativeError_faithful err prefix :
  native_of (ToNativeError err prefix) =
    Some (NativeError (prefix +:+ GetMessageAsString err) (SubCode err)) ∧
  kind_of (ToNativeError err prefix) =
    (if decide (SubCode err = 19) then Some AuthenticationError
     else if decide (SubCode err = 89) then Some ServiceUnreachableError
     else if decide (1 ≤ SubCode err ≤ 3) then Some InvalidConfigurationError
     else if decide (133 ≤ SubCode err ≤ 147 ∨ SubCode err = 156 ∨ SubCode err = 158)
     then Some MessageReplayError else None).
Proof.
  assert (∀ c, c ∈ [ParamConflict; ParamOutOfRange; ParamNullPtr] ↔ 1 ≤ c ≤ 3) as Hp.
  { intros c. rewrite !elem_of_cons, elem_of_nil.
    unfold ParamConflict, ParamOutOfRange, ParamNullPtr. lia. }
  assert (∀ c, c ∈ replay_subcodes ↔ 133 ≤ c ≤ 147 ∨ c = 156 ∨ c = 158) as Hr.
  { intros c. unfold replay_subcodes. rewrite !elem_of_cons, elem_of_nil. lia. }
  unfold ToNativeError. set (c := SubCode err).
  specialize (Hp c). specialize (Hr c). unfold LoginFailure, UnresolvedHost.
  destruct (c =? 19) eqn:H19; [rewrite decide_True by lia; done|].
  rewrite (decide_False (P := c = 19)) by lia.
  destruct (c =? 89) eqn:H89; [rewrite decide_True by lia; done|].
  rewrite (decide_False (P := c = 89)) by lia.
  destruct (bool_decide (c ∈ [ParamConflict; _; _])) eqn:Hb1.
  { apply bool_decide_eq_true in Hb1. rewrite decide_True by tauto. done. }
  apply bool_decide_eq_false in Hb1. rewrite (decide_False (P := 1 ≤ c ≤ 3)) by tauto.
  destruct (bool_decide (c ∈ replay_subcodes)) eqn:Hb2.
  - apply bool_decide_eq_true in Hb2. rewrite decide_True by tauto. done.
  - apply bool_decide_eq_false in Hb2. rewrite decide_False by tauto. done.
Qed.
