(* ===== verification/Resource.v ===== *)
(** The destinations of pkg/solace/resource/destination.go: topics, queues, share
    names and topic subscriptions, and the cached-message subscription request. *)

From Stdlib Require Import ZArith.
From stdpp Require Import base list gmap strings.
From S2P Require Import Prelude GoStrconv.

#[local] Open Scope Z_scope.

(** ** Concrete destinations *)

Record Topic : Type := mkTopic { topic_name : string }.
Record ShareName : Type := mkShareName { share_name : string }.
Record TopicSubscription : Type := mkTopicSubscription { subscription_topic : string }.
Record Queue : Type := mkQueue {
  queue_name : string;
  exclusivelyAccessible : bool;
  durable : bool;
}.

#[export] Instance Topic_eq_dec : EqDecision Topic.
Proof. solve_decision. Defined.
#[export] Instance ShareName_eq_dec : EqDecision ShareName.
Proof. solve_decision. Defined.
#[export] Instance TopicSubscription_eq_dec : EqDecision TopicSubscription.
Proof. solve_decision. Defined.
#[export] Instance Queue_eq_dec : EqDecision Queue.
Proof. solve_decision. Defined.

Definition TopicOf (expression : string) : Topic := mkTopic expression.
Definition ShareNameOf (name : string) : ShareName := mkShareName name.
Definition TopicSubscriptionOf (topic : string) : TopicSubscription :=
  mkTopicSubscription topic.
Definition QueueDurableExclusive (queueName : string) : Queue :=
  mkQueue queueName true true.
Definition QueueDurableNonExclusive (queueName : string) : Queue :=
  mkQueue queueName false true.
Definition QueueNonDurableExclusive (queueName : string) : Queue :=
  mkQueue queueName true false.
Definition QueueNonDurableExclusiveAnonymous : Queue := mkQueue "" true false.

(** The interface [Destination]: the types of the package that have [GetName]. *)
Inductive Destination : Type :=
| DestTopic (t : Topic)
| DestQueue (q : Queue)
| DestShareName (sn : ShareName)
| DestTopicSubscription (t : TopicSubscription).

#[export] Instance Destination_eq_dec : EqDecision Destination.
Proof. solve_decision. Defined.

Definition GetName (d : Destination) : string :=
  match d with
  | DestTopic t => topic_name t
  | DestQueue q => queue_name q
  | DestShareName sn => share_name sn
  | DestTopicSubscription t => subscription_topic t
  end.

(** ** Cached message subscription requests *)

(** [CachedMessageSubscriptionStrategy] is an [int]; these are its named values. *)
Definition CacheRequestStrategyAsAvailable : Z := 0.
Definition CacheRequestStrategyLiveCancelsCached : Z := 1.
Definition CacheRequestStrategyCachedFirst : Z := 2.
Definition CacheRequestStrategyCachedOnly : Z := 3.

Record cachedMessageSubscriptionRequest : Type := mkCachedRequest {
  cacheName : string;
  cr_subscription : option TopicSubscription;
  cacheAccessTimeout : Z;
  maxCachedMessages : Z;
  cachedMessageAge : Z;
  cachedMessageSubscriptionStrategy : option Z;
}.

(** [GetName] of a request: empty when it has no subscription. *)
Definition CachedRequest_GetName (request : cachedMessageSubscriptionRequest) : string :=
  match cr_subscription request with
  | None => ""
  | Some s => subscription_topic s
  end.

Definition NewCachedMessageSubscriptionRequest (strategy : Z) (cache : string)
    (subscription : option TopicSubscription) (timeout maxMessages age : Z) :
    cachedMessageSubscriptionRequest :=
  let cachedMsgSubStrategy :=
    if (strategy =? CacheRequestStrategyAsAvailable)
       || (strategy =? CacheRequestStrategyCachedFirst)
       || (strategy =? CacheRequestStrategyCachedOnly)
       || (strategy =? CacheRequestStrategyLiveCancelsCached)
    then Some strategy else None in
  mkCachedRequest cache subscription timeout maxMessages age cachedMsgSubStrategy.

(** A request carries a strategy exactly when the number it was given names one. *)
Lemma NewCachedMessageSubscriptionRequest_strategy strategy cache sub t m a :
  cachedMessageSubscriptionStrategy
    (NewCachedMessageSubscriptionRequest strategy cache sub t m a) =
  if decide (0 ≤ strategy < 4) then Some strategy else None.
Proof.
  unfold NewCachedMessageSubscriptionRequest, CacheRequestStrategyAsAvailable,
    CacheRequestStrategyCachedFirst, CacheRequestStrategyCachedOnly,
    CacheRequestStrategyLiveCancelsCached. simpl.
  case_decide; case_match; try done; rewrite ?orb_true_iff, ?orb_false_iff in *; lia.
Qed.
