(* ===== verification/Sdt.v ===== *)
(** Structured data types: pkg/solace/message/sdt/structured_data_types.go.

    [data] is the dynamic value an [sdt.Data] interface holds, with one constructor
    per Go type the package distinguishes.  The unexported conversions [getBool],
    [parseInt], [getInt8], ... come first, then the getters of [Map] and [Stream]. *)

From Stdlib Require Import ZArith Lia Ascii.
From stdpp Require Import base list gmap strings.
From S2P Require Import Prelude GoStrconv Resource.

#[local] Open Scope Z_scope.

(** The width of [int] and [uint]: Go fixes it to 4 or 8 bytes per platform. *)
Class GoArch : Type := {
  sizeof_int : Z;
  sizeof_int_ok : sizeof_int = 4 ∨ sizeof_int = 8;
}.

#[export] Program Instance amd64 : GoArch | 100 := {| sizeof_int := 8 |}.
Next Obligation. by right. Qed.

(** Floating point values are held as their IEEE 754 bit patterns.  Their parsing and
    rounding ([strconv.ParseFloat], [float32(x)]) is a parameter. *)
Class GoFloat : Type := {
  ParseFloat : string → Z → Z * option num_error;
  float32_of_float64 : Z → Z;
}.

(** * Data *)

Inductive data : Type :=
| DNil
| DBool (b : bool)
| DInt (z : Z)
| DUint (z : Z)
| DUint8 (z : Z)
| DInt8 (z : Z)
| DUint16 (z : Z)
| DInt16 (z : Z)
| DUint32 (z : Z)
| DInt32 (z : Z)
| DUint64 (z : Z)
| DInt64 (z : Z)
| DFloat32 (bits : Z)
| DFloat64 (bits : Z)
| DString (s : string)
| DBytes (bs : list Byte.byte)
| DWChar (z : Z)
| DMap (m : gmap string data)
| DStream (l : list data)
| DDest (d : Destination)
| DOther (typeName : string).

(** What the verb [%T] prints for a value. *)
Definition type_name (d : data) : string :=
  match d with
  | DNil => "<nil>"
  | DBool _ => "bool"
  | DInt _ => "int"
  | DUint _ => "uint"
  | DUint8 _ => "uint8"
  | DInt8 _ => "int8"
  | DUint16 _ => "uint16"
  | DInt16 _ => "int16"
  | DUint32 _ => "uint32"
  | DInt32 _ => "int32"
  | DUint64 _ => "uint64"
  | DInt64 _ => "int64"
  | DFloat32 _ => "float32"
  | DFloat64 _ => "float64"
  | DString _ => "string"
  | DBytes _ => "[]uint8"
  | DWChar _ => "sdt.WChar"
  | DMap _ => "sdt.Map"
  | DStream _ => "sdt.Stream"
  | DDest (DestTopic _) => "*resource.Topic"
  | DDest (DestQueue _) => "*resource.Queue"
  | DDest (DestShareName _) => "*resource.ShareName"
  | DDest (DestTopicSubscription _) => "*resource.TopicSubscription"
  | DOther n => n
  end.

(** * Errors *)

(** The message of a [FormatConversionError], before it is rendered to text. *)
Inductive conv_message : Type :=
| CannotConvert (ty desired : string)
| CannotConvertNested (ty desired : string) (nested : num_error)
| CannotConvertString (s desired : string)
| CannotConvertLength (len : Z) (desired : string).

Inductive sdt_error : Type :=
| KeyNotFoundError (key : string)
| OutOfBoundsError (index : Z)
| FormatConversionError (message : conv_message) (d : data)
| IllegalTypeError (d : data).

Definition defaultFormatConversionError (d : data) (desiredType : string) : sdt_error :=
  FormatConversionError (CannotConvert (type_name d) desiredType) d.

Definition nestedFormatConversionError (d : data) (desiredType : string)
    (nested : num_error) : sdt_error :=
  FormatConversionError (CannotConvertNested (type_name d) desiredType nested) d.

Abbreviation sdt_res := (res sdt_error).

(** * Conversions of one value *)

(** The integer a value of an integer type holds. *)
Definition data_int (d : data) : option Z :=
  match d with
  | DInt z | DUint z | DUint8 z | DInt8 z | DUint16 z | DInt16 z
  | DUint32 z | DInt32 z | DUint64 z | DInt64 z => Some z
  | _ => None
  end.

Definition getBool (elem : data) : sdt_res bool :=
  match elem with
  | DBool casted => Ok casted
  | DInt casted | DUint casted | DUint8 casted | DInt8 casted | DUint16 casted
  | DInt16 casted | DUint32 casted | DInt32 casted | DUint64 casted
  | DInt64 casted => Ok (negb (casted =? 0))
  | DString casted =>
      if String.eqb casted "true" || String.eqb casted "1" then Ok true
      else if String.eqb casted "false" || String.eqb casted "0" then Ok false
      else Err (FormatConversionError (CannotConvertString casted "bool") (DString casted))
  | _ => Err (defaultFormatConversionError elem "bool")
  end.

(** The decimal rendering of [fmt.Sprint(elem)] on the types that reach it. *)
Definition sprint_data (elem : data) : option string :=
  match elem with
  | DString s => Some s
  | _ => sprint_int <$> data_int elem
  end.

Definition parseInt (elem : data) (bits : Z) : sdt_res Z :=
  match elem with
  | DBool casted => Ok (if casted then 1 else 0)
  | _ =>
      match sprint_data elem with
      | None => Err (defaultFormatConversionError elem ("int" +:+ sprint_int bits))
      | Some str =>
          match ParseInt str 10 bits with
          | (i, None) => Ok i
          | (_, Some err) =>
              Err (nestedFormatConversionError elem ("int" +:+ sprint_int bits) err)
          end
      end
  end.

Definition parseUint (elem : data) (bits : Z) : sdt_res Z :=
  match elem with
  | DBool casted => Ok (if casted then 1 else 0)
  | _ =>
      match sprint_data elem with
      | None => Err (defaultFormatConversionError elem ("uint" +:+ sprint_int bits))
      | Some str =>
          match ParseUint str 10 bits with
          | (i, None) => Ok i
          | (_, Some err) =>
              Err (nestedFormatConversionError elem ("uint" +:+ sprint_int bits) err)
          end
      end
  end.

Definition getUint8 (elem : data) : sdt_res Z :=
  let? converted := parseUint elem 8 in Ok (wrapU 8 converted).
Definition getInt8 (elem : data) : sdt_res Z :=
  let? converted := parseInt elem 8 in Ok (wrapS 8 converted).
Definition getUint16 (elem : data) : sdt_res Z :=
  let? converted := parseUint elem 16 in Ok (wrapU 16 converted).
Definition getInt16 (elem : data) : sdt_res Z :=
  let? converted := parseInt elem 16 in Ok (wrapS 16 converted).
Definition getUint32 (elem : data) : sdt_res Z :=
  let? converted := parseUint elem 32 in Ok (wrapU 32 converted).
Definition getInt32 (elem : data) : sdt_res Z :=
  let? converted := parseInt elem 32 in Ok (wrapS 32 converted).
Definition getUint64 (elem : data) : sdt_res Z :=
  let? converted := parseUint elem 64 in Ok (wrapU 64 converted).
Definition getInt64 (elem : data) : sdt_res Z :=
  let? converted := parseInt elem 64 in Ok (wrapS 64 converted).

Section arch.
Context `{GoArch}.
Definition uintSize : Z := 8 * sizeof_int.
Definition getUint (elem : data) : sdt_res Z :=
  let? converted := parseUint elem uintSize in Ok (wrapU uintSize converted).
Definition intSize : Z := 8 * sizeof_int.
Definition getInt (elem : data) : sdt_res Z :=
  let? converted := parseInt elem intSize in Ok (wrapS intSize converted).
End arch.

Definition getByteArray (elem : data) : sdt_res (list Byte.byte) :=
  match elem with
  | DBytes casted => Ok casted
  | DString casted => Ok (String.list_byte_of_string casted)
  | _ => Err (defaultFormatConversionError elem "[]uint8")
  end.

Section float.
Context `{GoFloat}.

Definition getFloat32 (elem : data) : sdt_res Z :=
  match elem with
  | DFloat32 casted => Ok casted
  | DString casted =>
      match ParseFloat casted 32 with
      | (f, None) => Ok (float32_of_float64 f)
      | (_, Some err) => Err (nestedFormatConversionError (DString casted) "float32" err)
      end
  | _ => Err (defaultFormatConversionError elem "float32")
  end.

Definition getFloat64 (elem : data) : sdt_res Z :=
  match elem with
  | DFloat64 casted => Ok casted
  | DString casted =>
      match ParseFloat casted 64 with
      | (f, None) => Ok f
      | (_, Some err) => Err (nestedFormatConversionError (DString casted) "float64" err)
      end
  | _ => Err (defaultFormatConversionError elem "float64")
  end.
End float.

Definition getString (elem : data) : sdt_res string :=
  match elem with
  | DString casted => Ok casted
  | _ => Err (defaultFormatConversionError elem "string")
  end.

Definition getWChar (elem : data) : sdt_res Z :=
  match elem with
  | DUint8 casted => Ok (wrapU 16 casted)
  | DInt8 casted => Ok (wrapU 16 casted)
  | DWChar casted => Ok casted
  | DString casted =>
      match casted with
      | String c EmptyString => Ok (code c)
      | _ => Err (FormatConversionError
                    (CannotConvertLength (Z.of_nat (String.length casted)) "sdt.WChar")
                    (DString casted))
      end
  | _ => Err (defaultFormatConversionError elem "sdt.WChar")
  end.

Definition getMap (elem : data) : sdt_res (gmap string data) :=
  match elem with
  | DMap casted => Ok casted
  | _ => Err (defaultFormatConversionError elem "sdt.Map")
  end.

Definition getStream (elem : data) : sdt_res (list data) :=
  match elem with
  | DStream casted => Ok casted
  | _ => Err (defaultFormatConversionError elem "sdt.Stream")
  end.

Definition getQueue (elem : data) : sdt_res Queue :=
  match elem with
  | DDest (DestQueue casted) => Ok casted
  | _ => Err (defaultFormatConversionError elem "*resource.Queue")
  end.

Definition getTopic (elem : data) : sdt_res Topic :=
  match elem with
  | DDest (DestTopic casted) => Ok casted
  | _ => Err (defaultFormatConversionError elem "*resource.Topic")
  end.

Definition getDestination (elem : data) : sdt_res Destination :=
  match elem with
  | DDest casted => Ok casted
  | _ => Err (defaultFormatConversionError elem "resource.Destination")
  end.

(** * Getters of Map

    Every getter looks the key up and converts the element; [map_get] is that common
    body, over the conversion. *)

Definition map_get {A} (get : data → sdt_res A) (sdtMap : gmap string data)
    (key : string) : sdt_res A :=
  match sdtMap !! key with
  | None => Err (KeyNotFoundError key)
  | Some elem => get elem
  end.

(** * Getters of Stream

    [slice_index] is Go's indexing: [None] is the run-time panic for an index out of
    range.  [stream_get] is the common body of the getters, which checks first. *)

Definition slice_index {A} (l : list A) (i : Z) : option A :=
  if (0 <=? i) then l !! Z.to_nat i else None.

Definition stream_get {A} (get : data → sdt_res A) (sdtStream : list data)
    (index : Z) : option (sdt_res A) :=
  if (index >=? Z.of_nat (length sdtStream)) || (index <? 0)
  then Some (Err (OutOfBoundsError index))
  else get <$> slice_index sdtStream index.

Section getters.
Context `{GoArch} `{GoFloat}.

Definition Map_GetBool (sdtMap : gmap string data) (key : string) : sdt_res bool :=
  map_get getBool sdtMap key.
Definition Map_GetByte (sdtMap : gmap string data) (key : string) : sdt_res Z :=
  map_get getUint8 sdtMap key.
Definition Map_GetInt (sdtMap : gmap string data) (key : string) : sdt_res Z :=
  map_get getInt sdtMap key.
Definition Map_GetUInt (sdtMap : gmap string data) (key : string) : sdt_res Z :=
  map_get getUint sdtMap key.
Definition Map_GetInt8 (sdtMap : gmap string data) (key : string) : sdt_res Z :=
  map_get getInt8 sdtMap key.
Definition Map_GetInt16 (sdtMap : gmap string data) (key : string) : sdt_res Z :=
  map_get getInt16 sdtMap key.
Definition Map_GetInt32 (sdtMap : gmap string data) (key : string) : sdt_res Z :=
  map_get getInt32 sdtMap key.
Definition Map_GetInt64 (sdtMap : gmap string data) (key : string) : sdt_res Z :=
  map_get getInt64 sdtMap key.
Definition Map_GetUInt8 (sdtMap : gmap string data) (key : string) : sdt_res Z :=
  map_get getUint8 sdtMap key.
Definition Map_GetUInt16 (sdtMap : gmap string data) (key : string) : sdt_res Z :=
  map_get getUint16 sdtMap key.
Definition Map_GetUInt32 (sdtMap : gmap string data) (key : string) : sdt_res Z :=
  map_get getUint32 sdtMap key.
Definition Map_GetUInt64 (sdtMap : gmap string data) (key : string) : sdt_res Z :=
  map_get getUint64 sdtMap key.
Definition Map_GetFloat32 (sdtMap : gmap string data) (key : string) : sdt_res Z :=
  map_get getFloat32 sdtMap key.
Definition Map_GetFloat64 (sdtMap : gmap string data) (key : string) : sdt_res Z :=
  map_get getFloat64 sdtMap key.
Definition Map_GetString (sdtMap : gmap string data) (key : string) : sdt_res string :=
  map_get getString sdtMap key.
Definition Map_GetWChar (sdtMap : gmap string data) (key : string) : sdt_res Z :=
  map_get getWChar sdtMap key.
Definition Map_GetByteArray (sdtMap : gmap string data) (key : string) : sdt_res (list Byte.byte) :=
  map_get getByteArray sdtMap key.
Definition Map_GetMap (sdtMap : gmap string data) (key : string) : sdt_res (gmap string data) :=
  map_get getMap sdtMap key.
Definition Map_GetStream (sdtMap : gmap string data) (key : string) : sdt_res (list data) :=
  map_get getStream sdtMap key.
Definition Map_GetDestination (sdtMap : gmap string data) (key : string) : sdt_res Destination :=
  map_get getDestination sdtMap key.
Definition Map_GetQueue (sdtMap : gmap string data) (key : string) : sdt_res Queue :=
  map_get getQueue sdtMap key.
Definition Map_GetTopic (sdtMap : gmap string data) (key : string) : sdt_res Topic :=
  map_get getTopic sdtMap key.

Definition Stream_GetBool (sdtStream : list data) (index : Z) : option (sdt_res bool) :=
  stream_get getBool sdtStream index.
Definition Stream_GetByte (sdtStream : list data) (index : Z) : option (sdt_res Z) :=
  stream_get getUint8 sdtStream index.
Definition Stream_GetInt (sdtStream : list data) (index : Z) : option (sdt_res Z) :=
  stream_get getInt sdtStream index.
Definition Stream_GetUInt (sdtStream : list data) (index : Z) : option (sdt_res Z) :=
  stream_get getUint sdtStream index.
Definition Stream_GetInt8 (sdtStream : list data) (index : Z) : option (sdt_res Z) :=
  stream_get getInt8 sdtStream index.
Definition Stream_GetInt16 (sdtStream : list data) (index : Z) : option (sdt_res Z) :=
  stream_get getInt16 sdtStream index.
Definition Stream_GetInt32 (sdtStream : list data) (index : Z) : option (sdt_res Z) :=
  stream_get getInt32 sdtStream index.
Definition Stream_GetInt64 (sdtStream : list data) (index : Z) : option (sdt_res Z) :=
  stream_get getInt64 sdtStream index.
Definition Stream_GetUInt8 (sdtStream : list data) (index : Z) : option (sdt_res Z) :=
  stream_get getUint8 sdtStream index.
Definition Stream_GetUInt16 (sdtStream : list data) (index : Z) : option (sdt_res Z) :=
  stream_get getUint16 sdtStream index.
Definition Stream_GetUInt32 (sdtStream : list data) (index : Z) : option (sdt_res Z) :=
  stream_get getUint32 sdtStream index.
Definition Stream_GetUInt64 (sdtStream : list data) (index : Z) : option (sdt_res Z) :=
  stream_get getUint64 sdtStream index.
Definition Stream_GetFloat32 (sdtStream : list data) (index : Z) : option (sdt_res Z) :=
  stream_get getFloat32 sdtStream index.
Definition Stream_GetFloat64 (sdtStream : list data) (index : Z) : option (sdt_res Z) :=
  stream_get getFloat64 sdtStream index.
Definition Stream_GetString (sdtStream : list data) (index : Z) : option (sdt_res string) :=
  stream_get getString sdtStream index.
Definition Stream_GetWChar (sdtStream : list data) (index : Z) : option (sdt_res Z) :=
  stream_get getWChar sdtStream index.
Definition Stream_GetByteArray (sdtStream : list data) (index : Z) : option (sdt_res (list Byte.byte)) :=
  stream_get getByteArray sdtStream index.
Definition Stream_GetMap (sdtStream : list data) (index : Z) : option (sdt_res (gmap string data)) :=
  stream_get getMap sdtStream index.
Definition Stream_GetStream (sdtStream : list data) (index : Z) : option (sdt_res (list data)) :=
  stream_get getStream sdtStream index.
Definition Stream_GetDestination (sdtStream : list data) (index : Z) : option (sdt_res Destination) :=
  stream_get getDestination sdtStream index.
Definition Stream_GetQueue (sdtStream : list data) (index : Z) : option (sdt_res Queue) :=
  stream_get getQueue sdtStream index.
Definition Stream_GetTopic (sdtStream : list data) (index : Z) : option (sdt_res Topic) :=
  stream_get getTopic sdtStream index.

End getters.

(** * Lemmas *)

(** A value is well typed when the integers in it are in the range of their Go type. *)
Definition int_type_ok `{GoArch} (d : data) : Prop :=
  match d with
  | DInt z => inS intSize z
  | DUint z => inU uintSize z
  | DUint8 z => inU 8 z
  | DInt8 z => inS 8 z
  | DUint16 z => inU 16 z
  | DInt16 z => inS 16 z
  | DUint32 z => inU 32 z
  | DInt32 z => inS 32 z
  | DUint64 z => inU 64 z
  | DInt64 z => inS 64 z
  | DWChar z => inU 16 z
  | _ => True
  end.

Lemma intSize_bits `{GoArch} : intSize = 32 ∨ intSize = 64.
Proof. unfold intSize. destruct sizeof_int_ok; lia. Qed.

Lemma uintSize_bits `{GoArch} : uintSize = 32 ∨ uintSize = 64.
Proof. unfold uintSize. destruct sizeof_int_ok; lia. Qed.

(** A value of an integer type converts exactly when it is in range. *)
Lemma parseInt_integer d z bits :
  2 ≤ bits ≤ 64 → data_int d = Some z →
  parseInt d bits =
    if decide (inS bits z) then Ok z
    else Err (nestedFormatConversionError d ("int" +:+ sprint_int bits)
                (NumError "ParseInt" (sprint_int z) ErrRange)).
Proof.
  intros Hb Hz. pose proof (ParseInt_sprint bits z Hb) as Hp.
  destruct d; simpl in Hz; simplify_eq; simpl; rewrite Hp; by case_decide.
Qed.

Lemma parseUint_integer d z bits :
  1 ≤ bits ≤ 64 → data_int d = Some z →
  parseUint d bits =
    if decide (inU bits z) then Ok z
    else Err (nestedFormatConversionError d ("uint" +:+ sprint_int bits)
                (NumError "ParseUint" (sprint_int z)
                   (if z <? 0 then ErrSyntax else ErrRange))).
Proof.
  intros Hb Hz. pose proof (ParseUint_sprint bits z Hb) as Hp.
  assert (data_int d = Some z → parseUint d bits =
    match ParseUint (sprint_int z) 10 bits with
    | (i, None) => Ok i
    | (_, Some err) =>
        Err (nestedFormatConversionError d ("uint" +:+ sprint_int bits) err)
    end) as Hd by (intros; destruct d; by simplify_eq/=).
  rewrite Hd, Hp by done.
  destruct (z <? 0) eqn:Hn; [case_decide as Hi; [unfold inU in Hi; lia|done]|].
  destruct (z <? 2 ^ bits) eqn:Hm; case_decide as Hi; unfold inU in Hi; done || lia.
Qed.

(** Whatever the value, a successful parse is in the range of the requested type. *)
Lemma parseInt_range d bits v : 2 ≤ bits ≤ 64 → parseInt d bits = Ok v → inS bits v.
Proof.
  intros Hb. pose proof (Z.pow_le_mono_r 2 1 (bits - 1) ltac:(lia) ltac:(lia)).
  assert (inS bits 0 ∧ inS bits 1) as [??] by (unfold inS; lia).
  unfold parseInt. destruct d; try (by intros; repeat case_match; simplify_eq);
    destruct (sprint_data _); try done;
    destruct (ParseInt _ _ _) as [i [e|]] eqn:Hp; intros; simplify_eq;
    apply ParseInt_bound in Hp; done || lia.
Qed.

Lemma parseUint_range d bits v : 1 ≤ bits ≤ 64 → parseUint d bits = Ok v → inU bits v.
Proof.
  intros Hb. pose proof (Z.pow_le_mono_r 2 1 bits ltac:(lia) ltac:(lia)).
  assert (inU bits 0 ∧ inU bits 1) as [??] by (unfold inU; lia).
  unfold parseUint. destruct d; try (by intros; repeat case_match; simplify_eq);
    destruct (sprint_data _); try done;
    destruct (ParseUint _ _ _) as [i [e|]] eqn:Hp; intros; simplify_eq;
    apply ParseUint_bound in Hp; done || lia.
Qed.

#[export] Hint Resolve parseInt_range parseUint_range : sdt.

(** The final narrowing conversion of the integer getters never loses anything. *)
Lemma bind_wrapS d bits :
  2 ≤ bits ≤ 64 →
  (let? converted := parseInt d bits in Ok (wrapS bits converted)) = parseInt d bits.
Proof.
  intros Hb. destruct (parseInt d bits) as [v|e] eqn:Hp; simpl; [|done].
  rewrite wrapS_id; [done|lia|eauto with sdt].
Qed.

Lemma bind_wrapU d bits :
  1 ≤ bits ≤ 64 →
  (let? converted := parseUint d bits in Ok (wrapU bits converted)) = parseUint d bits.
Proof.
  intros Hb. destruct (parseUint d bits) as [v|e] eqn:Hp; simpl; [|done].
  rewrite wrapU_id; [done|eauto with sdt].
Qed.

Lemma slice_index_lookup {A} (l : list A) i :
  0 ≤ i < Z.of_nat (length l) → is_Some (slice_index l i).
Proof.
  intros. unfold slice_index. assert ((0 <=? i) = true) as -> by lia.
  apply lookup_lt_is_Some_2. lia.
Qed.

(** A stream getter never panics, and is the conversion of the element in bounds. *)
Lemma stream_get_spec {A} (get : data → sdt_res A) l i :
  stream_get get l i =
    Some (match (if decide (0 ≤ i) then l !! Z.to_nat i else None) with
          | Some elem => get elem
          | None => Err (OutOfBoundsError i)
          end).
Proof.
  unfold stream_get. destruct (decide (0 ≤ i < Z.of_nat (length l))) as [Hi|Hi].
  - assert ((i >=? Z.of_nat (length l)) || (i <? 0) = false) as ->.
    { apply orb_false_iff. lia. }
    destruct (slice_index_lookup l i Hi) as [x Hx]. rewrite Hx. unfold slice_index in Hx.
    rewrite decide_True by lia.
    assert ((0 <=? i) = true) as Ht by lia. rewrite Ht in Hx. by rewrite Hx.
  - assert ((i >=? Z.of_nat (length l)) || (i <? 0) = true) as ->.
    { apply orb_true_iff. lia. }
    case_decide; [|done]. rewrite lookup_ge_None_2 by lia. done.
Qed.

(** The getters are the parsers at their width. *)
Lemma getters_parse `{GoArch} d :
  getInt8 d = parseInt d 8 ∧ getInt16 d = parseInt d 16 ∧
  getInt32 d = parseInt d 32 ∧ getInt64 d = parseInt d 64 ∧ getInt d = parseInt d intSize ∧
  getUint8 d = parseUint d 8 ∧ getUint16 d = parseUint d 16 ∧
  getUint32 d = parseUint d 32 ∧ getUint64 d = parseUint d 64 ∧
  getUint d = parseUint d uintSize.
Proof.
  pose proof intSize_bits. pose proof uintSize_bits.
  split_and!; (apply bind_wrapS || apply bind_wrapU); lia.
Qed.

Lemma parseInt_string s bits v :
  2 ≤ bits ≤ 64 →
  parseInt (DString s) bits = Ok v ↔ signed_value 10 s = Some v ∧ inS bits v.
Proof.
  intros Hb. rewrite <-ParseInt_ok by lia. simpl.
  destruct (ParseInt s 10 bits) as [i [e|]]; naive_solver.
Qed.

Lemma parseUint_string s bits v :
  1 ≤ bits ≤ 64 →
  parseUint (DString s) bits = Ok v ↔ unsigned_value 10 s = Some v ∧ inU bits v.
Proof.
  intros Hb. pose proof (ParseUint_cases 10 bits s ltac:(lia) Hb) as Hc.
  pose proof (ParseUint_ok 10 bits ltac:(lia) Hb s v) as Hok. simpl.
  rewrite unsigned_value_Some.
  destruct (ParseUint s 10 bits) as [i [e|]]; unfold inU in *.
  - split; [done|]. intros ([Hs Hv]&_&Hlt). apply proj2 in Hok.
    by specialize (Hok (conj Hs (conj Hv Hlt))).
  - rewrite unsigned_value_Some in Hc. split; [intros [= ->]; naive_solver|].
    intros ([Hs Hv]&_&Hlt). apply proj2 in Hok.
    by injection (Hok (conj Hs (conj Hv Hlt))) as ->.
Qed.

(** The type and the conversion of the integer getters, widths and signs. *)
Inductive int_getter `{GoArch} : (data → sdt_res Z) → bool → Z → Prop :=
| ig_int8 : int_getter getInt8 true 8
| ig_int16 : int_getter getInt16 true 16
| ig_int32 : int_getter getInt32 true 32
| ig_int64 : int_getter getInt64 true 64
| ig_int : int_getter getInt true intSize
| ig_uint8 : int_getter getUint8 false 8
| ig_uint16 : int_getter getUint16 false 16
| ig_uint32 : int_getter getUint32 false 32
| ig_uint64 : int_getter getUint64 false 64
| ig_uint : int_getter getUint false uintSize.

Definition in_range (signed : bool) (bits z : Z) : Prop :=
  if signed then inS bits z else inU bits z.

#[export] Instance in_range_dec signed bits z : Decision (in_range signed bits z).
Proof. unfold in_range. destruct signed; apply _. Defined.

Lemma int_getter_parse `{GoArch} get signed bits d :
  int_getter get signed bits →
  8 ≤ bits ≤ 64 ∧ get d = if signed then parseInt d bits else parseUint d bits.
Proof.
  intros Hg. pose proof (getters_parse d). pose proof intSize_bits.
  pose proof uintSize_bits. destruct Hg; destruct_and?; split; (lia || done).
Qed.

(** The getters of Stream and Map, each with the conversion it applies. *)
Inductive getter_pair `{GoArch} `{GoFloat} : ∀ A : Type,
  (list data → Z → option (sdt_res A)) → (gmap string data → string → sdt_res A) →
  (data → sdt_res A) → Prop :=
| gp_GetBool : getter_pair _ Stream_GetBool Map_GetBool getBool
| gp_GetByte : getter_pair _ Stream_GetByte Map_GetByte getUint8
| gp_GetInt : getter_pair _ Stream_GetInt Map_GetInt getInt
| gp_GetUInt : getter_pair _ Stream_GetUInt Map_GetUInt getUint
| gp_GetInt8 : getter_pair _ Stream_GetInt8 Map_GetInt8 getInt8
| gp_GetInt16 : getter_pair _ Stream_GetInt16 Map_GetInt16 getInt16
| gp_GetInt32 : getter_pair _ Stream_GetInt32 Map_GetInt32 getInt32
| gp_GetInt64 : getter_pair _ Stream_GetInt64 Map_GetInt64 getInt64
| gp_GetUInt8 : getter_pair _ Stream_GetUInt8 Map_GetUInt8 getUint8
| gp_GetUInt16 : getter_pair _ Stream_GetUInt16 Map_GetUInt16 getUint16
| gp_GetUInt32 : getter_pair _ Stream_GetUInt32 Map_GetUInt32 getUint32
| gp_GetUInt64 : getter_pair _ Stream_GetUInt64 Map_GetUInt64 getUint64
| gp_GetFloat32 : getter_pair _ Stream_GetFloat32 Map_GetFloat32 getFloat32
| gp_GetFloat64 : getter_pair _ Stream_GetFloat64 Map_GetFloat64 getFloat64
| gp_GetString : getter_pair _ Stream_GetString Map_GetString getString
| gp_GetWChar : getter_pair _ Stream_GetWChar Map_GetWChar getWChar
| gp_GetByteArray : getter_pair _ Stream_GetByteArray Map_GetByteArray getByteArray
| gp_GetMap : getter_pair _ Stream_GetMap Map_GetMap getMap
| gp_GetStream : getter_pair _ Stream_GetStream Map_GetStream getStream
| gp_GetDestination : getter_pair _ Stream_GetDestination Map_GetDestination getDestination
| gp_GetQueue : getter_pair _ Stream_GetQueue Map_GetQueue getQueue
| gp_GetTopic : getter_pair _ Stream_GetTopic Map_GetTopic getTopic.

(** * Properties *)

(** C1: a value of any Go integer type is converted by every integer getter to itself when it
    is in the range of the requested type, and is otherwise rejected with a format
    conversion error that carries the value: no conversion truncates or wraps. *)
Theorem integer_conversion `{GoArch} get signed bits d z :
  int_getter get signed bits → data_int d = Some z →
  (in_range signed bits z → get d = Ok z) ∧
  (¬ in_range signed bits z → ∃ msg, get d = Err (FormatConversionError msg d)).
Proof.
  intros Hg Hd. destruct (int_getter_parse get signed bits d Hg) as [Hb ->].
  unfold in_range. destruct signed.
  - rewrite (parseInt_integer d z bits) by (done || lia).
    case_decide; naive_solver eauto.
  - rewrite (parseUint_integer d z bits) by (done || lia).
    case_decide; naive_solver eauto.
Qed.

(** C2: a string is converted to an integer exactly when it is an optionally signed
    (unsigned for the unsigned types) decimal numeral whose value is in range, and
    the result is that value. *)
Theorem string_conversion `{GoArch} get signed bits s v :
  int_getter get signed bits →
  get (DString s) = Ok v ↔
  (if signed then signed_value 10 s else unsigned_value 10 s) = Some v ∧
  in_range signed bits v.
Proof.
  intros Hg. destruct (int_getter_parse get signed bits (DString s) Hg) as [Hb ->].
  unfold in_range. destruct signed; [apply parseInt_string|apply parseUint_string]; lia.
Qed.

(** C3: whatever the stored value, an integer getter that succeeds returns a value of the range
    of its type, and a boolean one agrees with it: away from strings, a value that
    converts to the integer [v] converts to the boolean [v ≠ 0]. *)
Theorem getter_range_and_bool `{GoArch} get signed bits d v :
  int_getter get signed bits → get d = Ok v →
  in_range signed bits v ∧
  ((∀ s, d ≠ DString s) → getBool d = Ok (negb (v =? 0))).
Proof.
  intros Hg. destruct (int_getter_parse get signed bits d Hg) as [Hb ->].
  intros Hv. split.
  - unfold in_range.
    destruct signed; [apply (parseInt_range d)|apply (parseUint_range d)]; done || lia.
  - intros Hs. destruct (data_int d) as [z|] eqn:Hz.
    + assert (v = z) as ->.
      { destruct signed; [rewrite (parseInt_integer d z bits) in Hv by (done || lia)
          |rewrite (parseUint_integer d z bits) in Hv by (done || lia)];
          case_decide; by simplify_eq. }
      destruct d; by simplify_eq/=.
    + destruct d; simplify_eq/=; try (by destruct signed); try naive_solver.
      by destruct signed; destruct b; simplify_eq.
Qed.

(** A Stream getter never indexes out of range, so it never panics: it answers
    the conversion of the element for an index from 0 up to the length and
    OutOfBoundsError with the index for every other one, negative ones included; the Map
    getter of the same name applies the same conversion to the element under the key and
    answers KeyNotFoundError for a missing key. *)
Theorem getters_total `{GoArch} `{GoFloat} A sget mget (get : data → sdt_res A) :
  getter_pair A sget mget get →
  (∀ l i d, 0 ≤ i → l !! Z.to_nat i = Some d → sget l i = Some (get d)) ∧
  (∀ l i, i < 0 ∨ Z.of_nat (length l) ≤ i → sget l i = Some (Err (OutOfBoundsError i))) ∧
  (∀ m k d, m !! k = Some d → mget m k = get d) ∧
  (∀ m k, m !! k = None → mget m k = Err (KeyNotFoundError k)).
Proof.
  intros Hp.
  assert (sget = stream_get get ∧ mget = map_get get) as [-> ->] by (by destruct Hp).
  split_and!.
  - intros l i d Hi Hd. by rewrite stream_get_spec, decide_True, Hd.
  - intros l i Hi. rewrite stream_get_spec. case_decide; [|done].
    by rewrite lookup_ge_None_2 by lia.
  - intros m k d Hd. unfold map_get. by rewrite Hd.
  - intros m k Hk. unfold map_get. by rewrite Hk.
Qed.

(** * Witnesses *)

Lemma integer_conversion_witness :
  (getInt8 (DInt64 (-128)) = Ok (-128)) ∧
  ∃ msg, getUint16 (DInt32 (-1)) = Err (FormatConversionError msg (DInt32 (-1))).
Proof.
  split.
  - apply (proj1 (integer_conversion getInt8 true 8 (DInt64 (-128)) (-128) ig_int8 eq_refl)).
    vm_compute. split; congruence.
  - apply (proj2 (integer_conversion getUint16 false 16 (DInt32 (-1)) (-1) ig_uint16 eq_refl)).
    vm_compute. intros [H _]. by apply H.
Defined.

Lemma string_conversion_witness : getInt (DString "-42") = Ok (-42).
Proof.
  apply (string_conversion getInt true intSize "-42" (-42) ig_int).
  vm_compute. split; [done|split; congruence].
Defined.

Lemma getter_range_and_bool_witness :
  in_range false 8 7 ∧ getBool (DInt 7) = Ok true.
Proof.
  destruct (getter_range_and_bool getUint8 false 8 (DInt 7) 7 ig_uint8) as [H1 H2].
  - vm_compute. reflexivity.
  - split; [exact H1|]. apply H2. discriminate.
Defined.

Definition no_floats : GoFloat :=
  {| ParseFloat := λ s bits, (0, Some (NumError "ParseFloat" s ErrSyntax));
     float32_of_float64 := id |}.

Lemma getters_total_witness :
  @Stream_GetBool [DInt 1] (-1) = Some (Err (OutOfBoundsError (-1))).
Proof.
  apply (proj1 (proj2
    (@getters_total amd64 no_floats _ _ _ _ (@gp_GetBool amd64 no_floats)))).
  left. lia.
Defined.
