(* ===== verification/SdtContainer.v ===== *)
(** Structured data in messages: the containers of internal/ccsmp/ccsmp_container.go, the
    conversion of structured data to containers in
    internal/impl/message/outbound_message_builder_impl.go and back in message_impl.go.

    The containers themselves are those of the C library, of which the model asks what its
    documentation says ([CContainers]): a container is a sequence of named fields, adding puts
    a field at its end, and a sub-container becomes a field of its parent when it is closed.
    Every call of the library may fail. *)

From Stdlib Require Import ZArith Lia Ascii.
From stdpp Require Import base list gmap strings.
From S2P Require Import Prelude GoStrconv GoEffects Errors Resource Sdt.

#[local] Open Scope Z_scope.

(** * Strings of C *)

(** [C.CString] copies a string, and C reads it up to the first NUL. *)
Fixpoint cstring (s : string) : string :=
  match s with
  | EmptyString => EmptyString
  | String c s => if bool_decide (c = zero) then EmptyString else String c (cstring s)
  end.

(** A string without a NUL. *)
Definition nul_free (s : string) : bool := bool_decide (cstring s = s).

Lemma cstring_idemp s : cstring (cstring s) = cstring s.
Proof.
  induction s as [|c s IH]; simpl; [done|]. case_bool_decide as Hc; simpl; [done|].
  rewrite bool_decide_false by done. by rewrite IH.
Qed.

Lemma cstring_nul_free s : nul_free s = true → cstring s = s.
Proof. unfold nul_free. by intros H%bool_decide_eq_true. Qed.

(** * Fields *)

(** [solClient_destinationType_t]. *)
Inductive destinationType : Type :=
| TopicDestination | TopicTempDestination | QueueDestination | QueueTempDestination
| OtherDestination.

Inductive SolClientOpaqueContainerType : Type :=
| SolClientOpaqueContainerMap | SolClientOpaqueContainerStream.
Inductive SolClientContainerDestType : Type :=
| SolClientContainerDestQueue | SolClientContainerDestTopic.

#[export] Instance container_type_eq_dec : EqDecision SolClientOpaqueContainerType.
Proof. solve_decision. Defined.

(** [destTypeMappingFromCCSMP] and [destTypeMappingToCCSMP]. *)
Definition destTypeMappingFromCCSMP (t : destinationType) : option SolClientContainerDestType :=
  match t with
  | TopicDestination | TopicTempDestination => Some SolClientContainerDestTopic
  | QueueDestination | QueueTempDestination => Some SolClientContainerDestQueue
  | OtherDestination => None
  end.
Definition destTypeMappingToCCSMP (t : SolClientContainerDestType) : destinationType :=
  match t with
  | SolClientContainerDestTopic => TopicTempDestination
  | SolClientContainerDestQueue => QueueDestination
  end.

(** [solClient_field_t]: a type and a value; a string is one of C, that is, what precedes its NUL,
    and a nested container is a container of the library. *)
Inductive SolClientField (K : Type) : Type :=
| FieldBool (b : bool)
| FieldUint8 (z : Z) | FieldInt8 (z : Z) | FieldUint16 (z : Z) | FieldInt16 (z : Z)
| FieldUint32 (z : Z) | FieldInt32 (z : Z) | FieldUint64 (z : Z) | FieldInt64 (z : Z)
| FieldString (s : string)
| FieldBytes (bs : list Byte.byte)
| FieldFloat (bits : Z) | FieldDouble (bits : Z)
| FieldNull
| FieldWChar (z : Z)
| FieldContainer (t : SolClientOpaqueContainerType) (k : K)
| FieldDestination (t : destinationType) (dest : string)
| FieldUnsupported.
Arguments FieldBool {K} b.
Arguments FieldUint8 {K} z.
Arguments FieldInt8 {K} z.
Arguments FieldUint16 {K} z.
Arguments FieldInt16 {K} z.
Arguments FieldUint32 {K} z.
Arguments FieldInt32 {K} z.
Arguments FieldUint64 {K} z.
Arguments FieldInt64 {K} z.
Arguments FieldString {K} s.
Arguments FieldBytes {K} bs.
Arguments FieldFloat {K} bits.
Arguments FieldDouble {K} bits.
Arguments FieldNull {K}.
Arguments FieldWChar {K} z.
Arguments FieldContainer {K} t k.
Arguments FieldDestination {K} t dest.
Arguments FieldUnsupported {K}.

(** The containers of the C library: the functions [solClient_container_add...],
    [..._openSubMap], [..._openSubStream] and [..._closeMapStream], and the sequence of
    fields that [..._getNextField] gives.  A field of a stream has no name.  While a
    sub-container is open its parent is in the state that opening left it in. *)
Class CContainers (K : Type) : Type := {
  container_add : option string → SolClientField K → K → res ErrorInfo K;
  container_openSub : SolClientOpaqueContainerType → option string → K → res ErrorInfo (K * K);
  container_closeSub : K → K → res ErrorInfo K;
  container_fields : K → list (option string * SolClientField K);
  container_depth : K → nat;
}.

(** What their documentation says of them. *)
Class CContainersLaws (K : Type) `{!CContainers K} : Prop := {
  fields_add : ∀ name f k k', container_add name f k = Ok k' →
    container_fields k' = container_fields k ++ [(name, f)];
  fields_open : ∀ t name k k' sub, container_openSub t name k = Ok (k', sub) →
    container_fields sub = [];
  fields_close : ∀ t name k k' sub0 sub k'', container_openSub t name k = Ok (k', sub0) →
    container_closeSub k' sub = Ok k'' →
    container_fields k'' = container_fields k ++ [(name, FieldContainer t sub)];
  depth_fields : ∀ k name t sub, (name, FieldContainer t sub) ∈ container_fields k →
    (container_depth sub < container_depth k)%nat;
}.

Section containers.
Context {K : Type} `{!CContainers K}.

Record SolClientOpaqueContainer : Type := mkContainer {
  pointer : K;
  Type_ : SolClientOpaqueContainerType;
}.

(** ** Writing *)

(** The name of a field: a C string in a map, none in a stream. *)
Definition field_name (c : SolClientOpaqueContainer) (key : string) : option string :=
  match Type_ c with
  | SolClientOpaqueContainerMap => Some (cstring key)
  | SolClientOpaqueContainerStream => None
  end.

Definition add_field (f : SolClientField K) (key : string) (c : SolClientOpaqueContainer)
    : res ErrorInfo SolClientOpaqueContainer :=
  let? k := container_add (field_name c key) f (pointer c) in Ok (mkContainer k (Type_ c)).

Definition ContainerAddBoolean (b : bool) := add_field (FieldBool b).
Definition ContainerAddUint8 (val : Z) := add_field (FieldUint8 val).
Definition ContainerAddUint16 (val : Z) := add_field (FieldUint16 val).
Definition ContainerAddUint32 (val : Z) := add_field (FieldUint32 val).
Definition ContainerAddUint64 (val : Z) := add_field (FieldUint64 val).
Definition ContainerAddInt8 (val : Z) := add_field (FieldInt8 val).
Definition ContainerAddInt16 (val : Z) := add_field (FieldInt16 val).
Definition ContainerAddInt32 (val : Z) := add_field (FieldInt32 val).
Definition ContainerAddInt64 (val : Z) := add_field (FieldInt64 val).
Definition ContainerAddString (val : string) := add_field (FieldString (cstring val)).
Definition ContainerAddBytes (val : list Byte.byte) := add_field (FieldBytes val).
Definition ContainerAddFloat32 (val : Z) := add_field (FieldFloat val).
Definition ContainerAddFloat64 (val : Z) := add_field (FieldDouble val).
Definition ContainerAddNil := add_field FieldNull.
Definition ContainerAddWChar (wchar : Z) := add_field (FieldWChar wchar).
Definition ContainerAddDestination (dest : string) (destType : SolClientContainerDestType) :=
  add_field (FieldDestination (destTypeMappingToCCSMP destType) (cstring dest)).

(** The parent, while the sub-container is open, and the sub-container. *)
Definition open_sub (t : SolClientOpaqueContainerType) (key : string) (c : SolClientOpaqueContainer)
    : res ErrorInfo (SolClientOpaqueContainer * SolClientOpaqueContainer) :=
  let? r := container_openSub t (field_name c key) (pointer c) in
  Ok (mkContainer (fst r) (Type_ c), mkContainer (snd r) t).
Definition ContainerOpenSubMap := open_sub SolClientOpaqueContainerMap.
Definition ContainerOpenSubStream := open_sub SolClientOpaqueContainerStream.

(** [SolClientContainerClose] of a sub-container; the result is its parent. *)
Definition SolClientContainerClose (c sub : SolClientOpaqueContainer)
    : res ErrorInfo SolClientOpaqueContainer :=
  let? k := container_closeSub (pointer c) (pointer sub) in Ok (mkContainer k (Type_ c)).

(** ** Reading *)

(** The fields that the calls of [SolClientContainerGetNextField] give, with their keys. *)
Definition next_fields (c : SolClientOpaqueContainer) : list (string * SolClientField K) :=
  (λ nf, (match Type_ c with
          | SolClientOpaqueContainerMap => default "" nf.1
          | SolClientOpaqueContainerStream => ""
          end, nf.2)) <$> container_fields (pointer c).

(** What [GetData] gives: a value of Go, a container, or a destination. *)
Inductive field_data : Type :=
| PlainData (d : data)
| ContainerData (c : SolClientOpaqueContainer)
| DestData (dest : string) (t : SolClientContainerDestType).

Definition GetData (field : SolClientField K) : option field_data :=
  match field with
  | FieldBool b => Some (PlainData (DBool b))
  | FieldUint8 z => Some (PlainData (DUint8 z))
  | FieldInt8 z => Some (PlainData (DInt8 z))
  | FieldUint16 z => Some (PlainData (DUint16 z))
  | FieldInt16 z => Some (PlainData (DInt16 z))
  | FieldUint32 z => Some (PlainData (DUint32 z))
  | FieldInt32 z => Some (PlainData (DInt32 z))
  | FieldUint64 z => Some (PlainData (DUint64 z))
  | FieldInt64 z => Some (PlainData (DInt64 z))
  | FieldString s => Some (PlainData (DString s))
  | FieldBytes bs => Some (PlainData (DBytes bs))
  | FieldFloat bits => Some (PlainData (DFloat32 bits))
  | FieldDouble bits => Some (PlainData (DFloat64 bits))
  | FieldNull => Some (PlainData DNil)
  | FieldWChar z => Some (PlainData (DWChar z))
  | FieldContainer t k => Some (ContainerData (mkContainer k t))
  | FieldDestination t dest =>
      match destTypeMappingFromCCSMP t with
      | None => None
      | Some destType => Some (DestData dest destType)
      end
  | FieldUnsupported => None
  end.

(** The entries of a container that is a map and those of a stream, with the data of its fields
    read by [parse]. *)
Definition map_of (parse : SolClientField K → option data) (l : list (string * SolClientField K))
    : gmap string data :=
  foldl (λ m nf, match parse nf.2 with Some d => <[nf.1 := d]> m | None => m end) ∅ l.
Definition stream_of (parse : SolClientField K → option data) (l : list (string * SolClientField K))
    : list data := omap (λ nf, parse nf.2) l.

(** [parseData] for at most [fuel] levels of containers. *)
Fixpoint parse_data (fuel : nat) (field : SolClientField K) : option data :=
  match GetData field with
  | None => None
  | Some (PlainData d) => Some d
  | Some (DestData dest SolClientContainerDestQueue) =>
      Some (DDest (DestQueue (QueueDurableExclusive dest)))
  | Some (DestData dest SolClientContainerDestTopic) => Some (DDest (DestTopic (TopicOf dest)))
  | Some (ContainerData casted) =>
      match fuel with
      | O => None
      | S fuel =>
          match Type_ casted with
          | SolClientOpaqueContainerMap => Some (DMap (map_of (parse_data fuel) (next_fields casted)))
          | SolClientOpaqueContainerStream =>
              Some (DStream (stream_of (parse_data fuel) (next_fields casted)))
          end
      end
  end.

(** The levels of a field. *)
Definition field_depth (field : SolClientField K) : nat :=
  match field with FieldContainer _ k => S (container_depth k) | _ => 0 end.
Definition parseData (field : SolClientField K) : option data := parse_data (field_depth field) field.

Definition parseMap (c : SolClientOpaqueContainer) : option (gmap string data) :=
  match Type_ c with
  | SolClientOpaqueContainerMap => Some (map_of parseData (next_fields c))
  | SolClientOpaqueContainerStream => None
  end.
Definition parseStream (c : SolClientOpaqueContainer) : option (list data) :=
  match Type_ c with
  | SolClientOpaqueContainerStream => Some (stream_of parseData (next_fields c))
  | SolClientOpaqueContainerMap => None
  end.
End containers.
Arguments SolClientOpaqueContainer K : clear implicits.
Arguments mkContainer {K} _ _.
Arguments field_data K : clear implicits.

(** * From structured data to containers *)

(** The errors of a conversion: of the library, or data that is not structured data. *)
Inductive build_error : Type :=
| Failed (err : go_error)
| IllegalType (d : data).

Definition native {A} (r : res ErrorInfo A) : res build_error A :=
  match r with Ok a => Ok a | Err info => Err (Failed (ToNativeError info "")) end.

(** The levels of maps and streams in a value. *)
Fixpoint depth (d : data) : nat :=
  match d with
  | DMap m => S (map_fold (λ _ x n, depth x `max` n) 0 m)%nat
  | DStream l => S (list_max (map depth l))
  | _ => 0
  end.

Section write.
Context {K : Type} `{!CContainers K}.
(** The range over a map visits its entries in an unspecified order. *)
Context (order : gmap string data → list (string * data)).

Abbreviation container := (SolClientOpaqueContainer K).

(** The loops of [sdtMapToContainer] and [sdtStreamToContainer]. *)
Fixpoint add_all (add : data → string → container → res build_error container)
    (l : list (string * data)) (c : container) : res build_error container :=
  match l with
  | [] => Ok c
  | (key, item) :: l => let? c := add item key c in add_all add l c
  end.

Definition add_sub (t : SolClientOpaqueContainerType)
    (add : data → string → container → res build_error container)
    (l : list (string * data)) (key : string) (c : container) : res build_error container :=
  let? opened := native (open_sub t key c) in
  let? nested := add_all add l (snd opened) in
  native (SolClientContainerClose (fst opened) nested).

(** [addItemToContainer] for at most [fuel] levels of data. *)
Fixpoint add_item (fuel : nat) (item : data) (key : string) (c : container)
    : res build_error container :=
  match item with
  | DNil => native (ContainerAddNil key c)
  | DBool casted => native (ContainerAddBoolean casted key c)
  | DInt8 casted => native (ContainerAddInt8 casted key c)
  | DInt16 casted => native (ContainerAddInt16 casted key c)
  | DInt32 casted => native (ContainerAddInt32 casted key c)
  | DInt64 casted => native (ContainerAddInt64 casted key c)
  | DInt casted => native (ContainerAddInt64 casted key c)
  | DUint8 casted => native (ContainerAddUint8 casted key c)
  | DUint16 casted => native (ContainerAddUint16 casted key c)
  | DUint32 casted => native (ContainerAddUint32 casted key c)
  | DUint64 casted => native (ContainerAddUint64 casted key c)
  | DUint casted => native (ContainerAddUint64 casted key c)
  | DFloat32 casted => native (ContainerAddFloat32 casted key c)
  | DFloat64 casted => native (ContainerAddFloat64 casted key c)
  | DString casted => native (ContainerAddString casted key c)
  | DBytes casted => native (ContainerAddBytes casted key c)
  | DWChar casted => native (ContainerAddWChar casted key c)
  | DDest (DestTopic casted) =>
      native (ContainerAddDestination (topic_name casted) SolClientContainerDestTopic key c)
  | DDest (DestQueue casted) =>
      native (ContainerAddDestination (queue_name casted) SolClientContainerDestQueue key c)
  | DMap casted =>
      match fuel with
      | O => Err (IllegalType item)
      | S fuel => add_sub SolClientOpaqueContainerMap (add_item fuel) (order casted) key c
      end
  | DStream casted =>
      match fuel with
      | O => Err (IllegalType item)
      | S fuel => add_sub SolClientOpaqueContainerStream (add_item fuel) (pair "" <$> casted) key c
      end
  | _ => Err (IllegalType item)
  end.

Definition addItemToContainer (item : data) : string → container → res build_error container :=
  add_item (depth item) item.
Definition sdtMapToContainer (c : container) (sdtMap : gmap string data) : res build_error container :=
  add_all addItemToContainer (order sdtMap) c.
Definition sdtStreamToContainer (c : container) (sdtStream : list data) : res build_error container :=
  add_all addItemToContainer (pair "" <$> sdtStream) c.
End write.

(** * What is read back *)

(** A message has 64-bit integers only for [int] and [uint], strings of C, and of a queue only its
    name. *)
Fixpoint normalise (d : data) : data :=
  match d with
  | DInt z => DInt64 z
  | DUint z => DUint64 z
  | DString s => DString (cstring s)
  | DDest (DestQueue q) => DDest (DestQueue (QueueDurableExclusive (cstring (queue_name q))))
  | DDest (DestTopic t) => DDest (DestTopic (TopicOf (cstring (topic_name t))))
  | DMap m => DMap (map_imap (λ _ x, Some (normalise x)) m)
  | DStream l => DStream (map normalise l)
  | d => d
  end.

(** The values that are structured data. *)
Fixpoint is_sdt (d : data) : bool :=
  match d with
  | DOther _ | DDest (DestShareName _) | DDest (DestTopicSubscription _) => false
  | DMap m => map_fold (λ _ x b, is_sdt x && b) true m
  | DStream l => forallb is_sdt l
  | _ => true
  end.

(** No key of a map has a NUL in it. *)
Fixpoint keys_ok (d : data) : bool :=
  match d with
  | DMap m => map_fold (λ k x b, nul_free k && keys_ok x && b) true m
  | DStream l => forallb keys_ok l
  | _ => true
  end.

(** ** Folds over the entries of a map *)

Lemma depth_entry m k x : m !! k = Some x → (depth x < depth (DMap m))%nat.
Proof.
  intros Hk. enough (depth x ≤ map_fold (λ _ x n, depth x `max` n) 0 m)%nat by (simpl; lia).
  revert k x Hk. apply (map_fold_weak_ind (λ r m, ∀ k x, m !! k = Some x → (depth x ≤ r)%nat)).
  - intros k x. by rewrite lookup_empty.
  - intros k x m' r _ IH k' x'. rewrite lookup_insert_Some. intros [[_ <-]|[_ Hk']]; [lia|].
    specialize (IH k' x' Hk'). lia.
Qed.

Lemma depth_item l x : x ∈ l → (depth x < depth (DStream l))%nat.
Proof.
  intros Hx. simpl. apply Nat.lt_succ_r. induction l as [|y l IH]; [by apply elem_of_nil in Hx|].
  apply elem_of_cons in Hx as [->|Hx]; simpl; [lia|]. specialize (IH Hx). lia.
Qed.

(** A conjunction over the entries. *)
Lemma fold_conj (f : string → data → bool) (m : gmap string data) :
  map_fold (λ k x b, f k x && b) true m = true ↔ ∀ k x, m !! k = Some x → f k x = true.
Proof.
  apply (map_fold_weak_ind (λ r m, r = true ↔ ∀ k x, m !! k = Some x → f k x = true)).
  - split; [|done]. intros _ k x. by rewrite lookup_empty.
  - intros k x m' r Hk IH. rewrite andb_true_iff, IH. split.
    + intros [Hx Hm] k' x'. rewrite lookup_insert_Some. intros [[<- <-]|[_ ?]]; auto.
    + intros Hm. split; [apply Hm, lookup_insert_eq|]. intros k' x' Hk'. apply Hm.
      rewrite lookup_insert_ne; [done|congruence].
Qed.

Lemma is_sdt_map m : is_sdt (DMap m) = true ↔ ∀ k x, m !! k = Some x → is_sdt x = true.
Proof. apply (fold_conj (λ _ x, is_sdt x)). Qed.

Lemma keys_ok_map m :
  keys_ok (DMap m) = true ↔ ∀ k x, m !! k = Some x → nul_free k = true ∧ keys_ok x = true.
Proof.
  etrans; [apply (fold_conj (λ k x, nul_free k && keys_ok x))|].
  by setoid_rewrite andb_true_iff.
Qed.

Lemma forallb_elem {A} (f : A → bool) l : forallb f l = true ↔ ∀ x, x ∈ l → f x = true.
Proof. rewrite forallb_forall. by setoid_rewrite list_elem_of_In. Qed.

(** Induction on the levels of a value. *)
Lemma data_ind_depth (P : data → Prop) :
  (∀ d, (∀ d', (depth d' < depth d)%nat → P d') → P d) → ∀ d, P d.
Proof.
  intros HP. assert (∀ n d, (depth d < n)%nat → P d) as Hn.
  { induction n as [|n IH]; intros d Hd; [lia|]. apply HP. intros d' Hd'. apply IH. lia. }
  intros d. apply (Hn (S (depth d))). lia.
Qed.

(** * The properties *)

Section properties.
Context {K : Type} `{!CContainers K}.
Context (order : gmap string data → list (string * data)) (Horder : ∀ m, range_order m (order m)).

Abbreviation container := (SolClientOpaqueContainer K).

Lemma order_entry m k x : (k, x) ∈ order m → m !! k = Some x.
Proof using Horder. by rewrite (range_order_elem m (order m)). Qed.

Lemma add_all_ext (add add' : data → string → container → res build_error container) l c :
  (∀ k x, (k, x) ∈ l → ∀ c, add x k c = add' x k c) → add_all add l c = add_all add' l c.
Proof using Type.
  revert c. induction l as [|[k x] l IH]; intros c Hl; [done|]. simpl.
  rewrite (Hl k x) by left. destruct (add' x k c) as [c'|]; [|done]. simpl. apply IH.
  intros k' x' Hin. apply Hl. by right.
Qed.

Lemma add_sub_ext t (add add' : data → string → container → res build_error container) l key c :
  (∀ k x, (k, x) ∈ l → ∀ c, add x k c = add' x k c) → add_sub t add l key c = add_sub t add' l key c.
Proof using Type.
  intros Hl. unfold add_sub. destruct (native (open_sub t key c)) as [opened|]; [|done]. simpl.
  by rewrite (add_all_ext add add').
Qed.

(** More levels than the data has change nothing. *)
Lemma add_item_fuel fuel d key (c : container) :
  (depth d ≤ fuel)%nat → add_item order fuel d key c = addItemToContainer order d key c.
Proof using Horder.
  unfold addItemToContainer. revert fuel key c. induction d as [d IH] using data_ind_depth.
  intros fuel key c Hf.
  assert (∀ n n' k x, (depth x < depth d)%nat → (depth x ≤ n)%nat → (depth x ≤ n')%nat →
    ∀ c : container, add_item order n x k c = add_item order n' x k c) as Hsame.
  { intros n n' k x Hx Hn Hn' c'. by rewrite (IH x Hx n), (IH x Hx n'). }
  destruct d; try (by destruct fuel); destruct fuel as [|fuel]; try (simpl in Hf; lia).
  - cbn [depth add_item]. apply add_sub_ext. intros k x Hin%order_entry c'.
    pose proof (depth_entry m k x Hin) as Hd. cbn [depth] in Hd, Hf.
    apply Hsame; [cbn [depth]; lia|lia..].
  - cbn [depth add_item]. apply add_sub_ext. intros k x (y & [= -> ->] & Hin)%list_elem_of_fmap c'.
    pose proof (depth_item l y Hin) as Hd. cbn [depth] in Hd, Hf.
    apply Hsame; [cbn [depth]; lia|lia..].
Qed.

Lemma addItemToContainer_map m key (c : container) :
  addItemToContainer order (DMap m) key c =
  add_sub SolClientOpaqueContainerMap (addItemToContainer order) (order m) key c.
Proof using Horder.
  unfold addItemToContainer at 1. change (depth (DMap m)) with (S (pred (depth (DMap m)))). cbn [add_item].
  apply add_sub_ext. intros k x Hin%order_entry c'. apply add_item_fuel.
  pose proof (depth_entry m k x Hin). lia.
Qed.

Lemma addItemToContainer_stream l key (c : container) :
  addItemToContainer order (DStream l) key c =
  add_sub SolClientOpaqueContainerStream (addItemToContainer order) (pair "" <$> l) key c.
Proof using Horder.
  unfold addItemToContainer at 1. cbn [depth add_item].
  apply add_sub_ext. intros k x (y & [= -> ->] & Hin)%list_elem_of_fmap c'. apply add_item_fuel.
  pose proof (depth_item l y Hin) as Hd. cbn [depth] in Hd. lia.
Qed.

(** ** What is accepted *)

Lemma native_ok {A} (r : res ErrorInfo A) a : native r = Ok a ↔ r = Ok a.
Proof using Type. destruct r; simpl; naive_solver. Qed.

Lemma add_all_typed l (c : container) :
  (∀ k x, (k, x) ∈ l → ∀ c, match addItemToContainer order x k c with
     | Ok _ => is_sdt x = true | Err (IllegalType _) => is_sdt x = false | Err (Failed _) => True end) →
  match add_all (addItemToContainer order) l c with
  | Ok _ => ∀ k x, (k, x) ∈ l → is_sdt x = true
  | Err (IllegalType _) => ∃ k x, (k, x) ∈ l ∧ is_sdt x = false
  | Err (Failed _) => True
  end.
Proof using Type.
  revert c. induction l as [|[k x] l IH]; intros c Hl; simpl; [by intros k x ?%elem_of_nil|].
  pose proof (Hl k x ltac:(by left) c) as Hx.
  destruct (addItemToContainer order x k c) as [c'|[err|d]]; simpl; [|done|].
  - specialize (IH c' (λ k' x' Hin, Hl k' x' (list_elem_of_further _ _ _ Hin))).
    destruct (add_all _ l c') as [c''|[err|d]]; [|done|].
    + intros k' x' [[= -> ->]|Hin]%elem_of_cons; [done|by eapply IH].
    + destruct IH as (k' & x' & Hin & Hx'). exists k', x'. split; [by right|done].
  - exists k, x. split; [by left|done].
Qed.

Lemma addItem_typed d : ∀ key (c : container),
  match addItemToContainer order d key c with
  | Ok _ => is_sdt d = true
  | Err (IllegalType _) => is_sdt d = false
  | Err (Failed _) => True
  end.
Proof using Horder.
  induction d as [d IH] using data_ind_depth. intros key c.
  assert (∀ {A} (r : res ErrorInfo A) (b : bool), b = true →
    match native r with Ok _ => b = true | Err (IllegalType _) => b = false | Err (Failed _) => True end) as Hn.
  { intros A r b ->. by destruct r. }
  destruct d; try (by apply Hn); try done.
  - rewrite addItemToContainer_map. unfold add_sub.
    destruct (open_sub _ key c) as [[p n]|info]; simpl; [|done].
    pose proof (add_all_typed (order m) n) as Ha.
    specialize (Ha (λ k x Hin, IH x (depth_entry m k x (order_entry m k x Hin)) k)).
    destruct (add_all _ (order m) n) as [n'|[err|d]]; simpl; [|done|].
    + apply (Hn _ _ (is_sdt (DMap m))). apply is_sdt_map. intros k x Hk. apply (Ha k).
      by apply (range_order_elem m (order m)).
    + destruct Ha as (k & x & Hin%order_entry & Hx). apply not_true_iff_false. intros Hm.
      pose proof (proj1 (is_sdt_map m) Hm k x Hin). congruence.
  - rewrite addItemToContainer_stream. unfold add_sub.
    destruct (open_sub _ key c) as [[p n]|info]; simpl; [|done].
    assert (∀ k x, (k, x) ∈ pair "" <$> l → x ∈ l) as Hl.
    { intros k x (y & [= -> ->] & Hin)%list_elem_of_fmap. done. }
    pose proof (add_all_typed (pair "" <$> l) n) as Ha.
    specialize (Ha (λ k x Hin, IH x (depth_item l x (Hl k x Hin)) k)).
    destruct (add_all _ _ n) as [n'|[err|d]]; simpl; [|done|].
    + apply (Hn _ _ (forallb is_sdt l)). apply forallb_elem. intros x Hx. apply (Ha ""%string).
      apply list_elem_of_fmap. by exists x.
    + destruct Ha as (k & x & Hin%Hl & Hx). apply not_true_iff_false. intros Hm.
      pose proof (proj1 (forallb_elem is_sdt l) Hm x Hin). congruence.
  - destruct d as [t|q|sn|t]; [by apply Hn|by apply Hn|done|done].
Qed.

(** What the two conversions accept. *)
Lemma map_typed (m : gmap string data) (c : container) :
  match sdtMapToContainer order c m with
  | Ok _ => is_sdt (DMap m) = true
  | Err (IllegalType _) => is_sdt (DMap m) = false
  | Err (Failed _) => True
  end.
Proof using Horder.
  pose proof (add_all_typed (order m) c (λ k x _, addItem_typed x k)) as Ha. unfold sdtMapToContainer.
  destruct (add_all _ _ c) as [c'|[err|d]]; [|done|].
  + apply is_sdt_map. intros k x Hk. apply (Ha k). by apply (range_order_elem m (order m)).
  + destruct Ha as (k & x & Hin%order_entry & Hx). apply not_true_iff_false. intros Hm.
    pose proof (proj1 (is_sdt_map m) Hm k x Hin). congruence.
Qed.

Lemma stream_typed (l : list data) (c : container) :
  match sdtStreamToContainer order c l with
  | Ok _ => is_sdt (DStream l) = true
  | Err (IllegalType _) => is_sdt (DStream l) = false
  | Err (Failed _) => True
  end.
Proof using Horder.
  pose proof (add_all_typed (pair "" <$> l) c (λ k x _, addItem_typed x k)) as Ha.
  unfold sdtStreamToContainer. destruct (add_all _ _ c) as [c'|[err|d]]; [|done|].
  + apply forallb_elem. intros x Hx. apply (Ha ""%string). apply list_elem_of_fmap. by exists x.
  + destruct Ha as (k & x & (y & [= -> ->] & Hin)%list_elem_of_fmap & Hx). apply not_true_iff_false.
    intros Hm. pose proof (proj1 (forallb_elem is_sdt l) Hm y Hin). congruence.
Qed.

(** C6: the types of a payload: a map (or a stream, or an item) is put into a message only if all
    of it is structured data, and it is refused for its type only if some of it is not,
    whatever the order in which Go visits the map, and whatever the library answers. *)
Theorem payload_typed (m : gmap string data) (l : list data) (c : container) :
  (match sdtMapToContainer order c m with
   | Ok _ => is_sdt (DMap m) = true
   | Err (IllegalType _) => is_sdt (DMap m) = false
   | Err (Failed _) => True
   end) ∧
  (match sdtStreamToContainer order c l with
   | Ok _ => is_sdt (DStream l) = true
   | Err (IllegalType _) => is_sdt (DStream l) = false
   | Err (Failed _) => True
   end).
Proof using Horder. split; [apply map_typed|apply stream_typed]. Qed.
End properties.

(** ** What is read back *)

Section roundtrip.
Context {K : Type} `{!CContainers K} `{!CContainersLaws K}.
Context (order : gmap string data → list (string * data)) (Horder : ∀ m, range_order m (order m)).

Abbreviation container := (SolClientOpaqueContainer K).
Abbreviation fields_of c := (container_fields (pointer c)).

Lemma map_of_ext (parse parse' : SolClientField K → option data) l :
  (∀ nf, nf ∈ l → parse nf.2 = parse' nf.2) → map_of parse l = map_of parse' l.
Proof using Type.
  unfold map_of. generalize (∅ : gmap string data). induction l as [|nf l IH]; intros m Hl; [done|].
  simpl. rewrite (Hl nf) by left. apply IH. intros nf' Hin. apply Hl. by right.
Qed.

Lemma stream_of_cons (parse : SolClientField K → option data) nf l :
  stream_of parse (nf :: l)
  = match parse nf.2 with Some d => d :: stream_of parse l | None => stream_of parse l end.
Proof using Type. done. Qed.

Lemma stream_of_ext (parse parse' : SolClientField K → option data) l :
  (∀ nf, nf ∈ l → parse nf.2 = parse' nf.2) → stream_of parse l = stream_of parse' l.
Proof using Type.
  induction l as [|nf l IH]; intros Hl; [done|].
  rewrite !stream_of_cons, (Hl nf) by left. rewrite IH; [done|]. intros nf' Hin. apply Hl. by right.
Qed.

Lemma next_field_depth (c : container) nf : nf ∈ next_fields c →
  (field_depth nf.2 ≤ container_depth (pointer c))%nat.
Proof using CContainersLaws0.
  unfold next_fields. intros ([name f] & -> & Hin)%list_elem_of_fmap. simpl.
  destruct f; simpl; try lia. by apply depth_fields in Hin.
Qed.

(** More levels than the field has change nothing. *)
Lemma parse_data_fuel n f : (field_depth f ≤ n)%nat → parse_data n f = parseData f.
Proof using CContainersLaws0.
  unfold parseData. revert f. induction n as [n IH] using lt_wf_ind. intros f Hf.
  destruct f as [| | | | | | | | | | | | | | |t k|t dest|]; try (by destruct n); [|by destruct n, t]. simpl in Hf. destruct n as [|n]; [lia|]. cbn [field_depth parse_data GetData Type_].
  assert (∀ nf, nf ∈ next_fields (mkContainer k t) →
    parse_data n nf.2 = parse_data (container_depth k) nf.2) as Hsame.
  { intros nf Hd%next_field_depth. simpl in Hd. destruct (decide (container_depth k = n)) as [->|]; [done|].
    rewrite (IH n) by lia. rewrite (IH (container_depth k)); [done|lia|done]. }
  destruct t; do 2 f_equal; [by apply map_of_ext|by apply stream_of_ext].
Qed.

Lemma parseData_container t (k : K) : parseData (FieldContainer t k) = Some (match t with
  | SolClientOpaqueContainerMap => DMap (map_of parseData (next_fields (mkContainer k t)))
  | SolClientOpaqueContainerStream => DStream (stream_of parseData (next_fields (mkContainer k t)))
  end).
Proof using CContainersLaws0.
  unfold parseData at 1. cbn [field_depth parse_data GetData Type_].
  assert (∀ nf, nf ∈ next_fields (mkContainer k t) → parse_data (container_depth k) nf.2 = parseData nf.2)
    as Hsame.
  { intros nf Hd%next_field_depth. by apply parse_data_fuel. }
  destruct t; do 2 f_equal; [by apply map_of_ext|by apply stream_of_ext].
Qed.

(** What adding an item appends. *)
Definition adds (c c' : container) (key : string) (d : data) : Prop :=
  Type_ c' = Type_ c ∧ ∃ f, fields_of c' = fields_of c ++ [(field_name c key, f)] ∧ parseData f = Some d.

Lemma add_field_adds f key (c c' : container) d :
  native (add_field f key c) = Ok c' → parseData f = Some d → adds c c' key d.
Proof using CContainersLaws0.
  intros Ha%native_ok Hf. unfold add_field in Ha. apply res_bind_ok in Ha as (k & Hk & [= <-]).
  split; [done|]. exists f. split; [by apply fields_add in Hk|done].
Qed.

(** The fields of a container with the data read from them. *)
Definition reads (c : container) (l : list (string * data)) : Prop :=
  Forall2 (λ nf kd, nf.1 = field_name c kd.1 ∧ parseData nf.2 = Some kd.2) (fields_of c) l.

Lemma add_all_reads l (c c' : container) l0 :
  (∀ k x, (k, x) ∈ l → ∀ c c' : container,
     addItemToContainer order x k c = Ok c' → adds c c' k (normalise x)) →
  reads c l0 → add_all (addItemToContainer order) l c = Ok c' →
  Type_ c' = Type_ c ∧ reads c' (l0 ++ ((λ kd, (kd.1, normalise kd.2)) <$> l)).
Proof using Type.
  revert c l0. induction l as [|[k x] l IH]; intros c l0 Hl Hr Ha; simpl in *.
  { injection Ha as <-. rewrite app_nil_r. done. }
  apply res_bind_ok in Ha as (c1 & Hx & Ha).
  destruct (Hl k x ltac:(by left) c c1 Hx) as (Ht & f & Hf & Hp).
  assert (reads c1 (l0 ++ [(k, normalise x)])) as Hr1.
  { unfold reads. rewrite Hf. apply Forall2_app.
    - eapply Forall2_impl; [exact Hr|]. intros nf kd [-> ?]. unfold field_name. by rewrite Ht.
    - constructor; [|constructor]. unfold field_name. rewrite Ht. by split. }
  destruct (IH c1 _ (λ k' x' Hin, Hl k' x' (list_elem_of_further _ _ _ Hin)) Hr1 Ha) as [Ht' Hr'].
  split; [congruence|]. by rewrite <-app_assoc in Hr'.
Qed.

Lemma reads_stream (c : container) l : Type_ c = SolClientOpaqueContainerStream → reads c l →
  stream_of parseData (next_fields c) = l.*2.
Proof using Type.
  unfold reads, next_fields. intros _ Hr. induction Hr as [|nf kd fs l [_ Hp] _ IH]; [done|].
  rewrite fmap_cons, stream_of_cons. simpl. by rewrite Hp, IH.
Qed.

Lemma reads_map (c : container) l : Type_ c = SolClientOpaqueContainerMap → reads c l →
  (∀ kd, kd ∈ l → nul_free kd.1 = true) → NoDup l.*1 →
  map_of parseData (next_fields c) = list_to_map l.
Proof using Type.
  unfold reads, next_fields, map_of. intros Ht Hr Hk Hn.
  assert (∀ m, (∀ k, k ∈ l.*1 → m !! k = None) →
    foldl (λ m nf, match parseData nf.2 with Some d => <[nf.1:=d]> m | None => m end) m
      ((λ nf, (match Type_ c with
          | SolClientOpaqueContainerMap => default "" nf.1
          | SolClientOpaqueContainerStream => "" end, nf.2)) <$> fields_of c)
    = m ∪ (list_to_map l : gmap string data)) as Hfold.
  { revert Hk Hn. induction Hr as [|nf [k d] fs l [Hname Hp] _ IH]; intros Hk Hn m Hm; simpl.
    { by rewrite (right_id_L ∅ (∪)). }
    simpl in Hname, Hp. rewrite Hp, Ht, Hname. unfold field_name. rewrite Ht. simpl.
    rewrite cstring_nul_free by (by apply (Hk (k, d)); left).
    simpl in Hn. apply NoDup_cons in Hn as [Hnk Hn]. rewrite Ht in IH. rewrite IH.
    - rewrite <-insert_union_l. apply insert_union_r, Hm. by left.
    - intros kd Hin. apply Hk. by right.
    - done.
    - intros k' Hin. rewrite lookup_insert_ne; [apply Hm; by right|]. by intros ->. }
  rewrite Hfold; [apply (left_id_L ∅ (∪))|done].
Qed.

Lemma normalise_list_to_map m :
  list_to_map ((λ kd, (kd.1, normalise kd.2)) <$> order m) = map_imap (λ _ x, Some (normalise x)) m.
Proof using Horder.
  apply map_eq. intros k. rewrite map_lookup_imap.
  assert (NoDup ((λ kd, (kd.1, normalise kd.2)) <$> order m).*1) as Hn.
  { rewrite <-list_fmap_compose. by apply (range_order_NoDup m (order m)). }
  destruct (m !! k) as [x|] eqn:Hk; simpl.
  - apply elem_of_list_to_map; [done|]. apply list_elem_of_fmap. exists (k, x). split; [done|].
    by apply (range_order_elem m (order m)).
  - apply not_elem_of_list_to_map_1. rewrite <-list_fmap_compose.
    intros ([k' x] & -> & Hin)%list_elem_of_fmap. apply (range_order_elem m (order m)) in Hin; [|done].
    simpl in Hk. congruence.
Qed.

(** A sub-container becomes one field of its parent. *)
Lemma add_sub_adds t l key (c c' : container) :
  add_sub t (addItemToContainer order) l key c = Ok c' →
  (∀ k x, (k, x) ∈ l → ∀ c c' : container,
     addItemToContainer order x k c = Ok c' → adds c c' k (normalise x)) →
  Type_ c' = Type_ c ∧ ∃ n, Type_ n = t ∧ reads n ((λ kd, (kd.1, normalise kd.2)) <$> l) ∧
    fields_of c' = fields_of c ++ [(field_name c key, FieldContainer t (pointer n))].
Proof using CContainersLaws0.
  intros Ha Hl. unfold add_sub in Ha. apply res_bind_ok in Ha as ([p n0] & Ho%native_ok & Ha).
  unfold open_sub in Ho. apply res_bind_ok in Ho as ([kp kn] & Ho & [= <- <-]). simpl in Ha.
  apply res_bind_ok in Ha as (n & Hadd & Hclose%native_ok).
  unfold SolClientContainerClose in Hclose. apply res_bind_ok in Hclose as (k & Hclose & [= <-]). simpl in Hclose.
  destruct (add_all_reads l (mkContainer kn t) n []) as [Ht Hr]; [done| |done|].
  { unfold reads. simpl. rewrite (fields_open _ _ _ _ _ Ho). constructor. }
  split; [done|]. exists n. split_and!; [done..|]. simpl. by eapply fields_close.
Qed.

Lemma addItem_reads d : keys_ok d = true → ∀ key (c c' : container),
  addItemToContainer order d key c = Ok c' → adds c c' key (normalise d).
Proof using All.
  induction d as [d IH] using data_ind_depth. intros Hd key c c' Ha.
  destruct d; try (by eapply add_field_adds; [exact Ha|]); try done.
  - rewrite addItemToContainer_map in Ha by done. pose proof (proj1 (keys_ok_map m) Hd) as Hk.
    destruct (add_sub_adds _ _ _ _ _ Ha) as (Ht & n & Htn & Hr & Hf).
    { intros k x Hin%(order_entry order Horder) c1 c1'. apply IH; [by eapply depth_entry|by apply (Hk k)]. }
    split; [done|]. exists (FieldContainer SolClientOpaqueContainerMap (pointer n)). split; [done|].
    rewrite parseData_container. cbn [normalise]. do 2 f_equal. rewrite <-normalise_list_to_map.
    destruct n as [n tn]. simpl in *. subst tn. apply (reads_map (mkContainer n _)); [done..| |].
    + intros kd ([k x] & -> & Hin%(order_entry order Horder))%list_elem_of_fmap. by apply (Hk k x).
    + rewrite <-list_fmap_compose. by apply (range_order_NoDup m (order m)).
  - rewrite addItemToContainer_stream in Ha by done. pose proof (proj1 (forallb_elem keys_ok l) Hd) as Hk.
    destruct (add_sub_adds _ _ _ _ _ Ha) as (Ht & n & Htn & Hr & Hf).
    { intros k x (y & [= -> ->] & Hin)%list_elem_of_fmap c1 c1'. apply IH; [by apply depth_item|by apply Hk]. }
    split; [done|]. exists (FieldContainer SolClientOpaqueContainerStream (pointer n)). split; [done|].
    rewrite parseData_container. cbn [normalise]. do 2 f_equal.
    destruct n as [n tn]. simpl in *. subst tn. rewrite (reads_stream (mkContainer n _) _ eq_refl Hr).
    rewrite <-!list_fmap_compose. done.
  - destruct d; [by eapply add_field_adds; [exact Ha|]..|done|done].
Qed.

(** The normal form is one: what has been read is read again as it is. *)
Lemma normalise_idemp d : normalise (normalise d) = normalise d.
Proof using Type.
  induction d as [d IH] using data_ind_depth. destruct d; simpl; try done.
  - by rewrite cstring_idemp.
  - f_equal. apply map_eq. intros k. rewrite !map_lookup_imap.
    destruct (m !! k) as [x|] eqn:Hk; simpl; [|done]. f_equal. apply IH. by eapply depth_entry.
  - f_equal. rewrite map_map. apply map_ext_in. intros x Hx%list_elem_of_In. apply IH. by apply depth_item.
  - destruct d; simpl; by rewrite ?cstring_idemp.
Qed.

(** A map written to a fresh container is read back in its normal form. *)
Lemma map_reads_back (m : gmap string data) (c c' : container) :
  fields_of c = [] → keys_ok (DMap m) = true → Type_ c = SolClientOpaqueContainerMap →
  sdtMapToContainer order c m = Ok c' →
  Type_ c' = SolClientOpaqueContainerMap ∧
  parseMap c' = Some (map_imap (λ _ x, Some (normalise x)) m).
Proof using All.
  intros Hc Hm Ht Ha. assert (reads c []) as Hr by (unfold reads; rewrite Hc; constructor).
  pose proof (proj1 (keys_ok_map m) Hm) as Hk.
  destruct (add_all_reads _ _ _ _ (λ k x Hin,
    addItem_reads x (proj2 (Hk k x (order_entry order Horder m k x Hin))) k) Hr Ha) as [Ht' Hr'].
  split; [congruence|]. unfold parseMap. rewrite Ht', Ht. f_equal. rewrite <-normalise_list_to_map.
  apply reads_map; [congruence|done|..].
  - intros kd ([k x] & -> & Hin%(order_entry order Horder))%list_elem_of_fmap. by apply (Hk k x).
  - rewrite <-list_fmap_compose. by apply (range_order_NoDup m (order m)).
Qed.

Lemma stream_reads_back (l : list data) (c c' : container) :
  fields_of c = [] → keys_ok (DStream l) = true → Type_ c = SolClientOpaqueContainerStream →
  sdtStreamToContainer order c l = Ok c' →
  Type_ c' = SolClientOpaqueContainerStream ∧ parseStream c' = Some (normalise <$> l).
Proof using All.
  intros Hc Hl Ht Ha. assert (reads c []) as Hr by (unfold reads; rewrite Hc; constructor).
  pose proof (proj1 (forallb_elem keys_ok l) Hl) as Hk.
  destruct (add_all_reads (pair "" <$> l) c c' []) as [Ht' Hr']; [|done..|].
  { intros k x (y & [= -> ->] & Hin)%list_elem_of_fmap. by apply addItem_reads, Hk. }
  split; [congruence|]. unfold parseStream. rewrite Ht', Ht. f_equal.
  rewrite (reads_stream c' _ ltac:(congruence) Hr'). simpl. by rewrite <-!list_fmap_compose.
Qed.

(** C5: a map or a stream put into a fresh container is read back from it in its normal form,
    at any depth of nesting and whatever the order in which Go visits the maps: nothing is
    lost or added, every key has its value, streams keep their order; integers of the
    platform come back with 64 bits, strings up to their first NUL, and queues as durable
    exclusive ones.  What has been read back comes back unchanged from then on. *)
Theorem payload_roundtrip (m : gmap string data) (l : list data) (c cm cs : container) :
  fields_of c = [] →
  keys_ok (DMap m) = true → keys_ok (DStream l) = true →
  (Type_ c = SolClientOpaqueContainerMap → sdtMapToContainer order c m = Ok cm →
     parseMap cm = Some (map_imap (λ _ x, Some (normalise x)) m)) ∧
  (Type_ c = SolClientOpaqueContainerStream → sdtStreamToContainer order c l = Ok cs →
     parseStream cs = Some (normalise <$> l)) ∧
  (∀ d, normalise (normalise d) = normalise d).
Proof using All.
  intros Hc Hm Hl. split_and!; [| |apply normalise_idemp].
  - intros Ht Ha. by destruct (map_reads_back m c cm Hc Hm Ht Ha).
  - intros Ht Ha. by destruct (stream_reads_back l c cs Hc Hl Ht Ha).
Qed.
End roundtrip.

(** ** Containers as trees *)

(** A container of the library, as the sequence of its fields; while a sub-container is open,
    with its type and its name. *)
Inductive tree : Type :=
| Tree (opened : option (SolClientOpaqueContainerType * option string))
       (fields : list (option string * SolClientField tree)).

Fixpoint tree_depth (t : tree) : nat :=
  match t with
  | Tree _ l => foldr (λ nf n, match nf with
                               | (_, FieldContainer _ k) => S (tree_depth k) `max` n
                               | _ => n
                               end) 0 l
  end%nat.

Definition tree_error : ErrorInfo := mkErrorInfo ReturnCodeFail None.

#[export] Instance tree_containers : CContainers tree := {
  container_add name f k :=
    match k with
    | Tree None l => Ok (Tree None (l ++ [(name, f)]))
    | _ => Err tree_error
    end;
  container_openSub t name k :=
    match k with
    | Tree None l => Ok (Tree (Some (t, name)) l, Tree None [])
    | _ => Err tree_error
    end;
  container_closeSub k sub :=
    match k with
    | Tree (Some (t, name)) l => Ok (Tree None (l ++ [(name, FieldContainer t sub)]))
    | _ => Err tree_error
    end;
  container_fields k := match k with Tree _ l => l end;
  container_depth := tree_depth;
}.

#[export] Instance tree_containers_laws : CContainersLaws tree.
Proof.
  split.
  - intros name f [[o|] l] k' Hk; [done|]. injection Hk as <-. done.
  - intros t name [[o|] l] k' sub Hk; [done|]. injection Hk as <- <-. done.
  - intros t name [[o|] l] k' sub0 sub k'' Hk Hc; [done|]. injection Hk as <- <-.
    injection Hc as <-. done.
  - intros [o l] name t sub Hin. simpl in *. induction l as [|nf l IH]; [by apply elem_of_nil in Hin|].
    simpl. apply elem_of_cons in Hin as [<-|Hin]; [lia|]. specialize (IH Hin).
    destruct nf as [? []]; lia.
Qed.

Definition sample_data : gmap string data :=
  <["n" := DInt (-5)]> (<["s" := DString "text"]>
  (<["q" := DStream [DDest (DestQueue (QueueNonDurableExclusive "tmp")); DMap {["k" := DNil]}]]> ∅)).
Definition fresh_tree (t : SolClientOpaqueContainerType) : SolClientOpaqueContainer tree :=
  mkContainer (Tree None []) t.

Definition sample_written : SolClientOpaqueContainer tree :=
  match sdtMapToContainer map_to_list (fresh_tree SolClientOpaqueContainerMap) sample_data with
  | Ok c => c
  | Err _ => fresh_tree SolClientOpaqueContainerMap
  end.
Definition stream_written : SolClientOpaqueContainer tree :=
  match sdtStreamToContainer map_to_list (fresh_tree SolClientOpaqueContainerStream) [DMap sample_data] with
  | Ok c => c
  | Err _ => fresh_tree SolClientOpaqueContainerStream
  end.

Lemma fresh_tree_empty t : container_fields (pointer (fresh_tree t)) = [].
Proof. reflexivity. Qed.
Lemma map_to_list_order (m : gmap string data) : range_order m (map_to_list m).
Proof. unfold range_order. reflexivity. Qed.

Lemma payload_typed_witness :
  sdtMapToContainer map_to_list (fresh_tree SolClientOpaqueContainerMap) sample_data = Ok sample_written ∧
  match sdtMapToContainer map_to_list (fresh_tree SolClientOpaqueContainerMap) sample_data with
  | Ok _ => is_sdt (DMap sample_data) = true
  | Err (IllegalType _) => is_sdt (DMap sample_data) = false
  | Err (Failed _) => True
  end.
Proof.
  split; [by vm_compute|].
  apply (payload_typed map_to_list map_to_list_order sample_data [] (fresh_tree SolClientOpaqueContainerMap)).
Defined.

Lemma payload_roundtrip_witness :
  (sdtMapToContainer map_to_list (fresh_tree SolClientOpaqueContainerMap) sample_data = Ok sample_written ∧
   parseMap sample_written = Some (map_imap (λ _ x, Some (normalise x)) sample_data)) ∧
  (sdtStreamToContainer map_to_list (fresh_tree SolClientOpaqueContainerStream) [DMap sample_data]
     = Ok stream_written ∧
   parseStream stream_written = Some (normalise <$> [DMap sample_data])).
Proof.
  assert (keys_ok (DMap sample_data) = true) as Hm by (by vm_compute).
  assert (keys_ok (DStream [DMap sample_data]) = true) as Hl by (by vm_compute).
  assert (sdtMapToContainer map_to_list (fresh_tree SolClientOpaqueContainerMap) sample_data
    = Ok sample_written) as Hwm by (by vm_compute).
  assert (sdtStreamToContainer map_to_list (fresh_tree SolClientOpaqueContainerStream) [DMap sample_data]
    = Ok stream_written) as Hws by (by vm_compute).
  split; (split; [assumption|]).
  - by apply (payload_roundtrip map_to_list map_to_list_order sample_data [DMap sample_data]
      (fresh_tree SolClientOpaqueContainerMap) sample_written stream_written (fresh_tree_empty _) Hm Hl).
  - by apply (payload_roundtrip map_to_list map_to_list_order sample_data [DMap sample_data]
      (fresh_tree SolClientOpaqueContainerStream) sample_written stream_written (fresh_tree_empty _) Hm Hl).
Defined.
