(* ===== verification/Lifecycle.v ===== *)
(** Futures and lifecycles: internal/impl/future/future_error.go and the state machine that
    basicMessagePublisher (publisher/message_publisher_impl.go) and basicMessageReceiver
    (receiver/message_receiver_impl.go) share.

    The two Go types carry the same code with different error texts, so the machine is
    written once over a [texts] record.  Any component that embeds the machine does so
    through the class [HasLifecycle]; its operations are programs of atomic actions, to be
    interleaved with those of every other goroutine. *)

From Stdlib Require Import ZArith Lia.
From stdpp Require Import base list relations strings.
From S2P Require Import Prelude GoEffects GoConc Errors.

(** * Futures *)

Record futureError : Type := mkFuture {
  resolved : bool;
  fresult : option go_error;
}.

#[export] Instance futureError_eq_dec : EqDecision futureError.
Proof. solve_decision. Defined.

Definition NewFutureError : futureError := mkFuture false None.

(** [Complete] overwrites the result and marks the future resolved, under its mutex. *)
Definition Complete {S} (view : S → futureError) (put : futureError → S → S)
    (err : option go_error) : prog S unit :=
  update (put (mkFuture true err)).

(** [Get] waits on the condition until the future is resolved. *)
Definition Get {S} (view : S → futureError) : prog S (option go_error) :=
  action (λ s, if resolved (view s) then AOk (fresult (view s)) s else ABlock).

(** * The state machine *)

Inductive lstate : Type := NotStarted | Starting | Started | Terminating | Terminated.

#[export] Instance lstate_eq_dec : EqDecision lstate.
Proof. solve_decision. Defined.

(** [messagePublisherStateNames] and [messageReceiverStateNames]. *)
Definition stateName (st : lstate) : string :=
  match st with
  | NotStarted => "NotStarted"
  | Starting => "Starting"
  | Started => "Started"
  | Terminating => "Terminating"
  | Terminated => "Terminated"
  end.

Record lifecycle : Type := mkLifecycle {
  state : lstate;
  startFuture : futureError;
  terminateFuture : futureError;
}.

Definition new_lifecycle : lifecycle :=
  mkLifecycle NotStarted NewFutureError NewFutureError.

Definition set_state (st : lstate) (l : lifecycle) : lifecycle :=
  mkLifecycle st (startFuture l) (terminateFuture l).
Definition set_startFuture (f : futureError) (l : lifecycle) : lifecycle :=
  mkLifecycle (state l) f (terminateFuture l).
Definition set_terminateFuture (f : futureError) (l : lifecycle) : lifecycle :=
  mkLifecycle (state l) (startFuture l) f.

(** The texts of the errors, the only difference between publishers and receivers. *)
Record texts : Type := mkTexts {
  UnableToStart : string;
  UnableToStartParentServiceNotStarted : string;
  UnableToTerminate : string;
}.

Definition publisher_texts : texts := mkTexts
  "cannot start the publisher as it has already been terminated"
  "cannot start publisher unless parent MessagingService is connected"
  "cannot terminate the publisher as it has not been started".

Definition receiver_texts : texts := mkTexts
  "cannot start the receiver as it has already been terminated"
  "cannot start receiver unless parent MessagingService is connected"
  "cannot terminate the receiver as it has not been started".

(** A state that contains the machine, and the service it asks whether it is running. *)
Class HasLifecycle (S : Type) : Type := {
  lc : S → lifecycle;
  put_lc : lifecycle → S → S;
  parent_running : S → bool;
  lc_put : ∀ l s, lc (put_lc l s) = l;
  parent_put : ∀ l s, parent_running (put_lc l s) = parent_running s;
}.

Section operations.
Context {S : Type} `{!HasLifecycle S} (txt : texts).

Definition state_of (s : S) : lstate := state (lc s).
Definition put_state (st : lstate) (s : S) : S := put_lc (set_state st (lc s)) s.

Definition getState : prog S lstate := load state_of.

Definition IsRunning : prog S bool := load (λ s, bool_decide (state_of s = Started)).
Definition IsTerminated : prog S bool := load (λ s, bool_decide (state_of s = Terminated)).
Definition IsTerminating : prog S bool := load (λ s, bool_decide (state_of s = Terminating)).

Definition getStartFuture : prog S (option go_error) := Get (λ s, startFuture (lc s)).
Definition getTerminateFuture : prog S (option go_error) :=
  Get (λ s, terminateFuture (lc s)).
Definition completeStartFuture (err : option go_error) : prog S unit :=
  Complete (λ s, startFuture (lc s)) (λ f s, put_lc (set_startFuture f (lc s)) s) err.
Definition completeTerminateFuture (err : option go_error) : prog S unit :=
  Complete (λ s, terminateFuture (lc s)) (λ f s, put_lc (set_terminateFuture f (lc s)) s) err.

Definition checkStartupStateAndWait (currentState : lstate) : prog S (option go_error) :=
  if decide (currentState ≠ Terminating ∧ currentState ≠ Terminated)
  then getStartFuture
  else PRet (Some (NewError IllegalStateError (UnableToStart txt) None)).

(** [starting]: whether the caller should proceed with the start, and the error otherwise. *)
Definition starting : prog S (bool * option go_error) :=
  let! currentState := getState in
  if decide (currentState ≠ NotStarted) then
    let! err := checkStartupStateAndWait currentState in PRet (false, err)
  else
    let! running := load parent_running in
    if negb running then
      PRet (false, Some (NewError IllegalStateError
                           (UnableToStartParentServiceNotStarted txt) None))
    else
      let! success := compare_and_swap state_of put_state NotStarted Starting in
      if negb success then
        let! currentState := getState in
        let! err := checkStartupStateAndWait currentState in PRet (false, err)
      else PRet (true, None).

(** [started] sets the state to started and completes the start future. *)
Definition started (err : option go_error) : prog S unit :=
  store put_state Started ;;;; completeStartFuture err.

Definition checkTerminateStateAndWait (currentState : lstate) : prog S (option go_error) :=
  if decide (currentState = Terminating ∨ currentState = Terminated)
  then getTerminateFuture
  else PRet (Some (NewError IllegalStateError (UnableToTerminate txt) None)).

Definition terminate : prog S (bool * option go_error) :=
  let! success := compare_and_swap state_of put_state Started Terminating in
  if negb success then
    let! currentState := getState in
    let! swapped := (if decide (currentState = NotStarted)
               then compare_and_swap state_of put_state NotStarted Terminated
               else PRet false) in
    if (swapped : bool) then
      completeTerminateFuture None ;;;; PRet (false, None)
    else
      let! err := checkTerminateStateAndWait currentState in PRet (false, err)
  else PRet (true, None).

Definition terminated (err : option go_error) : prog S unit :=
  store put_state Terminated ;;;; completeTerminateFuture err.

(** [checkStartedStateForPublish] of the publisher; [None] lets the publish go on. *)
Definition checkStartedStateForPublish : prog S (option go_error) :=
  let! currentState := getState in
  PRet (if decide (currentState ≠ Started) then
          if decide (currentState = Terminating ∨ currentState = Terminated)
          then Some (NewError IllegalStateError
                 "unable to publish message: message publisher has been terminated" None)
          else Some (NewError IllegalStateError
                 ("unable to publish message: message publisher is not started. current state: "
                  +:+ stateName currentState) None)
        else None).
End operations.

(** The receiver's copies of the operations (receiver/message_receiver_impl.go), and the
    publisher's (publisher/message_publisher_impl.go). *)
Section copies.
Context {S : Type} `{!HasLifecycle S}.
Definition publisher_starting : prog S (bool * option go_error) := starting publisher_texts.
Definition publisher_terminate : prog S (bool * option go_error) := terminate publisher_texts.
Definition receiver_starting : prog S (bool * option go_error) := starting receiver_texts.
Definition receiver_checkStartup : lstate → prog S (option go_error) :=
  checkStartupStateAndWait receiver_texts.
Definition receiver_started : option go_error → prog S unit := started.
Definition receiver_terminate : prog S (bool * option go_error) := terminate receiver_texts.
Definition receiver_checkTerminate : lstate → prog S (option go_error) :=
  checkTerminateStateAndWait receiver_texts.
Definition receiver_terminated : option go_error → prog S unit := terminated.
End copies.

(** [Start] around its [body], as every publisher and receiver writes it: a failed start
    goes straight to the terminated state and completes both futures. *)
Definition start_around {S} `{!HasLifecycle S} (txt : texts)
    (body : prog S (option go_error)) : prog S (option go_error) :=
  let! r := starting txt in
  if negb (fst r) then PRet (snd r)
  else
    let! err := body in
    match err with
    | None => started None ;;;; PRet None
    | Some _ => terminated None ;;;; completeStartFuture err ;;;; PRet err
    end.

(** [Terminate] around its [body]. *)
Definition terminate_around {S} `{!HasLifecycle S} (txt : texts)
    (body : prog S (option go_error)) : prog S (option go_error) :=
  let! r := terminate txt in
  if negb (fst r) then PRet (snd r)
  else let! err := body in terminated err ;;;; PRet err.

(** * Protocol of the machine *)

(** The legal moves of the state, and its order of progress. *)
Definition lstate_rank (st : lstate) : nat :=
  match st with
  | NotStarted => 0 | Starting => 1 | Started => 2 | Terminating => 3 | Terminated => 4
  end.

Definition lstate_move (a b : lstate) : Prop :=
  a = b ∨ (a = NotStarted ∧ b = Starting) ∨ (a = Starting ∧ b = Started) ∨
  (a = Started ∧ b = Terminating) ∨ (a = Terminating ∧ b = Terminated) ∨
  (a = NotStarted ∧ b = Terminated) ∨ (a = Starting ∧ b = Terminated).

Lemma lstate_move_rank a b : lstate_move a b → lstate_rank a ≤ lstate_rank b.
Proof. unfold lstate_move. naive_solver lia. Qed.

(** The two sections of a lifecycle, and whether the state is past the entry of one. *)
Inductive phase : Type := StartPhase | TermPhase.

#[export] Instance phase_eq_dec : EqDecision phase.
Proof. solve_decision. Defined.

Definition passed (st : lstate) (ph : phase) : bool :=
  match ph, st with
  | StartPhase, NotStarted => false
  | StartPhase, _ => true
  | TermPhase, (Terminating | Terminated) => true
  | TermPhase, _ => false
  end.

(** The permits of the machine: to be inside a section, to do one of the actions [X] of a
    section, and those [Y] of the component that embeds it. *)
Inductive lc_permit (X Y : Type) : Type :=
| InPhase (ph : phase) | Once (x : X) | Extra (y : Y).
Arguments InPhase {X Y} ph.
Arguments Once {X Y} x.
Arguments Extra {X Y} y.

#[export] Instance lc_permit_eq_dec {X Y} `{EqDecision X, EqDecision Y} :
  EqDecision (lc_permit X Y).
Proof. solve_decision. Defined.

(** The state in which the goroutine inside a section finds the machine. *)
Definition inside (ph : phase) : lstate :=
  match ph with StartPhase => Starting | TermPhase => Terminating end.

Section protocol.
Context {S : Type} `{!HasLifecycle S}.
(** What the component that embeds the machine adds: its invariant and its relation, and
    the actions of type [X] that only the goroutine inside a section may do, once. *)
Context (Inv : S → Prop) (R : S → S → Prop).
Context {X : Type} `{!EqDecision X} (gate : X → phase) (spent : S → X → bool).
(** Permits of the component itself: how many of a kind the state holds. *)
Context {Y : Type} `{!EqDecision Y} (extra : S → Y → nat).

(** Actions on the machine are acceptable to the component, *)
Class EmbedsLifecycle : Prop := {
  embeds_refl : ∀ s, R s s;
  embeds_state : ∀ s st, Inv s → lstate_move (state_of s) st → st ≠ Started →
    Inv (put_state st s) ∧ R s (put_state st s);
  embeds_start : ∀ s f, Inv s →
    Inv (put_lc (set_startFuture f (lc s)) s) ∧ R s (put_lc (set_startFuture f (lc s)) s);
  embeds_term : ∀ s f, Inv s →
    Inv (put_lc (set_terminateFuture f (lc s)) s) ∧
    R s (put_lc (set_terminateFuture f (lc s)) s);
  embeds_spent : ∀ s l x, spent (put_lc l s) x = spent s x;
  embeds_entered : ∀ s x, Inv s → passed (state_of s) (gate x) = false → spent s x = false;
  embeds_extra : ∀ s l y, extra (put_lc l s) y = extra s y;
}.
(** and so is the end of a start, whatever the start section has done. *)
Class StartsFreely : Prop :=
  starts_freely : ∀ s, Inv s → state_of s = Starting →
    Inv (put_state Started s) ∧ R s (put_state Started s).
Context `{!EmbedsLifecycle}.

(** Permits: to be inside a section, to do one of its actions, and those of the component.
    The state holds the permit of a section whenever no goroutine is inside it, and that of
    an action before the section is entered and after the action is done. *)
Abbreviation permit := (lc_permit X Y).

Definition lc_held (s : S) (p : permit) : nat :=
  match p with
  | InPhase ph => if decide (state_of s = inside ph) then 0 else 1
  | Once x => if passed (state_of s) (gate x) && negb (spent s x) then 0 else 1
  | Extra y => extra s y
  end.

Definition no_permit : permit → nat := λ _, 0.
Definition lc_total : permit → nat := λ _, 1.

(** What entering a section gives. *)
Definition grant (ph : phase) : permit → nat := λ p,
  match p with
  | InPhase ph' => if decide (ph' = ph) then 1 else 0
  | Once x => if decide (gate x = ph) then 1 else 0
  | Extra y => 0
  end.

(** What is left after an action is done. *)
Definition without (n : permit → nat) (x : X) : permit → nat := λ p,
  if decide (p = Once x) then 0 else n p.

Abbreviation lproto := (proto Inv R lc_held lc_total).
Abbreviation fitting := (fits lc_held lc_total).

Lemma state_of_put_state st s : state_of (put_state st s) = st.
Proof. unfold state_of, put_state. by rewrite lc_put. Qed.

Lemma state_of_put_start f s :
  state_of (put_lc (set_startFuture f (lc s)) s) = state_of s.
Proof. unfold state_of. by rewrite lc_put. Qed.

Lemma state_of_put_term f s :
  state_of (put_lc (set_terminateFuture f (lc s)) s) = state_of s.
Proof. unfold state_of. by rewrite lc_put. Qed.

(** The owner of a section's permit knows the state of the machine. *)
Lemma fits_inside s n ph : fitting s n → 1 ≤ n (InPhase ph) → state_of s = inside ph.
Proof using Type.
  intros Hf Hn. specialize (Hf (InPhase ph)). unfold lc_total in Hf. simpl in Hf.
  case_decide; [done|lia].
Qed.

(** The owner of an action's permit knows that the action is not done. *)
Lemma fits_unspent s n x : fitting s n → 1 ≤ n (Once x) →
  passed (state_of s) (gate x) = true ∧ spent s x = false.
Proof using Type.
  intros Hf Hn. specialize (Hf (Once x)). unfold lc_total in Hf. simpl in Hf.
  destruct (passed _ _), (spent s x); simpl in *; first [done|lia].
Qed.

(** Actions that move neither the machine nor the permits. *)
Lemma proto_keep {V B} (f : S → act S V) n (k : V → prog S B) Q :
  (∀ s, Inv s → fitting s n →
    match f s with
    | AOk v s' => Inv s' ∧ R s s' ∧ state_of s' = state_of s ∧
                  (∀ x, spent s' x = spent s x) ∧ (∀ y, extra s' y = extra s y) ∧
                  lproto n (k v) Q
    | ABlock => True
    | APanic _ => False
    end) →
  lproto n (PAct f k) Q.
Proof using All.
  intros Hk. simpl. intros s Hs Hf. specialize (Hk s Hs Hf). destruct (f s) as [v s'| |]; [|done..].
  destruct Hk as (? & ? & Hst & Hsp & Hex & ?). split_and!; [done..|]. exists n. split; [|done].
  intros [ph|x|y]; simpl; rewrite ?Hst, ?Hsp, ?Hex; lia.
Qed.

(** An action that its owner does once. *)
Lemma proto_once x {V B} (f : S → act S V) n (k : V → prog S B) Q :
  n (Once x) = 1 →
  (∀ s, Inv s → fitting s n → passed (state_of s) (gate x) = true → spent s x = false →
    match f s with
    | AOk v s' => Inv s' ∧ R s s' ∧ state_of s' = state_of s ∧
                  (∀ y, y ≠ x → spent s' y = spent s y) ∧ (∀ y, extra s' y = extra s y) ∧
                  lproto (without n x) (k v) Q
    | ABlock => True
    | APanic _ => False
    end) →
  lproto n (PAct f k) Q.
Proof using All.
  intros Hn Hk. simpl. intros s Hs Hf.
  destruct (fits_unspent s n x Hf) as [Hp Hsp]; [lia|].
  specialize (Hk s Hs Hf Hp Hsp). destruct (f s) as [v s'| |]; [|done..].
  destruct Hk as (? & ? & Hst & Hsp' & Hex & ?). split_and!; [done..|]. exists (without n x).
  split; [|done]. unfold without.
  intros [ph|y|y]; simpl; rewrite ?Hst, ?Hex; [lia| |lia].
  destruct (decide (y = x)) as [->|Hy].
  - rewrite decide_True by done. rewrite Hp, Hsp, Hn. simpl. case_match; lia.
  - rewrite decide_False by congruence. rewrite Hsp' by done. lia.
Qed.

(** A read. *)
Lemma proto_load {V B} (view : S → V) n (k : V → prog S B) Q :
  (∀ v, lproto n (k v) Q) → lproto n (pbind (load view) k) Q.
Proof using All.
  intros Hk. apply proto_keep. intros s Hs _. split_and!; [done|apply embeds_refl|done..|apply Hk].
Qed.

Lemma proto_get {B} (view : S → futureError) n (k : option go_error → prog S B) Q :
  (∀ v, lproto n (k v) Q) → lproto n (pbind (Get view) k) Q.
Proof using All.
  intros Hk. apply proto_keep. intros s Hs _. destruct (resolved (view s)); [|done].
  split_and!; [done|apply embeds_refl|done..|apply Hk].
Qed.

Lemma proto_complete_start {B} err n (k : unit → prog S B) Q :
  lproto n (k tt) Q → lproto n (pbind (completeStartFuture err) k) Q.
Proof using All.
  intros Hk. apply proto_keep. intros s Hs _. destruct (embeds_start s (mkFuture true err) Hs).
  split_and!; [done|done|apply state_of_put_start|intros; apply embeds_spent|
    intros; apply embeds_extra|done].
Qed.

Lemma proto_complete_term {B} err n (k : unit → prog S B) Q :
  lproto n (k tt) Q → lproto n (pbind (completeTerminateFuture err) k) Q.
Proof using All.
  intros Hk. apply proto_keep. intros s Hs _. destruct (embeds_term s (mkFuture true err) Hs).
  split_and!; [done|done|apply state_of_put_term|intros; apply embeds_spent|
    intros; apply embeds_extra|done].
Qed.

(** A move of the machine hands over and takes back the permits of the move. *)
Lemma lc_held_put_state s st p :
  lc_held (put_state st s) p =
  match p with
  | InPhase ph => if decide (st = inside ph) then 0 else 1
  | Once x => if passed st (gate x) && negb (spent s x) then 0 else 1
  | Extra y => extra s y
  end.
Proof using All.
  destruct p as [ph|x|y]; simpl; rewrite ?state_of_put_state; unfold put_state; [done|..].
  - by rewrite embeds_spent.
  - by rewrite embeds_extra.
Qed.

Lemma proto_cas {B} a b n n' (k : bool → prog S B) Q :
  lstate_move a b → b ≠ Started →
  (∀ s, Inv s → state_of s = a → conserves lc_held s n (put_state b s) n') →
  lproto n' (k true) Q → lproto n (k false) Q →
  lproto n (pbind (compare_and_swap state_of put_state a b) k) Q.
Proof using All.
  intros Hmove Hne Hn Ht Hf. simpl. intros s Hs _. case_decide as Hst; simpl.
  - subst a. destruct (embeds_state s b Hs Hmove Hne). split_and!; [done|done|].
    exists n'. split; [by apply Hn|done].
  - split_and!; [done|apply embeds_refl|]. exists n. split; [intros x; lia|done].
Qed.

(** A store by the goroutine inside a section gives up its permits. *)
Lemma store_conserves ph b s n :
  lstate_move (inside ph) b → inside ph ≠ b → n (InPhase ph) = 1 →
  (∀ p, p ≠ ph → b ≠ inside p) → state_of s = inside ph → fitting s n →
  conserves lc_held s n (put_state b s) no_permit.
Proof using All.
  intros Hmove Hne Hn Hb Ha Hfit p. rewrite lc_held_put_state.
  unfold no_permit. pose proof (Hfit p) as Hp. unfold lc_total in Hp.
  destruct p as [q|x|y]; simpl in *; [| |lia].
  - destruct (decide (q = ph)) as [->|Hq].
    + rewrite Hn. repeat case_decide; try congruence; lia.
    + rewrite Ha, (decide_False (P := inside ph = inside q)); [rewrite (decide_False (P := b = inside q)) by auto; lia|].
      destruct ph, q; simpl in *; congruence.
  - assert (passed (state_of s) (gate x) = true → passed b (gate x) = true) as Hm.
    { rewrite Ha. intros Hpass.
      destruct ph, (gate x), b; simpl in *; unfold lstate_move in Hmove; naive_solver. }
    destruct (passed (state_of s) (gate x)); simpl in *.
    + rewrite Hm by done. simpl. lia.
    + case_match; lia.
Qed.

Lemma proto_store {B} ph b n (k : unit → prog S B) Q :
  lstate_move (inside ph) b → inside ph ≠ b → n (InPhase ph) = 1 →
  (∀ p, p ≠ ph → b ≠ inside p) →
  (∀ s, Inv s → state_of s = inside ph → Inv (put_state b s) ∧ R s (put_state b s)) →
  lproto no_permit (k tt) Q → lproto n (pbind (store put_state b) k) Q.
Proof using All.
  intros Hmove Hne Hn Hb Hemb Hk. simpl. intros s Hs Hfit.
  assert (state_of s = inside ph) as Ha by (eapply fits_inside; [done|lia]).
  destruct (Hemb s Hs Ha). split_and!; [done|done|].
  exists no_permit. split; [|done]. by eapply store_conserves.
Qed.

Lemma proto_ret {B} n (b : B) (Q : B → (permit → nat) → Prop) : Q b n → lproto n (PRet b) Q.
Proof using Type. done. Qed.

Lemma proto_checkStartup {B} txt st n (k : option go_error → prog S B) Q :
  (∀ v, lproto n (k v) Q) → lproto n (pbind (checkStartupStateAndWait txt st) k) Q.
Proof using All.
  intros Hk. unfold checkStartupStateAndWait. case_decide; [by apply proto_get|apply Hk].
Qed.

Lemma proto_checkTerminate {B} txt st n (k : option go_error → prog S B) Q :
  (∀ v, lproto n (k v) Q) → lproto n (pbind (checkTerminateStateAndWait txt st) k) Q.
Proof using All.
  intros Hk. unfold checkTerminateStateAndWait. case_decide; [by apply proto_get|apply Hk].
Qed.

(** Entering the start section takes its permits; every other outcome takes none. *)
Lemma proto_starting txt Q :
  (∀ err, Q (false, err) no_permit) → Q (true, None) (grant StartPhase) →
  lproto no_permit (starting txt) Q.
Proof using All.
  intros Hf Ht. unfold starting, getState. apply proto_load. intros st. case_decide.
  { apply proto_checkStartup. intros v. apply Hf. }
  apply proto_load. intros [|]; simpl; [|apply Hf].
  apply (proto_cas NotStarted Starting no_permit (grant StartPhase)).
  - unfold lstate_move. tauto.
  - done.
  - intros s' Hs' Hst [[]|x|y]; rewrite lc_held_put_state; simpl; rewrite ?Hst; simpl; [lia..| |lia].
    pose proof (embeds_entered s' x Hs') as Hx. rewrite Hst in Hx.
    destruct (gate x), (spent s' x); simpl in *; first [lia|naive_solver].
  - apply Ht.
  - apply proto_load. intros st'. apply proto_checkStartup. intros v. apply Hf.
Qed.

Lemma proto_terminate txt Q :
  (∀ err, Q (false, err) no_permit) → Q (true, None) (grant TermPhase) →
  lproto no_permit (terminate txt) Q.
Proof using All.
  intros Hf Ht. unfold terminate, getState.
  apply (proto_cas Started Terminating no_permit (grant TermPhase)).
  - unfold lstate_move. tauto.
  - done.
  - intros s' Hs' Hst [[]|x|y]; rewrite lc_held_put_state; simpl; rewrite ?Hst; simpl; [lia..| |lia].
    pose proof (embeds_entered s' x Hs') as Hx. rewrite Hst in Hx.
    destruct (gate x), (spent s' x); simpl in *; first [lia|naive_solver].
  - apply Ht.
  - apply proto_load. intros st.
    assert (∀ st, lproto no_permit
      (let! err := checkTerminateStateAndWait txt st in PRet (false, err)) Q) as Hwait.
    { intros st'. apply proto_checkTerminate. intros v. apply Hf. }
    case_decide; [|apply Hwait].
    apply (proto_cas NotStarted Terminated no_permit no_permit).
    + unfold lstate_move. tauto.
    + done.
    + intros s' Hs' Hst [[]|x|y]; rewrite lc_held_put_state; simpl; rewrite ?Hst; simpl; [lia..| |lia].
    pose proof (embeds_entered s' x Hs') as Hx. rewrite Hst in Hx.
      destruct (gate x), (spent s' x); simpl in *; first [lia|naive_solver].
    + apply proto_complete_term. apply Hf.
    + apply Hwait.
Qed.

Lemma proto_started `{!StartsFreely} {B} err n (k : unit → prog S B) Q :
  n (InPhase StartPhase) = 1 → lproto no_permit (k tt) Q → lproto n (pbind (started err) k) Q.
Proof using All.
  intros Hn Hk. apply (proto_store StartPhase); [unfold lstate_move; tauto|done|done| | |].
  - by intros [].
  - apply starts_freely.
  - by apply proto_complete_start.
Qed.

Lemma proto_terminated {B} ph err n (k : unit → prog S B) Q :
  n (InPhase ph) = 1 → lproto no_permit (k tt) Q → lproto n (pbind (terminated err) k) Q.
Proof using All.
  intros Hn Hk. apply (proto_store ph); [destruct ph; unfold lstate_move; tauto|by destruct ph|done| | |].
  - by intros [].
  - intros s Hs Ha. apply embeds_state; [done| |done]. rewrite Ha. destruct ph; unfold lstate_move; tauto.
  - by apply proto_complete_term.
Qed.

(** A whole [Start]: its body owns the section, and keeps the right to leave it. *)
Lemma proto_start_around `{!StartsFreely} txt body Q :
  lproto (grant StartPhase) body (λ err n, n (InPhase StartPhase) = 1) →
  (∀ err, Q err no_permit) →
  lproto no_permit (start_around txt body) Q.
Proof using All.
  intros Hbody HQ. unfold start_around. apply proto_bind, proto_starting; simpl; [done|].
  apply proto_bind. eapply proto_weaken; [|exact Hbody]. intros [err|] n Hn.
  - apply (proto_terminated StartPhase); [done|]. apply proto_complete_start. apply HQ.
  - apply proto_started; [done|]. apply HQ.
Qed.

Lemma proto_terminate_around txt body Q :
  lproto (grant TermPhase) body (λ err n, n (InPhase TermPhase) = 1) →
  (∀ err, Q err no_permit) →
  lproto no_permit (terminate_around txt body) Q.
Proof using All.
  intros Hbody HQ. unfold terminate_around. apply proto_bind, proto_terminate; simpl; [done|].
  apply proto_bind. eapply proto_weaken; [|exact Hbody]. intros err n Hn.
  apply (proto_terminated TermPhase); [done|]. apply HQ.
Qed.
End protocol.

(** * Any number of callers of one publisher or receiver *)

Module Callers.

(** The object, its parent service, and how often each section was entered. *)
Record obj : Type := mkObj {
  machine : lifecycle;
  running : bool;
  starts : nat;
  terms : nat;
}.

#[export] Instance obj_lifecycle : HasLifecycle obj := {|
  lc := machine;
  put_lc l o := mkObj l (running o) (starts o) (terms o);
  parent_running := running;
  lc_put _ _ := eq_refl;
  parent_put _ _ := eq_refl;
|}.

Definition entered (o : obj) (ph : phase) : nat :=
  match ph with StartPhase => starts o | TermPhase => terms o end.

Definition enter (ph : phase) (o : obj) : obj :=
  match ph with
  | StartPhase => mkObj (machine o) (running o) (S (starts o)) (terms o)
  | TermPhase => mkObj (machine o) (running o) (starts o) (S (terms o))
  end.

(** A caller of Start or Terminate whose section ends with the given error, or the parent
    service going up or down. *)
Inductive caller : Type :=
| CallStart (err : option go_error)
| CallTerminate (err : option go_error)
| ParentChange (up : bool).

Definition section (ph : phase) (err : option go_error) : prog obj (option go_error) :=
  update (enter ph) ;;;; PRet err.

Definition caller_prog (txt : texts) (c : caller) : prog obj (option go_error) :=
  match c with
  | CallStart err => start_around txt (section StartPhase err)
  | CallTerminate err => terminate_around txt (section TermPhase err)
  | ParentChange up =>
      update (λ o, mkObj (machine o) up (starts o) (terms o)) ;;;; PRet None
  end.

Definition new_obj (up : bool) : obj := mkObj new_lifecycle up 0 0.

Definition obj_inv (o : obj) : Prop :=
  ∀ ph, entered o ph ≤ 1 ∧ (passed (state_of o) ph = false → entered o ph = 0).

Definition obj_move (o o' : obj) : Prop := lstate_move (state_of o) (state_of o').

Definition spent (o : obj) (ph : phase) : bool := negb (entered o ph =? 0).

(** Callers have no permits of their own. *)
Definition no_extra (o : obj) (y : Empty_set) : nat := 0.

Lemma obj_state o st : obj_inv o → lstate_move (state_of o) st →
  obj_inv (put_state st o) ∧ obj_move o (put_state st o).
Proof.
  intros Ho Hmove. split; [|unfold obj_move; by rewrite state_of_put_state].
  intros ph. destruct (Ho ph) as [H1 H2]. split; [by destruct ph|].
  rewrite state_of_put_state. intros Hp. rewrite <-H2; [by destruct ph|].
  clear - Hp Hmove. unfold lstate_move in Hmove.
  destruct (state_of o), st, ph; simpl in *; naive_solver.
Qed.

#[local] Instance obj_starts : StartsFreely obj_inv obj_move.
Proof. intros o Ho Hst. apply obj_state; [done|]. rewrite Hst. unfold lstate_move. tauto. Qed.

#[local] Instance obj_embeds : EmbedsLifecycle obj_inv obj_move (λ ph, ph) spent no_extra.
Proof.
  split.
  - intros o. by left.
  - intros o st Ho Hmove _. by apply obj_state.
  - intros o f Ho. split; [|by left]. intros ph. destruct (Ho ph). by destruct ph.
  - intros o f Ho. split; [|by left]. intros ph. destruct (Ho ph). by destruct ph.
  - by intros o l [].
  - intros o ph Ho Hp. unfold spent. destruct (Ho ph) as [_ ->]; done.
  - done.
Qed.

Abbreviation oproto := (proto obj_inv obj_move (lc_held (λ ph : phase, ph) spent no_extra) lc_total).

Lemma proto_section ph err :
  oproto (grant (λ ph, ph) ph) (section ph err) (λ _ n, n (InPhase ph) = 1).
Proof.
  unfold section. apply (proto_once _ _ (λ ph, ph) spent no_extra ph).
  { simpl. by rewrite decide_True. }
  intros o Ho _ Hp Hs. simpl. split_and!.
  - intros q. destruct (Ho q) as [H1 H2], (Ho ph) as [H3 H4].
    assert (entered o ph = 0) as H0 by (unfold spent in Hs; by destruct (entered o ph)).
    destruct (decide (q = ph)) as [->|Hq].
    + split; [destruct ph; simpl in *; lia|].
      intros Hp'. assert (passed (state_of o) ph = false) by (by destruct ph). congruence.
    + destruct q, ph; done.
  - left. by destruct ph.
  - by destruct ph.
  - intros q Hq. by destruct q, ph.
  - done.
  - unfold without. rewrite decide_False by done. simpl. by rewrite decide_True.
Qed.

Lemma proto_caller txt c : oproto no_permit (caller_prog txt c) anything.
Proof.
  destruct c as [err|err|up].
  - apply proto_start_around; try apply _; [apply proto_section|done].
  - apply proto_terminate_around; try apply _; [apply proto_section|done].
  - apply proto_keep; try apply _. intros o Ho _. split_and!; [|by left|done..].
    intros ph. destruct (Ho ph). by destruct ph.
Qed.


(** Start, then Terminate, then a late Start, one after the other. *)
Definition example_callers : list caller :=
  [CallStart None; CallTerminate None; CallStart None].

End Callers.
