(* ===== verification/Rules.v ===== *)
(** Rules for goroutines over a state that contains the machine of Lifecycle.

    A goroutine owns a list of permits and knows a fact of the state that no action takes back; the
    rules say what one action needs so that the rest of its program may go on ([kproto] of
    GoConc).  The components with many goroutines are proved with them. *)

From Stdlib Require Import ZArith Lia.
From stdpp Require Import base list relations.
From S2P Require Import Prelude GoEffects GoConc Errors Lifecycle.

Section rules.
Context {S : Type} `{!HasLifecycle S} (Inv : S → Prop) (R : S → S → Prop).
Context {X : Type} `{!EqDecision X} (gate : X → phase) (spent : S → X → bool).
Context {Y : Type} `{!EqDecision Y} (extra : S → Y → nat).

Abbreviation held := (lc_held gate spent extra).
Abbreviation kr K l := (kproto Inv R held lc_total K (own l)).
Abbreviation fitting s l := (fits held lc_total s (own l)).
Abbreviation known K := (stable Inv R K).
Abbreviation permits := (list (lc_permit X Y)).

(** ** What the owner of a permit knows *)

Lemma fits_extra_zero s y (l : permits) : fitting s (Extra y :: l) → extra s y = 0.
Proof using Type.
  intros Hf. specialize (Hf (Extra y)). pose proof (own_here (Extra y : lc_permit X Y) l).
  unfold lc_total in Hf. cbn [lc_held] in Hf. lia.
Qed.

Lemma fits_once_list s x (l : permits) :
  fitting s (Once x :: l) → passed (state_of s) (gate x) = true ∧ spent s x = false.
Proof using Type. intros Hf. eapply fits_unspent; [exact Hf|]. apply own_here. Qed.

Lemma fits_phase_list s ph (l : permits) : fitting s (InPhase ph :: l) → state_of s = inside ph.
Proof using Type. intros Hf. eapply fits_inside; [exact Hf|]. apply own_here. Qed.

Lemma fits_rest s x (l : permits) : fitting s (x :: l) → fitting s l.
Proof using Type. intros Hf y. specialize (Hf y). simpl in Hf. lia. Qed.

(** ** Actions *)

(** An action in general: [l] becomes [l'], and [K] becomes [K']. *)
Lemma k_act {V B} (f : S → act S V) K (l : permits) (k : V → prog S B) Q :
  (∀ s, Inv s → fitting s l → K s →
    match f s with
    | AOk v s' => Inv s' ∧ R s s' ∧ ∃ l' K',
        conserves held s (own l) s' (own l') ∧ K' s' ∧ known K' ∧ kr K' l' (k v) Q
    | ABlock => True
    | APanic _ => False
    end) → kr K l (PAct f k) Q.
Proof using Type.
  intros Hk s Hs Hf HK. specialize (Hk s Hs Hf HK). destruct (f s); [|done..].
  destruct Hk as (? & ? & l' & K' & ? & ? & ? & ?). split_and!; [done..|]. by exists (own l'), K'.
Qed.

(** One that leaves what is known. *)
Lemma k_change {V B} (f : S → act S V) K (l : permits) (k : V → prog S B) Q :
  known K →
  (∀ s, Inv s → fitting s l → K s →
    match f s with
    | AOk v s' => Inv s' ∧ R s s' ∧ ∃ l', conserves held s (own l) s' (own l') ∧ kr K l' (k v) Q
    | ABlock => True
    | APanic _ => False
    end) → kr K l (PAct f k) Q.
Proof using Type.
  intros Hst Hk. apply k_act. intros s Hs Hf HK. specialize (Hk s Hs Hf HK).
  destruct (f s) as [v s'| |]; [|done..]. destruct Hk as (? & Hm & l' & ? & ?).
  split_and!; [done..|]. exists l', K. split_and!; try done. by apply (Hst s s').
Qed.

(** One that leaves the permits, too. *)
Lemma k_same {V B} (f : S → act S V) K (l : permits) (k : V → prog S B) Q :
  known K →
  (∀ s, Inv s → K s →
    match f s with
    | AOk v s' => Inv s' ∧ R s s' ∧ (∀ x, held s' x ≤ held s x) ∧ kr K l (k v) Q
    | ABlock => True
    | APanic _ => False
    end) → kr K l (PAct f k) Q.
Proof using Type.
  intros Hst Hk. apply k_change; [done|]. intros s Hs _ HK. specialize (Hk s Hs HK).
  destruct (f s) as [v s'| |]; [|done..]. destruct Hk as (? & ? & Hx & ?).
  split_and!; [done..|]. exists l. split; [|done]. intros x. specialize (Hx x). lia.
Qed.

(** One that shows a fact for good and leaves the permits. *)
Lemma k_see {V B} (f : S → act S V) K (l : permits) (k : V → prog S B) Q :
  known K →
  (∀ s, Inv s → fitting s l → K s →
    match f s with
    | AOk v s' => Inv s' ∧ R s s' ∧ (∀ x, held s' x ≤ held s x) ∧ ∃ φ, φ s' ∧ known φ ∧
        kr (λ s, K s ∧ φ s) l (k v) Q
    | ABlock => True
    | APanic _ => False
    end) → kr K l (PAct f k) Q.
Proof using Type.
  intros Hst Hk. apply k_act. intros s Hs Hf HK. specialize (Hk s Hs Hf HK).
  destruct (f s) as [v s'| |]; [|done..]. destruct Hk as (? & Hm & Hx & φ & ? & ? & ?).
  split_and!; [done..|]. exists l, (λ s, K s ∧ φ s).
  split; [intros x; specialize (Hx x); lia|]. split; [split; [by apply (Hst s)|done]|].
  split; [by apply stable_and|done].
Qed.

(** An operation of the machine. *)
Lemma k_machine {A B} (p : prog S A) K (l : permits) (k : A → prog S B) Q :
  known K →
  proto Inv R held lc_total (own l) (pbind p PRet) (λ a m, kproto Inv R held lc_total K m (k a) Q) →
  kr K l (pbind p k) Q.
Proof using Type. intros Hst Hp. apply kproto_frame; [done|]. by apply proto_unbind. Qed.

(** An update of fields that neither the invariant nor the permits look at. *)
Lemma k_update {B} (g : S → S) K (l : permits) (k : unit → prog S B) Q :
  known K → (∀ s, Inv s → Inv (g s)) → (∀ s, R s (g s)) →
  (∀ s x, held (g s) x = held s x) → kr K l (k tt) Q → kr K l (pbind (update g) k) Q.
Proof using Type.
  intros Hst Hi Hm Hx Hk. apply k_same; [done|]. intros s Hs _.
  split_and!; [by apply Hi|apply Hm|intros x; by rewrite Hx|done].
Qed.

Lemma k_drop {B} (l' : permits) K l (p : prog S B) Q :
  (∀ b, p ≠ PRet b) → (∀ x, own l' x ≤ own l x) → kr K l' p Q → kr K l p Q.
Proof using Type. intros Hr Hl Hp. by eapply kproto_drop. Qed.

(** The permits of a section, as a list. *)
Lemma k_grant {B} ph l K (p : prog S B) Q :
  (∀ b, p ≠ PRet b) → (∀ x : lc_permit X Y, grant gate ph x = own l x) → kr K l p Q →
  kproto Inv R held lc_total K (grant gate ph) p Q.
Proof using Type.
  intros Hr Hl Hp. eapply kproto_drop; [done| | |exact Hp]; [|done]. intros x. by rewrite Hl.
Qed.

(** A position: the owner of one permit moves to another, nobody else's permits change. *)
Lemma conserves_position s s' y y' (l : permits) :
  (∀ x, x ≠ Extra y → x ≠ Extra y' → held s' x ≤ held s x) →
  extra s' y ≤ 1 → extra s' y' = 0 → extra s y = 0 → (y ≠ y' → extra s y' = 1) →
  conserves held s (own (Extra y :: l)) s' (own (Extra y' :: l)).
Proof using Type.
  intros Hx Hy Hy' H0 H1 x. cbn [own]. destruct (decide (x = Extra y)) as [->|Hn].
  - cbn [lc_held]. destruct (decide (Extra y = Extra y')) as [[= <-]|Hne]; [lia|]. lia.
  - destruct (decide (x = Extra y')) as [->|Hn']; [|specialize (Hx x Hn Hn'); lia].
    cbn [lc_held]. rewrite H1 by congruence. lia.
Qed.

(** A lock, or what else a goroutine takes and gives back. *)
Lemma conserves_take s s' y (l : permits) :
  (∀ x, x ≠ Extra y → held s' x ≤ held s x) → extra s' y = 0 → extra s y = 1 →
  conserves held s (own l) s' (own (Extra y :: l)).
Proof using Type.
  intros Hx H0 H1 x. cbn [own]. destruct (decide (x = Extra y)) as [->|Hn]; [|specialize (Hx x Hn); lia].
  cbn [lc_held]. lia.
Qed.

Lemma conserves_give s s' x (l : permits) :
  (∀ y, y ≠ x → held s' y ≤ held s y) → held s' x ≤ 1 →
  conserves held s (own (x :: l)) s' (own l).
Proof using Type.
  intros Hx H1 y. cbn [own]. destruct (decide (y = x)) as [->|Hn]; [|specialize (Hx y Hn)]; lia.
Qed.

(** A permit given for another. *)
Lemma conserves_swap s s' x y (l : permits) :
  (∀ z, z ≠ x → z ≠ y → held s' z ≤ held s z) → x ≠ y → held s' x ≤ 1 → held s' y = 0 → held s y = 1 →
  conserves held s (own (x :: l)) s' (own (y :: l)).
Proof using Type.
  intros Hz Hn Hx Hy' Hy z. cbn [own]. specialize (Hz z).
  destruct (decide (z = x)) as [->|]; [rewrite (decide_False _ _ Hn); lia|].
  destruct (decide (z = y)) as [->|]; [lia|]. specialize (Hz ltac:(done) ltac:(done)). lia.
Qed.

Context `{!EmbedsLifecycle Inv R gate spent extra}.

Lemma k_load {V B} (view : S → V) K (l : permits) (k : V → prog S B) Q :
  known K → (∀ s, Inv s → K s → kr K l (k (view s)) Q) → kr K l (pbind (load view) k) Q.
Proof using All.
  intros Hst Hk. apply k_same; [done|]. intros s Hs HK.
  split_and!; [done|by apply (embeds_refl Inv R gate spent extra)|lia|by apply Hk].
Qed.

(** A read that shows a fact for good. *)
Lemma k_learn {B} (view : S → bool) φ K (l : permits) (k : bool → prog S B) Q :
  known K → known φ → (∀ s, Inv s → K s → view s = true → φ s) →
  kr (λ s, K s ∧ φ s) l (k true) Q → kr K l (k false) Q → kr K l (pbind (load view) k) Q.
Proof using All.
  intros HK Hφ Hl Ht Hf. apply k_act. intros s Hs _ HKs.
  split_and!; [done|by apply (embeds_refl Inv R gate spent extra)|].
  destruct (view s) eqn:Hv.
  - exists l, (λ s, K s ∧ φ s). split_and!; [intros x; lia|done|by apply Hl|by apply stable_and|done].
  - exists l, K. split_and!; [intros x; lia|done..].
Qed.

(** The end of a start whose goroutine knows what the started machine needs. *)
Lemma k_started {B} err K (l : permits) (k : unit → prog S B) Q :
  known K → own l (InPhase StartPhase) = 1 →
  (∀ s, Inv s → K s → state_of s = Starting → Inv (put_state Started s) ∧ R s (put_state Started s)) →
  kr K [] (k tt) Q → kr K l (pbind (started err) k) Q.
Proof using All.
  intros Hst Hn Hgo Hk. apply k_change; [done|]. intros s Hs Hf HK.
  assert (state_of s = Starting) as Ha by (apply (fits_inside gate spent extra s _ StartPhase Hf); lia).
  destruct (Hgo s Hs HK Ha) as [Hs' Hm]. split_and!; [done..|]. exists []. split.
  { apply (store_conserves Inv R gate spent extra StartPhase); try done;
      [unfold lstate_move; tauto|by intros []]. }
  apply k_machine; [done|]. apply proto_complete_start; try apply _; done.
Qed.
End rules.

Arguments k_drop {S _ Inv R X _ gate spent Y _ extra B} l' K l p Q.
Arguments k_learn {S _ Inv R X _ gate spent Y _ extra _ B} view φ K l k Q.
Arguments k_machine {S _ Inv R X _ gate spent Y _ extra A B} p K l k Q.
Arguments fits_extra_zero {S _ X _ gate spent Y _ extra} s y l.
Arguments fits_once_list {S _ X _ gate spent Y _ extra} s x l.
Arguments fits_phase_list {S _ X _ gate spent Y _ extra} s ph l.
Arguments fits_rest {S _ X _ gate spent Y _ extra} s x l.
