(* ===== verification/Executor.v ===== *)
(** The unbounded executor of internal/impl/executor/executor.go: a queue of tasks that one
    goroutine runs in order, that grows when it is full, and that drains when terminated.

    Every lock operation, channel operation and atomic access is one action of a program.
    The resize is one action too: its caller holds the write lock of the channel, which
    keeps out Run and every other Submit, and the read lock of the state, which keeps out
    Terminate.  A task is a value; running it appends it to the log [executed]. *)

From Stdlib Require Import ZArith Lia.
From stdpp Require Import base list relations.
From S2P Require Import Prelude GoEffects GoConc.

Section executor.
Context {T : Type} `{!EqDecision T}.

(** Where the goroutine of Run is: it waits for a task, holds one, has seen the channel
    closed, or has finished.  This and the logs are history, no code reads them. *)
Inductive runner : Type := Idle | Holding (t : T) | SawClosed | Finished.

#[export] Instance runner_eq_dec : EqDecision runner.
Proof using All. solve_decision. Defined.

Record executor : Type := mkExecutor {
  channel : chan T;
  channelLock : rwmutex;
  stateLock : rwmutex;
  closed : bool;
  scale : Z;
  terminateComplete : bool;
  submitted : list T;
  executed : list T;
  runner_at : runner;
}.

Definition defaultSize : Z := 1024.
Definition scalingFactor : Z := 2.

Definition set_channel (c : chan T) (e : executor) : executor :=
  mkExecutor c (channelLock e) (stateLock e) (closed e) (scale e) (terminateComplete e)
    (submitted e) (executed e) (runner_at e).
Definition set_channelLock (l : rwmutex) (e : executor) : executor :=
  mkExecutor (channel e) l (stateLock e) (closed e) (scale e) (terminateComplete e)
    (submitted e) (executed e) (runner_at e).
Definition set_stateLock (l : rwmutex) (e : executor) : executor :=
  mkExecutor (channel e) (channelLock e) l (closed e) (scale e) (terminateComplete e)
    (submitted e) (executed e) (runner_at e).
Definition set_closed (b : bool) (e : executor) : executor :=
  mkExecutor (channel e) (channelLock e) (stateLock e) b (scale e) (terminateComplete e)
    (submitted e) (executed e) (runner_at e).
Definition set_scale (z : Z) (e : executor) : executor :=
  mkExecutor (channel e) (channelLock e) (stateLock e) (closed e) z (terminateComplete e)
    (submitted e) (executed e) (runner_at e).
Definition set_complete (b : bool) (e : executor) : executor :=
  mkExecutor (channel e) (channelLock e) (stateLock e) (closed e) (scale e) b
    (submitted e) (executed e) (if b then Finished else runner_at e).
Definition log_submitted (t : T) (e : executor) : executor :=
  mkExecutor (channel e) (channelLock e) (stateLock e) (closed e) (scale e)
    (terminateComplete e) (submitted e ++ [t]) (executed e) (runner_at e).
Definition set_runner (r : runner) (e : executor) : executor :=
  mkExecutor (channel e) (channelLock e) (stateLock e) (closed e) (scale e)
    (terminateComplete e) (submitted e) (executed e) r.

Definition NewExecutor : executor :=
  mkExecutor (make_chan (Z.to_nat defaultSize)) rw_free rw_free false defaultSize false [] [] Idle.

(** [for t := range old { new <- t }] over the pair of channels. *)
Fixpoint move_all (fuel : nat) : M (chan T * chan T) unit :=
  match fuel with
  | O => block
  | S fuel =>
      let* r := zoom fst (λ c p, (c, snd p)) chan_recv in
      match r with
      | None => ret tt
      | Some t => zoom snd (λ c p, (fst p, c)) (chan_send t) ;;; move_all fuel
      end
  end.

Definition resize : M executor unit :=
  let* s := gets scale in
  let newScale := (scalingFactor * s)%Z in
  modify (set_scale newScale) ;;;
  zoom channel set_channel chan_close ;;;
  let* oldChannel := gets channel in
  match move_all (S (length (chan_buf oldChannel)))
          (oldChannel, make_chan (Z.to_nat newScale)) with
  | Done _ (_, newChannel) => modify (set_channel newChannel)
  | Panicked p _ => panic p
  | Blocked _ => block
  end.

(** [executor.getChannel() <- task] and its non-blocking form, with the log of what was sent. *)
Definition send (t : T) : M executor unit :=
  zoom channel set_channel (chan_send t) ;;; modify (log_submitted t).
Definition try_send (t : T) : M executor bool :=
  let* ok := zoom channel set_channel (chan_try_send t) in
  if ok then modify (log_submitted t) ;;; ret true else ret false.

Definition act_of {A} (m : M executor A) : prog executor A := atomically id (λ s _, s) m.
Definition on_channelLock (m : M rwmutex unit) : prog executor unit :=
  atomically channelLock set_channelLock m.
Definition on_stateLock (m : M rwmutex unit) : prog executor unit :=
  atomically stateLock set_stateLock m.

Definition Submit (task : T) : prog executor bool :=
  on_stateLock RLock ;;;;
  let! c := load closed in
  if (c : bool) then on_stateLock RUnlock ;;;; PRet false
  else
    on_channelLock RLock ;;;;
    let! ok := act_of (try_send task) in
    if (ok : bool) then
      on_channelLock RUnlock ;;;; on_stateLock RUnlock ;;;; PRet true
    else
      on_channelLock RUnlock ;;;;
      on_channelLock Lock ;;;;
      let! ok := act_of (try_send task) in
      (if (ok : bool) then PRet tt
       else act_of resize ;;;; act_of (send task)) ;;;;
      on_channelLock Unlock ;;;; on_stateLock RUnlock ;;;; PRet true.

Definition Terminate : prog executor unit :=
  on_stateLock Lock ;;;;
  let! swapped := compare_and_swap closed set_closed false true in
  (if (swapped : bool) then atomically channel set_channel chan_close else PRet tt) ;;;;
  on_stateLock Unlock.

Definition AwaitTermination : prog executor unit :=
  Terminate ;;;; await_closed terminateComplete.

(** The receive of Run, which records where its goroutine is. *)
Definition recv : M executor (option T) :=
  let* r := zoom channel set_channel chan_recv in
  match r with
  | Some t => modify (set_runner (Holding t)) ;;; ret (Some t)
  | None => modify (set_runner SawClosed) ;;; ret None
  end.

(** [task()]. *)
Definition exec (t : T) (e : executor) : executor :=
  mkExecutor (channel e) (channelLock e) (stateLock e) (closed e) (scale e)
    (terminateComplete e) (submitted e) (executed e ++ [t]) Idle.

(** The loop of Run, for at most [fuel] turns; [true] when it has terminated. *)
Fixpoint Run (fuel : nat) : prog executor bool :=
  match fuel with
  | O => PRet false
  | S fuel =>
      on_channelLock RLock ;;;;
      let! r := act_of recv in
      on_channelLock RUnlock ;;;;
      match r with
      | None => close_signal terminateComplete set_complete ;;;; PRet true
      | Some task => update (exec task) ;;;; Run fuel
      end
  end.

(** * The queue *)

(** What holds of the channel between operations. *)
Definition channel_wf (e : executor) : Prop :=
  chan_ok (channel e) ∧ chan_cap (channel e) = Z.to_nat (scale e) ∧ (1 ≤ scale e)%Z.

Lemma channel_wf_append e b t :
  chan_buf (channel e) = b ++ [t] → chan_cap (channel e) = Z.to_nat (scale e) →
  length b < chan_cap (channel e) → channel_wf e.
Proof using Type.
  intros Hb Hcap Hlen. split_and!; [|done|lia].
  unfold chan_ok. rewrite Hb, length_app. simpl. lia.
Qed.

Lemma move_all_ok c c' (b b' : list T) :
  length b' + length b ≤ c' →
  move_all (S (length b)) (mkChan c b true, mkChan c' b' false) =
    Done tt (mkChan c [] true, mkChan c' (b' ++ b) false).
Proof using Type.
  revert b'. induction b as [|t b IH]; intros b' Hlen.
  - simpl. by rewrite app_nil_r.
  - simpl length. simpl in Hlen. remember (S (length b)) as n eqn:Hn.
    simpl. unfold bind, zoom, chan_recv, chan_send; simpl.
    rewrite decide_True by lia. simpl. rewrite IH; [by rewrite <-app_assoc|].
    rewrite length_app. simpl. lia.
Qed.

#[local] Arguments move_all : simpl never.

(** The new channel has twice the room and the same tasks in the same order. *)
Lemma resize_ok e : channel_wf e → chan_closed (channel e) = false →
  resize e = Done tt (set_channel (mkChan (Z.to_nat (2 * scale e)) (chan_buf (channel e)) false)
                        (set_scale (2 * scale e) e)).
Proof using Type.
  intros (Hok & Hcap & Hs) Hopen. unfold resize, bind, gets, modify, zoom, chan_close.
  destruct e as [[cap buf cl] cL sL clo sc tc sub ex ru]; simpl in *. subst cl cap. simpl.
  unfold chan_ok in Hok. simpl in Hok.
  pose proof (move_all_ok (Z.to_nat sc) (Z.to_nat (2 * sc)) buf []) as Hm.
  simpl (length []) in Hm. simpl ([] ++ buf) in Hm.
  unfold scalingFactor, make_chan. simpl length in Hm |- *. rewrite Hm by lia. done.
Qed.

Lemma try_send_open t e : chan_closed (channel e) = false →
  try_send t e =
    if decide (length (chan_buf (channel e)) < chan_cap (channel e))
    then Done true (log_submitted t (set_channel
           (mkChan (chan_cap (channel e)) (chan_buf (channel e) ++ [t]) false) e))
    else Done false e.
Proof using Type.
  intros Hopen. unfold try_send, bind, zoom, chan_try_send, modify, ret. rewrite Hopen.
  case_decide; simpl; [done|]. by destruct e.
Qed.

Lemma try_send_has_room t e : chan_closed (channel e) = false →
  length (chan_buf (channel e)) < chan_cap (channel e) →
  try_send t e = Done true (log_submitted t (set_channel
    (mkChan (chan_cap (channel e)) (chan_buf (channel e) ++ [t]) false) e)).
Proof using Type. intros Ho Hlen. rewrite try_send_open by done. by rewrite decide_True. Qed.

Lemma try_send_full t e : chan_closed (channel e) = false →
  ¬ length (chan_buf (channel e)) < chan_cap (channel e) →
  try_send t e = Done false e.
Proof using Type. intros Ho Hlen. rewrite try_send_open by done. by rewrite decide_False. Qed.

Lemma send_has_room t e : chan_closed (channel e) = false →
  length (chan_buf (channel e)) < chan_cap (channel e) →
  send t e = Done tt (log_submitted t (set_channel
    (mkChan (chan_cap (channel e)) (chan_buf (channel e) ++ [t]) false) e)).
Proof using Type.
  intros Ho Hlen. unfold send, bind, zoom, chan_send, modify. rewrite Ho, decide_True by done.
  done.
Qed.

(** * The protocol of the locks and of the runner *)

(** Permits: the credit of a goroutine with each lock, a lock held for reading (of the state:
    since before or after the flag was set) or writing, the duty to close the channel, and
    the control point of the goroutine that runs the tasks. *)
Inductive permit : Type :=
| ChanCredit | ChanReader | ChanWriter
| StateCredit | ReadOpen | ReadClosed | StateWriter
| CloseDuty
| At (r : runner).

#[export] Instance permit_eq_dec : EqDecision permit.
Proof using All. solve_decision. Defined.

(** For at most [N] goroutines. *)
Context (N : nat).

Definition held (e : executor) (x : permit) : nat :=
  match x with
  | ChanCredit => rw_readers (channelLock e)
  | ChanReader => N - rw_readers (channelLock e)
  | ChanWriter => if rw_writer (channelLock e) then 0 else 1
  | StateCredit => rw_readers (stateLock e)
  | ReadOpen => if closed e then N else N - rw_readers (stateLock e)
  | ReadClosed => if closed e then N - rw_readers (stateLock e) else N
  | StateWriter => if rw_writer (stateLock e) then 0 else 1
  | CloseDuty => if closed e && negb (chan_closed (channel e)) then 0 else 1
  | At r => if decide (runner_at e = r) then 0 else 1
  end.

Definition total (x : permit) : nat :=
  match x with
  | ChanCredit | ChanReader | StateCredit | ReadOpen | ReadClosed => N
  | _ => 1
  end.

(** The task between the receive and its execution. *)
Definition pending (r : runner) : list T := match r with Holding t => [t] | _ => [] end.

Record executor_inv (e : executor) : Prop := {
  inv_wf : channel_wf e;
  inv_chan_writer : rw_writer (channelLock e) = true → rw_readers (channelLock e) = 0;
  inv_state_writer : rw_writer (stateLock e) = true → rw_readers (stateLock e) = 0;
  inv_closed : chan_closed (channel e) = true → closed e = true;
  inv_fifo : submitted e = executed e ++ pending (runner_at e) ++ chan_buf (channel e);
  inv_drained : runner_at e = SawClosed ∨ runner_at e = Finished →
    chan_closed (channel e) = true ∧ chan_buf (channel e) = [];
  inv_complete : terminateComplete e = true ↔ runner_at e = Finished;
}.

(** Nothing submitted or executed is forgotten, and the flag stays. *)
Definition executor_move (e e' : executor) : Prop :=
  submitted e `prefix_of` submitted e' ∧ executed e `prefix_of` executed e' ∧
  (closed e = true → closed e' = true).

Abbreviation eproto l := (proto executor_inv executor_move held total (own l)).
Abbreviation efits e l := (fits held total e (own l)).

Lemma executor_move_same e e' :
  submitted e' = submitted e → executed e' = executed e → closed e' = closed e →
  executor_move e e'.
Proof using Type. intros H1 H2 H3. unfold executor_move. by rewrite H1, H2, H3. Qed.

(** What the owner of a permit knows. *)
Lemma fits_own e l x : efits e l → 1 ≤ own l x → held e x + 1 ≤ total x.
Proof using Type. intros Hf Hx. specialize (Hf x). lia. Qed.

Ltac knows e x :=
  match goal with
  | Hf : fits held total e (own ?l) |- _ =>
      let H := fresh "Hk" in
      pose proof (fits_own e l x Hf) as H;
      specialize (H ltac:(first [apply own_here|apply own_second]));
      cbn [held total] in H
  end.

Ltac conserve :=
  let y := fresh "y" in
  intros y; cbn [own];
  destruct y; cbn [held total set_channelLock set_stateLock set_channel set_closed
    set_scale set_complete set_runner exec log_submitted channelLock stateLock closed channel runner_at rw_readers rw_writer chan_closed] in *;
  repeat (case_decide; simplify_eq);
  repeat match goal with H : ?b = true |- _ => rewrite H in * | H : ?b = false |- _ => rewrite H in * end;
  simpl in *; try lia;
  try match goal with |- context [closed ?e] => destruct (closed e); simpl in *; lia end;
  try congruence.

(** Locking actions change nothing but the lock. *)
Lemma inv_set_channelLock l e : executor_inv e →
  (rw_writer l = true → rw_readers l = 0) → executor_inv (set_channelLock l e).
Proof using Type. intros []; by split. Qed.

Lemma inv_set_stateLock l e : executor_inv e →
  (rw_writer l = true → rw_readers l = 0) → executor_inv (set_stateLock l e).
Proof using Type. intros []; by split. Qed.

Lemma proto_chan_RLock {B} x l (k : unit → prog executor B) Q :
  eproto (x :: ChanReader :: l) (k tt) Q →
  eproto (x :: ChanCredit :: l) (pbind (on_channelLock RLock) k) Q.
Proof using Type.
  intros Hk e He Hf. unfold RLock. cbn [id].
  destruct (rw_writer (channelLock e)) eqn:Hw; [done|].
  split_and!; [by apply inv_set_channelLock|by apply executor_move_same|].
  exists (own (x :: ChanReader :: l)). split; [|done]. knows e ChanCredit. conserve.
Qed.

Lemma proto_chan_RUnlock {B} x l (k : unit → prog executor B) Q :
  eproto (x :: ChanCredit :: l) (k tt) Q →
  eproto (x :: ChanReader :: l) (pbind (on_channelLock RUnlock) k) Q.
Proof using Type.
  intros Hk e He Hf. unfold RUnlock. cbn [id]. knows e ChanReader.
  destruct (rw_readers (channelLock e)) as [|n] eqn:Hn; [lia|].
  split_and!; [|by apply executor_move_same|].
  { apply inv_set_channelLock; [done|]. intros Hw. pose proof (inv_chan_writer e He Hw). lia. }
  exists (own (x :: ChanCredit :: l)). split; [|done]. conserve.
Qed.

Lemma proto_chan_Lock {B} x l (k : unit → prog executor B) Q :
  eproto (x :: ChanWriter :: ChanCredit :: l) (k tt) Q →
  eproto (x :: ChanCredit :: l) (pbind (on_channelLock Lock) k) Q.
Proof using Type.
  intros Hk e He Hf. unfold Lock. cbn [id].
  destruct (rw_writer (channelLock e)) eqn:Hw; [done|]. simpl.
  destruct (rw_readers (channelLock e)) eqn:Hn; [|done]. simpl.
  split_and!; [by apply inv_set_channelLock|by apply executor_move_same|].
  exists (own (x :: ChanWriter :: ChanCredit :: l)). split; [|done]. conserve.
Qed.

Lemma proto_chan_Unlock {B} x l (k : unit → prog executor B) Q :
  eproto (x :: ChanCredit :: l) (k tt) Q →
  eproto (x :: ChanWriter :: ChanCredit :: l) (pbind (on_channelLock Unlock) k) Q.
Proof using Type.
  intros Hk e He Hf. unfold Unlock. cbn [id]. knows e ChanWriter.
  destruct (rw_writer (channelLock e)) eqn:Hw; [|lia].
  split_and!; [by apply inv_set_channelLock|by apply executor_move_same|].
  exists (own (x :: ChanCredit :: l)). split; [|done]. conserve.
Qed.

(** A reader of the state lock knows from its start whether the flag is set. *)
Lemma proto_state_RLock {B} l (k : unit → prog executor B) Q :
  eproto (ReadOpen :: l) (k tt) Q → eproto (ReadClosed :: l) (k tt) Q →
  eproto (StateCredit :: l) (pbind (on_stateLock RLock) k) Q.
Proof using Type.
  intros Hopen Hclosed e He Hf. unfold RLock. cbn [id].
  destruct (rw_writer (stateLock e)) eqn:Hw; [done|].
  split_and!; [by apply inv_set_stateLock|by apply executor_move_same|].
  knows e StateCredit. destruct (closed e) eqn:Hc.
  - exists (own (ReadClosed :: l)). split; [|done]. conserve.
  - exists (own (ReadOpen :: l)). split; [|done]. conserve.
Qed.

Lemma proto_state_RUnlock {B} r l (k : unit → prog executor B) Q :
  r = ReadOpen ∨ r = ReadClosed →
  eproto (StateCredit :: l) (k tt) Q →
  eproto (r :: l) (pbind (on_stateLock RUnlock) k) Q.
Proof using Type.
  intros Hr Hk e He Hf. unfold RUnlock. cbn [id].
  assert (1 ≤ rw_readers (stateLock e) ∧ (r = ReadOpen → closed e = false) ∧
          (r = ReadClosed → closed e = true)) as (Hn & Ho & Hc).
  { destruct Hr as [->| ->]; [knows e ReadOpen|knows e ReadClosed];
      destruct (closed e); split_and!; naive_solver lia. }
  destruct (rw_readers (stateLock e)) as [|n] eqn:Hre; [lia|].
  split_and!; [|by apply executor_move_same|].
  { apply inv_set_stateLock; [done|]. intros Hw. pose proof (inv_state_writer e He Hw). lia. }
  exists (own (StateCredit :: l)). split; [|done].
  destruct Hr as [->| ->]; [specialize (Ho eq_refl)|specialize (Hc eq_refl)]; conserve.
Qed.

Lemma proto_state_Lock {B} l (k : unit → prog executor B) Q :
  eproto (StateWriter :: StateCredit :: l) (k tt) Q →
  eproto (StateCredit :: l) (pbind (on_stateLock Lock) k) Q.
Proof using Type.
  intros Hk e He Hf. unfold Lock. cbn [id].
  destruct (rw_writer (stateLock e)) eqn:Hw; [done|]. simpl.
  destruct (rw_readers (stateLock e)) eqn:Hn; [|done]. simpl.
  split_and!; [by apply inv_set_stateLock|by apply executor_move_same|].
  exists (own (StateWriter :: StateCredit :: l)). split; [|done]. conserve.
Qed.

Lemma proto_state_Unlock {B} l (k : unit → prog executor B) Q :
  eproto (StateCredit :: l) (k tt) Q →
  eproto (StateWriter :: StateCredit :: l) (pbind (on_stateLock Unlock) k) Q.
Proof using Type.
  intros Hk e He Hf. unfold Unlock. cbn [id]. knows e StateWriter.
  destruct (rw_writer (stateLock e)) eqn:Hw; [|lia].
  split_and!; [by apply inv_set_stateLock|by apply executor_move_same|].
  exists (own (StateCredit :: l)). split; [|done]. conserve.
Qed.

(** * The protocol of the operations *)

(** A goroutine that holds the state lock for reading since before the flag was set. *)
Lemma open_channel e l : executor_inv e → efits e (ReadOpen :: l) →
  closed e = false ∧ chan_closed (channel e) = false.
Proof using Type.
  intros He Hf. knows e ReadOpen.
  destruct (closed e) eqn:Hc; [lia|]. split; [done|].
  destruct (chan_closed (channel e)) eqn:Hcc; [|done].
  by rewrite (inv_closed e He Hcc) in Hc.
Qed.

Lemma proto_load_closed_open {B} l (k : bool → prog executor B) Q :
  eproto (ReadOpen :: l) (k false) Q →
  eproto (ReadOpen :: l) (pbind (load closed) k) Q.
Proof using Type.
  intros Hk e He Hf. destruct (open_channel e l He Hf) as [Hc _]. rewrite Hc.
  split_and!; [done|by apply executor_move_same|]. exists (own (ReadOpen :: l)).
  split; [intros y; lia|done].
Qed.

Lemma proto_load_closed {B} l (k : bool → prog executor B) Q :
  eproto (ReadClosed :: l) (k true) Q →
  eproto (ReadClosed :: l) (pbind (load closed) k) Q.
Proof using Type.
  intros Hk e He Hf. knows e ReadClosed.
  destruct (closed e) eqn:Hc; [|lia].
  split_and!; [done|by apply executor_move_same|]. exists (own (ReadClosed :: l)).
  split; [intros y; lia|done].
Qed.

(** Appending a task to an open channel with room keeps the invariant. *)
Lemma inv_enqueue t e c : executor_inv e → chan_closed (channel e) = false →
  c = mkChan (chan_cap (channel e)) (chan_buf (channel e) ++ [t]) false →
  length (chan_buf (channel e)) < chan_cap (channel e) →
  executor_inv (log_submitted t (set_channel c e)).
Proof using Type.
  intros [(Hok & Hcap & Hs) ? ? ? Hf Hd ?] Ho -> Hlen. split; try done; simpl.
  - split_and!; [|done..]. unfold chan_ok; simpl. rewrite length_app. simpl. lia.
  - rewrite Hf. by rewrite <-!app_assoc.
  - intros Hr. destruct (Hd Hr). congruence.
Qed.

Lemma inv_resize e : executor_inv e → chan_closed (channel e) = false →
  executor_inv (set_channel (mkChan (Z.to_nat (2 * scale e)) (chan_buf (channel e)) false)
                  (set_scale (2 * scale e) e)).
Proof using Type.
  intros [(Hok & Hcap & Hs) ? ? ? Hf Hd ?] Ho. split; try done; simpl.
  - split_and!; [|done|simpl; lia]. unfold chan_ok in *; simpl in *. lia.
  - intros Hr. destruct (Hd Hr). congruence.
Qed.

Lemma proto_try_send {B} t l (k : bool → prog executor B) Q :
  (∀ b, eproto (ReadOpen :: l) (k b) Q) →
  eproto (ReadOpen :: l) (pbind (act_of (try_send t)) k) Q.
Proof using Type.
  intros Hk e He Hf. destruct (open_channel e l He Hf) as [Hc Ho]. cbn [id].
  unfold id. rewrite try_send_open by done. case_decide.
  - split; [by eapply inv_enqueue|split].
    + split_and!; [by exists [t]|done|done].
    + exists (own (ReadOpen :: l)). split; [|apply Hk]. conserve.
  - split_and!; [done|by apply executor_move_same|]. exists (own (ReadOpen :: l)).
    split; [intros y; lia|apply Hk].
Qed.

Lemma proto_resize {B} l (k : unit → prog executor B) Q :
  eproto (ReadOpen :: l) (k tt) Q →
  eproto (ReadOpen :: l) (pbind (act_of resize) k) Q.
Proof using Type.
  intros Hk e He Hf. destruct (open_channel e l He Hf) as [Hc Ho].
  unfold id. rewrite resize_ok; [|by apply inv_wf|done].
  split_and!; [by apply inv_resize|by apply executor_move_same|].
  exists (own (ReadOpen :: l)). split; [|done]. conserve.
Qed.

Lemma proto_send {B} t l (k : unit → prog executor B) Q :
  eproto (ReadOpen :: l) (k tt) Q →
  eproto (ReadOpen :: l) (pbind (act_of (send t)) k) Q.
Proof using Type.
  intros Hk e He Hf. destruct (open_channel e l He Hf) as [Hc Ho].
  unfold id, send, bind, zoom, chan_send, modify. rewrite Ho. case_decide; [|done].
  split; [by eapply inv_enqueue|split].
  - split_and!; [by exists [t]|done|done].
  - exists (own (ReadOpen :: l)). split; [|done]. conserve.
Qed.

Abbreviation idle_client := (own [StateCredit; ChanCredit]).

Lemma proto_Submit t Q : (∀ b, Q b idle_client) → proto executor_inv executor_move held total
  idle_client (Submit t) Q.
Proof using Type.
  intros HQ. unfold Submit. apply proto_state_RLock.
  - apply proto_load_closed_open. cbn match. apply proto_chan_RLock, proto_try_send. intros [].
    + apply proto_chan_RUnlock, proto_state_RUnlock; [by left|apply HQ].
    + apply proto_chan_RUnlock, proto_chan_Lock, proto_try_send. intros [].
      * apply proto_chan_Unlock, proto_state_RUnlock; [by left|apply HQ].
      * apply proto_bind, proto_resize.
        apply (proto_send t (ChanWriter :: [ChanCredit])).
        apply proto_chan_Unlock, proto_state_RUnlock; [by left|apply HQ].
  - apply proto_load_closed. apply proto_state_RUnlock; [by right|apply HQ].
Qed.

Lemma proto_close_channel {B} (k : unit → prog executor B) Q :
  eproto [StateWriter; StateCredit; ChanCredit] (k tt) Q →
  eproto [StateWriter; CloseDuty; StateCredit; ChanCredit]
    (pbind (atomically channel set_channel chan_close) k) Q.
Proof using Type.
  intros Hk e He Hf. knows e CloseDuty.
  unfold chan_close. destruct (chan_closed (channel e)) eqn:Ho.
  { destruct (closed e); simpl in *; lia. }
  destruct (closed e) eqn:Hc; [|simpl in *; lia].
  split_and!; [|by apply executor_move_same|].
  { destruct He as [(Hok & Hcap & Hs) ? ? ? ? Hd ?]. split; try done; simpl.
    intros Hr. destruct (Hd Hr). congruence. }
  exists (own [StateWriter; StateCredit; ChanCredit]). split; [conserve|done].
Qed.

Lemma proto_Terminate Q : (Q tt idle_client) → proto executor_inv executor_move held total
  idle_client Terminate Q.
Proof using Type.
  intros HQ. unfold Terminate. apply proto_state_Lock. intros e He Hf.
  knows e StateWriter.
  destruct (rw_writer (stateLock e)) eqn:Hw; [|lia].
  pose proof (inv_state_writer e He Hw) as Hr.
  case_decide as Hc.
  - destruct He as [? ? ? Hcl ? Hd ?].
    assert (chan_closed (channel e) = false) as Ho.
    { destruct (chan_closed (channel e)); [|done]. specialize (Hcl eq_refl). congruence. }
    split_and!; [by split|done..|].
    exists (own [StateWriter; CloseDuty; StateCredit; ChanCredit]). split; [conserve|].
    by apply proto_close_channel, proto_state_Unlock.
  - split_and!; [done|by apply executor_move_same|].
    exists (own [StateWriter; StateCredit; ChanCredit]). split; [intros y; lia|].
    by apply (proto_state_Unlock [ChanCredit]).
Qed.

Lemma proto_AwaitTermination Q : Q tt idle_client → proto executor_inv executor_move held total
  idle_client AwaitTermination Q.
Proof using Type.
  intros HQ. unfold AwaitTermination. apply proto_bind, proto_Terminate.
  intros e He _. destruct (terminateComplete e); [|done].
  split_and!; [done|by apply executor_move_same|]. exists idle_client. split; [intros y; lia|done].
Qed.

(** The owner of the control point knows where the runner is. *)
Lemma fits_at e r l : efits e (At r :: l) → runner_at e = r.
Proof using Type. intros Hf. knows e (At r). case_decide; [done|lia]. Qed.

Lemma proto_recv {B} l (k : option T → prog executor B) Q :
  (∀ t, eproto (At (Holding t) :: l) (k (Some t)) Q) →
  eproto (At SawClosed :: l) (k None) Q →
  eproto (At Idle :: l) (pbind (act_of recv) k) Q.
Proof using Type.
  intros Hsome Hnone e He Hf. pose proof (fits_at e _ l Hf) as Hr.
  unfold id, recv, bind, zoom, chan_recv, modify, ret.
  destruct He as [(Hok & Hcap & Hs) ? ? Hcl Hfifo Hd Hcm]. rewrite Hr in Hfifo. simpl in Hfifo.
  destruct (chan_buf (channel e)) as [|t buf] eqn:Hb.
  - destruct (chan_closed (channel e)) eqn:Hc; [|done].
    split; [|split; [by apply executor_move_same|]].
    + split; simpl; rewrite ?Hb, ?Hc; try done. split; [intros ?%Hcm; congruence|done].
    + exists (own (At SawClosed :: l)). split; [conserve|apply Hnone].
  - assert (runner_at e = Idle → ¬ (runner_at e = SawClosed ∨ runner_at e = Finished)) as Hni
      by (intros ->; naive_solver).
    split; [|split; [by apply executor_move_same|]].
    + split; simpl; try done.
      * split_and!; [|done|done]. unfold chan_ok in *. rewrite Hb in Hok. simpl in *. lia.
      * naive_solver.
      * split; [intros ?%Hcm; congruence|done].
    + exists (own (At (Holding t) :: l)). split; [conserve|apply Hsome].
Qed.

Lemma proto_exec {B} t l (k : unit → prog executor B) Q :
  eproto (At Idle :: l) (k tt) Q →
  eproto (At (Holding t) :: l) (pbind (update (exec t)) k) Q.
Proof using Type.
  intros Hk e He Hf. pose proof (fits_at e _ l Hf) as Hr.
  destruct He as [? ? ? ? Hfifo Hd Hcm]. rewrite Hr in Hfifo. simpl in Hfifo.
  split; [|split].
  - split; simpl; try done.
    + by rewrite Hfifo, <-app_assoc.
    + naive_solver.
    + split; [intros ?%Hcm; congruence|done].
  - split_and!; [done|by exists [t]|done].
  - exists (own (At Idle :: l)). split; [|done]. conserve.
Qed.

Lemma proto_finish {B} l (k : unit → prog executor B) Q :
  eproto l (k tt) Q →
  eproto (At SawClosed :: l) (pbind (close_signal terminateComplete set_complete) k) Q.
Proof using Type.
  intros Hk e He Hf. pose proof (fits_at e _ l Hf) as Hr.
  destruct He as [? ? ? ? Hfifo Hd Hcm]. rewrite Hr in Hfifo.
  destruct (terminateComplete e) eqn:Htc.
  { destruct Hcm as [Hcm _]. specialize (Hcm eq_refl). congruence. }
  split; [|split; [by apply executor_move_same|]].
  - split; simpl; try done. intros _. apply Hd. by left.
  - exists (own l). split; [|done]. conserve.
Qed.

Lemma proto_Run fuel : eproto [At Idle; ChanCredit] (Run fuel) anything.
Proof using Type.
  induction fuel as [|fuel IH]; [done|]. cbn [Run].
  apply proto_chan_RLock, proto_recv.
  - intros t. apply proto_chan_RUnlock, proto_exec, IH.
  - apply proto_chan_RUnlock, proto_finish. done.
Qed.
End executor.
Arguments executor T : clear implicits.
Arguments runner T : clear implicits.

(** * Any number of clients *)

Section clients.
Context {T : Type} `{!EqDecision T}.

(** The calls a goroutine makes, one after the other. *)
Inductive call : Type := CSubmit (t : T) | CTerminate | CAwait.

Definition call_prog (c : call) : prog (executor T) bool :=
  match c with
  | CSubmit t => Submit t
  | CTerminate => Terminate ;;;; PRet true
  | CAwait => AwaitTermination ;;;; PRet true
  end.

Fixpoint calls_prog (cs : list call) : prog (executor T) bool :=
  match cs with
  | [] => PRet true
  | c :: cs => call_prog c ;;;; calls_prog cs
  end.

Lemma proto_calls N cs :
  proto (executor_inv (T := T)) executor_move (held N) (total N)
    (own [StateCredit; ChanCredit]) (calls_prog cs) anything.
Proof using All.
  induction cs as [|[t| |] cs IH]; [done|..]; cbn [calls_prog call_prog]; apply proto_bind.
  - by apply proto_Submit.
  - by apply proto_bind, proto_Terminate.
  - by apply proto_bind, proto_AwaitTermination.
Qed.

Lemma executor_pool_ok fuel clients :
  pool_ok (executor_inv (T := T)) executor_move (held (S (length clients)))
    (total (S (length clients)))
    (NewExecutor, Run fuel :: (calls_prog <$> clients)).
Proof using All.
  exists (own [At Idle; ChanCredit] :: replicate (length clients) (own [StateCredit; ChanCredit])).
  split_and!.
  - split; simpl; try done; [|naive_solver..].
    split_and!; [unfold chan_ok; simpl; lia|done|done].
  - simpl. constructor; [apply proto_Run|].
    apply Forall2_replicate_l; [apply length_fmap|].
    apply Forall_fmap, Forall_true. intros cs. apply proto_calls.
  - intros x. rewrite fmap_cons. cbn [sum_list]. rewrite sum_own_replicate.
    destruct x; simpl; repeat case_decide; simplify_eq; simpl; lia.
Qed.

(** C10: one goroutine runs the executor while any number of others submit tasks, terminate and
    wait, in any interleaving.  No goroutine panics (no task is sent on a closed channel, no
    channel is closed twice, no lock is released that is not held), tasks run in the order
    of their submission whether or not the queue was resized meanwhile, and when the executor
    reports its termination every submitted task has run. *)
Theorem executor_fifo fuel clients e ts :
  pool_steps (NewExecutor, Run fuel :: (calls_prog <$> clients)) (e, ts) →
  ¬ pool_panics (e, ts) ∧
  executed e `prefix_of` submitted e ∧
  (terminateComplete e = true → closed e = true ∧ executed e = submitted e).
Proof using All.
  intros Hsteps.
  destruct (pool_steps_ok _ _ _ _ _ _ (executor_pool_ok fuel clients) Hsteps) as [Hok _].
  pose proof (pool_ok_inv _ _ _ _ _ Hok) as He. simpl in He. split_and!.
  - by eapply pool_ok_no_panic.
  - rewrite (inv_fifo e He). by apply prefix_app_r.
  - intros Hc. apply (inv_complete e He) in Hc.
    destruct (inv_drained e He (or_intror Hc)) as [Hcl Hb].
    split; [by apply (inv_closed e He)|].
    by rewrite (inv_fifo e He), Hc, Hb, app_nil_r.
Qed.

#[local] Arguments try_send : simpl never.
#[local] Arguments resize : simpl never.
#[local] Arguments send : simpl never.

(** Alone on an executor whose locks are free, Submit returns at once and does not block: it
    appends the task to the queue, growing the channel when it is full, unless the
    executor is closed, in which case it refuses and changes nothing. *)
Theorem Submit_spec t (e : executor T) :
  channel_wf e → chan_closed (channel e) = closed e →
  channelLock e = rw_free → stateLock e = rw_free →
  ∃ e', run (Submit t) e = Done (negb (closed e)) e' ∧
    channel_wf e' ∧ channelLock e' = rw_free ∧ stateLock e' = rw_free ∧
    chan_closed (channel e') = closed e' ∧ closed e' = closed e ∧
    executed e' = executed e ∧
    chan_buf (channel e') = chan_buf (channel e) ++ (if closed e then [] else [t]) ∧
    submitted e' = submitted e ++ (if closed e then [] else [t]).
Proof using All.
  intros Hwf Hcl HL HS.
  destruct (closed e) eqn:Hc.
  { eexists. split.
    - unfold Submit. eapply run_atomically; [by rewrite HS|]. apply run_load.
      cbn [closed set_stateLock]. rewrite Hc. by eapply run_atomically.
    - destruct Hwf as (? & ? & ?). rewrite !app_nil_r. split_and!; simpl; (done || congruence). }
  pose proof Hwf as (Hok & Hcap & Hs). unfold chan_ok in Hok.
  destruct (decide (length (chan_buf (channel e)) < chan_cap (channel e))) as [Hlen|Hlen].
  - eexists. split.
    + unfold Submit. eapply run_atomically; [by rewrite HS|]. apply run_load.
      cbn [closed set_stateLock]. rewrite Hc.
      eapply run_atomically; [cbn; by rewrite HL|].
      eapply run_atomically; [by apply try_send_has_room|].
      eapply run_atomically; [done|]. by eapply run_atomically.
    + split; [|split_and!; simpl; (done || congruence)].
      eapply channel_wf_append; simpl; [done|done|lia].
  - eexists. split.
    + unfold Submit. eapply run_atomically; [by rewrite HS|]. apply run_load.
      cbn [closed set_stateLock]. rewrite Hc.
      eapply run_atomically; [cbn; by rewrite HL|].
      eapply run_atomically; [by apply try_send_full|].
      eapply run_atomically; [done|]. eapply run_atomically; [done|].
      eapply run_atomically; [by apply try_send_full|].
      eapply run_atomically; [by apply resize_ok|].
      eapply run_atomically; [by apply send_has_room; simpl; lia|].
      eapply run_atomically; [done|]. by eapply run_atomically.
    + split; [|split_and!; simpl; (done || congruence)].
      eapply channel_wf_append; simpl; [done|done|lia].
Qed.
End clients.
Arguments call T : clear implicits.

(** * Examples *)

Lemma executor_fifo_witness :
  ∃ e ts,
    pool_steps (NewExecutor,
      Run 5 :: (calls_prog <$> [[CSubmit 1; CSubmit 2; CTerminate; CSubmit 3]])) (e, ts) ∧
    executed e = [1; 2] ∧ terminateComplete e = true ∧ ¬ pool_panics (e, ts).
Proof.
  assert (∃ e ts,
    pool_steps (NewExecutor,
      Run 5 :: (calls_prog <$> [[CSubmit 1; CSubmit 2; CTerminate; CSubmit 3]])) (e, ts) ∧
    executed e = [1; 2] ∧ terminateComplete e = true) as (e & ts & Hs & H1 & H2).
  { eexists _, _. split.
    - etrans; [eapply (run_pool_at _ _ _ _ _ 1); vm_compute; reflexivity|].
      eapply (run_pool_at _ _ _ _ _ 0); vm_compute; reflexivity.
    - by vm_compute. }
  exists e, ts. destruct (executor_fifo _ _ _ _ Hs) as (Hp & _). split_and!; assumption.
Defined.

(** An executor whose channel of one place is full grows. *)
Definition full_executor : executor nat :=
  mkExecutor (mkChan 1 [5] false) rw_free rw_free false 1 false [5] [] Idle.

Lemma Submit_spec_witness :
  ∃ e', run (Submit 7) full_executor = Done true e' ∧ chan_buf (channel e') = [5; 7] ∧
    chan_cap (channel e') = 2.
Proof.
  destruct (Submit_spec 7 full_executor) as (e' & Hr & _ & _ & _ & _ & _ & _ & Hb & _).
  - split_and!; [unfold chan_ok; simpl; lia|done|done].
  - done.
  - done.
  - done.
  - exists e'. split_and!; [exact Hr|exact Hb|].
    assert (Done true e' = run (Submit 7) full_executor) as He by (by rewrite Hr).
    vm_compute in He. injection He as ->. done.
Defined.

(** * A submission that never returns

    Between the failed send of a submission, which finds the channel full, and its request
    for the write lock, the runner may take every task and then wait for the next one while
    it holds the read lock: from then on each waits for the other. *)
Definition full_then_one : list (call unit) := replicate 1025 (CSubmit tt).

(** The submitter goes first, to the point where it asks for the write lock. *)
Definition deadlock_schedule : bool :=
  deadlocks (4 * 1024 + 1) (6 * 1024 + 5) (Run 2000) (calls_prog full_then_one) NewExecutor.

Lemma deadlock_schedule_true : deadlock_schedule = true.
Proof. vm_cast_no_check (eq_refl true). Qed.

(** A goroutine that submits and the goroutine that runs the tasks can deadlock: from a
    fresh executor an interleaving of 1025 submissions and the runner leads to a
    state where both wait and neither can ever proceed. *)
Theorem Submit_deadlock :
  ∃ e ts,
    pool_steps (NewExecutor, [Run 2000; calls_prog full_then_one]) (e, ts) ∧
    Forall (λ p, waits e p = true) ts ∧ (∀ c, ¬ pool_step (e, ts) c).
Proof.
  pose proof deadlock_schedule_true as H. unfold deadlock_schedule in H.
  apply deadlocks_pool in H. exact H.
Qed.
