(* ===== verification/TaskBuffer.v ===== *)
(** The task buffer of a publisher: internal/impl/publisher/buffer/publisher_task_buffer.go.

    One goroutine takes tasks from the buffer one at a time, hands each to the send queue that
    all publishers of a service share, and waits for its completion before it takes the
    next.  The send queue and the goroutine that serves it belong to
    internal/impl/core/publisher.go; here they carry the tasks of this buffer ([Some])
    and those of other publishers ([None]); the queue
    has no buffer in the code, which is the case of a receive right after each send
    into one place.  A task is a value; executing it appends it to a
    log.  The logs and the positions of the two goroutines are history only. *)

From Stdlib Require Import ZArith Lia.
From stdpp Require Import base list relations.
From S2P Require Import Prelude GoEffects GoConc.

Section task_buffer.
Context {T : Type} `{!EqDecision T}.

(** The goroutine of Run: before a task, draining, with a task in hand, with a task handed
    over, leaving (gracefully or not, with the task it gave up), gone. *)
Inductive runner : Type :=
| Idle | Draining | Has (t : T) | Waiting (t : T)
| Exiting (graceful : bool) (lost : list T) | Finished (graceful : bool) (lost : list T).

(** The goroutine that serves the send queue: between tasks, with a task of this buffer in
    hand, with the task done, offering its completion. *)
Inductive sender : Type := SIdle | SHas (t : T) | SRan | SOffered.

#[export] Instance runner_eq_dec : EqDecision runner.
Proof using All. solve_decision. Defined.
#[export] Instance sender_eq_dec : EqDecision sender.
Proof using All. solve_decision. Defined.

Record taskBuffer : Type := mkTaskBuffer {
  channel : chan T;
  shared : chan (option T);
  notify : bool;
  terminateUngraceful : bool;
  terminateGraceful : bool;
  terminateComplete : bool;
  terminateTask : bool;
  termination : bool;
  (* history *)
  submitted : list T;
  executed : list T;
  snapshot : list T;
  ran : bool;
  runner_at : runner;
  sender_at : sender;
}.

Definition set_channel (c : chan T) (e : taskBuffer) : taskBuffer :=
  mkTaskBuffer c (shared e) (notify e) (terminateUngraceful e) (terminateGraceful e)
    (terminateComplete e) (terminateTask e) (termination e) (submitted e) (executed e) (snapshot e) (ran e)
    (runner_at e) (sender_at e).
Definition set_shared (c : chan (option T)) (e : taskBuffer) : taskBuffer :=
  mkTaskBuffer (channel e) c (notify e) (terminateUngraceful e) (terminateGraceful e)
    (terminateComplete e) (terminateTask e) (termination e) (submitted e) (executed e) (snapshot e) (ran e)
    (runner_at e) (sender_at e).
Definition set_notify (b r : bool) (e : taskBuffer) : taskBuffer :=
  mkTaskBuffer (channel e) (shared e) b (terminateUngraceful e) (terminateGraceful e)
    (terminateComplete e) (terminateTask e) (termination e) (submitted e) (executed e) (snapshot e) r
    (runner_at e) (sender_at e).
Definition set_ungraceful (b : bool) (e : taskBuffer) : taskBuffer :=
  mkTaskBuffer (channel e) (shared e) (notify e) b (terminateGraceful e)
    (terminateComplete e) (terminateTask e) (termination e) (submitted e) (executed e) (snapshot e) (ran e)
    (runner_at e) (sender_at e).
(** Closing the signal of graceful termination; the history notes what was submitted. *)
Definition set_graceful (b : bool) (e : taskBuffer) : taskBuffer :=
  mkTaskBuffer (channel e) (shared e) (notify e) (terminateUngraceful e) b
    (terminateComplete e) (terminateTask e) (termination e) (submitted e) (executed e) (submitted e) (ran e)
    (runner_at e) (sender_at e).
Definition set_complete (b : bool) (e : taskBuffer) : taskBuffer :=
  mkTaskBuffer (channel e) (shared e) (notify e) (terminateUngraceful e) (terminateGraceful e)
    b (terminateTask e) (termination e) (submitted e) (executed e) (snapshot e) (ran e)
    (match runner_at e with Exiting g l => Finished g l | r => r end) (sender_at e).
Definition set_task (b : bool) (e : taskBuffer) : taskBuffer :=
  mkTaskBuffer (channel e) (shared e) (notify e) (terminateUngraceful e) (terminateGraceful e)
    (terminateComplete e) b (termination e) (submitted e) (executed e) (snapshot e) (ran e)
    (runner_at e) (sender_at e).
Definition set_termination (b : bool) (e : taskBuffer) : taskBuffer :=
  mkTaskBuffer (channel e) (shared e) (notify e) (terminateUngraceful e) (terminateGraceful e)
    (terminateComplete e) (terminateTask e) b (submitted e) (executed e) (snapshot e) (ran e)
    (runner_at e) (sender_at e).
Definition set_runner (r : runner) (e : taskBuffer) : taskBuffer :=
  mkTaskBuffer (channel e) (shared e) (notify e) (terminateUngraceful e) (terminateGraceful e)
    (terminateComplete e) (terminateTask e) (termination e) (submitted e) (executed e) (snapshot e) (ran e)
    r (sender_at e).
Definition set_sender (r : sender) (e : taskBuffer) : taskBuffer :=
  mkTaskBuffer (channel e) (shared e) (notify e) (terminateUngraceful e) (terminateGraceful e)
    (terminateComplete e) (terminateTask e) (termination e) (submitted e) (executed e) (snapshot e) (ran e)
    (runner_at e) r.
Definition log_submitted (t : T) (e : taskBuffer) : taskBuffer :=
  mkTaskBuffer (channel e) (shared e) (notify e) (terminateUngraceful e) (terminateGraceful e)
    (terminateComplete e) (terminateTask e) (termination e) (submitted e ++ [t]) (executed e) (snapshot e)
    (ran e) (runner_at e) (sender_at e).
(** [task(buffer.terminateTask)]. *)
Definition exec (t : T) (e : taskBuffer) : taskBuffer :=
  mkTaskBuffer (channel e) (shared e) (notify e) (terminateUngraceful e) (terminateGraceful e)
    (terminateComplete e) (terminateTask e) (termination e) (submitted e) (executed e ++ [t]) (snapshot e)
    true (runner_at e) SRan.

Definition NewChannelBasedPublisherTaskBuffer (capacity : nat) (sharedQueue : chan (option T))
    : taskBuffer :=
  mkTaskBuffer (make_chan capacity) sharedQueue false false false false false false [] [] [] false
    Idle SIdle.

(** * Operations *)

Definition Submit (task : T) : prog taskBuffer bool :=
  let! complete := load terminateComplete in
  if (complete : bool) then PRet false
  else
    action (λ e,
      match chan_try_send task (channel e) with
      | Done true c => AOk true (log_submitted task (set_channel c e))
      | Done false _ => AOk false e
      | Panicked p _ => APanic p
      | Blocked _ => ABlock
      end).

(** The timer of a graceful termination may fire at any time. *)
Definition Terminate (timer : bool) : prog taskBuffer bool :=
  close_signal terminateGraceful set_graceful ;;;;
  if negb timer then await_closed terminateComplete ;;;; PRet true
  else
    let! fired := select [ (λ e, if terminateComplete e then AOk false e else ABlock);
                           (λ e, AOk true e) ] in
    if negb fired then PRet true
    else
      close_signal terminateTask set_task ;;;;
      close_signal terminateUngraceful set_ungraceful ;;;;
      await_closed terminateComplete ;;;; PRet false.

Definition TerminateNow : prog taskBuffer bool :=
  close_signal terminateGraceful set_graceful ;;;;
  close_signal terminateTask set_task ;;;;
  close_signal terminateUngraceful set_ungraceful ;;;; PRet true.

(** Polling the signals at the top of the loop. *)
Definition poll_ungraceful : prog taskBuffer bool :=
  action (λ e, if terminateUngraceful e then AOk true (set_runner (Exiting false []) e)
               else AOk false e).
Definition poll_graceful : prog taskBuffer bool :=
  action (λ e, if terminateGraceful e then AOk true (set_runner Draining e)
               else AOk false e).

(** [case task = <-buffer.channel]; the channel is never closed, a nil task would crash. *)
Definition take (e : taskBuffer) : act taskBuffer (option T) :=
  match chan_recv (channel e) with
  | Done (Some t) c => AOk (Some t) (set_runner (Has t) (set_channel c e))
  | Done None _ => APanic NilDereference
  | Panicked p _ => APanic p
  | Blocked _ => ABlock
  end.

(** While draining, an empty buffer is the end. *)
Definition take_or_exit : prog taskBuffer (option T) :=
  action (λ e, match take e with
               | ABlock => AOk None (set_runner (Exiting true []) e)
               | a => a
               end).

(** Handing the task over to the send queue, or giving it up. *)
Definition hand_over (t : T) : prog taskBuffer bool :=
  select [ (λ e, match chan_send (Some t) (shared e) with
                 | Done _ c => AOk true (set_runner (Waiting t) (set_shared c e))
                 | Panicked p _ => APanic p
                 | Blocked _ => ABlock
                 end);
           (λ e, if terminateUngraceful e
                 then AOk false (set_runner (Exiting false [t]) e) else ABlock) ].

(** [<-taskCompleteNotify]. *)
Definition await_task : prog taskBuffer unit :=
  action (λ e, if notify e then AOk tt (set_runner Idle (set_notify false false e)) else ABlock).

Definition finish : prog taskBuffer bool :=
  close_signal terminateComplete set_complete ;;;; PRet true.

(** What the selects of a turn lead to. *)
Inductive turn : Type := Exit | Continue | Task (t : T).

(** The loop of Run for at most [fuel] turns; [true] when it has terminated. *)
Fixpoint Run (fuel : nat) : prog taskBuffer bool :=
  match fuel with
  | O => PRet false
  | S fuel =>
      let! ungraceful := poll_ungraceful in
      if (ungraceful : bool) then finish
      else
        let! graceful := poll_graceful in
        let! task :=
          (if (graceful : bool) then
             let! r := take_or_exit in
             PRet (match r with Some t => Task t | None => Exit end)
           else
             let! r := select [ take;
                          (λ e, if terminateGraceful e then AOk None e else ABlock) ] in
             PRet (match r with Some t => Task t | None => Continue end)) in
        match task with
        | Exit => finish
        | Continue => Run fuel
        | Task t =>
            let! sent := hand_over t in
            if (sent : bool) then await_task ;;;; Run fuel else finish
        end
  end.

(** * The send queue *)

(** Serving a task of this buffer runs it and offers its completion on [taskCompleteNotify],
    which has no buffer. *)
Definition run_task (t : T) : prog taskBuffer unit :=
  update (exec t) ;;;;
  action (λ e, AOk tt (set_sender SOffered (set_notify true true e))) ;;;;
  action (λ e, if notify e then ABlock else AOk tt (set_sender SIdle e)).

(** [case task := <-publisher.taskQueue]. *)
Definition next_task (e : taskBuffer) : act taskBuffer (option (option T)) :=
  match chan_recv (shared e) with
  | Done (Some (Some t)) c => AOk (Some (Some t)) (set_sender (SHas t) (set_shared c e))
  | Done (Some None) c => AOk (Some None) (set_shared c e)
  | Done None _ => APanic NilDereference
  | Panicked p _ => APanic p
  | Blocked _ => ABlock
  end.

(** The goroutine that serves the queue, for at most [fuel] tasks, until the service
    terminates it; [true] when it has left its loop. *)
Fixpoint serve (fuel : nat) : prog taskBuffer bool :=
  match fuel with
  | O => PRet false
  | S fuel =>
      let! stop := load termination in
      if (stop : bool) then PRet true
      else
        let! item := select [ next_task;
                              (λ e, if termination e then AOk None e else ABlock) ] in
        match item with
        | None => PRet true
        | Some None => serve fuel
        | Some (Some t) => run_task t ;;;; serve fuel
        end
  end.

(** The service stops the send queue. *)
Definition stop_queue : prog taskBuffer bool :=
  update (set_termination true) ;;;; PRet true.

(** Another publisher queues a task of its own. *)
Definition other_task : prog taskBuffer bool :=
  action (λ e, match chan_send None (shared e) with
               | Done _ c => AOk true (set_shared c e)
               | Panicked p _ => APanic p
               | Blocked _ => ABlock
               end).

(** * Protocol *)

Inductive permit : Type :=
| At (r : runner) | SenderAt (r : sender)
| CloseGraceful | CloseTask | CloseUngraceful.

#[export] Instance permit_eq_dec : EqDecision permit.
Proof using All. solve_decision. Defined.

Definition held (e : taskBuffer) (x : permit) : nat :=
  match x with
  | At r => if decide (runner_at e = r) then 0 else 1
  | SenderAt r => if decide (sender_at e = r) then 0 else 1
  | CloseGraceful => if terminateGraceful e then 1 else 0
  | CloseTask => if terminateTask e then 1 else 0
  | CloseUngraceful => if terminateUngraceful e then 1 else 0
  end.
Definition total (x : permit) : nat := 1.

(** The tasks taken from the buffer and not executed. *)
Definition pending (e : taskBuffer) : list T :=
  match runner_at e with
  | Has t => [t]
  | Waiting t => if ran e then [] else [t]
  | Exiting _ l | Finished _ l => l
  | _ => []
  end.

(** The tasks of this buffer in the send queue or in the hand of its goroutine. *)
Definition in_flight (e : taskBuffer) : list T :=
  omap id (chan_buf (shared e)) ++
  match sender_at e with SHas t => [t] | _ => [] end.

Record buffer_inv (e : taskBuffer) : Prop := {
  inv_open : chan_closed (channel e) = false ∧ chan_closed (shared e) = false;
  inv_fifo : submitted e = executed e ++ pending e ++ chan_buf (channel e);
  inv_flight : in_flight e =
    match runner_at e with Waiting t => if ran e then [] else [t] | _ => [] end;
  inv_ran : ran e = true ↔ sender_at e = SRan ∨ notify e = true;
  inv_ran_waiting : ran e = true → ∃ t, runner_at e = Waiting t;
  inv_notify : notify e = true → sender_at e = SOffered;
  inv_complete : terminateComplete e = true ↔ ∃ g l, runner_at e = Finished g l;
  inv_draining : runner_at e = Draining → terminateGraceful e = true;
  inv_graceful : terminateGraceful e = true → snapshot e `prefix_of` submitted e;
  inv_left : ∀ g l, runner_at e = Exiting g l ∨ runner_at e = Finished g l →
    if g then terminateGraceful e = true ∧ snapshot e `prefix_of` executed e
    else terminateUngraceful e = true;
}.

(** Nothing executed is forgotten, and nothing is executed after the end. *)
Definition buffer_move (e e' : taskBuffer) : Prop :=
  executed e `prefix_of` executed e' ∧
  (terminateComplete e = true → terminateComplete e' = true ∧ executed e' = executed e).

Abbreviation bproto l := (proto buffer_inv buffer_move held total (own l)).
Abbreviation bfits e l := (fits held total e (own l)).

Lemma buffer_move_same e e' :
  executed e' = executed e → terminateComplete e' = terminateComplete e → buffer_move e e'.
Proof using Type. intros H1 H2. unfold buffer_move. rewrite H1, H2. naive_solver. Qed.

Lemma buffer_fits_at e r l : bfits e (At r :: l) → runner_at e = r.
Proof using Type.
  intros Hf. specialize (Hf (At r)). pose proof (own_here (At r) l).
  unfold total in Hf. cbn [held] in Hf. case_decide; [done|lia].
Qed.

Lemma fits_sender e r l : bfits e (SenderAt r :: l) → sender_at e = r.
Proof using Type.
  intros Hf. specialize (Hf (SenderAt r)). pose proof (own_here (SenderAt r) l).
  unfold total in Hf. cbn [held] in Hf. case_decide; [done|lia].
Qed.

(** Moving the control point of the runner, or of the sender. *)
Lemma conserves_runner e e' r r' l :
  runner_at e = r → runner_at e' = r' → sender_at e' = sender_at e →
  terminateGraceful e' = terminateGraceful e → terminateTask e' = terminateTask e →
  terminateUngraceful e' = terminateUngraceful e →
  conserves held e (own (At r :: l)) e' (own (At r' :: l)).
Proof using Type.
  intros H1 H2 H3 H4 H5 H6 x. cbn [own]. destruct x; cbn [held];
    rewrite ?H1, ?H2, ?H3, ?H4, ?H5, ?H6; repeat case_decide; first [lia|congruence].
Qed.

Lemma conserves_sender e e' r r' l :
  sender_at e = r → sender_at e' = r' → runner_at e' = runner_at e →
  terminateGraceful e' = terminateGraceful e → terminateTask e' = terminateTask e →
  terminateUngraceful e' = terminateUngraceful e →
  conserves held e (own (SenderAt r :: l)) e' (own (SenderAt r' :: l)).
Proof using Type.
  intros H1 H2 H3 H4 H5 H6 x. cbn [own]. destruct x; cbn [held];
    rewrite ?H1, ?H2, ?H3, ?H4, ?H5, ?H6; repeat case_decide; first [lia|congruence].
Qed.

Lemma conserves_none e e' n :
  sender_at e' = sender_at e → runner_at e' = runner_at e →
  terminateGraceful e' = terminateGraceful e → terminateTask e' = terminateTask e →
  terminateUngraceful e' = terminateUngraceful e →
  conserves held e n e' n.
Proof using Type.
  intros H3 H4 H5 H6 H7 x. destruct x; cbn [held]; rewrite ?H3, ?H4, ?H5, ?H6, ?H7; lia.
Qed.

(** * Preservation of the invariant *)

Ltac crush_step :=
  match goal with
  | H : ?P ∧ ?Q |- _ => destruct H
  | H : ∃ _, _ |- _ => destruct H
  | H : ?P ∨ ?Q |- _ => destruct H
  | H : true = true → ?P |- _ => specialize (H eq_refl)
  | |- ?P ↔ ?Q => split
  | |- _ → _ => intro
  | H : ?a = ?b |- _ => progress simplify_eq/=
  | |- _ => progress simpl in *
  end.
Ltac crush := repeat crush_step; try done; try congruence.

Lemma inv_submit t e : buffer_inv e →
  buffer_inv (log_submitted t (set_channel
    (mkChan (chan_cap (channel e)) (chan_buf (channel e) ++ [t]) false) e)).
Proof using Type.
  intros [[Ho1 Ho2] Hf Hfl Hr Hrw Hn Hc Hd Hg Hl]. split; try done; simpl.
  - by rewrite Hf, <-!app_assoc.
  - intros H. destruct (Hg H) as [k ->]. exists (k ++ [t]). by rewrite app_assoc.
Qed.

(** Not waiting for a task, the runner has none in flight. *)
Lemma inv_not_ran e : buffer_inv e → (∀ t, runner_at e ≠ Waiting t) →
  ran e = false ∧ in_flight e = [].
Proof using Type.
  intros He Hw. split.
  - destruct (ran e) eqn:Hr; [|done]. destruct (inv_ran_waiting e He Hr) as [t Ht].
    by destruct (Hw t).
  - rewrite (inv_flight e He). destruct (runner_at e); try done. by destruct (Hw t).
Qed.

(** Not finished, the end is not signalled. *)
Lemma inv_not_complete e : buffer_inv e → (∀ g l, runner_at e ≠ Finished g l) →
  terminateComplete e = false.
Proof using Type.
  intros He Hw. destruct (terminateComplete e) eqn:Hc; [|done].
  apply (inv_complete e He) in Hc as (g & l & Hc). by destruct (Hw g l).
Qed.

(** A move of the runner between positions with no task handed over and no task dropped. *)
Lemma inv_runner e r c :
  buffer_inv e →
  (∀ t, runner_at e ≠ Waiting t) → (∀ t, r ≠ Waiting t) →
  (∀ g l, runner_at e ≠ Finished g l) → (∀ g l, r ≠ Finished g l) →
  chan_closed c = false →
  pending e ++ chan_buf (channel e) =
    pending (set_runner r e) ++ chan_buf c →
  (r = Draining → terminateGraceful e = true) →
  (∀ g l, r = Exiting g l →
    if g then terminateGraceful e = true ∧ snapshot e `prefix_of` executed e
    else terminateUngraceful e = true) →
  buffer_inv (set_runner r (set_channel c e)).
Proof using Type.
  intros He Hw1 Hw2 Hf1 Hf2 Hc Hpend Hdrain Hexit.
  destruct (inv_not_ran e He Hw1) as [Hran Hfl].
  pose proof (inv_not_complete e He Hf1) as Hcomp.
  destruct He as [[Ho1 Ho2] Hf Hfl' Hr Hrw Hn Hcc Hd Hg Hl].
  split; simpl; try done.
  - rewrite Hf, Hpend. by unfold pending.
  - unfold in_flight in *. simpl. rewrite Hfl. destruct r; try done. by destruct (Hw2 t).
  - congruence.
  - rewrite Hcomp. split; [done|]. intros (g & l & Hgl). by apply Hf2 in Hgl.
  - intros g l [H|H]; [by apply (Hexit g l)|by apply Hf2 in H].
Qed.

Lemma set_channel_same e : set_channel (channel e) e = e.
Proof using Type. by destruct e. Qed.

(** A move of the runner's position alone. *)
Lemma inv_runner_pos e r :
  buffer_inv e →
  (∀ t, runner_at e ≠ Waiting t) → (∀ t, r ≠ Waiting t) →
  (∀ g l, runner_at e ≠ Finished g l) → (∀ g l, r ≠ Finished g l) →
  pending e = pending (set_runner r e) →
  (r = Draining → terminateGraceful e = true) →
  (∀ g l, r = Exiting g l →
    if g then terminateGraceful e = true ∧ snapshot e `prefix_of` executed e
    else terminateUngraceful e = true) →
  buffer_inv (set_runner r e).
Proof using Type.
  intros He. intros. rewrite <-(set_channel_same e). apply inv_runner; try done.
  - apply (inv_open e He).
  - by f_equal.
Qed.

(** ** The runner *)

Lemma proto_poll_ungraceful {B} l (k : bool → prog taskBuffer B) Q :
  bproto (At (Exiting false []) :: l) (k true) Q → bproto (At Idle :: l) (k false) Q →
  bproto (At Idle :: l) (pbind poll_ungraceful k) Q.
Proof using Type.
  intros Ht Hf e He Hfit. pose proof (buffer_fits_at e _ l Hfit) as Hr.
  destruct (terminateUngraceful e) eqn:Hu.
  - split_and!; [|by apply buffer_move_same|].
    + apply inv_runner_pos; try done; try congruence.
      * unfold pending. by rewrite Hr.
      * by intros g l' [= <- <-].
    + exists (own (At (Exiting false []) :: l)). split; [by apply conserves_runner|done].
  - split_and!; [done|by apply buffer_move_same|]. eexists. split; [|done]. intros x; lia.
Qed.

Lemma proto_poll_graceful {B} l (k : bool → prog taskBuffer B) Q :
  bproto (At Draining :: l) (k true) Q → bproto (At Idle :: l) (k false) Q →
  bproto (At Idle :: l) (pbind poll_graceful k) Q.
Proof using Type.
  intros Ht Hf e He Hfit. pose proof (buffer_fits_at e _ l Hfit) as Hr.
  destruct (terminateGraceful e) eqn:Hu.
  - split_and!; [|by apply buffer_move_same|].
    + apply inv_runner_pos; try done; try congruence.
      unfold pending. by rewrite Hr.
    + exists (own (At Draining :: l)). split; [by apply conserves_runner|done].
  - split_and!; [done|by apply buffer_move_same|]. eexists. split; [|done]. intros x; lia.
Qed.

(** Taking a task, before or while draining. *)
Lemma take_ok e r l : buffer_inv e → bfits e (At r :: l) → r = Idle ∨ r = Draining →
  match take e with
  | AOk (Some t) e' => buffer_inv e' ∧ buffer_move e e' ∧
      conserves held e (own (At r :: l)) e' (own (At (Has t) :: l))
  | ABlock => chan_buf (channel e) = []
  | _ => False
  end.
Proof using Type.
  intros He Hfit Hr. pose proof (buffer_fits_at e _ l Hfit) as Hat.
  destruct (inv_open e He) as [Ho _]. unfold take, chan_recv.
  destruct (chan_buf (channel e)) as [|t buf] eqn:Hb; [by rewrite Ho|].
  assert (pending e = []) as Hp by (unfold pending; rewrite Hat; by destruct Hr as [->| ->]).
  split_and!; [|by apply buffer_move_same|by apply conserves_runner].
  apply inv_runner; try done.
  - rewrite Hat. destruct Hr; congruence.
  - rewrite Hat. destruct Hr; congruence.
  - by rewrite Hp, Hb.
Qed.

Lemma proto_take_or_exit {B} l (k : option T → prog taskBuffer B) Q :
  (∀ t, bproto (At (Has t) :: l) (k (Some t)) Q) →
  bproto (At (Exiting true []) :: l) (k None) Q →
  bproto (At Draining :: l) (pbind take_or_exit k) Q.
Proof using Type.
  intros Hsome Hnone e He Hfit. pose proof (buffer_fits_at e _ l Hfit) as Hat.
  pose proof (take_ok e Draining l He Hfit (or_intror eq_refl)) as Htake.
  destruct (take e) as [[t|] e'| |] eqn:Ht; [|done| |done].
  - destruct Htake as (? & ? & ?). split_and!; [done..|]. eexists. split; [done|apply Hsome].
  - pose proof (inv_draining e He Hat) as Hg.
    split_and!; [|by apply buffer_move_same|].
    + apply inv_runner_pos; try done; try (rewrite Hat; congruence).
      * unfold pending. by rewrite Hat.
      * intros g l' [= <- <-]. split; [done|].
        pose proof (inv_graceful e He Hg) as Hpre. pose proof (inv_fifo e He) as Hf.
        unfold pending in Hf. rewrite Hat, Htake in Hf. simpl in Hf. rewrite app_nil_r in Hf.
        by rewrite <-Hf.
    + eexists. split; [by apply conserves_runner|done].
Qed.

Lemma proto_take_select {B} l (k : option T → prog taskBuffer B) Q :
  (∀ t, bproto (At (Has t) :: l) (k (Some t)) Q) →
  bproto (At Idle :: l) (k None) Q →
  bproto (At Idle :: l)
    (pbind (select [take; (λ e, if terminateGraceful e then AOk None e else ABlock)]) k) Q.
Proof using Type.
  intros Hsome Hnone e He Hfit f Hf.
  pose proof (take_ok e Idle l He Hfit (or_introl eq_refl)) as Htake.
  apply list_elem_of_In in Hf as [<-|[<-|[]]].
  - destruct (take e) as [[t|] e'| |] eqn:Ht; [|done..].
    destruct Htake as (? & ? & ?). split_and!; [done..|]. eexists. split; [done|apply Hsome].
  - destruct (terminateGraceful e); [|done].
    split_and!; [done|by apply buffer_move_same|]. eexists. split; [|done]. intros x; lia.
Qed.

Lemma proto_hand_over {B} t l (k : bool → prog taskBuffer B) Q :
  bproto (At (Waiting t) :: l) (k true) Q →
  bproto (At (Exiting false [t]) :: l) (k false) Q →
  bproto (At (Has t) :: l) (pbind (hand_over t) k) Q.
Proof using Type.
  intros Htrue Hfalse e He Hfit f Hf. pose proof (buffer_fits_at e _ l Hfit) as Hat.
  apply list_elem_of_In in Hf as [<-|[<-|[]]].
  - destruct (inv_open e He) as [Ho1 Ho2]. unfold chan_send. rewrite Ho2. case_decide; [|done].
    assert (∀ t', runner_at e ≠ Waiting t') as Hw by congruence.
    destruct (inv_not_ran e He Hw) as [Hran Hfl].
    split_and!; [|by apply buffer_move_same|].
    + assert (terminateComplete e = false) as Hcomp by (apply inv_not_complete; congruence).
      destruct He as [_ Hfifo Hfl' Hr Hrw Hn Hcc Hd Hg Hl].
      split; simpl; try done.
      * rewrite Hfifo. unfold pending. simpl. by rewrite Hat, Hran.
      * unfold in_flight in *. simpl. rewrite Hran, omap_app. simpl.
        apply app_eq_nil in Hfl as [-> ->]. done.
      * eauto.
      * rewrite Hcomp. crush.
      * crush.
    + eexists. split; [by apply conserves_runner|done].
  - destruct (terminateUngraceful e) eqn:Hu; [|done].
    split_and!; [|by apply buffer_move_same|].
    + apply inv_runner_pos; try done; try congruence.
      * unfold pending. by rewrite Hat.
      * by intros g l' [= <- <-].
    + eexists. split; [by apply conserves_runner|done].
Qed.

Lemma proto_await_task {B} t l (k : unit → prog taskBuffer B) Q :
  bproto (At Idle :: l) (k tt) Q →
  bproto (At (Waiting t) :: l) (pbind await_task k) Q.
Proof using Type.
  intros Hk e He Hfit. pose proof (buffer_fits_at e _ l Hfit) as Hat.
  destruct (notify e) eqn:Hn; [|done].
  pose proof (inv_notify e He Hn) as Hs.
  assert (ran e = true) as Hran by (apply (inv_ran e He); by right).
  assert (terminateComplete e = false) as Hcomp by (apply inv_not_complete; congruence).
  split_and!; [|by apply buffer_move_same|].
  - destruct He as [Ho Hfifo Hfl Hr Hrw Hnn Hcc Hd Hg Hl].
    split; simpl; try done.
    + rewrite Hfifo. unfold pending. simpl. by rewrite Hat, Hran.
    + unfold in_flight in *. simpl. by rewrite Hfl, Hat, Hran.
    + rewrite Hs. crush.
    + rewrite Hcomp. crush.
    + crush.
  - eexists. split; [by apply conserves_runner|done].
Qed.

Lemma buffer_proto_finish g lost l Q : (∀ b n, Q b n) →
  bproto (At (Exiting g lost) :: l) finish Q.
Proof using Type.
  intros HQ e He Hfit. pose proof (buffer_fits_at e _ l Hfit) as Hat.
  assert (terminateComplete e = false) as Hcomp by (apply inv_not_complete; congruence).
  rewrite Hcomp. split_and!.
  - destruct He as [Ho Hfifo Hfl Hr Hrw Hnn Hcc Hd Hg Hl].
    split; simpl; try done.
    + rewrite Hfifo. unfold pending. simpl. by rewrite Hat.
    + unfold in_flight in *. simpl. by rewrite Hfl, Hat.
    + rewrite Hat. intros H. destruct (Hrw H). congruence.
    + rewrite Hat. split; [eauto|done].
    + rewrite Hat. crush.
    + rewrite Hat. intros g' l' [?|[= <- <-]]; [done|]. apply (Hl g lost). by left.
  - split; [done|]. rewrite Hcomp. done.
  - exists (own (At (Finished g lost) :: l)). split; [|apply HQ].
    apply conserves_runner; try done. simpl. by rewrite Hat.
Qed.

Lemma buffer_proto_Run fuel l : bproto (At Idle :: l) (Run fuel) anything.
Proof using Type.
  induction fuel as [|fuel IH]; [done|]. cbn [Run].
  apply proto_poll_ungraceful; [by apply buffer_proto_finish|].
  assert (∀ t, bproto (At (Has t) :: l)
    (let! sent := hand_over t in if (sent : bool) then await_task ;;;; Run fuel else finish)
    anything) as Hhas.
  { intros t. apply proto_hand_over; [by apply proto_await_task|by apply buffer_proto_finish]. }
  apply proto_poll_graceful.
  - apply proto_bind, proto_take_or_exit; [intros t; apply Hhas|by apply buffer_proto_finish].
  - apply proto_bind, proto_take_select; [intros t; apply Hhas|apply IH].
Qed.

(** ** The send queue *)

Lemma inv_recv_shared item buf e : buffer_inv e → sender_at e = SIdle →
  chan_buf (shared e) = item :: buf →
  buffer_inv (set_sender (match item with Some t => SHas t | None => SIdle end)
    (set_shared (mkChan (chan_cap (shared e)) buf false) e)).
Proof using Type.
  intros [[Ho1 Ho2] Hf Hfl Hr Hrw Hn Hc Hd Hg Hl] Hs Hb.
  split; simpl; try done.
  - unfold in_flight in *. simpl. rewrite <-Hfl, Hs, Hb, app_nil_r. simpl.
    destruct item as [t|]; simpl; [|by rewrite app_nil_r].
    rewrite Hs, Hb, app_nil_r in Hfl. simpl in Hfl.
    change (omap id buf) with (list_omap (option T) T id buf).
    destruct (list_omap (option T) T id buf); [done|]. destruct (runner_at e), (ran e); done.
  - rewrite Hr, Hs. destruct item; crush; tauto.
  - intros H. specialize (Hn H). congruence.
Qed.

(** The goroutine with a task in its hand finds the runner waiting for that task. *)
Lemma holding_task e t : buffer_inv e → sender_at e = SHas t →
  runner_at e = Waiting t ∧ ran e = false ∧ omap id (chan_buf (shared e)) = [] ∧
  notify e = false.
Proof using Type.
  intros He Hs. pose proof (inv_flight e He) as Hfl. unfold in_flight in Hfl. rewrite Hs in Hfl.
  assert (ran e = false) as Hran.
  { destruct (ran e) eqn:Hr; [|done].
    pose proof (proj1 (inv_ran e He) Hr) as [H|H]; [congruence|].
    pose proof (inv_notify e He H). congruence. }
  rewrite Hran in Hfl. destruct (omap id (chan_buf (shared e))) as [|? [|]].
  - destruct (runner_at e); simplify_eq/=. split_and!; try done.
    destruct (notify e) eqn:Hn; [|done]. pose proof (inv_notify e He Hn). congruence.
  - destruct (runner_at e); simplify_eq/=.
  - destruct (runner_at e); simplify_eq/=.
Qed.

Lemma buffer_proto_exec {B} t l (k : unit → prog taskBuffer B) Q :
  bproto (SenderAt SRan :: l) (k tt) Q →
  bproto (SenderAt (SHas t) :: l) (pbind (update (exec t)) k) Q.
Proof using Type.
  intros Hk e He Hfit. pose proof (fits_sender e _ l Hfit) as Hs.
  destruct (holding_task e t He Hs) as (Hat & Hran & Hq & Hno).
  assert (terminateComplete e = false) as Hcomp by (apply inv_not_complete; congruence).
  split_and!.
  - destruct He as [Ho Hf Hfl Hr Hrw Hn Hc Hd Hg Hl]. split; simpl; try done.
    + rewrite Hf. unfold pending. simpl. rewrite Hat, Hran. by rewrite <-app_assoc.
    + unfold in_flight. simpl. by rewrite Hat, Hq.
    + crush. tauto.
    + eauto.
    + congruence.
    + crush.
  - split; [by exists [t]|]. rewrite Hcomp. done.
  - exists (own (SenderAt SRan :: l)). split; [by apply conserves_sender|done].
Qed.

Lemma proto_run_task {B} t l (k : unit → prog taskBuffer B) Q :
  bproto (SenderAt SIdle :: l) (k tt) Q →
  bproto (SenderAt (SHas t) :: l) (pbind (run_task t) k) Q.
Proof using Type.
  intros Hk. apply buffer_proto_exec. intros e He Hfit.
  pose proof (fits_sender e _ l Hfit) as Hs.
  assert (ran e = true) as Hran by (apply (inv_ran e He); by left).
  split_and!; [|by apply buffer_move_same|].
  { destruct He as [Ho Hf Hfl Hr Hrw Hn Hc Hd Hg Hl].
    destruct (Hrw Hran) as [t' Hat].
    split; simpl; try done.
    - rewrite Hf. unfold pending. simpl. by rewrite Hat, Hran.
    - unfold in_flight in *. simpl. rewrite Hs, Hat, Hran in Hfl. by rewrite Hfl, Hat.
    - crush. tauto.
    - eauto. }
  exists (own (SenderAt SOffered :: l)). split; [by apply conserves_sender|].
  clear e He Hfit Hs Hran. intros e He Hfit. pose proof (fits_sender e _ l Hfit) as Hs.
  destruct (notify e) eqn:Hno; [done|].
  split_and!; [|by apply buffer_move_same|].
  { destruct He as [Ho Hf Hfl Hr Hrw Hn Hc Hd Hg Hl]. split; simpl; try done.
    - unfold in_flight in *. simpl. by rewrite Hs in Hfl.
    - rewrite Hr, Hs. crush; tauto.
    - congruence. }
  exists (own (SenderAt SIdle :: l)). split; [by apply conserves_sender|done].
Qed.

Lemma proto_serve fuel l : bproto (SenderAt SIdle :: l) (serve fuel) anything.
Proof using Type.
  induction fuel as [|fuel IH]; [done|]. cbn [serve].
  intros e He _. split_and!; [done|by apply buffer_move_same|].
  exists (own (SenderAt SIdle :: l)). split; [intros x; lia|].
  destruct (termination e); [done|]. clear e He.
  intros e He Hfit f Hf. pose proof (fits_sender e _ l Hfit) as Hs.
  apply list_elem_of_In in Hf as [<-|[<-|[]]].
  - destruct (inv_open e He) as [_ Ho]. unfold next_task, chan_recv.
    destruct (chan_buf (shared e)) as [|[t|] buf] eqn:Hb; [by rewrite Ho|..].
    + split_and!; [|by apply buffer_move_same|].
      * rewrite Ho. by apply (inv_recv_shared (Some t)).
      * exists (own (SenderAt (SHas t) :: l)). split; [by apply conserves_sender|].
        by apply proto_run_task.
    + split_and!; [|by apply buffer_move_same|].
      * rewrite Ho. pose proof (inv_recv_shared None buf e He Hs Hb) as Hinv.
        assert (set_sender SIdle (set_shared (mkChan (chan_cap (shared e)) buf false) e) =
                set_shared (mkChan (chan_cap (shared e)) buf false) e) as <-; [|done].
        destruct e; simpl in *. by rewrite Hs.
      * eexists. split; [by apply conserves_none|apply IH].
  - destruct (termination e); [|done].
    split_and!; [done|by apply buffer_move_same|]. exists (own (SenderAt SIdle :: l)). split; [|done]. intros x; lia.
Qed.

Lemma proto_stop_queue {B} l (k : bool → prog taskBuffer B) Q :
  bproto l (k true) Q → bproto l (pbind stop_queue k) Q.
Proof using Type.
  intros Hk e He _. split_and!; [by destruct He|by apply buffer_move_same|].
  exists (own l). split; [by apply conserves_none|done].
Qed.

(** ** Clients *)

Lemma buffer_proto_Submit {B} t l (k : bool → prog taskBuffer B) Q :
  (∀ b, bproto l (k b) Q) → bproto l (pbind (Submit t) k) Q.
Proof using Type.
  intros Hk e He _. split_and!; [done|by apply buffer_move_same|].
  exists (own l). split; [intros x; lia|]. destruct (terminateComplete e); [apply Hk|].
  clear e He. intros e He _. destruct (inv_open e He) as [Ho _].
  unfold chan_try_send. rewrite Ho. case_decide.
  - split_and!; [by apply inv_submit|by apply buffer_move_same|].
    exists (own l). split; [by apply conserves_none|apply Hk].
  - split_and!; [done|by apply buffer_move_same|]. eexists. split; [|apply Hk]. intros x; lia.
Qed.

Lemma proto_other_task {B} l (k : bool → prog taskBuffer B) Q :
  bproto l (k true) Q → bproto l (pbind other_task k) Q.
Proof using Type.
  intros Hk e He _. destruct (inv_open e He) as [_ Ho].
  unfold chan_send. rewrite Ho. case_decide; [|done].
  split_and!; [|by apply buffer_move_same|].
  - destruct He as [[Hop _] Hf Hfl Hr Hrw Hn Hc Hd Hg Hl]. split; simpl; try done.
    unfold in_flight in *. simpl. rewrite omap_app. simpl. by rewrite app_nil_r.
  - eexists. split; [by apply conserves_none|done].
Qed.

(** The signals are closed by their owner. *)
Lemma fits_signal e x l : bfits e l → 1 ≤ own l x → held e x = 0.
Proof using Type. intros Hf Hx. specialize (Hf x). unfold total in Hf. lia. Qed.

Lemma proto_close_graceful {B} l (k : unit → prog taskBuffer B) Q :
  bproto l (k tt) Q →
  bproto (CloseGraceful :: l) (pbind (close_signal terminateGraceful set_graceful) k) Q.
Proof using Type.
  intros Hk e He Hfit. pose proof (fits_signal e _ _ Hfit (own_here _ _)) as Hx. simpl in Hx.
  destruct (terminateGraceful e) eqn:Hc; [done|].
  split_and!; [|by apply buffer_move_same|].
  - destruct He as [Ho Hf Hfl Hr Hrw Hn Hcc Hd Hg Hl]. split; simpl; try done.
    intros g l' H. specialize (Hl g l' H). destruct g; [|done]. destruct Hl. congruence.
  - exists (own l). split; [|done]. intros y. destruct y; simpl; rewrite ?Hc;
      repeat case_decide; simplify_eq; lia.
Qed.

Lemma proto_close_task {B} l (k : unit → prog taskBuffer B) Q :
  bproto l (k tt) Q →
  bproto (CloseTask :: l) (pbind (close_signal terminateTask set_task) k) Q.
Proof using Type.
  intros Hk e He Hfit. pose proof (fits_signal e _ _ Hfit (own_here _ _)) as Hx. simpl in Hx.
  destruct (terminateTask e) eqn:Hc; [done|].
  split_and!; [by destruct He|by apply buffer_move_same|].
  exists (own l). split; [|done]. intros y. destruct y; simpl; rewrite ?Hc;
    repeat case_decide; simplify_eq; lia.
Qed.

Lemma proto_close_ungraceful {B} l (k : unit → prog taskBuffer B) Q :
  bproto l (k tt) Q →
  bproto (CloseUngraceful :: l) (pbind (close_signal terminateUngraceful set_ungraceful) k) Q.
Proof using Type.
  intros Hk e He Hfit. pose proof (fits_signal e _ _ Hfit (own_here _ _)) as Hx. simpl in Hx.
  destruct (terminateUngraceful e) eqn:Hc; [done|].
  split_and!; [|by apply buffer_move_same|].
  - destruct He as [Ho Hf Hfl Hr Hrw Hn Hcc Hd Hg Hl]. split; simpl; try done.
    intros g l' H. specialize (Hl g l' H). by destruct g.
  - exists (own l). split; [|done]. intros y. destruct y; simpl; rewrite ?Hc;
      repeat case_decide; simplify_eq; lia.
Qed.

Lemma proto_await_complete {B} l (k : unit → prog taskBuffer B) Q :
  bproto l (k tt) Q → bproto l (pbind (await_closed terminateComplete) k) Q.
Proof using Type.
  intros Hk e He _. simpl. destruct (terminateComplete e) eqn:Hc; [|done].
  split_and!; [done|by apply buffer_move_same|]. eexists. split; [|done]. intros x; lia.
Qed.

Lemma proto_TerminateNow :
  bproto [CloseGraceful; CloseTask; CloseUngraceful] TerminateNow anything.
Proof using Type.
  by apply proto_close_graceful, proto_close_task, proto_close_ungraceful.
Qed.

Lemma buffer_proto_Terminate timer :
  bproto [CloseGraceful; CloseTask; CloseUngraceful] (Terminate timer) anything.
Proof using Type.
  apply proto_close_graceful. destruct timer; simpl negb; cbn match.
  - intros e He _ f Hf. apply list_elem_of_In in Hf as [<-|[<-|[]]].
    + destruct (terminateComplete e) eqn:Hc; [|done].
      split_and!; [done|by apply buffer_move_same|].
      exists (own [CloseTask; CloseUngraceful]). split; [intros x; lia|done].
    + split_and!; [done|by apply buffer_move_same|].
      exists (own [CloseTask; CloseUngraceful]). split; [intros x; lia|].
      by apply proto_close_task, proto_close_ungraceful, proto_await_complete.
  - by apply proto_await_complete.
Qed.
End task_buffer.
Arguments taskBuffer T : clear implicits.
Arguments runner T : clear implicits.
Arguments sender T : clear implicits.

(** * The buffer among any number of publishing goroutines *)

Section buffer_clients.
Context {T : Type} `{!EqDecision T}.

(** What a goroutine does: submit a task, queue a task of another publisher, or stop the
    send queue. *)
Inductive call : Type := CSubmit (t : T) | COther | CStop.

Fixpoint calls_prog (cs : list call) : prog (taskBuffer T) bool :=
  match cs with
  | [] => PRet true
  | CSubmit t :: cs => Submit t ;;;; calls_prog cs
  | COther :: cs => other_task ;;;; calls_prog cs
  | CStop :: cs => stop_queue ;;;; calls_prog cs
  end.

(** The one goroutine that won the right to terminate the publisher. *)
Inductive terminator : Type := TNever | TGraceful (timer : bool) | TNow.

Definition terminator_prog (t : terminator) : prog (taskBuffer T) bool :=
  match t with
  | TNever => PRet true
  | TGraceful timer => Terminate timer
  | TNow => TerminateNow
  end.

Definition buffer_pool (capacity qcap fuel sfuel : nat) (term : terminator)
    (clients : list (list call)) : taskBuffer T * list (prog (taskBuffer T) bool) :=
  (NewChannelBasedPublisherTaskBuffer capacity (make_chan qcap),
   Run fuel :: serve sfuel :: terminator_prog term :: (calls_prog <$> clients)).

Lemma buffer_proto_calls cs : proto (buffer_inv (T := T)) buffer_move held total (own []) (calls_prog cs) anything.
Proof using All.
  induction cs as [|[t| |] cs IH]; [done|..]; cbn [calls_prog].
  - by apply buffer_proto_Submit.
  - by apply proto_other_task.
  - by apply proto_stop_queue.
Qed.

Lemma proto_terminator t :
  proto (buffer_inv (T := T)) buffer_move held total
    (own [CloseGraceful; CloseTask; CloseUngraceful]) (terminator_prog t) anything.
Proof using All.
  destruct t; [done|apply buffer_proto_Terminate|apply proto_TerminateNow].
Qed.

Lemma buffer_pool_ok capacity qcap fuel sfuel term clients :
  pool_ok (buffer_inv (T := T)) buffer_move held total
    (buffer_pool capacity qcap fuel sfuel term clients).
Proof using All.
  exists (own [At Idle] :: own [SenderAt SIdle] ::
          own [CloseGraceful; CloseTask; CloseUngraceful] ::
          replicate (length clients) (own [])).
  split_and!.
  - split; simpl; try done.
    + split; [done|]. by intros [|].
    + split; [done|]. by intros (? & ? & ?).
    + by intros g l [|].
  - cbn [buffer_pool snd]. constructor; [apply buffer_proto_Run|]. constructor; [apply proto_serve|].
    constructor; [apply proto_terminator|].
    apply Forall2_replicate_l; [apply length_fmap|].
    apply Forall_fmap, Forall_true. intros cs. apply buffer_proto_calls.
  - intros x. rewrite !fmap_cons. cbn [sum_list]. rewrite sum_own_replicate. cbn [own].
    destruct x; simpl; repeat case_decide; simplify_eq/=; unfold total; lia.
Qed.

(** C11: the buffer's goroutine, the goroutine of the send queue, one terminating goroutine and any
    number of submitting ones, in any interleaving.  Nothing panics (no signal is closed
    twice), tasks execute in the order of their submission, and when the buffer has
    terminated and not been cut short, every task submitted before the termination began
    has been executed. *)
Theorem buffer_fifo capacity qcap fuel sfuel term clients e ts :
  pool_steps (buffer_pool capacity qcap fuel sfuel term clients) (e, ts) →
  ¬ pool_panics (e, ts) ∧
  executed e `prefix_of` submitted e ∧
  (terminateComplete e = true → terminateUngraceful e = false →
     snapshot e `prefix_of` executed e).
Proof using All.
  intros Hsteps.
  destruct (pool_steps_ok _ _ _ _ _ _
    (buffer_pool_ok capacity qcap fuel sfuel term clients) Hsteps) as [Hok _].
  pose proof (pool_ok_inv _ _ _ _ _ Hok) as He. simpl in He. split_and!.
  - by eapply pool_ok_no_panic.
  - rewrite (inv_fifo e He). by apply prefix_app_r.
  - intros Hc Hu. apply (inv_complete e He) in Hc as (g & l & Hat).
    pose proof (inv_left e He g l (or_intror Hat)) as Hl.
    destruct g; [by destruct Hl|congruence].
Qed.

(** Once the buffer reports its termination, no task of it executes any more, whatever
    the other goroutines still do. *)
Theorem buffer_silent_after_termination capacity qcap fuel sfuel term clients e ts e' ts' :
  pool_steps (buffer_pool capacity qcap fuel sfuel term clients) (e, ts) →
  terminateComplete e = true →
  pool_steps (e, ts) (e', ts') →
  terminateComplete e' = true ∧ executed e' = executed e.
Proof using All.
  intros Hsteps Hc Hmore.
  destruct (pool_steps_ok _ _ _ _ _ _
    (buffer_pool_ok capacity qcap fuel sfuel term clients) Hsteps) as [Hok _].
  destruct (pool_steps_ok _ _ _ _ _ _ Hok Hmore) as [_ Hmoves]. simpl in Hmoves.
  clear -Hc Hmoves. induction Hmoves as [e|e1 e2 e3 Hmove _ IH]; [done|].
  destruct Hmove as [_ Hmove]. destruct (Hmove Hc) as [Hc2 He2].
  destruct (IH Hc2) as [? ?]. split; congruence.
Qed.
End buffer_clients.
Arguments call T : clear implicits.

(** * Examples *)

(** Two tasks are submitted, the termination begins, and the buffer drains. *)
Definition example_pool : taskBuffer nat * list (prog (taskBuffer nat) bool) :=
  buffer_pool 4 1 4 3 (TGraceful true)
    [[CSubmit 1; CSubmit 2; COther]; [CSubmit 3; COther]].

Definition drained (e : taskBuffer nat) : bool :=
  bool_decide (executed e = [1; 2]) && terminateComplete e && negb (terminateUngraceful e) &&
  bool_decide (snapshot e = [1; 2]).

Definition schedule : list (nat * nat) :=
  [(3, 5); (2, 1); (0, 3); (1, 2); (0, 1); (1, 4); (0, 1); (1, 1);
   (0, 4); (1, 4); (0, 1); (0, 4)].

Lemma buffer_fifo_witness :
  ∃ e ts, pool_steps example_pool (e, ts) ∧ drained e = true ∧
    ¬ pool_panics (e, ts) ∧ snapshot e `prefix_of` executed e.
Proof.
  assert (plays_to schedule example_pool drained = true) as Hp by (vm_compute; reflexivity).
  destruct (plays_to_steps _ _ _ Hp) as (e & ts & Hs & Hd). exists e, ts.
  destruct (buffer_fifo _ _ _ _ _ _ _ _ Hs) as (Hnp & _ & Hsnap).
  pose proof Hd as [[[_ Hc]%andb_true_iff Hu]%andb_true_iff _]%andb_true_iff.
  apply negb_true_iff in Hu. split_and!; [exact Hs|exact Hd|exact Hnp|].
  apply Hsnap; assumption.
Defined.

(** After the end, a late submission is refused, and a task of another publisher queued. *)
Definition late : bool :=
  match play schedule example_pool with
  | Some (e, ts) => drained e && plays_to [(4, 2)] (e, ts) (λ e', 0 <? length (chan_buf (shared e')))
  | None => false
  end.

Lemma buffer_silent_after_termination_witness :
  ∃ e ts e' ts', pool_steps example_pool (e, ts) ∧ drained e = true ∧
    pool_steps (e, ts) (e', ts') ∧ (0 <? length (chan_buf (shared e'))) = true ∧
    executed e' = executed e.
Proof.
  assert (late = true) as Hl by (vm_compute; reflexivity). unfold late in Hl.
  destruct (play schedule example_pool) as [[e ts]|] eqn:Hp; [|discriminate].
  apply andb_true_iff in Hl as [Hd Hl]. apply play_steps in Hp.
  destruct (plays_to_steps _ _ _ Hl) as (e' & ts' & Hs & Hq).
  exists e, ts, e', ts'.
  pose proof Hd as [[[_ Hc]%andb_true_iff _]%andb_true_iff _]%andb_true_iff.
  split_and!; [exact Hp|exact Hd|exact Hs|exact Hq|].
  exact (proj2 (buffer_silent_after_termination _ _ _ _ _ _ e ts e' ts' Hp Hc Hs)).
Defined.
