(* ===== verification/Validation.v ===== *)
(** Configuration: the property validators of internal/impl/validation/validator.go, the
    backpressure configuration of publisher/message_publisher_impl.go and the builders of
    the direct and persistent publishers.

    A property map is a Go map of interface values, here [gmap string data] with the
    dynamic values of the Sdt file; a missing key reads as the nil interface. *)

From Stdlib Require Import ZArith Lia.
From stdpp Require Import base list gmap strings.
From S2P Require Import Prelude GoStrconv GoEffects Errors Resource Sdt.

#[local] Open Scope Z_scope.

(** * Conversions of the language *)

Section go.
Context `{arch : !GoArch}.

Definition int_width : Z := 8 * sizeof_int.
Definition in_int (z : Z) : Prop := inS int_width z.

(** [int(x)] of an integer. *)
Definition to_int (z : Z) : Z := wrapS int_width z.

(** [int(x)] of a float64 given by its bits: truncation towards zero; a value out of range,
    which the language leaves to the implementation, is the least integer, as on amd64. *)
Definition float64_mantissa (bits : Z) : Z := Z.land bits (2 ^ 52 - 1).
Definition float64_exponent (bits : Z) : Z := Z.land (Z.shiftr bits 52) (2 ^ 11 - 1).
Definition float64_negative (bits : Z) : bool := Z.testbit bits 63.
Definition float64_trunc (bits : Z) : option Z :=
  let e := float64_exponent bits in
  if e =? 2047 then None
  else
    let m := if e =? 0 then float64_mantissa bits else 2 ^ 52 + float64_mantissa bits in
    let magnitude := Z.shiftl m (e - 1075) in
    Some (if float64_negative bits then - magnitude else magnitude).
Definition int_of_float64 (bits : Z) : Z :=
  match float64_trunc bits with
  | Some z => if bool_decide (in_int z) then z else - 2 ^ (int_width - 1)
  | None => - 2 ^ (int_width - 1)
  end.

(** The printing with [%v] of what is no string, truth value or integer is a parameter. *)
Class GoPrint : Type := { sprint_other : data → string }.
Definition sprint_data `{!GoPrint} (d : data) : string :=
  match d with
  | DNil => "<nil>"
  | DBool b => if b then "true" else "false"
  | DInt z | DUint z | DUint8 z | DInt8 z | DUint16 z | DInt16 z | DUint32 z | DInt32 z
  | DUint64 z | DInt64 z => sprint_int z
  | DString s => s
  | d => sprint_other d
  end.

(** * Validators

    Each returns the value, whether the property was present, and the error. *)

Abbreviation validated A := (A * bool * option go_error)%type.

Definition requiredPropertyError (key : string) : go_error :=
  NewError InvalidConfigurationError
    ("expected required property " +:+ key +:+ " to be set") None.

Definition wrongTypeError (key t : string) (value : data) : go_error :=
  NewError IllegalArgumentError
    ("expected configured value for " +:+ key +:+ " to be " +:+ t +:+ ", got " +:+
     type_name value) None.

(** [strings.Join(allowed, ",")]. *)
Fixpoint join_commas (l : list string) : string :=
  match l with
  | [] => ""
  | [s] => s
  | s :: l => s +:+ "," +:+ join_commas l
  end.

Definition StringPropertyValidation (key : string) (property : data) (allowed : list string)
    : validated string :=
  match property with
  | DNil => ("", false, Some (requiredPropertyError key))
  | DString propertyAsString =>
      match allowed with
      | [] => (propertyAsString, true, None)
      | _ =>
          match list_find (λ str, str = propertyAsString) allowed with
          | Some (_, str) => (str, true, None)
          | None =>
              ("", true, Some (NewError IllegalArgumentError
                 ("got invalid value '" +:+ propertyAsString +:+ "' for property " +:+ key +:+
                  ", valid values are [" +:+ join_commas allowed +:+ "]") None))
          end
      end
  | _ => ("", true, Some (wrongTypeError key "string" property))
  end.

Definition IntegerPropertyValidation (key : string) (property : data) : validated Z :=
  match property with
  | DNil => (0, false, Some (requiredPropertyError key))
  | DInt convertedProperty => (convertedProperty, true, None)
  | DUint convertedProperty => (to_int convertedProperty, true, None)
  | DFloat64 convertedProperty => (int_of_float64 convertedProperty, true, None)
  | _ => (0, true, Some (wrongTypeError key "integer" property))
  end.

Definition Int64PropertyValidation (key : string) (property : data) : validated Z :=
  match property with
  | DNil => (0, false, Some (requiredPropertyError key))
  | DInt64 converted | DInt32 converted | DInt converted => (converted, true, None)
  | _ => (0, true, Some (wrongTypeError key "int64" property))
  end.

Definition Uint64PropertyValidation (key : string) (property : data) : validated Z :=
  match property with
  | DNil => (0, false, Some (requiredPropertyError key))
  | DUint64 converted | DUint32 converted | DUint converted => (converted, true, None)
  | DInt converted => (wrapU 64 converted, true, None)
  | _ => (0, true, Some (wrongTypeError key "uint64" property))
  end.

Definition IntegerPropertyValidationWithRange (key : string) (property : data) (min max : Z)
    : validated Z :=
  match IntegerPropertyValidation key property with
  | (integer, present, err) =>
      if negb present || (match err with Some _ => true | None => false end)
      then (integer, present, err)
      else if (min <=? integer) && (integer <=? max) then (integer, true, None)
      else (0, true, Some (NewError IllegalArgumentError
             ("expected configured value for " +:+ key +:+ " to be within range [" +:+
              sprint_int min +:+ "," +:+ sprint_int max +:+ "], got " +:+ sprint_int integer)
             None))
  end.

Definition BooleanPropertyValidation (key : string) (property : data) : validated bool :=
  match property with
  | DNil => (false, false, Some (requiredPropertyError key))
  | DInt casted => (casted =? 1, true, None)
  | DBool casted => (casted, true, None)
  | DString casted => (String.eqb casted "true" || String.eqb casted "True", true, None)
  | _ => (false, true, Some (wrongTypeError key "bool" property))
  end.

(** * Backpressure *)

Abbreviation PropertyMap := (gmap string data).

(** Reading a missing key gives the nil interface. *)
Definition prop (m : PropertyMap) (key : string) : data := default DNil (m !! key).

Definition PublisherPropertyBackPressureStrategy : string :=
  "solace.messaging.publisher.back-pressure.strategy".
Definition PublisherPropertyBackPressureBufferCapacity : string :=
  "solace.messaging.publisher.back-pressure.buffer-capacity".
Definition BufferWaitWhenFull : string := "BUFFER_WAIT_WHEN_FULL".
Definition BufferRejectWhenFull : string := "BUFFER_REJECT_WHEN_FULL".

Inductive backpressureConfiguration : Type :=
| BackpressureDirect | BackpressureReject | BackpressureWait.

#[export] Instance backpressure_eq_dec : EqDecision backpressureConfiguration.
Proof using Type. solve_decision. Defined.

(** The named results are returned as they stand at each return. *)
Definition validateBackpressureConfig (properties : PropertyMap)
    : backpressureConfiguration * Z * option go_error :=
  match StringPropertyValidation PublisherPropertyBackPressureStrategy
          (prop properties PublisherPropertyBackPressureStrategy)
          [BufferRejectWhenFull; BufferWaitWhenFull] with
  | (_, _, Some err) => (BackpressureDirect, 0, Some err)
  | (strategy, _, None) =>
      match IntegerPropertyValidation PublisherPropertyBackPressureBufferCapacity
              (prop properties PublisherPropertyBackPressureBufferCapacity) with
      | (size, _, Some err) => (BackpressureDirect, size, Some err)
      | (size, _, None) =>
          if String.eqb strategy BufferRejectWhenFull then
            if size <? 0 then
              (BackpressureDirect, size, Some (NewError InvalidConfigurationError
                 ("buffer size must be >= 0 with backpressure strategy " +:+ strategy +:+
                  ", got " +:+ sprint_int size) None))
            else if size =? 0 then (BackpressureDirect, size, None)
            else (BackpressureReject, size, None)
          else if String.eqb strategy BufferWaitWhenFull then
            if size <? 1 then
              (BackpressureDirect, size, Some (NewError InvalidConfigurationError
                 ("buffer size must be > 0 with backpressure strategy " +:+ strategy +:+
                  ", got " +:+ sprint_int size) None))
            else (BackpressureWait, size, None)
          else (BackpressureDirect, size, None)
      end
  end.

(** * Builders *)

(** The properties of a new builder. *)
Definition DefaultDirectPublisherProperties : PropertyMap :=
  {[ PublisherPropertyBackPressureBufferCapacity := DInt 50;
     PublisherPropertyBackPressureStrategy := DString BufferWaitWhenFull ]}.

Definition OnBackPressureReject (bufferSize : Z) (properties : PropertyMap) : PropertyMap :=
  <[PublisherPropertyBackPressureBufferCapacity := DUint bufferSize]>
    (<[PublisherPropertyBackPressureStrategy := DString BufferRejectWhenFull]> properties).

Definition OnBackPressureWait (bufferSize : Z) (properties : PropertyMap) : PropertyMap :=
  <[PublisherPropertyBackPressureBufferCapacity := DUint bufferSize]>
    (<[PublisherPropertyBackPressureStrategy := DString BufferWaitWhenFull]> properties).

(** The assignments of the loop over the provider's map, in the order [l] it is visited. *)
Definition assign_all (l : list (string * data)) (properties : PropertyMap) : PropertyMap :=
  foldl (λ p '(key, value), <[key := value]> p) properties l.

(** [FromConfigurationProvider]; [None] is a nil provider. *)
Definition FromConfigurationProvider (provider : option (list (string * data)))
    (properties : PropertyMap) : PropertyMap :=
  match provider with None => properties | Some l => assign_all l properties end.

(** [Build], with the part of the publisher it fixes: the mode, and the capacity of its
    buffers, which are only made for buffered modes. *)
Definition Build (properties : PropertyMap)
    : res go_error (backpressureConfiguration * option Z) :=
  match validateBackpressureConfig properties with
  | (_, _, Some err) => Err err
  | (config, size, None) =>
      Ok (config, if decide (config ≠ BackpressureDirect) then Some size else None)
  end.

(** * Properties *)

(** The loop over the provider's map gives the union in whatever order it runs. *)
Lemma assign_all_union (m : PropertyMap) l properties :
  range_order m l → assign_all l properties = m ∪ properties.
Proof using Type.
  intros Hl. unfold range_order in Hl.
  assert (NoDup l.*1) as Hnd by (rewrite Hl; apply NoDup_fst_map_to_list).
  assert (m = list_to_map l) as ->.
  { rewrite <-(list_to_map_to_list m). apply list_to_map_proper; [|by symmetry].
    apply NoDup_fst_map_to_list. }
  clear Hl. unfold assign_all. revert properties Hnd.
  induction l as [|[k v] l IH]; intros properties Hnd; simpl; [by rewrite (left_id_L ∅ (∪))|].
  inversion Hnd as [|? ? Hk Hnd']; subst. rewrite IH by done.
  rewrite <-insert_union_r; [by rewrite insert_union_l|].
  by apply not_elem_of_list_to_map_1.
Qed.

(** What a property value means as a capacity. *)
Definition capacity_of (d : data) : option Z :=
  match d with
  | DInt z => Some z
  | DUint z => Some (to_int z)
  | DFloat64 b => Some (int_of_float64 b)
  | _ => None
  end.

Lemma IntegerPropertyValidation_ok key d z present :
  IntegerPropertyValidation key d = (z, present, None) ↔
  capacity_of d = Some z ∧ present = true.
Proof using Type. destruct d; simpl; naive_solver. Qed.

Definition is_nil (d : data) : bool := match d with DNil => true | _ => false end.

Lemma IntegerPropertyValidation_err key d z present e :
  IntegerPropertyValidation key d = (z, present, Some e) →
  capacity_of d = None ∧
  kind_of e = Some (if is_nil d then InvalidConfigurationError
                    else IllegalArgumentError).
Proof using Type.
  destruct d; simpl; intros [= <- <- <-]; by split.
Qed.

Definition strategies : list string := [BufferRejectWhenFull; BufferWaitWhenFull].

Lemma StringPropertyValidation_ok key d s present :
  StringPropertyValidation key d strategies = (s, present, None) ↔
  d = DString s ∧ s ∈ strategies ∧ present = true.
Proof using Type.
  unfold strategies. destruct d; simpl; try naive_solver.
  repeat case_decide; subst; simpl; rewrite !elem_of_cons, elem_of_nil; naive_solver.
Qed.

Lemma StringPropertyValidation_err key d s present e :
  StringPropertyValidation key d strategies = (s, present, Some e) →
  (∀ s', d = DString s' → s' ∉ strategies) ∧
  kind_of e = Some (if is_nil d then InvalidConfigurationError
                    else IllegalArgumentError).
Proof using Type.
  unfold strategies. destruct d; simpl; try (intros [= <- <- <-]; by split).
  repeat case_decide; subst; simpl; try done. intros [= <- <- <-]. split; [|done].
  intros s' [= <-]. rewrite !elem_of_cons, elem_of_nil. naive_solver.
Qed.

(** C12: build succeeds exactly on a strategy and an integer capacity that fit together, so
    the buffers of a buffered publisher always have a positive capacity, and only a reject
    strategy of capacity zero makes an unbuffered one. *)
Theorem Build_spec properties r :
  Build properties = Ok r ↔
  ∃ strategy n,
    prop properties PublisherPropertyBackPressureStrategy = DString strategy ∧
    capacity_of (prop properties PublisherPropertyBackPressureBufferCapacity) = Some n ∧
    ((strategy = BufferRejectWhenFull ∧ n = 0 ∧ r = (BackpressureDirect, None)) ∨
     (strategy = BufferRejectWhenFull ∧ 0 < n ∧ r = (BackpressureReject, Some n)) ∨
     (strategy = BufferWaitWhenFull ∧ 0 < n ∧ r = (BackpressureWait, Some n))).
Proof using Type.
  unfold Build, validateBackpressureConfig.
  destruct (StringPropertyValidation _ _ _) as [[s present] [e|]] eqn:Hs.
  { apply StringPropertyValidation_err in Hs as [Hs _]. split; [done|].
    intros (s' & n & Hs' & _ & Hr). exfalso. apply (Hs s' Hs').
    unfold strategies. rewrite !elem_of_cons. naive_solver. }
  apply StringPropertyValidation_ok in Hs as (Hs & Hin & _). rewrite Hs.
  destruct (IntegerPropertyValidation _ _) as [[n present'] [e|]] eqn:Hn.
  { apply IntegerPropertyValidation_err in Hn as [Hn _]. rewrite Hn. naive_solver. }
  apply IntegerPropertyValidation_ok in Hn as [Hn _]. rewrite Hn.
  unfold strategies in Hin. rewrite !elem_of_cons, elem_of_nil in Hin.
  destruct Hin as [->|[->|[]]]; cbn -[Z.ltb Z.eqb].
  - destruct (Z.ltb_spec n 0); [naive_solver lia|]. destruct (Z.eqb_spec n 0); naive_solver lia.
  - destruct (Z.ltb_spec n 1); naive_solver lia.
Qed.

(** The property values that decide the kind of a failure. *)
Definition bad_strategy (d : data) : bool :=
  match d with
  | DNil => false
  | DString s => bool_decide (s ∉ strategies)
  | _ => true
  end.
Definition bad_capacity (d : data) : bool :=
  match d with
  | DNil => false
  | _ => match capacity_of d with Some _ => false | None => true end
  end.

(** The error of a failed Build is an IllegalArgumentError exactly when a property is
    present with a wrong type or an unknown strategy (and no earlier property is missing), and
    an InvalidConfigurationError otherwise: a missing property or a capacity out of bounds. *)
Theorem Build_error_kind properties e :
  Build properties = Err e →
  let strategy := prop properties PublisherPropertyBackPressureStrategy in
  let capacity := prop properties PublisherPropertyBackPressureBufferCapacity in
  kind_of e = Some (if bad_strategy strategy || (negb (is_nil strategy) &&
                         bad_capacity capacity)
                    then IllegalArgumentError else InvalidConfigurationError).
Proof using Type.
  unfold Build, validateBackpressureConfig. cbv zeta.
  set (strategy := prop properties PublisherPropertyBackPressureStrategy).
  set (capacity := prop properties PublisherPropertyBackPressureBufferCapacity).
  destruct (StringPropertyValidation _ _ _) as [[s present] [e'|]] eqn:Hs.
  { apply StringPropertyValidation_err in Hs as [Hs Hk]. intros [= <-]. rewrite Hk.
    destruct strategy; try done. simpl. by rewrite bool_decide_true by (by apply Hs). }
  apply StringPropertyValidation_ok in Hs as (Hs & Hin & _). rewrite Hs.
  cbn [bad_strategy is_nil]. rewrite (bool_decide_false (s ∉ strategies)) by tauto.
  destruct (IntegerPropertyValidation _ _) as [[n present'] [e'|]] eqn:Hn.
  { apply IntegerPropertyValidation_err in Hn as [Hn Hk]. intros [= <-]. rewrite Hk.
    destruct capacity; done. }
  apply IntegerPropertyValidation_ok in Hn as [Hn _].
  assert (bad_capacity capacity = false) as -> by (by destruct capacity).
  unfold strategies in Hin. rewrite !elem_of_cons, elem_of_nil in Hin.
  destruct Hin as [->|[->|[]]]; cbn -[Z.ltb Z.eqb sprint_int].
  - destruct (n <? 0); [by intros [= <-]|]. by destruct (n =? 0).
  - destruct (n <? 1); [by intros [= <-]|]. done.
Qed.

Lemma prop_insert_ne key key' d properties : key ≠ key' →
  prop (<[key := d]> properties) key' = prop properties key'.
Proof using Type. intros Hne. unfold prop. by rewrite lookup_insert_ne. Qed.

Lemma prop_insert key d properties : prop (<[key := d]> properties) key = d.
Proof using Type. unfold prop. by rewrite lookup_insert_eq. Qed.

(** Builds by the two properties they read. *)
Lemma Build_reject properties n :
  prop properties PublisherPropertyBackPressureStrategy = DString BufferRejectWhenFull →
  capacity_of (prop properties PublisherPropertyBackPressureBufferCapacity) = Some n →
  is_ok (Build properties) = negb (n <? 0) ∧
  (0 ≤ n → Build properties =
     Ok (if decide (n = 0) then (BackpressureDirect, None) else (BackpressureReject, Some n))).
Proof using Type.
  intros Hs Hn. unfold Build, validateBackpressureConfig. rewrite Hs.
  rewrite (proj2 (IntegerPropertyValidation_ok _ _ n true) (conj Hn eq_refl)).
  cbn -[Z.ltb Z.eqb sprint_int].
  destruct (Z.ltb_spec n 0); [split; [done|lia]|].
  destruct (Z.eqb_spec n 0) as [->|?]; [done|]. split; [done|]. intros _.
  by rewrite (decide_False (P := n = 0)).
Qed.

Lemma Build_wait properties n :
  prop properties PublisherPropertyBackPressureStrategy = DString BufferWaitWhenFull →
  capacity_of (prop properties PublisherPropertyBackPressureBufferCapacity) = Some n →
  is_ok (Build properties) = negb (n <? 1) ∧
  (1 ≤ n → Build properties = Ok (BackpressureWait, Some n)).
Proof using Type.
  intros Hs Hn. unfold Build, validateBackpressureConfig. rewrite Hs.
  rewrite (proj2 (IntegerPropertyValidation_ok _ _ n true) (conj Hn eq_refl)).
  cbn -[Z.ltb Z.eqb sprint_int].
  destruct (Z.ltb_spec n 1); [split; [done|lia]|done].
Qed.

(** A uint either is the int of the same value or becomes negative. *)
Lemma to_int_uint n : inU int_width n →
  (in_int n → to_int n = n) ∧ (¬ in_int n → to_int n < 0).
Proof using Type.
  assert (0 < int_width) as Hw.
  { unfold int_width. destruct sizeof_int_ok as [->| ->]; lia. }
  unfold inU, in_int, inS, to_int. intros Hn. split; [by apply wrapS_id|].
  intros Hout. unfold wrapS. pose proof (pow2_half int_width Hw) as Hh.
  pose proof (pow2_pos (int_width - 1)) as Hp.
  assert (n + 2 ^ (int_width - 1) = (n - 2 ^ (int_width - 1)) + 1 * 2 ^ int_width) as -> by lia.
  rewrite Z.mod_add by lia. rewrite Z.mod_small by lia. lia.
Qed.

(** What an application asks of a builder is what it gets, whatever it set before: a
    provider's properties override the earlier ones in any order of iteration, a later
    OnBackPressureReject or OnBackPressureWait overrides both, and the result is the
    requested mode with the requested capacity, for every capacity an int can hold; a
    larger one, and a wait on an empty buffer, are refused. *)
Theorem builder_last_wins (provider : PropertyMap) l properties n :
  range_order provider l → inU int_width n →
  let from := FromConfigurationProvider (Some l) properties in
  from = provider ∪ properties ∧
  (is_ok (Build (OnBackPressureReject n from)) = bool_decide (in_int n)) ∧
  (is_ok (Build (OnBackPressureWait n from)) = bool_decide (in_int n ∧ n ≠ 0)) ∧
  (in_int n → Build (OnBackPressureReject n from) =
     Ok (if decide (n = 0) then (BackpressureDirect, None) else (BackpressureReject, Some n))) ∧
  (in_int n → n ≠ 0 → Build (OnBackPressureWait n from) = Ok (BackpressureWait, Some n)).
Proof using Type.
  intros Hl Hn from. split; [by apply assign_all_union|].
  destruct (to_int_uint n Hn) as [Hin Hout].
  pose proof (Build_reject (OnBackPressureReject n from) (to_int n)) as HR.
  pose proof (Build_wait (OnBackPressureWait n from) (to_int n)) as HW.
  unfold OnBackPressureReject, OnBackPressureWait in *.
  rewrite prop_insert, prop_insert_ne, prop_insert in HR by done.
  rewrite prop_insert, prop_insert_ne, prop_insert in HW by done.
  destruct (HR eq_refl eq_refl) as [HR1 HR2], (HW eq_refl eq_refl) as [HW1 HW2].
  rewrite HR1, HW1. unfold inU in Hn. destruct (decide (in_int n)) as [Hi|Hi].
  - rewrite (Hin Hi) in *. rewrite !bool_decide_decide.
    repeat case_decide; split_and!; try tauto; try lia; intros; (apply HR2 || apply HW2); lia.
  - specialize (Hout Hi). rewrite !bool_decide_decide.
    repeat case_decide; split_and!; try tauto; lia.
Qed.

(** The range validator accepts exactly the integers of the range; whatever the value, a
    property is reported absent only when it is nil, and an error comes with a zero value
    unless the value itself was read. *)
Theorem range_validation key d lo hi z :
  (IntegerPropertyValidationWithRange key d lo hi = (z, true, None) ↔
     capacity_of d = Some z ∧ lo ≤ z ≤ hi) ∧
  ((IntegerPropertyValidationWithRange key d lo hi).1.2 = negb (is_nil d)) ∧
  (∀ e present, IntegerPropertyValidationWithRange key d lo hi = (z, present, Some e) → z = 0).
Proof using Type.
  unfold IntegerPropertyValidationWithRange.
  destruct (IntegerPropertyValidation key d) as [[n present] [e|]] eqn:Hn.
  - pose proof (IntegerPropertyValidation_err _ _ _ _ _ Hn) as [Hcap _].
    assert (n = 0 ∧ present = negb (is_nil d)) as [-> ->].
    { destruct d; simpl in Hn; simplify_eq; done. }
    rewrite Hcap. rewrite orb_true_r. naive_solver.
  - apply IntegerPropertyValidation_ok in Hn as [Hcap ->]. rewrite Hcap. simpl.
    assert (is_nil d = false) as -> by (by destruct d).
    destruct (Z.leb_spec lo n), (Z.leb_spec n hi); simpl; naive_solver lia.
Qed.
End go.

(** * Examples *)

Lemma Build_error_kind_witness :
  ∃ e, Build {[ PublisherPropertyBackPressureStrategy := DString "NONE" ]} = Err e ∧
    kind_of e = Some IllegalArgumentError.
Proof.
  eexists. split; [reflexivity|].
  exact (Build_error_kind {[ PublisherPropertyBackPressureStrategy := DString "NONE" ]} _ eq_refl).
Defined.

Lemma builder_last_wins_witness :
  Build (OnBackPressureReject 10
    (FromConfigurationProvider (Some [("a"%string, DInt 1)]) DefaultDirectPublisherProperties)) =
  Ok (BackpressureReject, Some 10).
Proof.
  destruct (builder_last_wins {[ "a"%string := DInt 1 ]} [("a"%string, DInt 1)]
    DefaultDirectPublisherProperties 10) as (_ & _ & _ & H & _).
  - unfold range_order. rewrite map_to_list_singleton. reflexivity.
  - unfold inU. change int_width with 64. lia.
  - apply H. unfold in_int, inS. change int_width with 64. lia.
Defined.

(** Truncation of the float64 values 10.75 and -2.5, and of an infinity. *)
Example int_of_float64_examples :
  int_of_float64 0x4025800000000000 = 10 ∧ int_of_float64 0xC004000000000000 = -2 ∧
  int_of_float64 0x7FF0000000000000 = - 2 ^ 63.
Proof. split_and!; vm_compute; reflexivity. Qed.
