(* ===== verification/Message.v ===== *)
(** Messages: the fields of a message of the C library with the wrappers of
    internal/ccsmp/ccsmp_message.go and ccsmp_message_tracing.go, the getters of
    internal/impl/message/message_impl.go and inbound_message_impl.go, and the builder of
    outbound messages with the setters of outbound_message_impl.go.

    A message of the library is what its documentation says ([CMessages]): getting a field gives
    what was last set, and setting it changes no other field, the forms of the payload apart.
    Every call of the library may fail. *)

From Stdlib Require Import ZArith Lia Ascii.
From stdpp Require Import base list gmap strings.
From S2P Require Import Prelude GoStrconv GoEffects Errors Resource Sdt SdtContainer Validation.

#[local] Open Scope Z_scope.

(** * The fields of a message *)

(** [solClient_msg_tracing_context_type_t]. *)
Inductive SolClientMessageTracingContextType : Type :=
| SolClientContextTypeTransportContext | SolClientContextTypeCreationContext.

#[export] Instance tracing_context_eq_dec : EqDecision SolClientMessageTracingContextType.
Proof. solve_decision. Defined.

(** The fields that the functions [solClient_msg_get...] and [solClient_msg_set...] access. *)
Inductive msg_field : Type :=
| ApplicationMsgType | CorrelationId | ApplicationMessageId | SenderId
| HttpContentType | HttpContentEncoding
| Expiration | Priority | SequenceNumber | ClassOfService | TimeToLive
| DMQEligible | ElidingEligible | AckImmediately
| DeliveryMode_ | CorrelationTag | DestinationField | ReplyTo | AsReply
| BinaryBytes | BinaryString | BinaryMap | BinaryStream | Xml | UserProperties
| TraceID (c : SolClientMessageTracingContextType)
| SpanID (c : SolClientMessageTracingContextType)
| Sampled (c : SolClientMessageTracingContextType)
| TraceState (c : SolClientMessageTracingContextType)
| Baggage
| SenderTimestamp | RcvTimestamp | MsgId | CacheRequestId | ReplicationGroupMessageId.

#[export] Instance msg_field_eq_dec : EqDecision msg_field.
Proof. solve_decision. Defined.

(** What a field holds: a string of C is what precedes its NUL, but a trace state has a length of its
    own, and a baggage is given with the NUL that ends it. *)
Definition cval (K : Type) (f : msg_field) : Type :=
  match f with
  | ApplicationMsgType | CorrelationId | ApplicationMessageId | SenderId | HttpContentType
  | HttpContentEncoding | BinaryString | TraceState _ | Baggage => string
  | Expiration | Priority | SequenceNumber | ClassOfService | TimeToLive | DeliveryMode_
  | SenderTimestamp | RcvTimestamp | MsgId | CacheRequestId => Z
  | DMQEligible | ElidingEligible | AckImmediately | AsReply | Sampled _ => bool
  | CorrelationTag | BinaryBytes | Xml | TraceID _ | SpanID _ | ReplicationGroupMessageId =>
      list Byte.byte
  | DestinationField | ReplyTo => destinationType * string
  | BinaryMap | BinaryStream | UserProperties => K
  end.

(** The forms of the binary attachment are one part of the message. *)
Definition binary (f : msg_field) : bool :=
  match f with BinaryBytes | BinaryString | BinaryMap | BinaryStream => true | _ => false end.
Definition indep (f g : msg_field) : bool := negb (bool_decide (f = g) || (binary f && binary g)).

(** The setter of sequence numbers takes 64 unsigned bits and the getter gives signed ones. *)
Definition cval_fits {K} (f : msg_field) : cval K f → bool :=
  match f with SequenceNumber => λ z, z <? 2 ^ 63 | _ => λ _, true end.

(** [solClient_cacheStatus_t]. *)
Inductive SolClientCacheStatus : Type :=
| SolClientCacheStatusInvalidMessage | SolClientCacheStatusLiveMessage
| SolClientCacheStatusCacheMessage | SolClientCacheStatusSuspectMessage.

(** The functions of the library on messages [M] and on their containers [K]: a container of a
    message is opened, filled, and closed ([msg_set]). *)
Class CMessages (M K : Type) : Type := {
  msg_alloc : res ErrorInfo M;
  msg_dup : M → res ErrorInfo M;
  msg_free : M → M;
  msg_get : ∀ f : msg_field, M → res ErrorInfo (cval K f);
  msg_set : ∀ f : msg_field, cval K f → M → res ErrorInfo M;
  msg_create : msg_field → M → res ErrorInfo K;
  msg_deleteBaggage : M → res ErrorInfo M;
  msg_isRedelivered : M → bool;
  msg_isDiscardIndication : M → bool;
  msg_isCacheMsg : M → SolClientCacheStatus;
}.

(** What their documentation says of them. *)
Class CMessagesLaws (M K : Type) `{!CContainers K} `{!CMessages M K} : Prop := {
  get_set_same : ∀ f v (m m' : M), msg_set f v m = Ok m' → cval_fits f v = true →
    msg_get f m' = Ok v;
  get_set_other : ∀ f g v (m m' : M), msg_set f v m = Ok m' → indep f g = true →
    msg_get g m' = msg_get g m;
  create_empty : ∀ f (m : M) k, msg_create f m = Ok k → container_fields k = [];
  deleteBaggage_get : ∀ m m' : M, msg_deleteBaggage m = Ok m' →
    ∃ info, msg_get Baggage m' = Err info ∧ ReturnCode info ≠ ReturnCodeFail;
  deleteBaggage_other : ∀ g (m m' : M), msg_deleteBaggage m = Ok m' → g ≠ Baggage →
    msg_get g m' = msg_get g m;
  dup_get : ∀ f (m m' : M), msg_dup m = Ok m' → msg_get f m' = msg_get f m;
  alloc_plain : ∀ m : M, msg_alloc = Ok m →
    ∀ f, binary f = true ∨ f = Xml ∨ f = UserProperties →
    ∃ info, msg_get f m = Err info ∧ ReturnCode info = ReturnCodeNotFound;
}.

(** * Wrappers *)

Section wrappers.
Context {M K : Type} `{!CMessages M K} `{!GoArch}.

(** A value and an error, as Go returns them: the variable keeps its first value when the call
    fails. *)
Definition go_pair {A} (zero : A) (r : res ErrorInfo A) : A * option ErrorInfo :=
  match r with Ok a => (a, None) | Err info => (zero, Some info) end.

(** The getters of attachments, whose code tests the return code. *)
Definition attachment_bytes (r : res ErrorInfo (list Byte.byte)) : list Byte.byte * bool :=
  match r with
  | Ok bs => (bs, true)
  | Err info => ([], bool_decide (ReturnCode info = ReturnCodeOk))
  end.

Definition SolClientMessageAlloc : res ErrorInfo M := msg_alloc.
Definition SolClientMessageDup (m : M) : res ErrorInfo M := msg_dup m.

Definition SolClientMessageGetBinaryAttachmentAsBytes (m : M) : list Byte.byte * bool :=
  attachment_bytes (msg_get BinaryBytes m).
Definition SolClientMessageGetXMLAttachmentAsBytes (m : M) : list Byte.byte * bool :=
  attachment_bytes (msg_get Xml m).
Definition SolClientMessageSetBinaryAttachmentAsBytes (arr : list Byte.byte) (m : M)
    : res ErrorInfo M := msg_set BinaryBytes arr m.
Definition SolClientMessageGetBinaryAttachmentAsString (m : M) : string * bool :=
  match msg_get BinaryString m with Ok s => (s, true) | Err _ => ("", false) end.
Definition SolClientMessageSetBinaryAttachmentString (str : string) (m : M) : res ErrorInfo M :=
  msg_set BinaryString (cstring str) m.
Definition SolClientMessageGetBinaryAttachmentAsStream (m : M)
    : option (SolClientOpaqueContainer K) :=
  match msg_get BinaryStream m with
  | Ok k => Some (mkContainer k SolClientOpaqueContainerStream)
  | Err _ => None
  end.
Definition SolClientMessageGetBinaryAttachmentAsMap (m : M) : option (SolClientOpaqueContainer K) :=
  match msg_get BinaryMap m with
  | Ok k => Some (mkContainer k SolClientOpaqueContainerMap)
  | Err _ => None
  end.
Definition SolClientMessageGetUserPropertyMap (m : M)
    : res ErrorInfo (SolClientOpaqueContainer K) :=
  let? k := msg_get UserProperties m in Ok (mkContainer k SolClientOpaqueContainerMap).

(** The functions of ccsmp_container.go that open a container of a message. *)
Definition SolClientMessageCreateUserPropertyMap (m : M)
    : res ErrorInfo (SolClientOpaqueContainer K) :=
  let? k := msg_create UserProperties m in Ok (mkContainer k SolClientOpaqueContainerMap).
Definition SolClientMessageCreateBinaryAttachmentMap (m : M)
    : res ErrorInfo (SolClientOpaqueContainer K) :=
  let? k := msg_create BinaryMap m in Ok (mkContainer k SolClientOpaqueContainerMap).
Definition SolClientMessageCreateBinaryAttachmentStream (m : M)
    : res ErrorInfo (SolClientOpaqueContainer K) :=
  let? k := msg_create BinaryStream m in Ok (mkContainer k SolClientOpaqueContainerStream).

Definition SolClientMessageGetApplicationMessageType (m : M) : string * option ErrorInfo :=
  go_pair "" (msg_get ApplicationMsgType m).
Definition SolClientMessageSetApplicationMessageType (msgType : string) (m : M) : res ErrorInfo M :=
  msg_set ApplicationMsgType (cstring msgType) m.
Definition SolClientMessageGetCorrelationID (m : M) : string * option ErrorInfo :=
  go_pair "" (msg_get CorrelationId m).
Definition SolClientMessageSetCorrelationID (correlationID : string) (m : M) : res ErrorInfo M :=
  msg_set CorrelationId (cstring correlationID) m.
Definition SolClientMessageGetApplicationMessageID (m : M) : string * option ErrorInfo :=
  go_pair "" (msg_get ApplicationMessageId m).
Definition SolClientMessageSetApplicationMessageID (msgID : string) (m : M) : res ErrorInfo M :=
  msg_set ApplicationMessageId (cstring msgID) m.
Definition SolClientMessageGetDestinationName (m : M) : string * option ErrorInfo :=
  go_pair "" (let? d := msg_get DestinationField m in Ok (snd d)).
Definition SolClientMessageGetReplyToDestinationName (m : M) : string * option ErrorInfo :=
  go_pair "" (let? d := msg_get ReplyTo m in Ok (snd d)).
Definition SolClientMessageSetDestination (destinationString : string) (m : M) : res ErrorInfo M :=
  msg_set DestinationField (TopicDestination, cstring destinationString) m.
Definition SolClientMessageSetReplyToDestination (replyToDestinationString : string) (m : M)
    : res ErrorInfo M :=
  msg_set ReplyTo (TopicDestination, cstring replyToDestinationString) m.
Definition SolClientMessageSetAsReply (val : bool) (m : M) : res ErrorInfo M := msg_set AsReply val m.

(** Times are nanoseconds since 1970; the zero time of Go is the start of the year 1. *)
Definition zero_time : Z := -62135596800 * 10 ^ 9.
Definition time_Unix (sec nsec : Z) : Z := sec * 10 ^ 9 + nsec.
Definition UnixNano (t : Z) : Z := wrapS 64 t.
Definition Unix (t : Z) : Z := t / 10 ^ 9.
Definition time_of_millis (timeInMillis : Z) : Z :=
  time_Unix (Z.quot timeInMillis 1000) (Z.rem timeInMillis 1000 * 10 ^ 6).

Definition SolClientMessageGetExpiration (m : M) : Z * option ErrorInfo :=
  let r := go_pair 0 (msg_get Expiration m) in (time_of_millis (fst r), snd r).
Definition SolClientMessageSetExpiration (expiration : Z) (m : M) : res ErrorInfo M :=
  msg_set Expiration expiration m.
Definition SolClientMessageGetPriority (m : M) : Z * option ErrorInfo :=
  go_pair 0 (msg_get Priority m).
Definition SolClientMessageSetPriority (priority : Z) (m : M) : res ErrorInfo M :=
  msg_set Priority (wrapS 32 priority) m.
Definition SolClientMessageGetHTTPContentType (m : M) : string * option ErrorInfo :=
  go_pair "" (msg_get HttpContentType m).
Definition SolClientMessageSetHTTPContentType (contentType : string) (m : M) : res ErrorInfo M :=
  msg_set HttpContentType (cstring contentType) m.
Definition SolClientMessageGetHTTPContentEncoding (m : M) : string * option ErrorInfo :=
  go_pair "" (msg_get HttpContentEncoding m).
Definition SolClientMessageSetHTTPContentEncoding (contentEncoding : string) (m : M)
    : res ErrorInfo M := msg_set HttpContentEncoding (cstring contentEncoding) m.
Definition SolClientMessageGetSequenceNumber (m : M) : Z * option ErrorInfo :=
  go_pair 0 (msg_get SequenceNumber m).
Definition SolClientMessageSetSequenceNumber (sequenceNumber : Z) (m : M) : res ErrorInfo M :=
  msg_set SequenceNumber sequenceNumber m.
Definition SolClientMessageGetClassOfService (m : M) : Z * option ErrorInfo :=
  let r := go_pair 0 (msg_get ClassOfService m) in (to_int (fst r), snd r).
Definition SolClientMessageSetClassOfService (classOfService : Z) (m : M) : res ErrorInfo M :=
  msg_set ClassOfService (wrapU 32 classOfService) m.
Definition SolClientMessageGetSenderID (m : M) : string * option ErrorInfo :=
  go_pair "" (msg_get SenderId m).
Definition SolClientMessageSetSenderID (senderID : string) (m : M) : res ErrorInfo M :=
  msg_set SenderId (cstring senderID) m.

Definition SolClientMessageGetMessageDiscardNotification (m : M) : bool := msg_isDiscardIndication m.
Definition SolClientMessageGetMessageIsRedelivered (m : M) : bool := msg_isRedelivered m.
Definition SolClientMessageGetMessageID (m : M) : Z * option ErrorInfo := go_pair 0 (msg_get MsgId m).
Definition SolClientMessageGetSenderTimestamp (m : M) : Z * option ErrorInfo :=
  go_pair zero_time (let? t := msg_get SenderTimestamp m in Ok (time_of_millis t)).
Definition SolClientMessageGetTimestamp (m : M) : Z * option ErrorInfo :=
  go_pair zero_time (let? t := msg_get RcvTimestamp m in Ok (time_of_millis t)).
Definition SolClientMessageGetRGMID (m : M) : res ErrorInfo (list Byte.byte) :=
  msg_get ReplicationGroupMessageId m.
Definition SolClientMessageGetCacheRequestID (m : M) : Z * option ErrorInfo :=
  go_pair 0 (msg_get CacheRequestId m).
Definition SolClientMessageIsCachedMessage (m : M) : SolClientCacheStatus := msg_isCacheMsg m.

Definition SolClientMessageSetAckImmediately (val : bool) (m : M) : res ErrorInfo M :=
  msg_set AckImmediately val m.
Definition SolClientMessageSetCorrelationTag (correlationTag : list Byte.byte) (m : M)
    : res ErrorInfo M :=
  match correlationTag with [] => Ok m | _ => msg_set CorrelationTag correlationTag m end.
Definition SolClientMessageSetDeliveryMode (deliveryMode : Z) (m : M) : res ErrorInfo M :=
  msg_set DeliveryMode_ deliveryMode m.
Definition SolClientMessageSetDMQEligible (eligible : bool) (m : M) : res ErrorInfo M :=
  msg_set DMQEligible eligible m.
Definition SolClientMessageSetElidingEligible (elidingEligible : bool) (m : M) : res ErrorInfo M :=
  msg_set ElidingEligible elidingEligible m.
Definition SolClientMessageSetTimeToLive (timeToLive : Z) (m : M) : res ErrorInfo M :=
  msg_set TimeToLive timeToLive m.

(** ** Tracing *)

Definition TraceIDSize : nat := 16.
Definition SpanIDSize : nat := 8.

Definition SolClientMessageGetTraceContextTraceID (c : SolClientMessageTracingContextType) (m : M)
    : list Byte.byte * option ErrorInfo := go_pair (replicate TraceIDSize Byte.x00) (msg_get (TraceID c) m).
Definition SolClientMessageSetTraceContextTraceID (traceID : list Byte.byte)
    (c : SolClientMessageTracingContextType) (m : M) : res ErrorInfo M := msg_set (TraceID c) traceID m.
Definition SolClientMessageGetTraceContextSpanID (c : SolClientMessageTracingContextType) (m : M)
    : list Byte.byte * option ErrorInfo := go_pair (replicate SpanIDSize Byte.x00) (msg_get (SpanID c) m).
Definition SolClientMessageSetTraceContextSpanID (spanID : list Byte.byte)
    (c : SolClientMessageTracingContextType) (m : M) : res ErrorInfo M := msg_set (SpanID c) spanID m.
Definition SolClientMessageGetTraceContextSampled (c : SolClientMessageTracingContextType) (m : M)
    : bool * option ErrorInfo := go_pair false (msg_get (Sampled c) m).
Definition SolClientMessageSetTraceContextSampled (sampled : bool)
    (c : SolClientMessageTracingContextType) (m : M) : res ErrorInfo M := msg_set (Sampled c) sampled m.
Definition SolClientMessageGetTraceContextTraceState (c : SolClientMessageTracingContextType) (m : M)
    : string * option ErrorInfo := go_pair "" (msg_get (TraceState c) m).
(** The length given with the copy of the string is that of the string. *)
Definition SolClientMessageSetTraceContextTraceState (traceState : string)
    (c : SolClientMessageTracingContextType) (m : M) : res ErrorInfo M :=
  msg_set (TraceState c) traceState m.

(** The string without the NUL at its end: [C.GoStringN] with the size less one. *)
Definition without_end (s : string) : string := String.substring 0 (String.length s - 1) s.
Definition SolClientMessageGetBaggage (m : M) : string * option ErrorInfo :=
  go_pair "" (let? b := msg_get Baggage m in Ok (without_end b)).
Definition SolClientMessageSetBaggage (baggage : string) (m : M) : res ErrorInfo M :=
  if String.eqb baggage "" then msg_deleteBaggage m
  else msg_set Baggage (cstring baggage +:+ String zero "") m.
End wrappers.

(** * Messages *)

(** [MessageImpl], which [OutboundMessageImpl] is. *)
Record MessageImpl (M : Type) : Type := mkMessage { messagePointer : M; disposed : bool }.
Arguments mkMessage {M} messagePointer disposed.
Arguments messagePointer {M} m.
Arguments disposed {M} m.

Record InboundMessageImpl (M : Type) : Type := mkInbound {
  inbound_message : MessageImpl M;
  internalDiscard : bool;
}.
Arguments mkInbound {M} _ _.
Arguments inbound_message {M} _.
Arguments internalDiscard {M} _.

(** [discardNotification]. *)
Record discardNotification : Type := mkDiscard {
  notification_internal : bool;
  notification_broker : bool;
}.
Definition HasBrokerDiscardIndication (n : discardNotification) : bool := notification_broker n.
Definition HasInternalDiscardIndication (n : discardNotification) : bool := notification_internal n.

Inductive CacheStatus : Type := Live | Cached | Suspect | BadStatus.

Section getters.
Context {M K : Type} `{!CContainers K} `{!CMessages M K} `{!GoArch}.

Abbreviation message := (MessageImpl M).

Definition IsDisposed (m : message) : bool := disposed m.

(** [Dispose]: the first call frees the message. *)
Definition Dispose (m : message) : message :=
  if disposed m then m else mkMessage (msg_free (messagePointer m)) true.

(** A value is found when its getter gave no error. *)
Definition found {A} (r : A * option ErrorInfo) : A * bool :=
  (fst r, match snd r with None => true | Some _ => false end).

(** [None] is the nil map. *)
Definition GetProperties (m : message) : option (gmap string data) :=
  match SolClientMessageGetUserPropertyMap (messagePointer m) with
  | Ok opaqueContainer => parseMap opaqueContainer
  | Err _ => None
  end.

(** [SolClientContainerGetField]: the library finds the first field of that name. *)
Definition SolClientContainerGetField (c : SolClientOpaqueContainer K) (key : string)
    : option (SolClientField K) :=
  snd <$> (snd <$> list_find (λ nf, nf.1 = field_name c key) (container_fields (pointer c))).

Definition GetProperty (propertyName : string) (m : message) : data * bool :=
  match SolClientMessageGetUserPropertyMap (messagePointer m) with
  | Err _ => (DNil, false)
  | Ok opaqueContainer =>
      match SolClientContainerGetField opaqueContainer propertyName with
      | None => (DNil, false)
      | Some val => match parseData val with Some d => (d, true) | None => (DNil, false) end
      end
  end.
Definition HasProperty (propertyName : string) (m : message) : bool := snd (GetProperty propertyName m).

(** A payload in one of two places; a message with both has none that can be told. *)
Definition one_payload {A} (zero : A) (binaryAttachment xmlContent : A * bool) : A * bool :=
  if snd binaryAttachment && snd xmlContent then (zero, false)
  else if snd binaryAttachment then (fst binaryAttachment, true)
  else if snd xmlContent then (fst xmlContent, true)
  else (zero, false).

Definition GetPayloadAsBytes (m : message) : list Byte.byte * bool :=
  one_payload [] (SolClientMessageGetBinaryAttachmentAsBytes (messagePointer m))
    (SolClientMessageGetXMLAttachmentAsBytes (messagePointer m)).
Definition GetPayloadAsString (m : message) : string * bool :=
  let xml := SolClientMessageGetXMLAttachmentAsBytes (messagePointer m) in
  one_payload "" (SolClientMessageGetBinaryAttachmentAsString (messagePointer m))
    (String.string_of_list_byte (fst xml), snd xml).
Definition GetPayloadAsMap (m : message) : option (gmap string data) :=
  match SolClientMessageGetBinaryAttachmentAsMap (messagePointer m) with
  | None => None
  | Some container => parseMap container
  end.
Definition GetPayloadAsStream (m : message) : option (list data) :=
  match SolClientMessageGetBinaryAttachmentAsStream (messagePointer m) with
  | None => None
  | Some container => parseStream container
  end.

Definition GetCorrelationID (m : message) : string * bool :=
  found (SolClientMessageGetCorrelationID (messagePointer m)).
Definition GetExpiration (m : message) : Z := fst (SolClientMessageGetExpiration (messagePointer m)).
Definition GetSequenceNumber (m : message) : Z * bool :=
  found (SolClientMessageGetSequenceNumber (messagePointer m)).
Definition GetPriority (m : message) : Z * bool :=
  let r := found (SolClientMessageGetPriority (messagePointer m)) in
  (fst r, snd r && negb (fst r =? -1)).
Definition GetHTTPContentType (m : message) : string * bool :=
  found (SolClientMessageGetHTTPContentType (messagePointer m)).
Definition GetHTTPContentEncoding (m : message) : string * bool :=
  found (SolClientMessageGetHTTPContentEncoding (messagePointer m)).
Definition GetApplicationMessageID (m : message) : string * bool :=
  found (SolClientMessageGetApplicationMessageID (messagePointer m)).
Definition GetApplicationMessageType (m : message) : string * bool :=
  found (SolClientMessageGetApplicationMessageType (messagePointer m)).
Definition GetClassOfService (m : message) : Z :=
  fst (SolClientMessageGetClassOfService (messagePointer m)).

(** ** Tracing *)

Definition is_fail (err : option ErrorInfo) : bool :=
  match err with Some info => bool_decide (ReturnCode info = ReturnCodeFail) | None => false end.

(** A trace context: the identifiers, the flag, the state, and whether they were all read; a state
    that is not there is no failure. *)
Definition get_trace_context (c : SolClientMessageTracingContextType) (m : message)
    : (list Byte.byte * list Byte.byte * bool * string) * bool :=
  let traceID := found (SolClientMessageGetTraceContextTraceID c (messagePointer m)) in
  let spanID := found (SolClientMessageGetTraceContextSpanID c (messagePointer m)) in
  let sampled := found (SolClientMessageGetTraceContextSampled c (messagePointer m)) in
  let traceState := SolClientMessageGetTraceContextTraceState c (messagePointer m) in
  ((fst traceID, fst spanID, fst sampled, fst traceState),
   snd traceID && snd spanID && snd sampled && negb (is_fail (snd traceState))).
Definition GetCreationTraceContext := get_trace_context SolClientContextTypeCreationContext.
Definition GetTransportTraceContext := get_trace_context SolClientContextTypeTransportContext.

(** A setter that fails leaves the message, and the next ones are tried. *)
Definition try_set (set : M → res ErrorInfo M) (r : M * bool) : M * bool :=
  match set (fst r) with Ok m => (m, snd r) | Err _ => (fst r, false) end.

Definition set_trace_context (c : SolClientMessageTracingContextType) (traceID spanID : list Byte.byte)
    (sampled : bool) (traceState : option string) (m : message) : message * bool :=
  let r := try_set (SolClientMessageSetTraceContextTraceID traceID c) (messagePointer m, true) in
  let r := try_set (SolClientMessageSetTraceContextSpanID spanID c) r in
  let r := try_set (SolClientMessageSetTraceContextSampled sampled c) r in
  let r := match traceState with
           | Some traceState => try_set (SolClientMessageSetTraceContextTraceState traceState c) r
           | None => r
           end in
  (mkMessage (fst r) (disposed m), snd r).
Definition SetCreationTraceContext := set_trace_context SolClientContextTypeCreationContext.
Definition SetTransportTraceContext := set_trace_context SolClientContextTypeTransportContext.

Definition GetBaggage (m : message) : string * bool :=
  let r := SolClientMessageGetBaggage (messagePointer m) in (fst r, negb (is_fail (snd r))).

(** ** Setters of outbound messages *)

(** A call of the library on a message, whose error is made an error of the API. *)
Definition setter (prefix : string) (set : M → res ErrorInfo M) (m : message) : res go_error message :=
  match set (messagePointer m) with
  | Ok p => Ok (mkMessage p (disposed m))
  | Err info => Err (ToNativeError info prefix)
  end.

Definition SetBaggage (baggage : string) : message → res go_error message :=
  setter "error setting baggage: " (SolClientMessageSetBaggage baggage).

Definition NewOutboundMessage : res go_error message :=
  match SolClientMessageAlloc with
  | Ok msgP => Ok (mkMessage msgP false)
  | Err err => Err (ToNativeError err "error allocating message: ")
  end.
Definition DuplicateOutboundMessage (m : message) : res go_error message :=
  match SolClientMessageDup (messagePointer m) with
  | Ok msgP => Ok (mkMessage msgP false)
  | Err err => Err (ToNativeError err "error duplicating message: ")
  end.
Definition AttachCorrelationTag (bytes : list Byte.byte) : message → res go_error message :=
  setter "error attaching correlation key: " (SolClientMessageSetCorrelationTag bytes).
Definition SetDeliveryMode (deliveryMode : Z) : message → res go_error message :=
  setter "error setting delivery mode: " (SolClientMessageSetDeliveryMode deliveryMode).
Definition SetDestination (destName : string) : message → res go_error message :=
  setter "error setting destination: " (SolClientMessageSetDestination destName).
Definition SetReplyToDestination (destName : string) : message → res go_error message :=
  setter "error setting replyTo destination: " (SolClientMessageSetReplyToDestination destName).
Definition SetCorrelationID (correlationID : string) : message → res go_error message :=
  setter "error setting correlationID: " (SolClientMessageSetCorrelationID correlationID).
Definition SetAckImmediately : message → res go_error message :=
  setter "error setting ack immediately: " (SolClientMessageSetAckImmediately true).
Definition SetAsReplyMessage (replyToDestination correlationID : string) (m : message)
    : res go_error message :=
  let? m := SetDestination replyToDestination m in
  let? m := SetCorrelationID correlationID m in
  setter "error setting as reply message header: " (SolClientMessageSetAsReply true) m.

(** ** Getters of inbound messages *)

Abbreviation inbound := (InboundMessageImpl M).
Abbreviation inboundPointer m := (messagePointer (inbound_message m)).

Definition NewInboundMessage (msgP : M) (discard : bool) : inbound :=
  mkInbound (mkMessage msgP false) discard.
Definition InboundDispose (m : inbound) : inbound :=
  mkInbound (Dispose (inbound_message m)) (internalDiscard m).
Definition GetDestinationName (m : inbound) : string :=
  fst (SolClientMessageGetDestinationName (inboundPointer m)).
Definition GetTimeStamp (m : inbound) : Z * bool :=
  found (SolClientMessageGetTimestamp (inboundPointer m)).
Definition GetSenderTimestamp (m : inbound) : Z * bool :=
  found (SolClientMessageGetSenderTimestamp (inboundPointer m)).
Definition GetSenderID (m : inbound) : string * bool :=
  found (SolClientMessageGetSenderID (inboundPointer m)).
Definition IsRedelivered (m : inbound) : bool :=
  SolClientMessageGetMessageIsRedelivered (inboundPointer m).
Definition GetReplicationGroupMessageID (m : inbound) : option (list Byte.byte) :=
  match SolClientMessageGetRGMID (inboundPointer m) with Ok rmid => Some rmid | Err _ => None end.
(** [None] is nil. *)
Definition GetMessageDiscardNotification (m : inbound) : option discardNotification :=
  if IsDisposed (inbound_message m) then None
  else Some (mkDiscard (internalDiscard m)
               (SolClientMessageGetMessageDiscardNotification (inboundPointer m))).
Definition GetCacheRequestID (m : inbound) : Z * bool :=
  match SolClientMessageGetCacheRequestID (inboundPointer m) with
  | (cacheID, None) => (cacheID, true)
  | (_, Some _) => (0, false)
  end.
Definition GetCacheStatus (m : inbound) : CacheStatus :=
  match SolClientMessageIsCachedMessage (inboundPointer m) with
  | SolClientCacheStatusLiveMessage => Live
  | SolClientCacheStatusCacheMessage => Cached
  | SolClientCacheStatusSuspectMessage => Suspect
  | SolClientCacheStatusInvalidMessage => BadStatus
  end.
Definition GetMessageID (m : inbound) : Z * bool :=
  match SolClientMessageGetMessageID (inboundPointer m) with
  | (id, None) => (id, true)
  | (_, Some _) => (0, false)
  end.
Definition GetReplyToDestinationName (m : inbound) : string * bool :=
  found (SolClientMessageGetReplyToDestinationName (inboundPointer m)).
End getters.

(** * The builder of outbound messages *)

(** The value of a message property: a [time.Time] is taken for an expiration. *)
Inductive prop_value : Type :=
| PData (d : data)
| PTime (t : Z).
Abbreviation MessagePropertyMap := (gmap string prop_value).

(** The value as one of an interface type. *)
Definition any (value : prop_value) : data :=
  match value with PData d => d | PTime _ => DOther "time.Time" end.

Definition MessagePropertyApplicationMessageType : string := "solace.messaging.message.application-message-type".
Definition MessagePropertyApplicationMessageID : string := "solace.messaging.message.application-message-id".
Definition MessagePropertyElidingEligible : string := "solace.messaging.message.eliding-eligible".
Definition MessagePropertyPriority : string := "solace.messaging.message.priority".
Definition MessagePropertyHTTPContentType : string := "solace.messaging.message.http-content".
Definition MessagePropertyHTTPContentEncoding : string := "solace.messaging.message.http-encoding".
Definition MessagePropertyCorrelationID : string := "solace.messaging.message.correlation-id".
Definition MessagePropertyPersistentTimeToLive : string := "solace.messaging.message.persistent.time-to-live".
Definition MessagePropertyPersistentExpiration : string := "solace.messaging.message.persistent.expiration".
Definition MessagePropertyPersistentDMQEligible : string := "solace.messaging.message.persistent.dmq-eligible".
Definition MessagePropertyPersistentAckImmediately : string := "solace.messaging.message.persistent.ack-immediately".
Definition MessagePropertySequenceNumber : string := "solace.messaging.message.persistent.sequence-number".
Definition MessagePropertyClassOfService : string := "solace.messaging.message.class-of-service".
Definition MessagePropertySenderID : string := "solace.messaging.message.sender-id".

(** ** The properties of a builder *)

(** [NewOutboundMessageBuilder]. *)
Definition NewOutboundMessageBuilder : MessagePropertyMap := ∅.

(** [mergeMessagePropertyMap], with the entries of the provider in the order they are visited; [None]
    is a nil provider. *)
Definition mergeMessagePropertyMap (original : MessagePropertyMap)
    (new : option (list (string * prop_value))) : MessagePropertyMap :=
  match new with
  | None => original
  | Some props => foldl (λ p '(key, value), <[key := value]> p) original props
  end.
Definition FromConfigurationProvider (properties : option (list (string * prop_value)))
    (builder : MessagePropertyMap) : MessagePropertyMap := mergeMessagePropertyMap builder properties.

Definition WithProperty (propertyName : string) (propertyValue : prop_value)
    (builder : MessagePropertyMap) : MessagePropertyMap := <[propertyName := propertyValue]> builder.
Definition WithExpiration (t : Z) : MessagePropertyMap → MessagePropertyMap :=
  WithProperty MessagePropertyPersistentExpiration (PData (DInt64 (wrapS 64 (Unix t * 1000)))).
Definition WithHTTPContentHeader (key value : string) (builder : MessagePropertyMap)
    : MessagePropertyMap :=
  WithProperty MessagePropertyHTTPContentEncoding (PData (DString value))
    (WithProperty MessagePropertyHTTPContentType (PData (DString key)) builder).
Definition WithPriority (priority : Z) : MessagePropertyMap → MessagePropertyMap :=
  WithProperty MessagePropertyPriority (PData (DInt priority)).
Definition WithApplicationMessageID (messageID : string) : MessagePropertyMap → MessagePropertyMap :=
  WithProperty MessagePropertyApplicationMessageID (PData (DString messageID)).
Definition WithApplicationMessageType (messageType : string) : MessagePropertyMap → MessagePropertyMap :=
  WithProperty MessagePropertyApplicationMessageType (PData (DString messageType)).
Definition WithSequenceNumber (sequenceNumber : Z) : MessagePropertyMap → MessagePropertyMap :=
  WithProperty MessagePropertySequenceNumber (PData (DUint64 sequenceNumber)).
Definition WithSenderID (senderID : string) : MessagePropertyMap → MessagePropertyMap :=
  WithProperty MessagePropertySenderID (PData (DString senderID)).
Definition WithCorrelationID (correlationID : string) : MessagePropertyMap → MessagePropertyMap :=
  WithProperty MessagePropertyCorrelationID (PData (DString correlationID)).

Section builder.
Context {M K : Type} `{!CContainers K} `{!CMessages M K} `{!GoArch}.
(** The order in which Go visits the user properties, and maps in them and in payloads. *)
Context (order : gmap string data → list (string * data)).

Abbreviation message := (MessageImpl M).

Definition allocating : string := "encountered error while allocating message: ".

Definition failed {A} (prefix : string) (r : res ErrorInfo A) : res build_error A :=
  match r with Ok a => Ok a | Err info => Err (Failed (ToNativeError info prefix)) end.

(** A validated value is set if it is present. *)
Definition set_validated {A} (v : A * bool * option go_error) (set : A → M → res ErrorInfo M) (m : M)
    : res build_error M :=
  match v with
  | (_, false, _) => Ok m
  | (_, true, Some err) => Err (Failed err)
  | (propValue, true, None) => failed allocating (set propValue m)
  end.

(** The cases of the switch of [SetProperties]; [None] is its default. *)
Definition set_property (property : string) (value : prop_value) : option (M → res build_error M) :=
  if decide (property = MessagePropertyPersistentExpiration) then
    let value := match value with
                 | PTime t => DInt64 (Z.quot (UnixNano t) (10 ^ 6))
                 | PData d => d
                 end in
    Some (set_validated (Int64PropertyValidation MessagePropertyPersistentExpiration value)
            SolClientMessageSetExpiration)
  else if decide (property = MessagePropertyPriority) then
    Some (set_validated (IntegerPropertyValidationWithRange MessagePropertyPriority (any value) 0 255)
            SolClientMessageSetPriority)
  else if decide (property = MessagePropertyHTTPContentType) then
    Some (set_validated (StringPropertyValidation MessagePropertyHTTPContentType (any value) [])
            SolClientMessageSetHTTPContentType)
  else if decide (property = MessagePropertyHTTPContentEncoding) then
    Some (set_validated (StringPropertyValidation MessagePropertyHTTPContentEncoding (any value) [])
            SolClientMessageSetHTTPContentEncoding)
  else if decide (property = MessagePropertyApplicationMessageType) then
    Some (set_validated (StringPropertyValidation MessagePropertyApplicationMessageType (any value) [])
            SolClientMessageSetApplicationMessageType)
  else if decide (property = MessagePropertyApplicationMessageID) then
    Some (set_validated (StringPropertyValidation MessagePropertyApplicationMessageID (any value) [])
            SolClientMessageSetApplicationMessageID)
  else if decide (property = MessagePropertyElidingEligible) then
    Some (set_validated (BooleanPropertyValidation MessagePropertyElidingEligible (any value))
            SolClientMessageSetElidingEligible)
  else if decide (property = MessagePropertyCorrelationID) then
    Some (set_validated (StringPropertyValidation MessagePropertyCorrelationID (any value) [])
            SolClientMessageSetCorrelationID)
  else if decide (property = MessagePropertyPersistentTimeToLive) then
    Some (set_validated (Int64PropertyValidation MessagePropertyPersistentTimeToLive (any value))
            SolClientMessageSetTimeToLive)
  else if decide (property = MessagePropertyPersistentDMQEligible) then
    Some (set_validated (BooleanPropertyValidation MessagePropertyPersistentDMQEligible (any value))
            SolClientMessageSetDMQEligible)
  else if decide (property = MessagePropertyPersistentAckImmediately) then
    Some (set_validated (BooleanPropertyValidation MessagePropertyPersistentDMQEligible (any value))
            SolClientMessageSetAckImmediately)
  else if decide (property = MessagePropertySequenceNumber) then
    Some (set_validated (Uint64PropertyValidation MessagePropertySequenceNumber (any value))
            SolClientMessageSetSequenceNumber)
  else if decide (property = MessagePropertyClassOfService) then
    Some (set_validated (IntegerPropertyValidation MessagePropertyClassOfService (any value))
            SolClientMessageSetClassOfService)
  else if decide (property = MessagePropertySenderID) then
    Some (set_validated (StringPropertyValidation MessagePropertySenderID (any value) [])
            SolClientMessageSetSenderID)
  else None.

(** The loop over the properties, with the user properties it collects. *)
Fixpoint set_loop (l : list (string * prop_value)) (m : M) (userProperties : gmap string data)
    : res build_error (M * gmap string data) :=
  match l with
  | [] => Ok (m, userProperties)
  | (property, value) :: l =>
      match set_property property value with
      | Some set => let? m := set m in set_loop l m userProperties
      | None => set_loop l m (<[property := any value]> userProperties)
      end
  end.

Definition user_container (m : M) : res build_error (SolClientOpaqueContainer K) :=
  match SolClientMessageGetUserPropertyMap m with
  | Ok container => Ok container
  | Err errInfo =>
      if decide (ReturnCode errInfo = ReturnCodeNotFound)
      then native (SolClientMessageCreateUserPropertyMap m)
      else Err (Failed (ToNativeError errInfo ""))
  end.

(** [SolClientContainerClose] of the container of a field of a message. *)
Definition close_container (f : msg_field) (put : SolClientOpaqueContainer K → cval K f)
    (c : SolClientOpaqueContainer K) (m : M) : res ErrorInfo M := msg_set f (put c) m.

Definition set_user_properties (userProperties : gmap string data) (m : M) : res build_error M :=
  if decide (size userProperties = 0%nat) then Ok m
  else
    let? container := user_container m in
    let? container := sdtMapToContainer order container userProperties in
    native (close_container UserProperties pointer container m).

(** [SetProperties], whose loop visits the properties in the order [l]. *)
Definition SetProperties (l : list (string * prop_value)) (m : M) : res build_error M :=
  let? r := set_loop l m ∅ in set_user_properties (snd r) (fst r).

(** The properties of a message: those of the builder, which [GetConfiguration] copies, the additional
    ones, and the default. *)
Definition merged (builder : MessagePropertyMap)
    (additionalConfiguration : list (option (list (string * prop_value)))) : MessagePropertyMap :=
  let properties := foldl mergeMessagePropertyMap builder additionalConfiguration in
  match properties !! MessagePropertyPersistentDMQEligible with
  | None => <[MessagePropertyPersistentDMQEligible := PData (DBool true)]> properties
  | Some _ => properties
  end.

(** [build], with the order in which it visits the properties. *)
Definition build (visit : MessagePropertyMap → list (string * prop_value)) (builder : MessagePropertyMap)
    (additionalConfiguration : list (option (list (string * prop_value)))) : res build_error message :=
  match NewOutboundMessage with
  | Err err => Err (Failed err)
  | Ok msg =>
      let? p := SetProperties (visit (merged builder additionalConfiguration)) (messagePointer msg) in
      Ok (mkMessage p (disposed msg))
  end.

Context (visit : MessagePropertyMap → list (string * prop_value)).

Definition Build (builder : MessagePropertyMap)
    (additionalConfiguration : list (option (list (string * prop_value)))) : res build_error message :=
  build visit builder additionalConfiguration.

(** The part of the builders with a payload that follows [build]. *)
Definition with_payload (msg : message) (set : M → res ErrorInfo M) : res build_error message :=
  let? p := failed allocating (set (messagePointer msg)) in Ok (mkMessage p (disposed msg)).

Definition BuildWithByteArrayPayload (payload : list Byte.byte) (builder : MessagePropertyMap)
    (additionalConfiguration : list (option (list (string * prop_value)))) : res build_error message :=
  let? msg := build visit builder additionalConfiguration in
  with_payload msg (SolClientMessageSetBinaryAttachmentAsBytes payload).
Definition BuildWithStringPayload (payload : string) (builder : MessagePropertyMap)
    (additionalConfiguration : list (option (list (string * prop_value)))) : res build_error message :=
  let? msg := build visit builder additionalConfiguration in
  with_payload msg (SolClientMessageSetBinaryAttachmentString payload).
Definition BuildWithMapPayload (payload : gmap string data) (builder : MessagePropertyMap)
    (additionalConfiguration : list (option (list (string * prop_value)))) : res build_error message :=
  let? msg := build visit builder additionalConfiguration in
  let? container := native (SolClientMessageCreateBinaryAttachmentMap (messagePointer msg)) in
  let? container := sdtMapToContainer order container payload in
  with_payload msg (close_container BinaryMap pointer container).
Definition BuildWithStreamPayload (payload : list data) (builder : MessagePropertyMap)
    (additionalConfiguration : list (option (list (string * prop_value)))) : res build_error message :=
  let? msg := build visit builder additionalConfiguration in
  let? container := native (SolClientMessageCreateBinaryAttachmentStream (messagePointer msg)) in
  let? container := sdtStreamToContainer order container payload in
  with_payload msg (close_container BinaryStream pointer container).
End builder.

(** * Properties *)

(** The properties of the switch of [SetProperties], with their fields. *)
Definition known : list (string * msg_field) :=
  [(MessagePropertyPersistentExpiration, Expiration); (MessagePropertyPriority, Priority);
   (MessagePropertyHTTPContentType, HttpContentType);
   (MessagePropertyHTTPContentEncoding, HttpContentEncoding);
   (MessagePropertyApplicationMessageType, ApplicationMsgType);
   (MessagePropertyApplicationMessageID, ApplicationMessageId);
   (MessagePropertyElidingEligible, ElidingEligible); (MessagePropertyCorrelationID, CorrelationId);
   (MessagePropertyPersistentTimeToLive, TimeToLive);
   (MessagePropertyPersistentDMQEligible, DMQEligible);
   (MessagePropertyPersistentAckImmediately, AckImmediately);
   (MessagePropertySequenceNumber, SequenceNumber); (MessagePropertyClassOfService, ClassOfService);
   (MessagePropertySenderID, SenderId)].

Lemma known_unique key key' f f' :
  (key, f) ∈ known → (key', f') ∈ known → key = key' ↔ f = f'.
Proof.
  assert (Forall (λ kf, Forall (λ kf', kf.1 = kf'.1 ↔ kf.2 = kf'.2) known) known) as Hall.
  { apply (bool_decide_unpack _). vm_compute. exact I. }
  intros Hf Hf'. rewrite Forall_forall in Hall. specialize (Hall _ Hf).
  rewrite Forall_forall in Hall. exact (Hall _ Hf').
Qed.

Section properties.
Context {M K : Type} `{!CContainers K} `{!CContainersLaws K} `{!CMessages M K}
  `{!CMessagesLaws M K} `{!GoArch}.
Context (order : gmap string data → list (string * data)) (Horder : ∀ m, range_order m (order m)).
Context (visit : MessagePropertyMap → list (string * prop_value))
  (Hvisit : ∀ P, range_order P (visit P)).

Abbreviation message := (MessageImpl M).

Lemma failed_ok {A} prefix (r : res ErrorInfo A) a : failed prefix r = Ok a ↔ r = Ok a.
Proof using Type. destruct r; simpl; naive_solver. Qed.

Lemma indep_other f g : binary f = false → g ≠ f → indep f g = true.
Proof using Type.
  intros Hf Hg. unfold indep. rewrite Hf, bool_decide_false by congruence. done.
Qed.

(** A known property, whatever its value, touches only its field. *)
Lemma set_validated_other {A} (v : A * bool * option go_error) (set : A → M → res ErrorInfo M)
    f (cast : A → cval K f) :
  binary f = false → (∀ a m, set a m = msg_set f (cast a) m) →
  ∀ m m', set_validated v set m = Ok m' → ∀ g, g ≠ f → msg_get g m' = msg_get g m.
Proof using CMessagesLaws0.
  intros Hf Hset m m' Ha g Hg. unfold set_validated in Ha.
  destruct v as [[a []] [err|]]; try congruence.
  rewrite Hset in Ha. apply failed_ok in Ha. eapply get_set_other; [exact Ha|]. by apply indep_other.
Qed.

Lemma set_property_field property value set : set_property property value = Some set →
  ∃ f, (property, f) ∈ known ∧
    ∀ m m' : M, set m = Ok m' → ∀ g, g ≠ f → msg_get g m' = msg_get g m.
Proof using CMessagesLaws0.
  unfold set_property. intros Hs.
  repeat (case_decide; [subst; injection Hs as <-; eexists; split;
    [unfold known; repeat (apply list_elem_of_here || apply list_elem_of_further)|]|]); [..|done].
  all: eapply set_validated_other; [done|]; intros a m; reflexivity.
Qed.

Lemma set_property_None property value :
  set_property (M := M) (K := K) property value = None ↔ property ∉ known.*1.
Proof using Type.
  unfold set_property. split.
  - intros Hs Hin. repeat (case_decide; [done|]). unfold known in Hin. simpl in Hin.
    repeat (apply elem_of_cons in Hin as [Heq|Hin];
      [exfalso; match goal with Hne : _ ≠ _ |- _ => exact (Hne Heq) end|]).
    by apply elem_of_nil in Hin.
  - intros Hn. repeat (case_decide; [destruct Hn; subst property; unfold known; simpl;
      repeat (apply list_elem_of_here || apply list_elem_of_further)|]).
    done.
Qed.

(** What the loop does to a field, and the user properties it collects. *)
Lemma set_loop_field l (m m' : M) u u' : set_loop l m u = Ok (m', u') → NoDup l.*1 →
  ∀ g, (∀ key, (key, g) ∈ known → key ∉ l.*1) → msg_get g m' = msg_get g m.
Proof using CMessagesLaws0.
  revert m u. induction l as [|[key value] l IH]; intros m u Hl Hn g Hg; simpl in *.
  { by injection Hl as -> ->. }
  apply NoDup_cons in Hn as [Hk Hn].
  assert (∀ key', (key', g) ∈ known → key' ∉ l.*1) as Hg'.
  { intros key' Hin Hin'. apply (Hg key' Hin). by right. }
  destruct (set_property key value) as [set|] eqn:Hs; [|by eapply IH].
  apply res_bind_ok in Hl as (m1 & Hset & Hl). rewrite (IH _ _ Hl Hn g Hg').
  destruct (set_property_field _ _ _ Hs) as (f & Hf & Hother). apply (Hother _ _ Hset).
  intros ->. apply (Hg key Hf). by left.
Qed.

Lemma set_loop_known l (m m' : M) u u' key value f set :
  set_loop l m u = Ok (m', u') → NoDup l.*1 → (key, value) ∈ l → (key, f) ∈ known →
  set_property key value = Some set →
  ∃ m1 m2, set m1 = Ok m2 ∧ msg_get f m' = msg_get f m2 ∧ msg_get f m1 = msg_get f m.
Proof using CMessagesLaws0.
  revert m u. induction l as [|[key' value'] l IH]; intros m u Hl Hn Hin Hf Hs; [by apply elem_of_nil in Hin|].
  simpl in *. apply NoDup_cons in Hn as [Hk Hn]. apply elem_of_cons in Hin as [[= <- <-]|Hin].
  - rewrite Hs in Hl. apply res_bind_ok in Hl as (m1 & Hset & Hl). exists m, m1. split_and!; [done| |done].
    apply (set_loop_field _ _ _ _ _ Hl Hn). intros key' Hf'.
    by rewrite (proj2 (known_unique _ _ _ _ Hf' Hf) eq_refl).
  - assert (key' ≠ key) as Hne.
    { intros ->. apply Hk. apply list_elem_of_fmap. by exists (key, value). }
    destruct (set_property key' value') as [set'|] eqn:Hs'; [|by eapply IH].
    apply res_bind_ok in Hl as (m1 & Hset & Hl).
    destruct (IH _ _ Hl Hn Hin Hf Hs) as (m2 & m3 & ? & ? & Hsame). exists m2, m3. split_and!; [done..|].
    rewrite Hsame. destruct (set_property_field _ _ _ Hs') as (f' & Hf' & Hother). apply (Hother _ _ Hset).
    intros <-. by apply Hne, (known_unique _ _ _ _ Hf' Hf).
Qed.

Lemma set_loop_user l (m m' : M) u u' : set_loop l m u = Ok (m', u') → NoDup l.*1 →
  ∀ key, u' !! key = if decide (key ∈ known.*1) then u !! key
                     else match (list_to_map l : MessagePropertyMap) !! key with
                          | Some value => Some (any value)
                          | None => u !! key
                          end.
Proof using Type.
  revert m u. induction l as [|[key value] l IH]; intros m u Hl Hn k; simpl in *.
  { injection Hl as _ <-. rewrite lookup_empty. by case_decide. }
  apply NoDup_cons in Hn as [Hk Hn].
  destruct (set_property key value) as [set|] eqn:Hs.
  - apply res_bind_ok in Hl as (m1 & _ & Hl). rewrite (IH _ _ Hl Hn). case_decide as Hd; [done|].
    rewrite lookup_insert_ne; [done|]. intros ->.
    assert (set_property (M := M) (K := K) k value = None) as Hno by (by apply set_property_None).
    congruence.
  - assert (key ∉ known.*1) as Hd' by (by eapply set_property_None).
    rewrite (IH _ _ Hl Hn). case_decide as Hd.
    { rewrite lookup_insert_ne; [done|]. by intros ->. }
    destruct (decide (key = k)) as [<-|].
    + rewrite (not_elem_of_list_to_map_1 _ _ Hk), !lookup_insert_eq. done.
    + by rewrite !lookup_insert_ne by done.
Qed.

(** ** A built message *)

Lemma set_user_other u (m m' : M) g :
  set_user_properties (K := K) order u m = Ok m' → g ≠ UserProperties → msg_get g m' = msg_get g m.
Proof using CMessagesLaws0.
  unfold set_user_properties. intros Hs Hg. case_decide; [congruence|].
  apply res_bind_ok in Hs as (c & _ & Hs). apply res_bind_ok in Hs as (c' & _ & Hs).
  apply native_ok in Hs. eapply get_set_other; [exact Hs|]. by apply indep_other.
Qed.

Lemma build_loop_ok builder add (m fresh : M) b :
  build order visit builder add = Ok (mkMessage m b) → msg_alloc = Ok fresh →
  ∃ p u, set_loop (visit (merged builder add)) fresh ∅ = Ok (p, u) ∧
    set_user_properties (K := K) order u p = Ok m.
Proof using Type.
  unfold build, NewOutboundMessage, SolClientMessageAlloc. intros Hb Ha. rewrite Ha in Hb. simpl in Hb.
  apply res_bind_ok in Hb as (p & Hp & [= -> <-]). unfold SetProperties in Hp.
  apply res_bind_ok in Hp as ([p' u] & Hl & Hu). by exists p', u.
Qed.

Section built.
Context (builder : MessagePropertyMap) (add : list (option (list (string * prop_value)))).
Context (m fresh : M) (b : bool) (Hbuilt : build order visit builder add = Ok (mkMessage m b))
  (Hfresh : msg_alloc = Ok fresh).
Abbreviation P := (merged builder add).

Lemma visit_keys key : key ∈ (visit P).*1 ↔ is_Some (P !! key).
Proof using Hvisit.
  rewrite list_elem_of_fmap. split.
  - intros ([k x] & -> & Hin). exists x. by apply (range_order_elem P (visit P)).
  - intros [x Hx]. exists (key, x). split; [done|]. by apply (range_order_elem P (visit P)).
Qed.

Lemma visit_map : (list_to_map (visit P) : MessagePropertyMap) = P.
Proof using Hvisit.
  apply map_eq. intros k. pose proof (range_order_NoDup P (visit P) (Hvisit P)) as Hn.
  destruct (P !! k) as [x|] eqn:Hk.
  - apply elem_of_list_to_map; [done|]. by apply (range_order_elem P (visit P)).
  - apply not_elem_of_list_to_map_1. rewrite visit_keys, Hk. by intros [? ?].
Qed.

(** The field of a property that was given is what setting its value makes it. *)
Lemma built_known key f value set :
  (key, f) ∈ known → P !! key = Some value → set_property key value = Some set →
  ∃ m1 m2, set m1 = Ok m2 ∧ msg_get f m = msg_get f m2 ∧ msg_get f m1 = msg_get f fresh.
Proof using All.
  intros Hf Hv Hs. destruct (build_loop_ok _ _ _ _ _ Hbuilt Hfresh) as (p & u & Hl & Hu).
  destruct (set_loop_known _ _ _ _ _ key value f set Hl) as (m1 & m2 & Hm2 & Hp & Hm1);
    [by apply (range_order_NoDup P (visit P))|by apply (range_order_elem P (visit P))|done..|].
  exists m1, m2. split_and!; [done| |done]. rewrite <-Hp. apply (set_user_other _ _ _ _ Hu). intros ->.
  unfold known in Hf. repeat (apply elem_of_cons in Hf as [[=]|Hf]). by apply elem_of_nil in Hf.
Qed.

(** Any other field of the properties and of the library is that of a fresh message. *)
Lemma built_absent f :
  f ≠ UserProperties → (∀ key, (key, f) ∈ known → P !! key = None) → msg_get f m = msg_get f fresh.
Proof using All.
  intros Hf Hk. destruct (build_loop_ok _ _ _ _ _ Hbuilt Hfresh) as (p & u & Hl & Hu).
  rewrite (set_user_other _ _ _ _ Hu Hf). apply (set_loop_field _ _ _ _ _ Hl).
  - by apply (range_order_NoDup P (visit P)).
  - intros key Hin. rewrite visit_keys, (Hk key Hin). by intros [? ?].
Qed.

(** The properties that are none of the API. *)
Definition user_properties (P : MessagePropertyMap) : gmap string data :=
  any <$> filter (λ kv, kv.1 ∉ known.*1) P.

Lemma built_user :
  ∃ p, set_user_properties (K := K) order (user_properties P) p = Ok m ∧
    msg_get UserProperties p = msg_get UserProperties fresh.
Proof using All.
  destruct (build_loop_ok _ _ _ _ _ Hbuilt Hfresh) as (p & u & Hl & Hu). exists p.
  pose proof (range_order_NoDup P (visit P) (Hvisit P)) as Hn. split.
  - enough (u = user_properties P) as <- by done. apply map_eq. intros k.
    rewrite (set_loop_user _ _ _ _ _ Hl Hn), visit_map. unfold user_properties.
    rewrite lookup_fmap, map_lookup_filter, lookup_empty.
    destruct (P !! k) as [x|]; simpl; [|by case_decide].
    case_decide as Hd; [|by rewrite option_guard_True].
    rewrite option_guard_False; [done|]. simpl. naive_solver.
  - apply (set_loop_field _ _ _ _ _ Hl Hn). intros key Hin. unfold known in Hin.
    repeat (apply elem_of_cons in Hin as [[=]|Hin]). by apply elem_of_nil in Hin.
Qed.
End built.
End properties.

(** ** What a message is built with is what its getters give *)

(** The ways to finish a message. *)
Inductive payload : Type :=
| NoPayload
| BytesPayload (bs : list Byte.byte)
| StringPayload (s : string)
| MapPayload (m : gmap string data)
| StreamPayload (l : list data).

Section roundtrip.
Context {M K : Type} `{!CContainers K} `{!CContainersLaws K} `{!CMessages M K}
  `{!CMessagesLaws M K} `{!GoArch}.
Context (order : gmap string data → list (string * data)) (Horder : ∀ m, range_order m (order m)).
Context (visit : MessagePropertyMap → list (string * prop_value))
  (Hvisit : ∀ P, range_order P (visit P)).

Abbreviation message := (MessageImpl M).

Definition build_payload (p : payload) (builder : MessagePropertyMap)
    (add : list (option (list (string * prop_value)))) : res build_error message :=
  match p with
  | NoPayload => Build order visit builder add
  | BytesPayload bs => BuildWithByteArrayPayload order visit bs builder add
  | StringPayload s => BuildWithStringPayload order visit s builder add
  | MapPayload m => BuildWithMapPayload order visit m builder add
  | StreamPayload l => BuildWithStreamPayload order visit l builder add
  end.

(** The payload that is read from a message. *)
Definition payload_reads (p : payload) (m : message) : Prop :=
  match p with
  | NoPayload => GetPayloadAsBytes m = ([], false) ∧ GetPayloadAsString m = ("", false) ∧
      GetPayloadAsMap m = None ∧ GetPayloadAsStream m = None
  | BytesPayload bs => GetPayloadAsBytes m = (bs, true)
  | StringPayload s => GetPayloadAsString m = (cstring s, true)
  | MapPayload x => keys_ok (DMap x) = true →
      GetPayloadAsMap m = Some (map_imap (λ _ y, Some (normalise y)) x)
  | StreamPayload l => keys_ok (DStream l) = true → GetPayloadAsStream m = Some (normalise <$> l)
  end.

Lemma time_of_millis_spec z : time_of_millis z = z * 10 ^ 6.
Proof using Type. unfold time_of_millis, time_Unix. pose proof (Z.quot_rem' z 1000). lia. Qed.

Lemma alloc_absent builder add m fresh b f :
  build order visit builder add = Ok (mkMessage m b) → msg_alloc = Ok fresh →
  binary f = true ∨ f = Xml → ∃ info, msg_get f m = Err info ∧ ReturnCode info = ReturnCodeNotFound.
Proof using All.
  intros Hb Ha Hf.
  assert (f ≠ UserProperties ∧ ∀ key, (key, f) ∉ known) as [Hu Hk].
  { split; [by destruct Hf as [?| ->]; [intros ->|]|]. intros key Hin. unfold known in Hin.
    repeat (apply elem_of_cons in Hin as [[= -> ->]|Hin]; [by destruct Hf|]). by apply elem_of_nil in Hin. }
  rewrite (built_absent order Horder visit Hvisit builder add m fresh b Hb Ha f Hu) by (by intros key ?%Hk).
  eapply alloc_plain; [exact Ha|]. tauto.
Qed.

Lemma with_payload_ok (m m' : message) f (v : cval K f) (set : M → res ErrorInfo M) :
  with_payload m set = Ok m' → (∀ p, set p = msg_set f v p) → binary f = true →
  disposed m' = disposed m ∧ msg_get f (messagePointer m') = Ok v ∧
  ∀ g, binary g = false → msg_get g (messagePointer m') = msg_get g (messagePointer m).
Proof using CMessagesLaws0.
  unfold with_payload. intros Hw Hset Hf. apply res_bind_ok in Hw as (p & Hp%failed_ok & [= <-]).
  rewrite Hset in Hp. simpl. split_and!; [done| |].
  - eapply get_set_same; [exact Hp|]. by destruct f.
  - intros g Hg. eapply get_set_other; [exact Hp|]. unfold indep. rewrite Hg, andb_false_r, orb_false_r.
    rewrite bool_decide_false; [done|]. congruence.
Qed.

Lemma build_fresh builder add (m : message) : build order visit builder add = Ok m →
  ∃ fresh, msg_alloc = Ok fresh ∧ disposed m = false.
Proof using Type.
  unfold build, NewOutboundMessage, SolClientMessageAlloc. intros Hb.
  destruct msg_alloc as [fresh|]; [|done]. exists fresh. split; [done|]. simpl in Hb.
  by apply res_bind_ok in Hb as (p' & _ & [= <-]).
Qed.

(** A message without an XML payload has its payload in the binary attachment. *)
Lemma one_payload_binary {A} (zero : A) r x : snd x = false →
  one_payload zero r x = if snd r then (fst r, true) else (zero, false).
Proof using Type. unfold one_payload. intros ->. rewrite andb_false_r. by destruct (snd r). Qed.

Lemma written_payload p builder add (m : message) p0 fresh :
  build order visit builder add = Ok (mkMessage p0 false) → msg_alloc = Ok fresh →
  build_payload p builder add = Ok m → p ≠ NoPayload →
  (∀ g, binary g = false → msg_get g (messagePointer m) = msg_get g p0) ∧
  match p with
  | NoPayload => True
  | BytesPayload bs => msg_get BinaryBytes (messagePointer m) = Ok bs
  | StringPayload s => msg_get BinaryString (messagePointer m) = Ok (cstring s)
  | MapPayload x => keys_ok (DMap x) = true → GetPayloadAsMap m = Some (map_imap (λ _ y, Some (normalise y)) x)
  | StreamPayload l => keys_ok (DStream l) = true → GetPayloadAsStream m = Some (normalise <$> l)
  end.
Proof using All.
  intros Hb Ha Hp Hne. destruct p as [|bs|s|x|l]; [done|..]; simpl in Hp.
  all: unfold BuildWithByteArrayPayload, BuildWithStringPayload, BuildWithMapPayload,
    BuildWithStreamPayload in Hp; rewrite Hb in Hp; simpl in Hp.
  - destruct (with_payload_ok _ _ BinaryBytes bs _ Hp (λ _, eq_refl) eq_refl) as (_ & ? & ?). done.
  - destruct (with_payload_ok _ _ BinaryString (cstring s) _ Hp (λ _, eq_refl) eq_refl) as (_ & ? & ?). done.
  - apply res_bind_ok in Hp as (c & Hc%native_ok & Hp). apply res_bind_ok in Hp as (c' & Hc' & Hp).
    destruct (with_payload_ok _ _ BinaryMap (pointer c') _ Hp (λ _, eq_refl) eq_refl) as (_ & Hg & ?).
    split; [done|]. intros Hk. unfold GetPayloadAsMap, SolClientMessageGetBinaryAttachmentAsMap.
    rewrite Hg. apply res_bind_ok in Hc as (k & Hk0 & [= <-]).
    destruct (map_reads_back order Horder x (mkContainer k SolClientOpaqueContainerMap) c' (create_empty _ _ _ Hk0) Hk eq_refl Hc') as [Ht <-].
    destruct c' as [k' t']. simpl in *. by subst t'.
  - apply res_bind_ok in Hp as (c & Hc%native_ok & Hp). apply res_bind_ok in Hp as (c' & Hc' & Hp).
    destruct (with_payload_ok _ _ BinaryStream (pointer c') _ Hp (λ _, eq_refl) eq_refl) as (_ & Hg & ?).
    split; [done|]. intros Hk. unfold GetPayloadAsStream, SolClientMessageGetBinaryAttachmentAsStream.
    rewrite Hg. apply res_bind_ok in Hc as (k & Hk0 & [= <-]).
    destruct (stream_reads_back order Horder l (mkContainer k SolClientOpaqueContainerStream) c' (create_empty _ _ _ Hk0) Hk eq_refl Hc') as [Ht <-].
    destruct c' as [k' t']. simpl in *. by subst t'.
Qed.

(** A finished message has the fields of the built one, and its payload. *)
Lemma payload_ok p builder add m : build_payload p builder add = Ok m →
  ∃ p0 fresh, msg_alloc = Ok fresh ∧ build order visit builder add = Ok (mkMessage p0 false) ∧
    (∀ g, binary g = false → msg_get g (messagePointer m) = msg_get g p0) ∧ payload_reads p m.
Proof using All.
  intros Hp.
  assert (∃ m0, build order visit builder add = Ok m0) as [[p0 b] Hb].
  { destruct p as [|bs|s|x|l]; simpl in Hp; [by exists m|..].
    all: apply res_bind_ok in Hp as (m0 & Hb & _); by exists m0. }
  destruct (build_fresh _ _ _ Hb) as (fresh & Ha & Hd). simpl in Hd. subst b.
  exists p0, fresh. split; [done|]. split; [done|].
  assert (∀ f, binary f = true ∨ f = Xml → ∃ info, msg_get f p0 = Err info ∧
    ReturnCode info = ReturnCodeNotFound) as Hno by (intros f; by apply (alloc_absent builder add p0 fresh false)).
  destruct (Hno Xml) as (xi & Hx & Hxr); [by right|].
  assert (p = NoPayload ∨ p ≠ NoPayload) as [->|Hne] by (destruct p; [by left|by right..]).
  - simpl in Hp. assert (m = mkMessage p0 false) as -> by (unfold Build in Hp; congruence).
    split; [done|]. simpl.
    destruct (Hno BinaryBytes) as (i1 & H1 & R1); [by left|].
    destruct (Hno BinaryString) as (i2 & H2 & R2); [by left|].
    destruct (Hno BinaryMap) as (i3 & H3 & R3); [by left|].
    destruct (Hno BinaryStream) as (i4 & H4 & R4); [by left|].
    unfold GetPayloadAsBytes, GetPayloadAsString, GetPayloadAsMap, GetPayloadAsStream,
      SolClientMessageGetBinaryAttachmentAsBytes, SolClientMessageGetXMLAttachmentAsBytes,
      SolClientMessageGetBinaryAttachmentAsString, SolClientMessageGetBinaryAttachmentAsMap,
      SolClientMessageGetBinaryAttachmentAsStream. simpl.
    rewrite H1, H2, H3, H4, Hx. simpl. by rewrite R1, Hxr.
  - destruct (written_payload p builder add m p0 fresh Hb Ha Hp Hne) as [Hg Hr]. split; [done|].
    assert (msg_get Xml (messagePointer m) = Err xi) as Hx' by (by rewrite Hg).
    destruct p as [|bs|s|x|l]; simpl; [done|..|done|done].
    all: unfold GetPayloadAsBytes, GetPayloadAsString, SolClientMessageGetBinaryAttachmentAsBytes,
      SolClientMessageGetXMLAttachmentAsBytes, SolClientMessageGetBinaryAttachmentAsString.
    all: rewrite Hx', Hr; simpl; by rewrite Hxr.
Qed.

Lemma built_value key f value (v : cval K f) builder add p0 fresh :
  build order visit builder add = Ok (mkMessage p0 false) → msg_alloc = Ok fresh →
  (key, f) ∈ known → merged builder add !! key = Some value →
  set_property key value = Some (λ p : M, failed allocating (msg_set f v p)) → cval_fits f v = true →
  msg_get f p0 = Ok v.
Proof using All.
  intros Hb Ha Hf Hv Hs Hfits.
  destruct (built_known order Horder visit Hvisit builder add p0 fresh false Hb Ha key f value _ Hf Hv Hs)
    as (m1 & m2 & Hm%failed_ok & -> & _). by eapply get_set_same.
Qed.

(** The properties that are strings, with the getters that read them. *)
Definition string_getters : list (string * msg_field * (message → string * bool)) :=
  [(MessagePropertyCorrelationID, CorrelationId, GetCorrelationID);
   (MessagePropertyApplicationMessageID, ApplicationMessageId, GetApplicationMessageID);
   (MessagePropertyApplicationMessageType, ApplicationMsgType, GetApplicationMessageType);
   (MessagePropertyHTTPContentType, HttpContentType, GetHTTPContentType);
   (MessagePropertyHTTPContentEncoding, HttpContentEncoding, GetHTTPContentEncoding);
   (MessagePropertySenderID, SenderId, λ m, GetSenderID (mkInbound m false))].

Ltac string_getter H :=
  unfold string_getters in H; repeat (apply elem_of_cons in H as [[= -> -> ->]|H]);
  [..|by apply elem_of_nil in H].

Lemma string_getter_known key f getter : (key, f, getter) ∈ string_getters →
  (key, f) ∈ known ∧ binary f = false ∧ f ≠ UserProperties.
Proof using Type.
  intros Hin. string_getter Hin.
  all: split; [unfold known; repeat (apply list_elem_of_here || apply list_elem_of_further)|done].
Qed.

(** Getters of strings read their field alone. *)
Lemma string_getter_field key f getter (m m' : message) : (key, f, getter) ∈ string_getters →
  msg_get f (messagePointer m) = msg_get f (messagePointer m') → getter m = getter m'.
Proof using Type.
  intros Hin. string_getter Hin; intros Hg.
  all: unfold GetCorrelationID, GetApplicationMessageID, GetApplicationMessageType, GetHTTPContentType,
    GetHTTPContentEncoding, GetSenderID, SolClientMessageGetCorrelationID,
    SolClientMessageGetApplicationMessageID, SolClientMessageGetApplicationMessageType,
    SolClientMessageGetHTTPContentType, SolClientMessageGetHTTPContentEncoding,
    SolClientMessageGetSenderID; simpl; by rewrite Hg.
Qed.

Lemma built_string key f getter s builder add p0 fresh (m : message) :
  build order visit builder add = Ok (mkMessage p0 false) → msg_alloc = Ok fresh →
  (∀ g, binary g = false → msg_get g (messagePointer m) = msg_get g p0) →
  (key, f, getter) ∈ string_getters → merged builder add !! key = Some (PData (DString s)) →
  getter m = (cstring s, true).
Proof using All.
  intros Hb Ha Hg Hin Hv. destruct (string_getter_known _ _ _ Hin) as (Hk & Hbin & _).
  specialize (Hg f Hbin). string_getter Hin.
  all: match type of Hk with (_, ?f) ∈ _ =>
    rewrite (built_value _ f _ (cstring s : cval K f) builder add p0 fresh Hb Ha Hk Hv eq_refl eq_refl) in Hg
  end.
  all: unfold GetCorrelationID, GetApplicationMessageID, GetApplicationMessageType, GetHTTPContentType,
    GetHTTPContentEncoding, GetSenderID, SolClientMessageGetCorrelationID,
    SolClientMessageGetApplicationMessageID, SolClientMessageGetApplicationMessageType,
    SolClientMessageGetHTTPContentType, SolClientMessageGetHTTPContentEncoding,
    SolClientMessageGetSenderID; simpl; by rewrite Hg.
Qed.

(** A priority that was accepted is in range and read back. *)
Lemma built_priority z builder add p0 fresh (m : message) :
  build order visit builder add = Ok (mkMessage p0 false) → msg_alloc = Ok fresh →
  (∀ g, binary g = false → msg_get g (messagePointer m) = msg_get g p0) →
  merged builder add !! MessagePropertyPriority = Some (PData (DInt z)) →
  0 ≤ z ≤ 255 ∧ GetPriority m = (z, true).
Proof using All.
  intros Hb Ha Hg Hv.
  assert ((MessagePropertyPriority, Priority) ∈ known) as Hk
    by (unfold known; repeat (apply list_elem_of_here || apply list_elem_of_further)).
  destruct (built_known order Horder visit Hvisit builder add p0 fresh false Hb Ha _ Priority _ _ Hk Hv eq_refl)
    as (m1 & m2 & Hm & Hp & _).
  unfold set_validated, IntegerPropertyValidationWithRange in Hm. simpl in Hm.
  destruct ((0 <=? z) && (z <=? 255)) eqn:Hz; [|done]. apply andb_true_iff in Hz as [H0 H1].
  assert (0 ≤ z ≤ 255) as Hr by lia. split; [done|]. apply failed_ok in Hm.
  unfold SolClientMessageSetPriority in Hm. rewrite wrapS_id in Hm by (unfold inS; lia).
  pose proof (get_set_same _ _ _ _ Hm eq_refl) as Hget.
  unfold GetPriority, SolClientMessageGetPriority. rewrite (Hg Priority eq_refl), Hp, Hget. simpl.
  destruct (z =? -1) eqn:He; [lia|done].
Qed.

(** The user properties are read as structured data. *)
Lemma built_properties builder add p0 fresh (m : message) :
  build order visit builder add = Ok (mkMessage p0 false) → msg_alloc = Ok fresh →
  (∀ g, binary g = false → msg_get g (messagePointer m) = msg_get g p0) →
  let u := user_properties (merged builder add) in
  (u = ∅ → GetProperties m = None) ∧
  (u ≠ ∅ → keys_ok (DMap u) = true → GetProperties m = Some (map_imap (λ _ x, Some (normalise x)) u)).
Proof using All.
  intros Hb Ha Hg u.
  destruct (built_user order Horder visit Hvisit builder add p0 fresh false Hb Ha) as (p & Hu & Hp).
  destruct (alloc_plain fresh Ha UserProperties) as (info & Hi & Hr); [by right; right|].
  unfold GetProperties, SolClientMessageGetUserPropertyMap. rewrite (Hg UserProperties eq_refl).
  unfold set_user_properties in Hu. split.
  - intros He. fold u in Hu. rewrite He in Hu. simpl in Hu. rewrite decide_True in Hu by apply map_size_empty.
    injection Hu as <-. by rewrite Hp, Hi.
  - intros He Hk. rewrite decide_False in Hu by (by rewrite map_size_empty_iff).
    apply res_bind_ok in Hu as (c & Hc & Hu). apply res_bind_ok in Hu as (c' & Hc' & Hu%native_ok).
    unfold user_container, SolClientMessageGetUserPropertyMap in Hc. rewrite Hp, Hi in Hc. simpl in Hc.
    rewrite decide_True in Hc by done. apply native_ok in Hc. apply res_bind_ok in Hc as (k & Hk0 & [= <-]).
    destruct (map_reads_back order Horder u (mkContainer k SolClientOpaqueContainerMap) c'
      (create_empty _ _ _ Hk0) Hk eq_refl Hc') as [Ht <-].
    rewrite (get_set_same _ _ _ _ Hu eq_refl). simpl. destruct c' as [k' t']. simpl in *. by subst t'.
Qed.
End roundtrip.

(** ** What a builder accepts *)

Inductive value_kind : Type :=
| StringKind | BoolKind | ExpirationKind | Int64Kind | Uint64Kind | PriorityKind | IntKind | UserKind.

(** The kinds of the properties of the API; any other is a property of the user. *)
Definition kinds : list (string * value_kind) :=
  [(MessagePropertyHTTPContentType, StringKind); (MessagePropertyHTTPContentEncoding, StringKind);
   (MessagePropertyApplicationMessageType, StringKind); (MessagePropertyApplicationMessageID, StringKind);
   (MessagePropertyCorrelationID, StringKind); (MessagePropertySenderID, StringKind);
   (MessagePropertyElidingEligible, BoolKind); (MessagePropertyPersistentDMQEligible, BoolKind);
   (MessagePropertyPersistentAckImmediately, BoolKind);
   (MessagePropertyPersistentExpiration, ExpirationKind);
   (MessagePropertyPersistentTimeToLive, Int64Kind); (MessagePropertySequenceNumber, Uint64Kind);
   (MessagePropertyPriority, PriorityKind); (MessagePropertyClassOfService, IntKind)].
Definition kind_of_property (property : string) : value_kind :=
  default UserKind ((list_to_map kinds : gmap string value_kind) !! property).

Lemma kind_of_user property : property ∉ known.*1 → kind_of_property property = UserKind.
Proof.
  intros Hp. unfold kind_of_property. rewrite not_elem_of_list_to_map_1; [done|]. intros Hin. apply Hp.
  assert (Forall (λ p, p ∈ known.*1) kinds.*1) as Hall.
  { apply (bool_decide_unpack _). vm_compute. exact I. }
  rewrite Forall_forall in Hall. by apply Hall.
Qed.

(** The values that a property may have: a nil value leaves the property as it is. *)
Definition acceptable `{!GoArch} (property : string) (value : prop_value) : bool :=
  match kind_of_property property, any value with
  | UserKind, d => is_sdt d
  | _, DNil => true
  | StringKind, DString _ => true
  | BoolKind, (DBool _ | DInt _ | DString _) => true
  | ExpirationKind, DOther _ => match value with PTime _ => true | PData _ => false end
  | (ExpirationKind | Int64Kind), (DInt64 _ | DInt32 _ | DInt _) => true
  | Uint64Kind, (DUint64 _ | DUint32 _ | DUint _ | DInt _) => true
  | PriorityKind, DInt z => (0 <=? z) && (z <=? 255)
  | PriorityKind, DUint z => (0 <=? to_int z) && (to_int z <=? 255)
  | PriorityKind, DFloat64 bits => (0 <=? int_of_float64 bits) && (int_of_float64 bits <=? 255)
  | IntKind, (DInt _ | DUint _ | DFloat64 _) => true
  | _, _ => false
  end.

Section accepted.
Context {M K : Type} `{!CContainers K} `{!CContainersLaws K} `{!CMessages M K}
  `{!CMessagesLaws M K} `{!GoArch}.
Context (order : gmap string data → list (string * data)) (Horder : ∀ m, range_order m (order m)).
Context (visit : MessagePropertyMap → list (string * prop_value))
  (Hvisit : ∀ P, range_order P (visit P)).

Abbreviation message := (MessageImpl M).

(** A validated value was set only if it was valid or absent. *)
Definition valid {A} (v : A * bool * option go_error) : bool :=
  match v with (_, true, Some _) => false | _ => true end.

Lemma set_validated_valid {A} (v : A * bool * option go_error) (set : A → M → res ErrorInfo M) m m' :
  set_validated v set m = Ok m' → valid v = true.
Proof using Type. by destruct v as [[a []] [err|]]. Qed.

Lemma valid_string k d : valid (StringPropertyValidation k d []) = true →
  match d with DNil | DString _ => true | _ => false end = true.
Proof using Type. by destruct d. Qed.
Lemma valid_bool k d : valid (BooleanPropertyValidation k d) = true →
  match d with DNil | DBool _ | DInt _ | DString _ => true | _ => false end = true.
Proof using Type. by destruct d. Qed.
Lemma valid_int64 k d : valid (Int64PropertyValidation k d) = true →
  match d with DNil | DInt64 _ | DInt32 _ | DInt _ => true | _ => false end = true.
Proof using Type. by destruct d. Qed.
Lemma valid_uint64 k d : valid (Uint64PropertyValidation k d) = true →
  match d with DNil | DUint64 _ | DUint32 _ | DUint _ | DInt _ => true | _ => false end = true.
Proof using Type. by destruct d. Qed.
Lemma valid_int k d : valid (IntegerPropertyValidation k d) = true →
  match d with DNil | DInt _ | DUint _ | DFloat64 _ => true | _ => false end = true.
Proof using Type. by destruct d. Qed.
Lemma valid_range k d lo hi : valid (IntegerPropertyValidationWithRange k d lo hi) = true →
  match d with
  | DNil => true
  | DInt z => (lo <=? z) && (z <=? hi)
  | DUint z => (lo <=? to_int z) && (to_int z <=? hi)
  | DFloat64 bits => (lo <=? int_of_float64 bits) && (int_of_float64 bits <=? hi)
  | _ => false
  end = true.
Proof using Type.
  unfold IntegerPropertyValidationWithRange.
  destruct d; try done; cbn [IntegerPropertyValidation negb orb]; by destruct (_ && _).
Qed.

(** A value that was set is one that is acceptable. *)
Lemma set_acceptable property value set (m m' : M) :
  set_property property value = Some set → set m = Ok m' → acceptable property value = true.
Proof using Type.
  intros Hs Hm. unfold acceptable. unfold set_property in Hs.
  repeat (case_decide; [subst property; injection Hs as <-; apply set_validated_valid in Hm;
    match goal with |- context [kind_of_property ?p] =>
      let k := eval vm_compute in (kind_of_property p) in
      replace (kind_of_property p) with k by (vm_compute; reflexivity) end|]); [..|done].
  all: first [apply valid_string in Hm|apply valid_bool in Hm|apply valid_int64 in Hm
             |apply valid_uint64 in Hm|apply valid_int in Hm|apply valid_range in Hm].
  all: destruct value as [d|t]; [destruct d|]; first [reflexivity|exact Hm|discriminate Hm].
Qed.

End accepted.

(** ** The properties of a built message *)

Section readback.
Context {M K : Type} `{!CContainers K} `{!CContainersLaws K} `{!CMessages M K}
  `{!CMessagesLaws M K} `{!GoArch}.
Context (order : gmap string data → list (string * data)) (Horder : ∀ m, range_order m (order m)).
Context (visit : MessagePropertyMap → list (string * prop_value))
  (Hvisit : ∀ P, range_order P (visit P)).

Abbreviation message := (MessageImpl M).

Ltac in_known := unfold known; repeat (apply list_elem_of_here || apply list_elem_of_further).

(** Expirations are read as the milliseconds they were set to. *)
Lemma built_expiration z value builder add p0 fresh (m : message) :
  build order visit builder add = Ok (mkMessage p0 false) → msg_alloc = Ok fresh →
  (∀ g, binary g = false → msg_get g (messagePointer m) = msg_get g p0) →
  merged builder add !! MessagePropertyPersistentExpiration = Some value →
  match value with PData d => d | PTime t => DInt64 (Z.quot (UnixNano t) (10 ^ 6)) end = DInt64 z →
  GetExpiration m = z * 10 ^ 6.
Proof using All.
  intros Hb Ha Hg Hv Hz.
  assert (msg_get Expiration p0 = Ok z) as Hget.
  { eapply (built_value order Horder visit Hvisit _ Expiration value (z : cval K Expiration)); [done..| |done| |done].
    - in_known.
    - destruct value as [d|t]; simpl in Hz; [by subst d|]. injection Hz as <-. reflexivity. }
  unfold GetExpiration, SolClientMessageGetExpiration. rewrite (Hg Expiration eq_refl), Hget. simpl.
  apply time_of_millis_spec.
Qed.


(** ** Tracing *)

Lemma try_set_ok (set : M → res ErrorInfo M) r m :
  try_set set r = (m, true) → set (fst r) = Ok m ∧ snd r = true.
Proof using Type. unfold try_set. destruct (set (fst r)); naive_solver. Qed.

Lemma without_end_spec s c : without_end (s +:+ String c "") = s.
Proof using Type.
  unfold without_end. assert (String.length (s +:+ String c "") - 1 = String.length s)%nat as ->.
  { induction s as [|a s IH]; [done|]. change (String.length (String a s +:+ String c ""))
      with (S (String.length (s +:+ String c ""))). simpl String.length.
    destruct s; [done|]. simpl in *. lia. }
  induction s as [|a s IH]; [done|]. simpl. f_equal. exact IH.
Qed.

Lemma set_trace_fields c traceID spanID sampled traceState (m m' : message) :
  set_trace_context (K := K) c traceID spanID sampled traceState m = (m', true) →
  msg_get (TraceID c) (messagePointer m') = Ok (traceID : cval K (TraceID c)) ∧
  msg_get (SpanID c) (messagePointer m') = Ok (spanID : cval K (SpanID c)) ∧
  msg_get (Sampled c) (messagePointer m') = Ok (sampled : cval K (Sampled c)) ∧
  msg_get (TraceState c) (messagePointer m') =
    match traceState with
    | Some s => Ok (s : cval K (TraceState c))
    | None => msg_get (TraceState c) (messagePointer m)
    end ∧
  (∀ f, f ≠ TraceID c → f ≠ SpanID c → f ≠ Sampled c → f ≠ TraceState c →
     msg_get (K := K) f (messagePointer m') = msg_get f (messagePointer m)).
Proof using CMessagesLaws0.
  unfold set_trace_context. intros [= <- Hok]. simpl.
  set (r1 := try_set _ (messagePointer m, true)) in *. set (r2 := try_set _ r1) in *.
  set (r3 := try_set _ r2) in *.
  assert (∃ p4, match traceState with
    | Some s => try_set (SolClientMessageSetTraceContextTraceState (K := K) s c) r3 | None => r3 end = (p4, true)
    ∧ snd r3 = true ∧ match traceState with
      | Some s => msg_set (TraceState c) (s : cval K (TraceState c)) (fst r3) = Ok p4 | None => fst r3 = p4 end)
    as (p4 & H4 & Hr3 & Hs4).
  { destruct traceState as [s|]; simpl in *.
    - destruct (try_set _ r3) as [p4 ok4] eqn:H4. simpl in Hok. subst ok4. exists p4.
      by apply try_set_ok in H4 as [? ?].
    - exists (fst r3). rewrite <-Hok. by destruct r3. }
  rewrite H4. simpl. clear H4 Hok.
  destruct r3 as [p3 ok3] eqn:H3. simpl in Hr3, Hs4. subst ok3. apply try_set_ok in H3 as [Hs3 Hr2].
  destruct r2 as [p2 ok2] eqn:H2. simpl in Hr2, Hs3. subst ok2. apply try_set_ok in H2 as [Hs2 Hr1].
  destruct r1 as [p1 ok1] eqn:H1. simpl in Hr1, Hs2. subst ok1. apply try_set_ok in H1 as [Hs1 _].
  simpl in Hs1. unfold SolClientMessageSetTraceContextTraceID, SolClientMessageSetTraceContextSpanID,
    SolClientMessageSetTraceContextSampled in *.
  assert (∀ f, f ≠ TraceState c → msg_get (K := K) f p4 = msg_get f p3) as H4.
  { intros f Hf. destruct traceState as [s|]; [|congruence]. eapply get_set_other; [exact Hs4|].
    by apply indep_other. }
  assert (∀ f, f ≠ Sampled c → msg_get (K := K) f p3 = msg_get f p2) as H3.
  { intros f Hf. eapply get_set_other; [exact Hs3|]. by apply indep_other. }
  assert (∀ f, f ≠ SpanID c → msg_get (K := K) f p2 = msg_get f p1) as H2.
  { intros f Hf. eapply get_set_other; [exact Hs2|]. by apply indep_other. }
  assert (∀ f, f ≠ TraceID c → msg_get (K := K) f p1 = msg_get f (messagePointer m)) as H1.
  { intros f Hf. eapply get_set_other; [exact Hs1|]. by apply indep_other. }
  split_and!.
  - rewrite H4, H3, H2 by done. by apply (get_set_same (TraceID c) traceID _ _ Hs1).
  - rewrite H4, H3 by done. by apply (get_set_same (SpanID c) spanID _ _ Hs2).
  - rewrite H4 by done. by apply (get_set_same (Sampled c) sampled _ _ Hs3).
  - destruct traceState as [s|]; [by apply (get_set_same (TraceState c) s _ _ Hs4)|]. subst p4. by rewrite H3, H2, H1.
  - intros f ????. by rewrite H4, H3, H2, H1.
Qed.

Lemma set_baggage_fields baggage (m m' : message) : SetBaggage (K := K) baggage m = Ok m' →
  GetBaggage (K := K) m' = (cstring baggage, true) ∧
  ∀ f, f ≠ Baggage → msg_get (K := K) f (messagePointer m') = msg_get f (messagePointer m).
Proof using CMessagesLaws0.
  unfold SetBaggage, setter, SolClientMessageSetBaggage, GetBaggage, SolClientMessageGetBaggage. intros Hs.
  destruct (String.eqb baggage "") eqn:He.
  - apply String.eqb_eq in He as ->. destruct (msg_deleteBaggage (messagePointer m)) as [p|] eqn:Hd; [|done].
    injection Hs as <-. simpl. split; [|intros f Hf; by apply (deleteBaggage_other f _ _ Hd)].
    destruct (deleteBaggage_get _ _ Hd) as (info & -> & Hr). simpl. by rewrite bool_decide_false.
  - destruct (msg_set Baggage _ (messagePointer m)) as [p|] eqn:Hd; [|done]. injection Hs as <-. simpl. split.
    + rewrite (get_set_same Baggage _ _ _ Hd eq_refl). simpl. by rewrite without_end_spec.
    + intros f Hf. eapply get_set_other; [exact Hd|]. by apply indep_other.
Qed.

End readback.

(** ** Messages as tables *)

(** A message of the library as the values of its fields. *)
Definition table : Type := ∀ f : msg_field, option (cval tree f).

Definition table_set (f : msg_field) (v : cval tree f) (m : table) : table :=
  λ g, match decide (f = g) with
       | left e => Some (eq_rect f (cval tree) v g e)
       | right _ => if binary f && binary g then None else m g
       end.
Definition not_found : ErrorInfo := mkErrorInfo ReturnCodeNotFound None.

#[export] Instance table_messages : CMessages table tree := {
  msg_alloc := Ok (λ _, None);
  msg_dup m := Ok m;
  msg_free m := m;
  msg_get f m := match m f with Some v => Ok v | None => Err not_found end;
  msg_set f v m := Ok (table_set f v m);
  msg_create _ _ := Ok (Tree None []);
  msg_deleteBaggage m := Ok (λ g, if decide (g = Baggage) then None else m g);
  msg_isRedelivered _ := false;
  msg_isDiscardIndication _ := false;
  msg_isCacheMsg _ := SolClientCacheStatusLiveMessage;
}.

#[export] Instance table_messages_laws : CMessagesLaws table tree.
Proof.
  split; simpl.
  - intros f v m m' [= <-] _. unfold table_set. destruct (decide (f = f)) as [e|]; [|done].
    by rewrite (proof_irrel e eq_refl).
  - intros f g v m m' [= <-] Hi. unfold indep in Hi. apply negb_true_iff, orb_false_iff in Hi as [He Hb].
    apply bool_decide_eq_false in He. unfold table_set. destruct (decide (f = g)); [done|]. by rewrite Hb.
  - by intros f m k [= <-].
  - intros m m' [= <-]. by exists not_found.
  - intros g m m' [= <-] Hg. by rewrite decide_False.
  - by intros f m m' [= <-].
  - intros m [= <-] f _. by exists not_found.
Qed.

Definition sample_builder : MessagePropertyMap :=
  WithCorrelationID "id" (WithPriority 7 (WithSequenceNumber 41
    (WithProperty MessagePropertyPersistentExpiration (PTime 1500000000)
      (WithProperty "colour" (PData (DString "blue")) NewOutboundMessageBuilder)))).
Definition sample_added : list (option (list (string * prop_value))) :=
  [None; Some [(MessagePropertyApplicationMessageID, PData (DString "app"))]].
Definition sample_message : MessageImpl table :=
  match build_payload (K := tree) map_to_list map_to_list (MapPayload sample_data) sample_builder sample_added with
  | Ok m => m
  | Err _ => mkMessage (λ _, None) true
  end.
Definition plain_message : MessageImpl table :=
  match build_payload (K := tree) map_to_list map_to_list (StringPayload "hello") sample_builder sample_added with
  | Ok m => m
  | Err _ => mkMessage (λ _, None) true
  end.

Lemma visit_order (P : MessagePropertyMap) : range_order P (map_to_list P).
Proof. unfold range_order. reflexivity. Qed.

Lemma sample_message_built : build_payload (K := tree) map_to_list map_to_list (MapPayload sample_data)
  sample_builder sample_added = Ok sample_message.
Proof. reflexivity. Qed.



Definition traced_message : MessageImpl table :=
  fst (set_trace_context (K := tree) SolClientContextTypeCreationContext (replicate 16 Byte.x01)
    (replicate 8 Byte.x02) true (Some "state") plain_message).
Definition baggage_message : MessageImpl table :=
  match SetBaggage (K := tree) "key=value" traced_message with Ok m => m | Err _ => traced_message end.

