(* ===== verification/DirectPublisher.v ===== *)
(** The direct publisher: internal/impl/publisher/direct_message_publisher_impl.go.

    The operations of the publisher and the tasks it gives to its task buffer are programs
    of atomic actions over one shared state, to be interleaved with each other.  The
    lifecycle is that of Lifecycle.  The task buffer and the executor are here what their own
    files show of them: the task buffer runs the tasks submitted to it one at a time in
    their order until it is told to stop (TaskBuffer), the executor takes notifications in
    their order until it is closed (Executor).  What the C session answers to a publish is
    read from a list, which every theorem leaves arbitrary; an empty list answers success.
    The fields of [history] record what happened and are read by no program. *)

From Stdlib Require Import ZArith Lia.
From stdpp Require Import base list relations strings.
From S2P Require Import Prelude GoStrconv GoEffects GoConc Errors Lifecycle Validation.

(** * Errors *)

Definition WouldBlock : string := "buffer is full, cannot queue additional messages".
Definition UnableToPublishAlreadyTerminated : string :=
  "unable to publish message: message publisher has been terminated".

Definition overflow_error : go_error := NewError PublisherOverflowError WouldBlock None.
Definition already_terminated_error : go_error :=
  NewError IllegalStateError UnableToPublishAlreadyTerminated None.
Definition undelivered_error (n : nat) : go_error :=
  NewError IncompleteMessageDeliveryError
    ("failed to publish messages, publisher terminated with " +:+ sprint_int (Z.of_nat n) +:+
     " undelivered messages") None.
Definition invalid_message_error (typeName : string) : go_error :=
  NewError IllegalArgumentError
    ("got an invalid OutboundMessage, was it built by OutboundMessageBuilder? backing type " +:+
     typeName) None.

Definition is_would_block (r : option ErrorInfo) : bool :=
  match r with Some info => bool_decide (ReturnCode info = ReturnCodeWouldBlock) | None => false end.

Section direct_publisher.
(** Outbound messages with their destination. *)
Context {T : Type} `{!EqDecision T}.

(** * State *)

(** The holder of [bufferPublishLock]: nobody, a publish, a publish that has written its
    message to the buffer and not yet submitted the task. *)
Inductive lock_state : Type := Free | Held | Written (m : T).

(** The goroutine of the task buffer: between tasks, in the send loop of a task, past it, gone. *)
Inductive runner : Type := Idle | Sending (m : T) | Sent (m : T) | Gone.

#[export] Instance lock_state_eq_dec : EqDecision lock_state.
Proof using All. solve_decision. Defined.
#[export] Instance runner_eq_dec : EqDecision runner.
Proof using All. solve_decision. Defined.

(** Calls of the listeners of the application. *)
Inductive notification : Type :=
| Ready
| PublishFailed (m : T) (err : option go_error).

#[export] Instance notification_eq_dec : EqDecision notification.
Proof using All. solve_decision. Defined.

Record task_queue : Type := mkTasks {
  queued : list T;
  tcapacity : nat;
  graceful : bool;
  interrupt : bool;
  ungraceful : bool;
  complete : bool;
}.

(** Where the task goroutine is; how the publisher ends, by waiting for its task buffer ([true])
    or because the service went down ([false]); how many messages the end has drained and
    the number it has reported; the messages accepted by a publish, those taken off the
    buffer (by a task or by the drain), every call of the session with its result, the
    messages whose task was refused, the publishes refused for want of room; whether
    a task was interrupted; the calls of the termination listener. *)
Record history : Type := mkHistory {
  runner_at : runner;
  ending : option bool;
  draining : option nat;
  reported : option nat;
  accepted : list T;
  taken : list (T * bool);
  wire : list (T * option ErrorInfo);
  rejected : list T;
  refused : list T;
  aborted : bool;
  listened : list (option go_error);
}.

Record publisher : Type := mkPublisher {
  machine : lifecycle;
  parent : bool;
  backpressure : backpressureConfiguration;
  readinessListener : bool;
  failureListener : bool;
  buffer : chan T;
  lock : lock_state;
  waitInterrupt : bool;
  tasks : task_queue;
  spawned : bool;
  executor_closed : bool;
  notifications : list notification;
  session : list (option ErrorInfo);
  discarded : Z;
  downHandler : bool;
  canSendHandler : bool;
  past : history;
}.

Definition set_queued (l : list T) (q : task_queue) : task_queue :=
  mkTasks
    l (tcapacity q) (graceful q) (interrupt q) (ungraceful q) (complete q).

Definition set_signals (g i u : bool) (q : task_queue) : task_queue :=
  mkTasks
    (queued q) (tcapacity q) g i u (complete q).

Definition set_tq_complete (b : bool) (q : task_queue) : task_queue :=
  mkTasks
    (queued q) (tcapacity q) (graceful q) (interrupt q) (ungraceful q) b.

Definition at_runner (r : runner) (h : history) : history :=
  mkHistory
    r (ending h) (draining h) (reported h) (accepted h) (taken h) (wire h) (rejected h)
    (refused h) (aborted h) (listened h).

Definition note_taken (l : list (T * bool)) (r : runner) (h : history) : history :=
  mkHistory
    r (ending h) (draining h) (reported h) (accepted h) (taken h ++ l) (wire h) (rejected h)
    (refused h) (aborted h) (listened h).

Definition note_draining (n : option nat) (h : history) : history :=
  mkHistory
    (runner_at h) (ending h) n (reported h) (accepted h) (taken h) (wire h) (rejected h)
    (refused h) (aborted h) (listened h).

Definition note_reported (n : nat) (h : history) : history :=
  mkHistory
    (runner_at h) (ending h) (draining h) (Some n) (accepted h) (taken h) (wire h)
    (rejected h) (refused h) (aborted h) (listened h).

Definition note_accepted (m : T) (h : history) : history :=
  mkHistory
    (runner_at h) (ending h) (draining h) (reported h) (accepted h ++ [m]) (taken h) (wire h)
    (rejected h) (refused h) (aborted h) (listened h).

Definition note_wire (m : T) (r : option ErrorInfo) (at_ : runner) (h : history) : history :=
  mkHistory
    at_ (ending h) (draining h) (reported h) (accepted h) (taken h) (wire h ++ [(m, r)])
    (rejected h) (refused h) (aborted h) (listened h).

Definition note_rejected (m : T) (h : history) : history :=
  mkHistory
    (runner_at h) (ending h) (draining h) (reported h) (accepted h) (taken h) (wire h)
    (rejected h ++ [m]) (refused h) (aborted h) (listened h).

Definition note_refused (m : T) (h : history) : history :=
  mkHistory
    (runner_at h) (ending h) (draining h) (reported h) (accepted h) (taken h) (wire h)
    (rejected h) (refused h ++ [m]) (aborted h) (listened h).

Definition note_aborted  (h : history) : history :=
  mkHistory
    Idle (ending h) (draining h) (reported h) (accepted h) (taken h) (wire h) (rejected h)
    (refused h) true (listened h).

Definition note_ending (b : bool) (h : history) : history :=
  mkHistory
    (runner_at h) (Some b) (draining h) (reported h) (accepted h) (taken h) (wire h)
    (rejected h) (refused h) (aborted h) (listened h).

Definition note_listened (e : option go_error) (h : history) : history :=
  mkHistory
    (runner_at h) (ending h) (draining h) (reported h) (accepted h) (taken h) (wire h)
    (rejected h) (refused h) (aborted h) (listened h ++ [e]).

Definition set_machine (l : lifecycle) (s : publisher) : publisher :=
  mkPublisher
    l (parent s) (backpressure s) (readinessListener s) (failureListener s) (buffer s)
    (lock s) (waitInterrupt s) (tasks s) (spawned s) (executor_closed s) (notifications s)
    (session s) (discarded s) (downHandler s) (canSendHandler s) (past s).

Definition set_parent (b : bool) (s : publisher) : publisher :=
  mkPublisher
    (machine s) b (backpressure s) (readinessListener s) (failureListener s) (buffer s)
    (lock s) (waitInterrupt s) (tasks s) (spawned s) (executor_closed s) (notifications s)
    (session s) (discarded s) (downHandler s) (canSendHandler s) (past s).

Definition set_buffer (c : chan T) (s : publisher) : publisher :=
  mkPublisher
    (machine s) (parent s) (backpressure s) (readinessListener s) (failureListener s) c
    (lock s) (waitInterrupt s) (tasks s) (spawned s) (executor_closed s) (notifications s)
    (session s) (discarded s) (downHandler s) (canSendHandler s) (past s).

Definition set_lock (l : lock_state) (s : publisher) : publisher :=
  mkPublisher
    (machine s) (parent s) (backpressure s) (readinessListener s) (failureListener s)
    (buffer s) l (waitInterrupt s) (tasks s) (spawned s) (executor_closed s)
    (notifications s) (session s) (discarded s) (downHandler s) (canSendHandler s) (past s).

Definition set_waitInterrupt (b : bool) (s : publisher) : publisher :=
  mkPublisher
    (machine s) (parent s) (backpressure s) (readinessListener s) (failureListener s)
    (buffer s) (lock s) b (tasks s) (spawned s) (executor_closed s) (notifications s)
    (session s) (discarded s) (downHandler s) (canSendHandler s) (past s).

Definition set_tasks (q : task_queue) (s : publisher) : publisher :=
  mkPublisher
    (machine s) (parent s) (backpressure s) (readinessListener s) (failureListener s)
    (buffer s) (lock s) (waitInterrupt s) q (spawned s) (executor_closed s) (notifications s)
    (session s) (discarded s) (downHandler s) (canSendHandler s) (past s).

Definition set_spawned (b : bool) (s : publisher) : publisher :=
  mkPublisher
    (machine s) (parent s) (backpressure s) (readinessListener s) (failureListener s)
    (buffer s) (lock s) (waitInterrupt s) (tasks s) b (executor_closed s) (notifications s)
    (session s) (discarded s) (downHandler s) (canSendHandler s) (past s).

Definition set_executor (b : bool) (l : list notification) (s : publisher) : publisher :=
  mkPublisher
    (machine s) (parent s) (backpressure s) (readinessListener s) (failureListener s)
    (buffer s) (lock s) (waitInterrupt s) (tasks s) (spawned s) b l (session s) (discarded s)
    (downHandler s) (canSendHandler s) (past s).

Definition set_session (l : list (option ErrorInfo)) (s : publisher) : publisher :=
  mkPublisher
    (machine s) (parent s) (backpressure s) (readinessListener s) (failureListener s)
    (buffer s) (lock s) (waitInterrupt s) (tasks s) (spawned s) (executor_closed s)
    (notifications s) l (discarded s) (downHandler s) (canSendHandler s) (past s).

Definition set_discarded (n : Z) (s : publisher) : publisher :=
  mkPublisher
    (machine s) (parent s) (backpressure s) (readinessListener s) (failureListener s)
    (buffer s) (lock s) (waitInterrupt s) (tasks s) (spawned s) (executor_closed s)
    (notifications s) (session s) n (downHandler s) (canSendHandler s) (past s).

Definition set_handlers (d c : bool) (s : publisher) : publisher :=
  mkPublisher
    (machine s) (parent s) (backpressure s) (readinessListener s) (failureListener s)
    (buffer s) (lock s) (waitInterrupt s) (tasks s) (spawned s) (executor_closed s)
    (notifications s) (session s) (discarded s) d c (past s).

Definition set_past (h : history) (s : publisher) : publisher :=
  mkPublisher
    (machine s) (parent s) (backpressure s) (readinessListener s) (failureListener s)
    (buffer s) (lock s) (waitInterrupt s) (tasks s) (spawned s) (executor_closed s)
    (notifications s) (session s) (discarded s) (downHandler s) (canSendHandler s) h.

Definition note (f : history → history) (s : publisher) : publisher := set_past (f (past s)) s.

#[export] Instance publisher_lifecycle : HasLifecycle publisher := {|
  lc := machine;
  put_lc := set_machine;
  parent_running := parent;
  lc_put _ _ := eq_refl;
  parent_put _ _ := eq_refl;
|}.

(** [construct]: the buffers exist in the buffered configurations only. *)
Definition construct (up : bool) (config : backpressureConfiguration) (bufferSize : nat)
    (readiness failure : bool) (answers : list (option ErrorInfo)) : publisher :=
  let size := if decide (config = BackpressureDirect) then 0 else bufferSize in
  mkPublisher new_lifecycle up config readiness failure (make_chan size) Free false
    (mkTasks [] size false false false false) false false [] answers 0 false false
    (mkHistory Idle None None None [] [] [] [] [] false []).

Definition is_direct (s : publisher) : bool := bool_decide (backpressure s = BackpressureDirect).
Definition is_reject (s : publisher) : bool := bool_decide (backpressure s = BackpressureReject).

(** * The task buffer and the executor *)

Definition taskBuffer_Submit (m : T) : prog publisher bool :=
  action (λ s,
    let q := tasks s in
    if negb (complete q) && (length (queued q) <? tcapacity q)
    then AOk true (set_lock Held (set_tasks (set_queued (queued q ++ [m]) q) s))
    else AOk false (set_lock Held (note (note_rejected m) s))).

Definition close_task_signal (view : task_queue → bool)
    (put : bool → task_queue → task_queue) : prog publisher unit :=
  close_signal (λ s, view (tasks s)) (λ b s, set_tasks (put b (tasks s)) s).
Definition put_graceful (b : bool) (q : task_queue) := set_signals b (interrupt q) (ungraceful q) q.
Definition put_interrupt (b : bool) (q : task_queue) := set_signals (graceful q) b (ungraceful q) q.
Definition put_ungraceful (b : bool) (q : task_queue) := set_signals (graceful q) (interrupt q) b q.
Definition is_complete (s : publisher) : bool := complete (tasks s).
Definition await_complete : prog publisher unit :=
  action (λ s, if is_complete s then AOk tt (note (note_ending true) s) else ABlock).

Definition taskBuffer_Terminate (timer : bool) : prog publisher bool :=
  close_task_signal graceful put_graceful ;;;;
  if negb timer then await_complete ;;;; PRet true
  else
    let! fired := select [ (λ s, if is_complete s then AOk false (note (note_ending true) s)
                                 else ABlock);
                           (λ s, AOk true s) ] in
    if negb fired then PRet true
    else
      close_task_signal interrupt put_interrupt ;;;;
      close_task_signal ungraceful put_ungraceful ;;;;
      await_complete ;;;; PRet false.

Definition taskBuffer_TerminateNow : prog publisher unit :=
  close_task_signal graceful put_graceful ;;;;
  close_task_signal interrupt put_interrupt ;;;;
  close_task_signal ungraceful put_ungraceful.

(** The next task, unless the buffer leaves: at once when it is cut short, with no task left
    when it ends gracefully. *)
Definition next_task : prog publisher (option T) :=
  select [ (λ s, let q := tasks s in
                 if spawned s && (ungraceful q || graceful q && bool_decide (queued q = []))
                 then AOk None (note (at_runner Gone) (set_tasks (set_tq_complete true q) s))
                 else ABlock);
           (λ s, match spawned s, queued (tasks s) with
                 | true, m :: l =>
                     AOk (Some m) (note (at_runner (Sending m)) (set_tasks (set_queued l (tasks s)) s))
                 | _, _ => ABlock
                 end) ].

Definition executor_Submit (n : notification) : prog publisher bool :=
  action (λ s, if executor_closed s then AOk false s
               else AOk true (set_executor false (notifications s ++ [n]) s)).
Definition executor_Terminate : prog publisher unit :=
  update (λ s, set_executor true (notifications s) s).

(** * Publishing *)

(** [internalPublisher.Publish]. *)
Definition session_Publish (m : T) (at_ : option ErrorInfo → history → runner)
    : prog publisher (option ErrorInfo) :=
  action (λ s,
    let (r, l) := match session s with [] => (None, []) | r :: l => (r, l) end in
    AOk r (note (λ h, note_wire m r (at_ r h) h) (set_session l s))).

Inductive write_result : Type := WroteIt | BufferFull | BufferClosed | WaitInterrupted.

(** [publisher.buffer <- pub]; a send on the closed buffer panics, which [publish] recovers. *)
Definition write (m : T) (full : publisher → act publisher write_result) (s : publisher)
    : act publisher write_result :=
  match chan_try_send m (buffer s) with
  | Done true c => AOk WroteIt (note (note_accepted m) (set_lock (Written m) (set_buffer c s)))
  | Done false _ => full s
  | Panicked _ _ => AOk BufferClosed s
  | Blocked _ => ABlock
  end.

Definition publishLock_Lock : prog publisher unit :=
  action (λ s, match lock s with Free => AOk tt (set_lock Held s) | _ => ABlock end).
Definition publishLock_Unlock : prog publisher unit := update (set_lock Free).

Definition write_message (m : T) (reject : bool) : prog publisher write_result :=
  if reject
  then action (write m (λ s, AOk BufferFull (note (note_refused m) s)))
  else select [ write m (λ s, ABlock);
                (λ s, if waitInterrupt s then AOk WaitInterrupted s else ABlock) ].

(** The buffered half of [publish]. *)
Definition publish_buffered (m : T) : prog publisher (option go_error) :=
  publishLock_Lock ;;;;
  let! reject := load is_reject in
  let! channelWrite := write_message m reject in
  match channelWrite with
  | WroteIt => taskBuffer_Submit m ;;;; publishLock_Unlock ;;;; PRet None
  | BufferFull => publishLock_Unlock ;;;; PRet (Some overflow_error)
  | BufferClosed | WaitInterrupted =>
      publishLock_Unlock ;;;; PRet (Some already_terminated_error)
  end.

(** [setDestination] is the error of setting the destination on the message. *)
Definition publish (m : T) (setDestination : option go_error) : prog publisher (option go_error) :=
  match setDestination with
  | Some err => PRet (Some err)
  | None =>
  let! err := checkStartedStateForPublish in
  match err with
  | Some err => PRet (Some err)
  | None =>
  let! direct := load is_direct in
  if (direct : bool) then
    let! errorInfo := session_Publish m (λ _ h, runner_at h) in
    PRet (match errorInfo with
          | None => None
          | Some info =>
              if is_would_block errorInfo then Some overflow_error
              else Some (ToNativeError info "")
          end)
  else publish_buffered m
  end end.

(** The message of the application, or the name of a type that is none of ours; the errors of
    duplicating it, of setting its properties and its destination. *)
Definition PublishWithProperties (msg : T + string)
    (duplicate setProperties setDestination : option go_error)
    : prog publisher (option go_error) :=
  let! err := checkStartedStateForPublish in
  match err, msg with
  | Some err, _ => PRet (Some err)
  | None, inr typeName => PRet (Some (invalid_message_error typeName))
  | None, inl m =>
      match duplicate, setProperties with
      | Some err, _ => PRet (Some err)
      | None, Some err => PRet (Some err)
      | None, None => publish m setDestination
      end
  end.

Definition Publish (msg : T + string) (duplicate setDestination : option go_error)
    : prog publisher (option go_error) :=
  PublishWithProperties msg duplicate None setDestination.

(** The message of the builder, or its error. *)
Definition PublishBytes (built : T + go_error) (setDestination : option go_error)
    : prog publisher (option go_error) :=
  match built with inl m => publish m setDestination | inr err => PRet (Some err) end.
Definition PublishString (built : T + go_error) (setDestination : option go_error)
    : prog publisher (option go_error) :=
  match built with inl m => publish m setDestination | inr err => PRet (Some err) end.

(** [IsReady] reads the state, then the buffer. *)
Definition IsReady : prog publisher bool :=
  let! started := IsRunning in
  if negb started then PRet false
  else load (λ s, negb (is_reject s) || negb (length (chan_buf (buffer s)) =? chan_cap (buffer s))).

Definition notifyReady : prog publisher unit :=
  let! listener := load readinessListener in
  if (listener : bool) then executor_Submit Ready ;;;; PRet tt else PRet tt.

Definition NotifyWhenReady : prog publisher unit :=
  let! ready := IsReady in
  if (ready : bool) then notifyReady else PRet tt.

(** * Tasks *)

(** [AwaitWritable]: the session can send, or the wait is interrupted by the task buffer or by
    the end of the service; whether it was interrupted. *)
Definition AwaitWritable : prog publisher bool :=
  select [ (λ s, if interrupt (tasks s) || negb (parent s)
                 then AOk true (note note_aborted s) else ABlock);
           (λ s, AOk false s) ].

Inductive attempt : Type := Attempted (r : option ErrorInfo) | Interrupted | StillTrying.

(** The loop of a task, for at most [fuel] attempts. *)
Fixpoint send_loop (fuel : nat) (m : T) : prog publisher attempt :=
  match fuel with
  | O => PRet StillTrying
  | S fuel =>
      let! errorInfo := session_Publish m (λ r _, if is_would_block r then Sending m else Sent m) in
      if is_would_block errorInfo then
        let! interrupted := AwaitWritable in
        if (interrupted : bool) then PRet Interrupted else send_loop fuel m
      else PRet (Attempted errorInfo)
  end.

(** [case pub, ok := <-publisher.buffer] with its default. *)
Definition pop : prog publisher (option T) :=
  action (λ s,
    match chan_try_recv (buffer s) with
    | Done (Some (Some pub)) c =>
        AOk (Some pub) (note (λ h, note_taken [(pub, true)] Idle h) (set_buffer c s))
    | Done _ _ => AOk None (note (at_runner Idle) s)
    | Panicked p _ => APanic p
    | Blocked _ => ABlock
    end).

(** The failure listener gets the message of the task; the message popped is disposed of
    otherwise. *)
Definition report_failure (m : T) (errorInfo : option ErrorInfo) : prog publisher unit :=
  let! listener := load failureListener in
  match errorInfo with
  | Some info =>
      if (listener : bool)
      then executor_Submit (PublishFailed m
             (Some (ToNativeError info "encountered error while publishing message: "))) ;;;;
           PRet tt
      else PRet tt
  | None => PRet tt
  end.

(** [sendTask]; the result tells whether the task has come to its end. *)
Definition sendTask (fuel : nat) (m : T) : prog publisher bool :=
  let! r := send_loop fuel m in
  match r with
  | StillTrying => PRet false
  | Interrupted => PRet true
  | Attempted errorInfo =>
      let! isFull := load (λ s, length (chan_buf (buffer s)) =? chan_cap (buffer s)) in
      let! pub := pop in
      match pub with
      | None => PRet true
      | Some _ =>
          report_failure m errorInfo ;;;;
          let! reject := load is_reject in
          (if isFull && reject then notifyReady else PRet tt) ;;;; PRet true
      end
  end.

(** The goroutine of the task buffer, for at most [fuel] tasks of at most [fuel] attempts. *)
Fixpoint run_tasks (fuel : nat) : prog publisher (option go_error) :=
  match fuel with
  | O => PRet None
  | S fuel =>
      let! task := next_task in
      match task with
      | None => PRet None
      | Some m =>
          let! ended := sendTask fuel m in
          if (ended : bool) then run_tasks fuel else PRet None
      end
  end.

(** * Start and termination *)

Definition start_body : prog publisher (option go_error) :=
  update (λ s, set_handlers true (canSendHandler s) s) ;;;;
  let! direct := load is_direct in
  (if (direct : bool) then update (λ s, set_handlers (downHandler s) true s)
   else update (set_spawned true)) ;;;;
  PRet None.

Definition Start : prog publisher (option go_error) := start_around publisher_texts start_body.

(** The next message of the range over the closed buffer, after [undeliveredCount] of them. *)
Definition drain_next (undeliveredCount : nat) : prog publisher (option T) :=
  action (λ s,
    match chan_recv (buffer s) with
    | Done (Some m) c =>
        AOk (Some m) (note (λ h, note_draining (Some (S undeliveredCount))
                                   (note_taken [(m, false)] (runner_at h) h)) (set_buffer c s))
    | Done None _ => AOk None (note (note_reported undeliveredCount) s)
    | Panicked p _ => APanic p
    | Blocked _ => ABlock
    end).

(** The range over the closed buffer, with the number of messages so far.  The buffer holds at
    most its capacity, so its capacity and one more are turns enough: running out of them
    would be a crash. *)
Fixpoint drain_loop (fuel : nat) (undeliveredCount : nat) (err : option go_error)
    (listener : bool) : prog publisher nat :=
  match fuel with
  | O => action (λ _, APanic IndexOutOfRange)
  | S fuel =>
      let! undelivered := drain_next undeliveredCount in
      match undelivered with
      | None => PRet undeliveredCount
      | Some m =>
          (if listener then executor_Submit (PublishFailed m err) ;;;; PRet tt else PRet tt) ;;;;
          drain_loop fuel (S undeliveredCount) err listener
      end
  end.

Definition close_buffer : prog publisher unit :=
  action (λ s, match chan_close (buffer s) with
               | Done _ c => AOk tt (note (note_draining (Some 0)) (set_buffer c s))
               | Panicked p _ => APanic p
               | Blocked _ => ABlock
               end).

Definition drainQueue (err : option go_error) (listener : bool) : prog publisher nat :=
  close_buffer ;;;;
  let! capacity := load (λ s, chan_cap (buffer s)) in
  drain_loop (S capacity) 0 err listener.

(** The number of undelivered messages as a metric and an error. *)
Definition report_undelivered (n : nat) : prog publisher (option go_error) :=
  if 0 <? n
  then update (λ s, set_discarded (discarded s + Z.of_nat n) s) ;;;;
       PRet (Some (undelivered_error n))
  else PRet None.

Definition terminate_body (timer : bool) : prog publisher (option go_error) :=
  update (λ s, set_handlers false (canSendHandler s) s) ;;;;
  let! direct := load is_direct in
  let! err :=
    (if (direct : bool) then
       update (λ s, set_handlers (downHandler s) false s) ;;;; PRet None
     else
       close_signal waitInterrupt set_waitInterrupt ;;;;
       taskBuffer_Terminate timer ;;;;
       let! undeliveredCount := drainQueue None false in
       report_undelivered undeliveredCount) in
  executor_Terminate ;;;;
  PRet err.

(** [timer]: the grace period is not negative. *)
Definition Terminate (timer : bool) : prog publisher (option go_error) :=
  terminate_around publisher_texts (terminate_body timer).

Definition unsolicited_body (cause : option go_error) : prog publisher (option go_error) :=
  update (λ s, note (note_ending false) (set_handlers false (canSendHandler s) s)) ;;;;
  let! direct := load is_direct in
  let! err :=
    (if (direct : bool) then
       update (λ s, set_handlers (downHandler s) false s) ;;;; PRet None
     else
       close_signal waitInterrupt set_waitInterrupt ;;;;
       taskBuffer_TerminateNow ;;;;
       let! listener := load failureListener in
       let! undeliveredCount := drainQueue cause listener in
       report_undelivered undeliveredCount) in
  executor_Terminate ;;;;
  PRet err.

(** [unsolicitedTermination]; [listener]: there is a termination listener. *)
Definition unsolicitedTermination (cause : option go_error) (listener : bool)
    : prog publisher (option go_error) :=
  let! r := terminate publisher_texts in
  if negb (fst r) then PRet None
  else
    let! err := unsolicited_body cause in
    terminated err ;;;;
    (if listener then update (note (note_listened cause)) else PRet tt) ;;;; PRet None.

(** * Protocol *)

(** The actions of a termination that are done at most once. *)
Inductive once : Type :=
| CloseWait | CloseGraceful | CloseInterrupt | CloseUngraceful | ChooseEnding | CloseBuffer.

(** The permits of the publisher: the position of the lock, of the task goroutine, of the
    drain, and the way the publisher ends. *)
Inductive mine : Type :=
| HoldLock | HoldWritten (m : T) | RunnerAt (r : runner) | DrainAt (n : nat) | Ending (b : bool).

#[export] Instance once_eq_dec : EqDecision once.
Proof using Type. solve_decision. Defined.
#[export] Instance mine_eq_dec : EqDecision mine.
Proof using All. solve_decision. Defined.

Definition gate (x : once) : phase := TermPhase.

Definition spent (s : publisher) (x : once) : bool :=
  match x with
  | CloseWait => waitInterrupt s
  | CloseGraceful => graceful (tasks s)
  | CloseInterrupt => interrupt (tasks s)
  | CloseUngraceful => ungraceful (tasks s)
  | ChooseEnding => bool_decide (is_Some (ending (past s)))
  | CloseBuffer => chan_closed (buffer s)
  end.

Definition extra (s : publisher) (y : mine) : nat :=
  match y with
  | HoldLock => if decide (lock s = Held) then 0 else 1
  | HoldWritten m => if decide (lock s = Written m) then 0 else 1
  | RunnerAt r => if decide (runner_at (past s) = r) then 0 else 1
  | DrainAt n => if decide (draining (past s) = Some n) then 0 else 1
  | Ending b => if decide (ending (past s) = Some b) then 0 else 1
  end.

(** ** The invariant *)

(** The message of the task being executed, and that of the publish about to submit its task. *)
Definition current (s : publisher) : list T :=
  match runner_at (past s) with Sending m | Sent m => [m] | _ => [] end.
Definition unsubmitted (s : publisher) : list T :=
  match lock s with Written m => [m] | _ => [] end.

(** The message the session has answered for and the task has not taken off the buffer. *)
Definition in_hand (s : publisher) : list T :=
  match runner_at (past s) with Sent m => [m] | _ => [] end.

(** The messages the session was given for good, those taken off the buffer by a task,
    and those drained. *)
Definition attempted (s : publisher) : list T :=
  (filter (λ p, is_would_block p.2 = false) (wire (past s))).*1.
Definition popped (s : publisher) : list T := (filter (λ p, p.2 = true) (taken (past s))).*1.
Definition drained (s : publisher) : list T := (filter (λ p, p.2 = false) (taken (past s))).*1.

Context (config : backpressureConfiguration) (size : nat).

Record pub_inv (s : publisher) : Prop := {
  inv_config : backpressure s = config;
  inv_fifo : accepted (past s) = (taken (past s)).*1 ++ chan_buf (buffer s);
  inv_capacity : default 0 (draining (past s)) + length (chan_buf (buffer s)) ≤ chan_cap (buffer s);
  inv_tcapacity : tcapacity (tasks s) = chan_cap (buffer s);
  inv_closed : draining (past s) = None ↔ chan_closed (buffer s) = false;
  inv_drained : length (drained s) = default 0 (draining (past s));
  inv_room : chan_closed (buffer s) = false →
    length (current s ++ queued (tasks s) ++ rejected (past s) ++ unsubmitted s) ≤
    length (chan_buf (buffer s));
  inv_rejected : chan_closed (buffer s) = false → rejected (past s) ≠ [] → is_complete s = true;
  inv_match : chan_closed (buffer s) = false → aborted (past s) = false →
    chan_buf (buffer s) = current s ++ queued (tasks s) ++ rejected (past s) ++ unsubmitted s;
  inv_gone : is_complete s = true ↔ runner_at (past s) = Gone;
  inv_wire : config ≠ BackpressureDirect → ending (past s) ≠ Some false →
    aborted (past s) = false → attempted s = popped s ++ in_hand s;
  inv_order : ending (past s) ≠ Some false →
    taken (past s) = ((., true) <$> popped s) ++ ((., false) <$> drained s);
  inv_ending : ending (past s) = Some true → is_complete s = true;
  inv_ended : chan_closed (buffer s) = true → is_Some (ending (past s));
  inv_reported : ∀ n, reported (past s) = Some n →
    draining (past s) = Some n ∧ chan_buf (buffer s) = [];
  inv_size : chan_cap (buffer s) = size;
  inv_before : passed (state_of s) TermPhase = false → ∀ x, spent s x = false;
}.

(** The state of the machine moves forward, a closed buffer takes no message, and what has ended
    stays so. *)
Definition pub_move (s s' : publisher) : Prop :=
  lstate_move (state_of s) (state_of s') ∧
  accepted (past s) `prefix_of` accepted (past s') ∧
  (chan_closed (buffer s) = true →
     chan_closed (buffer s') = true ∧ accepted (past s') = accepted (past s)) ∧
  (is_complete s = true → is_complete s' = true) ∧
  (waitInterrupt s = true → waitInterrupt s' = true).

Abbreviation pproto n := (proto pub_inv pub_move (lc_held gate spent extra) lc_total n).
Abbreviation pfits s l := (fits (lc_held gate spent extra) lc_total s (own l)).

Lemma pub_move_same s s' :
  state_of s' = state_of s → accepted (past s') = accepted (past s) →
  (chan_closed (buffer s) = true → chan_closed (buffer s') = true) →
  (is_complete s = true → is_complete s' = true) →
  (waitInterrupt s = true → waitInterrupt s' = true) → pub_move s s'.
Proof using Type.
  intros H1 H2 H3 H4 H5. unfold pub_move. rewrite H1, H2. split_and!; [by left|done|auto..].
Qed.

Lemma pub_state s st : pub_inv s → lstate_move (state_of s) st →
  pub_inv (put_state st s) ∧ pub_move s (put_state st s).
Proof using Type.
  intros Hs Hm. split.
  - destruct Hs. split; try assumption. rewrite state_of_put_state. intros Hp. apply inv_before0.
    destruct (state_of s), st; simpl in *; unfold lstate_move in Hm; naive_solver.
  - split_and!; [|done..]. by rewrite state_of_put_state.
Qed.

Lemma pub_starts : StartsFreely pub_inv pub_move.
Proof using Type. intros s Hs Hst. apply pub_state; [done|]. rewrite Hst. unfold lstate_move. tauto. Qed.
#[local] Existing Instance pub_starts.

Lemma embeds : EmbedsLifecycle pub_inv pub_move gate spent extra.
Proof using Type.
  split.
  - intros s. by apply pub_move_same.
  - intros s st Hs Hm _. by apply pub_state.
  - intros s f Hs. split; [destruct Hs; by split|by apply pub_move_same].
  - intros s f Hs. split; [destruct Hs; by split|by apply pub_move_same].
  - done.
  - intros s x Hs Hp. by apply (inv_before s Hs).
  - done.
Qed.
#[local] Existing Instance embeds.

(** What the owner of a permit knows. *)
Lemma fits_extra s y l : pfits s (Extra y :: l) → extra s y = 0.
Proof using Type.
  intros Hf. specialize (Hf (Extra y)). pose proof (own_here (Extra y : lc_permit once mine) l).
  unfold lc_total in Hf. cbn [lc_held] in Hf. lia.
Qed.

Lemma fits_runner s r l : pfits s (Extra (RunnerAt r) :: l) → runner_at (past s) = r.
Proof using Type. intros Hf%fits_extra. simpl in Hf. by case_decide. Qed.
Lemma fits_lock s l : pfits s (Extra HoldLock :: l) → lock s = Held.
Proof using Type. intros Hf%fits_extra. simpl in Hf. by case_decide. Qed.
Lemma fits_written s m l : pfits s (Extra (HoldWritten m) :: l) → lock s = Written m.
Proof using Type. intros Hf%fits_extra. simpl in Hf. by case_decide. Qed.
Lemma fits_drain s n l : pfits s (Extra (DrainAt n) :: l) → draining (past s) = Some n.
Proof using Type. intros Hf%fits_extra. simpl in Hf. by case_decide. Qed.
Lemma fits_ending s b l : pfits s (Extra (Ending b) :: l) → ending (past s) = Some b.
Proof using Type. intros Hf%fits_extra. simpl in Hf. by case_decide. Qed.

Lemma fits_once s x l : pfits s (Once x :: l) →
  passed (state_of s) TermPhase = true ∧ spent s x = false.
Proof using Type.
  intros Hf. specialize (Hf (Once x)). pose proof (own_here (Once x : lc_permit once mine) l).
  unfold lc_total in Hf. cbn [lc_held gate] in Hf.
  destruct (passed _ _), (spent s x); simpl in *; first [done|lia].
Qed.

Lemma fits_tail s x l : pfits s (x :: l) → pfits s l.
Proof using Type. intros Hf y. specialize (Hf y). simpl in Hf. lia. Qed.

(** ** Preservation *)

(** Counting permits over an action, kind by kind. *)
Ltac count :=
  intros [?|[]|[]]; cbn [lc_held gate spent extra own]; unfold state_of; simpl;
  repeat case_decide; simplify_eq; try congruence; lia.

Lemma proto_load_inv {V B} (view : publisher → V) n (k : V → prog publisher B) Q :
  (∀ s, pub_inv s → pproto n (k (view s)) Q) → pproto n (pbind (load view) k) Q.
Proof using Type.
  intros Hk s Hs Hf. split_and!; [done|by apply pub_move_same|]. exists n.
  split; [intros x; lia|by apply Hk].
Qed.

(** An update of fields that neither the invariant nor the permits look at. *)
Lemma proto_update {B} (g : publisher → publisher) n (k : unit → prog publisher B) Q :
  (∀ s, pub_inv s → pub_inv (g s)) →
  (∀ s, machine (g s) = machine s ∧ lock (g s) = lock s ∧ waitInterrupt (g s) = waitInterrupt s ∧
        tasks (g s) = tasks s ∧ buffer (g s) = buffer s ∧
        runner_at (past (g s)) = runner_at (past s) ∧ ending (past (g s)) = ending (past s) ∧
        draining (past (g s)) = draining (past s) ∧ accepted (past (g s)) = accepted (past s)) →
  pproto n (k tt) Q → pproto n (pbind (update g) k) Q.
Proof using Type.
  intros Hi Hg Hk s Hs Hf. destruct (Hg s) as (H1 & H2 & H3 & H4 & H5 & H6 & H7 & H8 & H9).
  split_and!; [by apply Hi| |].
  - apply pub_move_same; [unfold state_of; simpl; by rewrite H1|done|by rewrite H5| |by rewrite H3].
    unfold is_complete. by rewrite H4.
  - exists n. split; [|done]. intros [ph|x|y]; simpl; unfold state_of; simpl; rewrite ?H1; [lia| |].
    + assert (spent (g s) x = spent s x) as ->; [|lia].
      destruct x; simpl; by rewrite ?H3, ?H4, ?H5, ?H7.
    + assert (extra (g s) y = extra s y) as ->; [|lia].
      destruct y; simpl; by rewrite ?H2, ?H6, ?H7, ?H8.
Qed.

Lemma proto_executor_Submit {B} e n (k : bool → prog publisher B) Q :
  (∀ b, pproto n (k b) Q) → pproto n (pbind (executor_Submit e) k) Q.
Proof using Type.
  intros Hk s Hs Hf. simpl. destruct (executor_closed s).
  - split_and!; [done|by apply pub_move_same|]. exists n. split; [intros x; lia|apply Hk].
  - split_and!; [by destruct Hs|by apply pub_move_same|]. exists n.
    split; [|apply Hk]. by intros [?|[]|[]].
Qed.

Lemma proto_notifyReady {B} n (k : unit → prog publisher B) Q :
  pproto n (k tt) Q → pproto n (pbind notifyReady k) Q.
Proof using Type.
  intros Hk. apply proto_load_inv. intros s _. destruct (readinessListener s); [|done].
  by apply proto_executor_Submit.
Qed.

(** *** Publishing *)

Lemma proto_Lock {B} (k : unit → prog publisher B) Q :
  pproto (own [Extra HoldLock]) (k tt) Q →
  pproto (own []) (pbind publishLock_Lock k) Q.
Proof using Type.
  intros Hk s Hs Hf. destruct (lock s) eqn:Hl; [|done..].
  split_and!; [|by apply pub_move_same|].
  - destruct Hs. unfold unsubmitted in *. rewrite Hl in *. by split.
  - eexists. split; [|exact Hk]. count.
Qed.

Lemma proto_Unlock {B} (k : unit → prog publisher B) Q :
  pproto (own []) (k tt) Q →
  pproto (own [Extra HoldLock]) (pbind publishLock_Unlock k) Q.
Proof using Type.
  intros Hk s Hs Hf. pose proof (fits_lock _ _ Hf) as Hl.
  split_and!; [|by apply pub_move_same|].
  - destruct Hs. unfold unsubmitted in *. rewrite Hl in *. by split.
  - eexists. split; [|exact Hk]. count.
Qed.

Lemma inv_accept m s : pub_inv s → lock s = Held → chan_closed (buffer s) = false →
  length (chan_buf (buffer s)) < chan_cap (buffer s) →
  pub_inv (note (note_accepted m) (set_lock (Written m)
    (set_buffer (mkChan (chan_cap (buffer s)) (chan_buf (buffer s) ++ [m]) false) s))).
Proof using Type.
  intros Hs Hl Ho Hroom. destruct Hs. unfold unsubmitted in *. rewrite Hl in *.
  assert (draining (past s) = None) as Hd by by apply inv_closed0.
  rewrite Hd in *. split; try assumption; simpl.
  - by rewrite inv_fifo0, app_assoc.
  - rewrite length_app. simpl. rewrite Hd. simpl. lia.
  - by rewrite Hd.
  - by rewrite Hd.
  - intros _. specialize (inv_room0 Ho). rewrite !length_app in *. simpl in *.
    unfold current in *. simpl. lia.
  - auto.
  - intros _ Ha. rewrite inv_match0 by done. unfold current. simpl. by rewrite app_nil_r, <-!app_assoc.
  - done.
  - intros n Hn. destruct (inv_reported0 n Hn). congruence.
  - intros Hp x. specialize (inv_before0 Hp x). by destruct x.
Qed.

(** What a write leads to, with the lock held. *)
Lemma write_ok m full s l : pub_inv s → pfits s (Extra HoldLock :: l) →
  write m full s = full s ∨ write m full s = AOk BufferClosed s ∨
  ∃ s', write m full s = AOk WroteIt s' ∧ pub_inv s' ∧ pub_move s s' ∧
    conserves (lc_held gate spent extra) s (own (Extra HoldLock :: l)) s'
      (own (Extra (HoldWritten m) :: l)).
Proof using Type.
  intros Hs Hf. pose proof (fits_lock _ _ Hf) as Hl. unfold write, chan_try_send.
  destruct (chan_closed (buffer s)) eqn:Ho; [by auto|]. case_decide as Hroom; simpl; [|by auto].
  right; right. eexists. split_and!; [done|..].
  - by apply inv_accept.
  - split_and!; [by left|by apply prefix_app_r|congruence|done..].
  - intros [?|[]|[]]; cbn [lc_held gate spent extra own]; unfold state_of; simpl;
      rewrite ?Ho; cbn [negb andb]; repeat case_decide; simplify_eq; try congruence; lia.
Qed.

Lemma proto_write_message {B} m reject (k : write_result → prog publisher B) Q :
  pproto (own [Extra (HoldWritten m)]) (k WroteIt) Q →
  (∀ r, r ≠ WroteIt → pproto (own [Extra HoldLock]) (k r) Q) →
  pproto (own [Extra HoldLock]) (pbind (write_message m reject) k) Q.
Proof using Type.
  intros Hw Hk. unfold write_message.
  assert (∀ s s', pub_inv s' → pub_move s s' →
    (∀ x, lc_held gate spent extra s' x = lc_held gate spent extra s x) → ∀ r, r ≠ WroteIt →
    pub_inv s' ∧ pub_move s s' ∧ ∃ n, conserves (lc_held gate spent extra) s
      (own [Extra HoldLock]) s' n ∧ pproto n (k r) Q) as Hsame.
  { intros s s' ? ? Hx r Hr. split_and!; [done..|]. exists (own [Extra HoldLock]).
    split; [|by apply Hk]. intros x. rewrite Hx. lia. }
  destruct reject; simpl; intros s Hs Hf; [|intros f Hin].
  - destruct (write_ok m (λ s, AOk BufferFull (note (note_refused m) s)) s [] Hs Hf)
      as [->|[->|(s' & -> & ? & ? & ?)]]; [..|by eauto].
    + apply Hsame; [by destruct Hs|by apply pub_move_same| |done]. by intros [?|[]|[]].
    + by apply Hsame; [..|by apply pub_move_same| |].
  - apply elem_of_cons in Hin as [->|Hin%list_elem_of_singleton]; [|subst f].
    + destruct (write_ok m (λ s, ABlock) s [] Hs Hf) as [->|[->|(s' & -> & ? & ? & ?)]];
        [done| |by eauto].
      by apply Hsame; [..|by apply pub_move_same| |].
    + destruct (waitInterrupt s); [|done]. by apply Hsame; [..|by apply pub_move_same| |].
Qed.

Lemma proto_taskBuffer_Submit {B} m (k : bool → prog publisher B) Q :
  (∀ b, pproto (own [Extra HoldLock]) (k b) Q) →
  pproto (own [Extra (HoldWritten m)]) (pbind (taskBuffer_Submit m) k) Q.
Proof using Type.
  intros Hk s Hs Hf. pose proof (fits_written _ _ _ Hf) as Hl. simpl.
  destruct (negb (complete (tasks s)) && (length (queued (tasks s)) <? tcapacity (tasks s))) eqn:Hq.
  - apply andb_true_iff in Hq as [Hc%negb_true_iff Hq].
    split_and!; [|by apply pub_move_same|].
    + destruct Hs. unfold unsubmitted, current, is_complete in *. rewrite Hl in *.
      split; try assumption; simpl.
      * intros Ho. specialize (inv_room0 Ho). unfold current. simpl.
        rewrite !length_app in *. simpl in *. lia.
      * intros Ho Ha. rewrite inv_match0 by done. unfold current. simpl.
        destruct (rejected (past s)) as [|r l] eqn:Hr; [by rewrite !app_nil_r|].
        exfalso. assert (complete (tasks s) = true) by auto. congruence.
    + exists (own [Extra HoldLock]). split; [count|apply Hk].
  - split_and!; [|by apply pub_move_same|].
    + destruct Hs. unfold unsubmitted, current, is_complete in *. rewrite Hl in *.
      split; try assumption; simpl.
      * intros Ho. specialize (inv_room0 Ho). unfold current. simpl.
        rewrite !length_app in *. simpl in *. lia.
      * intros Ho _. specialize (inv_room0 Ho). rewrite !length_app in inv_room0. simpl in *.
        destruct (complete (tasks s)) eqn:Hc; [exact Hc|]. apply Nat.ltb_ge in Hq. simpl in Hq. lia.
      * intros Ho Ha. rewrite inv_match0 by done. unfold current. simpl. by rewrite !app_nil_r.
    + exists (own [Extra HoldLock]). split; [count|apply Hk].
Qed.

Lemma proto_check {B} n (k : option go_error → prog publisher B) Q :
  (∀ err, pproto n (k err) Q) → pproto n (pbind checkStartedStateForPublish k) Q.
Proof using Type. intros Hk. apply proto_load_inv. intros s _. apply Hk. Qed.

Lemma proto_publish_buffered m (Q : option go_error → _ → Prop) :
  (∀ err, Q err (own [])) → pproto (own []) (publish_buffered m) Q.
Proof using Type.
  intros HQ. apply proto_Lock, proto_load_inv. intros s1 _. apply proto_write_message.
  - apply proto_taskBuffer_Submit. intros _. apply proto_Unlock, HQ.
  - intros [] Hr; [done|apply proto_Unlock, HQ..].
Qed.

Lemma proto_publish m setDestination : pproto (own []) (publish m setDestination) anything.
Proof using Type.
  unfold publish. destruct setDestination; [done|]. apply proto_check. intros [err|]; [done|].
  apply proto_load_inv. intros s0 Hs0. unfold is_direct.
  rewrite (inv_config s0 Hs0). case_bool_decide as Hc.
  - intros s Hs _. destruct (match session s with [] => (None, []) | r :: l => (r, l) end) as [r l].
    split_and!; [|by apply pub_move_same|].
    + destruct Hs. split; try assumption. done.
    + exists (own []). split; [|done]. by intros [?|[]|[]].
  - by apply proto_publish_buffered.
Qed.

Lemma proto_PublishWithProperties msg duplicate setProperties setDestination :
  pproto (own []) (PublishWithProperties msg duplicate setProperties setDestination) anything.
Proof using Type.
  apply proto_check. intros [err|]; [done|].
  destruct msg, duplicate, setProperties; simpl; try done. apply proto_publish.
Qed.

(** *** The task goroutine *)

Abbreviation at_ r := (own [Extra (RunnerAt r)]).

Lemma popped_snoc m s h : taken h = taken (past s) ++ [(m, true)] →
  popped (set_past h s) = popped s ++ [m] ∧ drained (set_past h s) = drained s.
Proof using Type.
  intros Hh. unfold popped, drained. simpl. rewrite Hh, !filter_app, !fmap_app. simpl.
  by rewrite app_nil_r.
Qed.

Lemma drained_snoc m s h : taken h = taken (past s) ++ [(m, false)] →
  popped (set_past h s) = popped s ∧ drained (set_past h s) = drained s ++ [m].
Proof using Type.
  intros Hh. unfold popped, drained. simpl. rewrite Hh, !filter_app, !fmap_app. simpl.
  by rewrite app_nil_r.
Qed.

(** A task goroutine still there: the publisher has not ended gracefully. *)
Lemma still_there s : pub_inv s → runner_at (past s) ≠ Gone →
  is_complete s = false ∧ ending (past s) ≠ Some true.
Proof using Type.
  intros Hs Hr. assert (is_complete s = false) as Hc.
  { apply not_true_iff_false. by rewrite (inv_gone s Hs). }
  split; [done|]. intros He. apply (inv_ending s Hs) in He. congruence.
Qed.

Lemma still_open s : pub_inv s → runner_at (past s) ≠ Gone → ending (past s) ≠ Some false →
  chan_closed (buffer s) = false.
Proof using Type.
  intros Hs Hr He. destruct (still_there s Hs Hr) as [_ He'].
  destruct (chan_closed (buffer s)) eqn:Ho; [|done].
  destruct (inv_ended s Hs Ho) as [[] ?]; congruence.
Qed.

Lemma proto_next_task {B} (k : option T → prog publisher B) Q :
  (∀ m, pproto (at_ (Sending m)) (k (Some m)) Q) → pproto (at_ Gone) (k None) Q →
  pproto (at_ Idle) (pbind next_task k) Q.
Proof using Type.
  intros Hk Hn s Hs Hf f Hin. pose proof (fits_runner _ _ _ Hf) as Hr.
  destruct (still_there s Hs) as [Hc He]; [by rewrite Hr|].
  apply elem_of_cons in Hin as [->|Hin%list_elem_of_singleton]; [|subst f].
  - lazy beta zeta. destruct (spawned s && (ungraceful (tasks s) || graceful (tasks s) && bool_decide (queued (tasks s) = []))); [|done]. split_and!; [|by apply pub_move_same|].
    + destruct Hs. unfold current, in_hand in *. rewrite Hr in *. split; try assumption; done.
    + exists (at_ Gone). split; [count|done].
  - destruct (spawned s), (queued (tasks s)) as [|m l] eqn:Hq; try done.
    split_and!; [|by apply pub_move_same|].
    + destruct Hs. unfold current, in_hand in *. rewrite Hr, Hq in *.
      split; try assumption; simpl.
      * split; [|done]. intros H. unfold is_complete in *. simpl in H. congruence.
    + exists (at_ (Sending m)). split; [count|apply Hk].
Qed.

Lemma attempted_snoc m r h s : wire h = wire (past s) ++ [(m, r)] →
  attempted (set_past h s) = attempted s ++ (if is_would_block r then [] else [m]).
Proof using Type.
  intros Hh. unfold attempted. simpl. rewrite Hh, filter_app, fmap_app. simpl.
  f_equal. rewrite filter_cons, filter_nil. simpl. by destruct (is_would_block r).
Qed.

Definition after (m : T) (r : option ErrorInfo) : runner :=
  if is_would_block r then Sending m else Sent m.

Lemma proto_session_Publish {B} m (k : option ErrorInfo → prog publisher B) Q :
  (∀ r, pproto (at_ (after m r)) (k r) Q) →
  pproto (at_ (Sending m)) (pbind (session_Publish m (λ r _, after m r)) k) Q.
Proof using Type.
  intros Hk s Hs Hf. pose proof (fits_runner _ _ _ Hf) as Hr.
  destruct (match session s with [] => (None, []) | r :: l => (r, l) end) as [r l].
  split_and!; [|by apply pub_move_same|].
  - destruct Hs. unfold current, in_hand in *. rewrite Hr in *.
    split; try assumption; unfold after, in_hand, current; simpl.
    + by destruct (is_would_block r).
    + by destruct (is_would_block r).
    + rewrite inv_gone0. by destruct (is_would_block r).
    + intros Hd He Ha. etrans; [by apply (attempted_snoc m r)|].
      unfold attempted in *. simpl. specialize (inv_wire0 Hd He Ha).
      rewrite app_nil_r in inv_wire0. rewrite inv_wire0. by destruct (is_would_block r).
  - exists (at_ (after m r)). split; [|apply Hk]. unfold after. count.
Qed.

Lemma proto_AwaitWritable {B} m (k : bool → prog publisher B) Q :
  pproto (at_ (Sending m)) (k false) Q → pproto (at_ Idle) (k true) Q →
  pproto (at_ (Sending m)) (pbind AwaitWritable k) Q.
Proof using Type.
  intros Hf Ht s Hs Hfit f Hin. pose proof (fits_runner _ _ _ Hfit) as Hr.
  destruct (still_there s Hs) as [Hc He]; [by rewrite Hr|].
  apply elem_of_cons in Hin as [->|Hin%list_elem_of_singleton]; [|subst f]; lazy beta;
    [|split_and!; [done|by apply pub_move_same|]; exists (at_ (Sending m)); split; [intros x; lia|done]].
  destruct (interrupt (tasks s) || negb (parent s)); [|done].
  split_and!; [|by apply pub_move_same|].
  - destruct Hs. unfold current, in_hand in *. rewrite Hr in *. split; try assumption; try done.
    + intros Ho. specialize (inv_room0 Ho). unfold current. rewrite !length_app in *. simpl in *.
      change (unsubmitted (note note_aborted s)) with (unsubmitted s). lia.
    + split; [|done]. intros H. by apply inv_gone0 in H.
  - exists (at_ Idle). split; [count|done].
Qed.

Lemma proto_send_loop fuel m :
  pproto (at_ (Sending m)) (send_loop fuel m) (λ a n, n =
    at_ (match a with Attempted _ => Sent m | Interrupted => Idle | StillTrying => Sending m end)).
Proof using Type.
  induction fuel as [|fuel IH]; [done|]. simpl. apply (proto_session_Publish m). intros r.
  unfold after. destruct (is_would_block r); [|done].
  apply proto_AwaitWritable; [|done]. exact IH.
Qed.

(** The message at the head of the buffer is that of the task at its end. *)
Lemma pop_inv m pub l s : pub_inv s → runner_at (past s) = Sent m →
  chan_buf (buffer s) = pub :: l →
  pub_inv (note (λ h, note_taken [(pub, true)] Idle h)
             (set_buffer (mkChan (chan_cap (buffer s)) l (chan_closed (buffer s))) s)).
Proof using Type.
  intros Hs Hr Hb. destruct (still_there s Hs) as [Hc He]; [by rewrite Hr|].
  pose proof (still_open s Hs) as Ho. rewrite Hr in Ho.
  destruct (popped_snoc pub s (note_taken [(pub, true)] Idle (past s)) eq_refl) as [Hp Hd].
  unfold popped, drained in Hp, Hd. simpl in Hp, Hd.
  destruct Hs. unfold current, in_hand in *. rewrite Hr, Hb in *.
  split; try assumption; unfold in_hand, current, popped, drained, attempted; simpl;
    rewrite ?Hp, ?Hd; try assumption.
  - rewrite inv_fifo0, fmap_app, <-app_assoc. done.
  - simpl in *. lia.
  - intros Ho'. specialize (inv_room0 Ho'). rewrite !length_app in *. simpl in *.
    unfold unsubmitted in *. simpl. lia.
  - intros Ho' Ha. specialize (inv_match0 Ho' Ha). simpl in inv_match0. by simplify_eq.
  - split; [|done]. intros H. apply inv_gone0 in H. done.
  - intros Hcfg He' Ha. specialize (inv_match0 (Ho ltac:(done) He') Ha).
    rewrite app_nil_r. simpl in inv_match0. simplify_eq. by apply inv_wire0.
  - intros He'. specialize (Ho ltac:(done) He'). specialize (inv_order0 He').
    apply inv_closed0 in Ho. rewrite Ho in inv_drained0. apply nil_length_inv in inv_drained0.
    rewrite inv_drained0, app_nil_r in inv_order0.
    etrans; [exact (f_equal (λ t, t ++ [(pub, true)]) inv_order0)|].
    unfold popped, drained in *. rewrite inv_drained0, fmap_app. simpl. by rewrite app_nil_r.
  - intros n Hn. by destruct (inv_reported0 n Hn).
Qed.

Lemma pop_none_inv m s : pub_inv s → runner_at (past s) = Sent m → chan_buf (buffer s) = [] →
  pub_inv (note (at_runner Idle) s).
Proof using Type.
  intros Hs Hr Hb. destruct (still_there s Hs) as [Hc He]; [by rewrite Hr|].
  pose proof (still_open s Hs) as Ho. rewrite Hr in Ho.
  assert (ending (past s) = Some false) as He'.
  { destruct (decide (ending (past s) = Some false)) as [|Hne]; [done|].
    specialize (Ho ltac:(done) Hne). pose proof (inv_room s Hs Ho) as H.
    unfold current in H. rewrite Hr, Hb in H. simpl in H. lia. }
  destruct Hs. unfold current, in_hand in *. rewrite Hr, Hb in *.
  split; try assumption; unfold in_hand, current; simpl; rewrite ?Hb; try done.
  - intros Ho'. specialize (inv_room0 Ho'). simpl in *. lia.
  - intros Ho'. specialize (inv_room0 Ho'). simpl in *. lia.
  - split; [|done]. intros H. apply inv_gone0 in H. done.
Qed.

Lemma proto_pop {B} m (k : option T → prog publisher B) Q :
  (∀ r, pproto (at_ Idle) (k r) Q) → pproto (at_ (Sent m)) (pbind pop k) Q.
Proof using Type.
  intros Hk s Hs Hf. pose proof (fits_runner _ _ _ Hf) as Hr.
  unfold chan_try_recv. destruct (chan_buf (buffer s)) as [|pub l] eqn:Hb.
  - destruct (chan_closed (buffer s)); (split_and!; [by eapply pop_none_inv|by apply pub_move_same|];
      exists (at_ Idle); split; [count|apply Hk]).
  - split_and!; [by eapply pop_inv|by apply pub_move_same|].
    exists (at_ Idle). split; [count|apply Hk].
Qed.

Lemma proto_report_failure {B} m errorInfo n (k : unit → prog publisher B) Q :
  pproto n (k tt) Q → pproto n (pbind (report_failure m errorInfo) k) Q.
Proof using Type.
  intros Hk. apply proto_load_inv. intros s _. destruct errorInfo; [|done].
  destruct (failureListener s); [|done]. by apply proto_executor_Submit.
Qed.

Lemma proto_sendTask fuel m :
  pproto (at_ (Sending m)) (sendTask fuel m) (λ ended n, ended = true → n = at_ Idle).
Proof using Type.
  unfold sendTask. apply proto_bind. eapply proto_weaken; [|apply proto_send_loop].
  intros [r| |] n Hn; simpl in Hn; subst n; [|done..].
  apply proto_load_inv. intros s _. apply (proto_pop m). intros [pub|]; [|done].
  apply proto_report_failure, proto_load_inv. intros s' _.
  destruct (_ && is_reject s'); [|done]. by apply proto_notifyReady.
Qed.

Lemma proto_run_tasks fuel : pproto (at_ Idle) (run_tasks fuel) anything.
Proof using Type.
  induction fuel as [|fuel IH]; [done|]. simpl. apply proto_next_task; [|done]. intros m.
  apply proto_bind. eapply proto_weaken; [|apply proto_sendTask].
  intros [] n Hn; [|done]. by rewrite Hn.
Qed.

(** *** Start and termination *)

Lemma proto_start_body :
  pproto (grant gate StartPhase) start_body (λ _ n, n (InPhase StartPhase) = 1).
Proof using Type.
  apply proto_update; [by intros s []|done|]. apply proto_load_inv. intros s _.
  destruct (is_direct s); (apply proto_update; [by intros s' []|done|]); done.
Qed.

Lemma proto_Start : pproto no_permit Start anything.
Proof using Type. apply proto_start_around; try apply _; [apply proto_start_body|done]. Qed.

(** The permits of a termination, in the order of their use. *)
Definition end_permits (rest : list (lc_permit once mine)) : list (lc_permit once mine) :=
  [Once CloseWait; Once CloseGraceful; Once CloseInterrupt; Once CloseUngraceful] ++ rest.

Lemma grant_own x :
  grant gate TermPhase x = own (InPhase TermPhase :: end_permits [Once ChooseEnding; Once CloseBuffer]) x.
Proof using Type. by destruct x as [[]|[]|[]]. Qed.

(** Closing a signal, once. *)
Lemma proto_close {B} x l view put (k : unit → prog publisher B) Q :
  (∀ s, view s = spent s x) →
  (∀ s, pub_inv s → passed (state_of s) TermPhase = true → pub_inv (put true s)) →
  (∀ s, machine (put true s) = machine s ∧ buffer (put true s) = buffer s ∧
        past (put true s) = past s ∧ lock (put true s) = lock s ∧
        is_complete (put true s) = is_complete s ∧
        ∀ y, spent (put true s) y = if decide (y = x) then true else spent s y) →
  pproto (own l) (k tt) Q → pproto (own (Once x :: l)) (pbind (close_signal view put) k) Q.
Proof using Type.
  intros Hv Hi Hput Hk s Hs Hf. destruct (fits_once _ _ _ Hf) as [Hp Hx].
  destruct (Hput s) as (H1 & H2 & H3 & H4 & H6 & H5). rewrite Hv, Hx. lazy beta iota.
  split_and!; [by apply Hi| |].
  - apply pub_move_same; [unfold state_of; simpl; by rewrite H1|by rewrite H3|by rewrite H2|by rewrite H6|].
    intros Hw. pose proof (H5 CloseWait) as Hy. simpl in Hy. rewrite Hy, Hw. by case_decide.
  - exists (own l). split; [|done]. intros y. specialize (Hf y). unfold lc_total in Hf.
    destruct y as [ph|y|y]; cbn [lc_held own] in *.
    + unfold state_of in *. simpl in *. rewrite H1. lia.
    + rewrite H5. unfold state_of in *. simpl in *. rewrite H1.
      repeat case_decide; simplify_eq; try lia. rewrite Hp in *. simpl. lia.
    + assert (extra (put true s) y = extra s y) as ->.
      { destruct y; simpl; by rewrite ?H3, ?H4. }
      case_decide; [done|]. lia.
Qed.

(** The invariant does not look at the signals once the termination has begun. *)
Lemma signals_inv s q w : pub_inv s → passed (state_of s) TermPhase = true →
  queued q = queued (tasks s) → tcapacity q = tcapacity (tasks s) → complete q = is_complete s →
  pub_inv (set_waitInterrupt w (set_tasks q s)).
Proof using Type.
  intros [] Hp H1 H2 H3. unfold current, unsubmitted, in_hand, is_complete in *.
  split; unfold current, unsubmitted, in_hand, is_complete; simpl; rewrite ?H1, ?H2, ?H3;
    try assumption.
  unfold state_of in *. simpl in *. congruence.
Qed.

Ltac signal :=
  let t := fresh "t" in
  apply proto_close; [done| |intros t; split_and!; [done..|by intros []]|];
  [intros t ? ?; by apply (signals_inv t _ (waitInterrupt t))|].

Lemma pub_proto_TerminateNow {B} l (k : unit → prog publisher B) Q :
  pproto (own l) (k tt) Q →
  pproto (own ([Once CloseGraceful; Once CloseInterrupt; Once CloseUngraceful] ++ l))
    (pbind taskBuffer_TerminateNow k) Q.
Proof using Type. intros Hk. unfold taskBuffer_TerminateNow. by do 3 signal. Qed.

Lemma proto_signals {B} l (k : unit → prog publisher B) Q :
  pproto (own l) (k tt) Q →
  pproto (own (end_permits l)) (pbind (close_signal waitInterrupt set_waitInterrupt)
    (λ _, pbind taskBuffer_TerminateNow k)) Q.
Proof using Type.
  intros Hk. apply proto_close; [done| |intros s; split_and!; [done..|by intros []]|].
  - intros s Hs Hp. by apply (signals_inv s (tasks s) true).
  - by apply pub_proto_TerminateNow.
Qed.

(** The way the publisher ends is chosen once. *)
Lemma choose_ok b s l : pub_inv s → pfits s (Once ChooseEnding :: l) →
  (b = true → is_complete s = true) →
  pub_inv (note (note_ending b) s) ∧ pub_move s (note (note_ending b) s) ∧
  conserves (lc_held gate spent extra) s (own (Once ChooseEnding :: l)) (note (note_ending b) s)
    (own (Extra (Ending b) :: l)).
Proof using Type.
  intros Hs Hf Hc. destruct (fits_once _ _ _ Hf) as [Hp Hx]. simpl in Hx.
  apply bool_decide_eq_false in Hx. split_and!; [|by apply pub_move_same|].
  - destruct Hs. unfold current, unsubmitted, in_hand, is_complete in *.
    split; try assumption; simpl.
    + intros Hd _. apply inv_wire0; [done|]. intros He. rewrite He in Hx. by destruct Hx.
    + intros _. apply inv_order0. intros He. rewrite He in Hx. by destruct Hx.
    + intros [= ->]. by apply Hc.
    + done.
    + unfold state_of in *. simpl in *. congruence.
  - intros y. specialize (Hf y). unfold lc_total in Hf.
    destruct (ending (past s)) as [e|] eqn:He; [by destruct Hx|].
    destruct y as [?|[]|[]]; cbn [lc_held gate spent extra own] in *; unfold state_of in *; simpl in *;
      rewrite ?He; repeat case_decide; simplify_eq; try congruence; try lia;
      rewrite ?Hp; simpl; lia.
Qed.

Lemma pub_proto_await_complete {B} l (k : unit → prog publisher B) Q :
  pproto (own (Extra (Ending true) :: l)) (k tt) Q →
  pproto (own (Once ChooseEnding :: l)) (pbind await_complete k) Q.
Proof using Type.
  intros Hk s Hs Hf. destruct (is_complete s) eqn:Hc; [|done].
  destruct (choose_ok true s l) as (? & ? & ?); [done..|]. eauto.
Qed.

Lemma proto_taskBuffer_Terminate {B} timer l (k : bool → prog publisher B) Q :
  (∀ b, pproto (own (Extra (Ending true) :: l)) (k b) Q) →
  pproto (own ([Once CloseGraceful; Once CloseInterrupt; Once CloseUngraceful; Once ChooseEnding] ++ l))
    (pbind (taskBuffer_Terminate timer) k) Q.
Proof using Type.
  intros Hk. unfold taskBuffer_Terminate. signal. destruct timer; simpl pbind.
  - intros s Hs Hf g Hin.
    apply elem_of_cons in Hin as [->|Hin%list_elem_of_singleton]; [|subst g]; lazy beta.
    + destruct (is_complete s) eqn:Hc; [|done].
      destruct (choose_ok true s l) as (? & ? & Hm); [done| |done|].
      { do 2 apply fits_tail in Hf. exact Hf. }
      split_and!; [done..|]. exists (own (Extra (Ending true) :: l)). split; [|apply Hk].
      intros x. specialize (Hm x). simpl in *. lia.
    + split_and!; [done|by apply pub_move_same|]. exists (own ([Once CloseInterrupt; Once CloseUngraceful; Once ChooseEnding] ++ l)).
      split; [intros x; simpl; lia|].
      change (pproto (own ([Once CloseInterrupt; Once CloseUngraceful; Once ChooseEnding] ++ l))
        (close_task_signal interrupt put_interrupt ;;;;
         close_task_signal ungraceful put_ungraceful ;;;; await_complete ;;;; k false) Q).
      do 2 signal. by apply pub_proto_await_complete.
  - apply (proto_drop _ _ _ _ _ (own (Once ChooseEnding :: l))); [done|intros x; simpl; lia|].
    by apply pub_proto_await_complete.
Qed.

Lemma proto_close_buffer {B} b l (k : unit → prog publisher B) Q :
  pproto (own (Extra (DrainAt 0) :: Extra (Ending b) :: l)) (k tt) Q →
  pproto (own (Once CloseBuffer :: Extra (Ending b) :: l)) (pbind close_buffer k) Q.
Proof using Type.
  intros Hk s Hs Hf. destruct (fits_once _ _ _ Hf) as [Hp Hx]. simpl in Hx.
  pose proof (fits_ending _ _ _ (fits_tail _ _ _ Hf)) as He.
  unfold chan_close. rewrite Hx. lazy beta iota.
  assert (draining (past s) = None) as Hd by by apply (inv_closed s Hs).
  split_and!.
  - destruct Hs. unfold current, unsubmitted, in_hand, is_complete, drained, popped in *.
    rewrite Hd in *. split; try assumption; simpl; try done.
    + intros n Hn. by destruct (inv_reported0 n Hn).
    + unfold state_of in *. simpl in *. congruence.
  - split_and!; [by left|done|congruence|done..].
  - eexists. split; [|exact Hk]. intros y. specialize (Hf y). unfold lc_total in Hf.
    destruct y as [?|[]|[]]; cbn [lc_held gate spent extra own] in *; unfold state_of in *; simpl in *;
      rewrite ?Hx in *; repeat case_decide; simplify_eq; try congruence; try lia;
      rewrite ?Hp; simpl; lia.
Qed.

Lemma drain_inv k m l s : pub_inv s → draining (past s) = Some k →
  chan_buf (buffer s) = m :: l →
  pub_inv (note (λ h, note_draining (Some (S k)) (note_taken [(m, false)] (runner_at h) h))
             (set_buffer (mkChan (chan_cap (buffer s)) l (chan_closed (buffer s))) s)).
Proof using Type.
  intros Hs Hd Hb.
  destruct (drained_snoc m s (note_taken [(m, false)] (runner_at (past s)) (past s)) eq_refl)
    as [Hpop Hdr]. unfold popped, drained in Hpop, Hdr. simpl in Hpop, Hdr.
  assert (chan_closed (buffer s) = true) as Ho.
  { apply not_false_iff_true. rewrite <-(inv_closed s Hs), Hd. done. }
  destruct Hs. unfold current, in_hand, is_complete in *. rewrite Hd, Hb, Ho in *.
  split; try assumption; unfold in_hand, current, popped, drained, attempted, is_complete; simpl;
    rewrite ?Hpop, ?Hdr, ?Ho; try assumption; try done.
  - rewrite inv_fifo0, fmap_app, <-app_assoc. done.
  - simpl in *. lia.
  - rewrite length_app. simpl. unfold drained in inv_drained0. rewrite inv_drained0. simpl. lia.
  - intros He. specialize (inv_order0 He).
    etrans; [exact (f_equal (λ t, t ++ [(m, false)]) inv_order0)|].
    unfold popped, drained. by rewrite fmap_app, <-app_assoc.
  - intros n Hn. by destruct (inv_reported0 n Hn).
  - intros Hp x. specialize (inv_before0 Hp x). destruct x; try done. simpl in *. congruence.
Qed.

Lemma proto_drain_next {B} k l (K : option T → prog publisher B) Q :
  (∀ m, pproto (own (Extra (DrainAt (S k)) :: l)) (K (Some m)) Q) →
  pproto (own (Extra (DrainAt k) :: l)) (K None) Q →
  pproto (own (Extra (DrainAt k) :: l)) (pbind (drain_next k) K) Q.
Proof using Type.
  intros Hsome Hnone s Hs Hf. pose proof (fits_drain _ _ _ Hf) as Hd. lazy beta.
  unfold chan_recv. destruct (chan_buf (buffer s)) as [|m buf] eqn:Hb.
  - destruct (chan_closed (buffer s)) eqn:Ho; [|done]. split_and!; [|by apply pub_move_same|].
    + destruct Hs. rewrite Hb in *. split; simpl; rewrite ?Hb; try assumption.
      by intros n [= <-].
    + exists (own (Extra (DrainAt k) :: l)). split; [by intros [?|[]|[]]|done].
  - split_and!; [by apply drain_inv|by apply pub_move_same|].
    exists (own (Extra (DrainAt (S k)) :: l)). split; [|apply Hsome].
    intros y. specialize (Hf y). unfold lc_total in Hf.
    destruct y as [?|[]|[]]; cbn [lc_held gate spent extra own] in *; unfold state_of in *; simpl in *;
      repeat case_decide; simplify_eq; try congruence; lia.
Qed.

(** The owner of the drain has taken no more messages than the buffer can hold. *)
Lemma drain_bound s k l : pub_inv s → pfits s (Extra (DrainAt k) :: l) → k ≤ size.
Proof using Type.
  intros Hs Hf. pose proof (inv_capacity s Hs) as Hc.
  rewrite (inv_size s Hs), (fits_drain _ _ _ Hf) in Hc. simpl in Hc. lia.
Qed.

(** The drain ends within its fuel, with the number of messages it took. *)
Lemma proto_drain_loop {B} fuel k err listener l (K : nat → prog publisher B) Q :
  fuel + k = S size →
  (∀ n, pproto (own (Extra (DrainAt n) :: l)) (K n) Q) →
  pproto (own (Extra (DrainAt k) :: l)) (pbind (drain_loop fuel k err listener) K) Q.
Proof using Type.
  intros Hfuel HK. revert k Hfuel. induction fuel as [|fuel IH]; intros k Hfuel.
  { intros s Hs Hf. pose proof (drain_bound s k l Hs Hf). simpl in *. lia. }
  apply proto_drain_next; [|apply HK]. intros m. destruct listener; [|apply IH; lia].
  apply proto_executor_Submit. intros b. apply IH. lia.
Qed.

Lemma proto_drainQueue {B} err listener b l (K : nat → prog publisher B) Q :
  (∀ n, pproto (own (Extra (DrainAt n) :: Extra (Ending b) :: l)) (K n) Q) →
  pproto (own (Once CloseBuffer :: Extra (Ending b) :: l)) (pbind (drainQueue err listener) K) Q.
Proof using Type.
  intros HK. unfold drainQueue. apply proto_close_buffer, proto_load_inv. intros s Hs.
  rewrite (inv_size s Hs). apply proto_drain_loop; [lia|done].
Qed.

Lemma proto_report_undelivered m n (Q : option go_error → _ → Prop) :
  (∀ err, Q err n) → pproto n (report_undelivered m) Q.
Proof using Type.
  intros Hk. unfold report_undelivered. destruct (0 <? m); [|apply Hk].
  apply proto_update; [by intros s []|done|apply Hk].
Qed.

Lemma proto_executor_Terminate {B} n (k : unit → prog publisher B) Q :
  pproto n (k tt) Q → pproto n (pbind executor_Terminate k) Q.
Proof using Type. intros Hk. apply proto_update; [by intros s []|done|done]. Qed.

Lemma proto_terminate_body timer :
  pproto (grant gate TermPhase) (terminate_body timer) (λ _ n, n (InPhase TermPhase) = 1).
Proof using Type.
  eapply proto_ext; [intros x; symmetry; apply grant_own|intros b m m' Hm H; by rewrite <-Hm|].
  unfold terminate_body. apply proto_update; [by intros s []|done|].
  apply proto_load_inv. intros s _. apply proto_bind. destruct (is_direct s).
  { apply proto_update; [by intros t []|done|]. by apply proto_executor_Terminate. }
  apply (proto_drop _ _ _ _ _ (own (end_permits [Once ChooseEnding; Once CloseBuffer; InPhase TermPhase])));
    [done|by intros [[]|[]|[]]|].
  apply proto_close; [done| |intros t; split_and!; [done..|by intros []]|].
  { intros t Ht Hp. by apply (signals_inv t (tasks t) true). }
  apply (proto_taskBuffer_Terminate timer [Once CloseBuffer; InPhase TermPhase]). intros _.
  apply (proto_drop _ _ _ _ _ (own [Once CloseBuffer; Extra (Ending true); InPhase TermPhase]));
    [done|by intros [[]|[]|[]]|].
  apply proto_drainQueue. intros n. apply proto_report_undelivered. intros err.
  by apply proto_executor_Terminate.
Qed.

Lemma pub_proto_Terminate timer : pproto no_permit (Terminate timer) anything.
Proof using Type. apply proto_terminate_around; try apply _; [apply proto_terminate_body|done]. Qed.

Lemma proto_unsolicited_body cause :
  pproto (grant gate TermPhase) (unsolicited_body cause) (λ _ n, n (InPhase TermPhase) = 1).
Proof using Type.
  eapply proto_ext; [intros x; symmetry; apply grant_own|intros b m m' Hm H; by rewrite <-Hm|].
  apply (proto_drop _ _ _ _ _ (own (Once ChooseEnding :: end_permits [Once CloseBuffer; InPhase TermPhase])));
    [done|by intros [[]|[]|[]]|].
  intros s Hs Hf. destruct (choose_ok false s _ Hs Hf) as (Hs' & Hm & Hc); [done|].
  split_and!; [by destruct Hs'|done|].
  exists (own (end_permits [Once CloseBuffer; Extra (Ending false); InPhase TermPhase])). split.
  { intros x. specialize (Hc x). etrans; [|exact Hc]. clear.
    destruct x as [[]|[]|[]]; simpl; repeat case_decide; simplify_eq; first [done|lia]. }
  apply proto_load_inv. intros s1 _. apply proto_bind. destruct (is_direct s1).
  { apply proto_update; [by intros t []|done|]. by apply proto_executor_Terminate. }
  apply proto_signals. apply proto_load_inv. intros s2 _.
  apply proto_drainQueue. intros n. apply proto_report_undelivered. intros err.
  by apply proto_executor_Terminate.
Qed.

Lemma proto_unsolicitedTermination cause listener :
  pproto no_permit (unsolicitedTermination cause listener) anything.
Proof using Type.
  unfold unsolicitedTermination. apply proto_bind, proto_terminate; try apply _; [done|].
  apply proto_bind. eapply proto_weaken; [|apply proto_unsolicited_body]. intros err n Hn.
  apply (proto_terminated _ _ _ _ _ TermPhase); try apply _; [done|].
  destruct listener; [|done]. by apply proto_update; [intros s []| |].
Qed.
End direct_publisher.

(** * The calls of an application *)

Section theorems.
Context {T : Type} `{!EqDecision T}.

(** A call of the application, a goroutine of the session's events, the service going up or
    down. *)
Inductive call : Type :=
| CallPublish (msg : T + string) (duplicate setProperties setDestination : option go_error)
| CallPublishBytes (built : T + go_error) (setDestination : option go_error)
| CallPublishString (built : T + go_error) (setDestination : option go_error)
| CallStart
| CallTerminate (timer : bool)
| CallDown (cause : option go_error) (listener : bool)
| CallCanSend
| CallNotifyWhenReady
| ParentChange (up : bool).

Definition call_prog (c : call) : prog (@publisher T) (option go_error) :=
  match c with
  | CallPublish msg d p e => PublishWithProperties msg d p e
  | CallPublishBytes built e => PublishBytes built e
  | CallPublishString built e => PublishString built e
  | CallStart => Start
  | CallTerminate timer => Terminate timer
  | CallDown cause listener => unsolicitedTermination cause listener
  | CallCanSend => notifyReady ;;;; PRet None
  | CallNotifyWhenReady => NotifyWhenReady ;;;; PRet None
  | ParentChange up => update (set_parent up) ;;;; PRet None
  end.

(** A publisher, the goroutine of its task buffer and any calls. *)
Definition scene (fuel : nat) (calls : list call) (s : @publisher T)
    : publisher * list (prog (@publisher T) (option go_error)) :=
  (s, run_tasks fuel :: (call_prog <$> calls)).

Definition size_of (config : backpressureConfiguration) (bufferSize : nat) : nat :=
  if decide (config = BackpressureDirect) then 0 else bufferSize.

Abbreviation ok config bufferSize :=
  (pool_ok (pub_inv config (size_of config bufferSize)) pub_move (lc_held gate spent extra) lc_total).

Lemma proto_call config size c :
  proto (pub_inv config size) pub_move (lc_held gate spent extra) lc_total (own []) (call_prog c) anything.
Proof using Type.
  destruct c as [msg d p e|[m|err] e|[m|err] e| |timer|cause listener| | |up]; simpl call_prog.
  - apply proto_PublishWithProperties.
  - apply proto_publish.
  - done.
  - apply proto_publish.
  - done.
  - apply proto_Start.
  - apply pub_proto_Terminate.
  - apply proto_unsolicitedTermination.
  - by apply proto_notifyReady.
  - unfold NotifyWhenReady, IsReady, IsRunning.
    apply proto_load_inv. intros s1 _. destruct (bool_decide _); [|done].
    apply proto_load_inv. intros s2 _. case_match; [|done]. by apply proto_notifyReady.
  - by apply proto_update; [intros s []| |].
Qed.

Lemma construct_inv up config bufferSize r f answers :
  pub_inv config (size_of config bufferSize) (construct (T:=T) up config bufferSize r f answers).
Proof using Type.
  unfold construct. fold (size_of config bufferSize).
  split; unfold is_complete, current, unsubmitted, in_hand, attempted, popped, drained; simpl;
    try done; try lia. by intros _ [].
Qed.

Lemma scene_ok fuel calls up config bufferSize r f answers :
  ok config bufferSize (scene fuel calls (construct up config bufferSize r f answers)).
Proof using Type.
  exists (own [Extra (RunnerAt Idle)] :: replicate (length calls) (own [])). split_and!.
  - apply construct_inv.
  - constructor; [apply proto_run_tasks|]. simpl.
    induction calls as [|c calls IH]; simpl; constructor; [apply proto_call|done].
  - intros x.
    change (lc_held gate spent extra (construct up config bufferSize r f answers) x +
      (own [Extra (RunnerAt Idle)] x + sum_list ((λ n, n x) <$> replicate (length calls) (own []))) ≤ 1).
    rewrite sum_own_replicate.
    destruct x as [[]|[]|[]]; simpl; repeat case_decide; simplify_eq; try lia; done.
Qed.

Lemma pub_moves (s s' : @publisher T) : rtc pub_move s s' →
  rtc lstate_move (state_of s) (state_of s') ∧
  (chan_closed (buffer s) = true → accepted (past s') = accepted (past s)).
Proof using Type.
  induction 1 as [s|s1 s2 s3 (Hm & _ & Hc & _) _ [IHm IHc]]; [done|].
  split; [by eapply rtc_l|]. intros H. destruct (Hc H) as [H' Ha]. rewrite IHc by done. done.
Qed.

(** C25: whatever the application, the session and the service do to a publisher, in any
    interleaving with the task goroutine, nothing panics (no double close, no send on the
    closed buffer that is not recovered, no exhausted drain), the state only moves along the
    lifecycle, the buffer never exceeds its capacity, and every accepted message has been taken
    off the buffer, in the order of acceptance, or is still in it; once an end of the publisher
    has reported its number of undelivered messages, the buffer is empty and the number is that
    of the messages drained; and no message is accepted after the buffer is closed. *)
Theorem accepted_messages_accounted up config bufferSize readiness failure answers fuel calls s ts :
  pool_steps (scene fuel calls (construct up config bufferSize readiness failure answers)) (s, ts) →
  ¬ pool_panics (s, ts) ∧
  rtc lstate_move NotStarted (state_of s) ∧
  length (chan_buf (buffer s)) ≤ size_of config bufferSize ∧
  accepted (past s) = (taken (past s)).*1 ++ chan_buf (buffer s) ∧
  (∀ n, reported (past s) = Some n → chan_buf (buffer s) = [] ∧ n = length (drained s)) ∧
  (∀ s' ts', pool_steps (s, ts) (s', ts') → chan_closed (buffer s) = true →
     accepted (past s') = accepted (past s)).
Proof using All.
  intros Hsteps.
  destruct (pool_steps_ok _ _ _ _ _ _ (scene_ok fuel calls up config bufferSize readiness failure
    answers) Hsteps) as [Hok Hmoves].
  pose proof (pool_ok_inv _ _ _ _ _ Hok) as Hs. simpl in Hs. split_and!.
  - by eapply pool_ok_no_panic.
  - by apply pub_moves in Hmoves as [? _].
  - pose proof (inv_capacity _ _ _ Hs) as Hc. rewrite (inv_size _ _ _ Hs) in Hc. lia.
  - apply (inv_fifo _ _ _ Hs).
  - intros n Hn. destruct (inv_reported _ _ _ Hs n Hn) as [Hd ?].
    split; [done|]. by rewrite (inv_drained _ _ _ Hs), Hd.
  - intros s' ts' Hsteps'. destruct (pool_steps_ok _ _ _ _ _ _ Hok Hsteps') as [_ Hmoves'].
    by apply pub_moves in Hmoves' as [_ ?].
Qed.

(** C26: a buffered publisher that ends by waiting for its task buffer, with no task interrupted,
    reports exactly: the accepted messages are those the session was given for good, each once
    and in the order of acceptance, followed by those counted as undelivered. *)
Theorem terminate_reports_exactly up config bufferSize readiness failure answers fuel calls s ts n :
  config ≠ BackpressureDirect →
  pool_steps (scene fuel calls (construct up config bufferSize readiness failure answers)) (s, ts) →
  ending (past s) = Some true → aborted (past s) = false → reported (past s) = Some n →
  accepted (past s) = attempted s ++ drained s ∧ n = length (drained s).
Proof using All.
  intros Hcfg Hsteps He Ha Hn.
  destruct (pool_steps_ok _ _ _ _ _ _ (scene_ok fuel calls up config bufferSize readiness failure
    answers) Hsteps) as [Hok _].
  pose proof (pool_ok_inv _ _ _ _ _ Hok) as Hs. simpl in Hs.
  destruct (inv_reported _ _ _ Hs n Hn) as [Hd Hb].
  assert (runner_at (past s) = Gone) as Hr by (apply (inv_gone _ _ _ Hs), (inv_ending _ _ _ Hs), He).
  assert (ending (past s) ≠ Some false) as He' by congruence.
  pose proof (inv_wire _ _ _ Hs Hcfg He' Ha) as Hw. unfold in_hand in Hw. rewrite Hr, app_nil_r in Hw.
  split; [|by rewrite (inv_drained _ _ _ Hs), Hd].
  rewrite (inv_fifo _ _ _ Hs), Hb, app_nil_r, (inv_order _ _ _ Hs He'), Hw, fmap_app, <-!list_fmap_compose.
  f_equal; by apply list_fmap_id.
Qed.
End theorems.

(** * Concrete runs *)

Definition publish_call (m : nat) : call := CallPublish (inl m) None None None.

(** The second of two accepted messages is undelivered: the grace period ends first. *)
Definition terminated_early : list (nat * nat) :=
  [(1, 8); (2, 8); (3, 8); (0, 4); (4, 8); (0, 3); (4, 9)].

Definition early_scene :=
  scene (T:=nat) 5 [CallStart; publish_call 1; publish_call 2; CallTerminate true]
    (construct true BackpressureReject 3 true true []).

Lemma early_run : ∃ s ts, pool_steps early_scene (s, ts) ∧
  bool_decide (accepted (past s) = [1; 2] ∧ attempted s = [1] ∧ drained s = [2] ∧
    ending (past s) = Some true ∧ aborted (past s) = false ∧ reported (past s) = Some 1) = true.
Proof. apply (plays_to_steps terminated_early). by vm_compute. Qed.

Lemma accepted_messages_accounted_witness : ∃ s ts, pool_steps early_scene (s, ts) ∧
  accepted (past s) = [1; 2] ∧ length (drained s) = 1 ∧
  ¬ pool_panics (s, ts) ∧ accepted (past s) = (taken (past s)).*1 ++ chan_buf (buffer s).
Proof.
  destruct early_run as (s & ts & Hs & (H1 & H2 & H3 & H4 & H5 & H6)%bool_decide_eq_true).
  exists s, ts.
  destruct (accepted_messages_accounted _ _ _ _ _ _ _ _ _ _ Hs) as (Hp & _ & _ & Hf & _).
  rewrite H3. split_and!; done.
Defined.

Lemma terminate_reports_exactly_witness : ∃ s ts, pool_steps early_scene (s, ts) ∧
  accepted (past s) = [1; 2] ∧ attempted s = [1] ∧ drained s = [2] ∧
  accepted (past s) = attempted s ++ drained s ∧ 1 = length (drained s).
Proof.
  destruct early_run as (s & ts & Hs & (H1 & H2 & H3 & H4 & H5 & H6)%bool_decide_eq_true).
  exists s, ts.
  destruct (terminate_reports_exactly true BackpressureReject 3 true true [] 5 _ s ts 1
    ltac:(done) Hs H4 H5 H6) as [Hacc Hn].
  split_and!; done.
Defined.

(** A publisher may refuse a message because its buffer is full and never tell the readiness
    listener that there is room again: a task reads whether the buffer is full before it
    takes its message off, and the buffer fills in between.  The buffer is empty, the
    publisher is running, nobody can go on, and no notification was given. *)
Theorem refused_publish_never_notified :
  ∃ s ts,
    pool_steps (scene (T:=nat) 5 [CallStart; publish_call 1; publish_call 2; publish_call 3]
                  (construct true BackpressureReject 2 true true [])) (s, ts) ∧
    (refused (past s) = [3] ∧ (returned <$> ts) !! 4 = Some (Some (Some overflow_error)) ∧
     state_of s = Started ∧ chan_buf (buffer s) = [] ∧ notifications s = []) ∧
    ∀ c, ¬ pool_step (s, ts) c.
Proof.
  destruct (plays_out_steps [(1, 8); (2, 8); (0, 3); (3, 8); (4, 7); (0, 9)]
    (scene (T:=nat) 5 [CallStart; publish_call 1; publish_call 2; publish_call 3]
       (construct true BackpressureReject 2 true true []))
    (λ s rs, bool_decide (refused (past s) = [3] ∧ rs !! 4 = Some (Some (Some overflow_error)) ∧
       state_of s = Started ∧ chan_buf (buffer s) = [] ∧ notifications s = [])))
    as (s & ts & Hs & Hc%bool_decide_eq_true & Hw); [by vm_compute|]. by exists s, ts.
Qed.

(** When the service goes down while a task waits for the session to accept its message, the
    next task takes the message of the interrupted task off the buffer in the place of its
    own: the failure listener is given the second message twice, and never the first, which
    the session was never given for good. *)
Theorem interrupted_message_never_reported :
  ∃ s ts err,
    pool_steps (scene (T:=nat) 5 [CallStart; publish_call 1; publish_call 2; CallDown None true]
       (construct true BackpressureReject 2 false true
          [Some (mkErrorInfo ReturnCodeWouldBlock None); Some (mkErrorInfo ReturnCodeFail None)]))
      (s, ts) ∧
    accepted (past s) = [1; 2] ∧ attempted s = [2] ∧ reported (past s) = Some 1 ∧
    notifications s = [PublishFailed 2 (Some err); PublishFailed 2 None] ∧
    ∀ c, ¬ pool_step (s, ts) c.
Proof.
  destruct (plays_out_steps [(1, 8); (2, 8); (3, 8); (0, 2); (4, 6); (0, 10); (4, 12)]
    (scene (T:=nat) 5 [CallStart; publish_call 1; publish_call 2; CallDown None true]
       (construct true BackpressureReject 2 false true
          [Some (mkErrorInfo ReturnCodeWouldBlock None); Some (mkErrorInfo ReturnCodeFail None)]))
    (λ s _, bool_decide (accepted (past s) = [1; 2] ∧ attempted s = [2] ∧
       reported (past s) = Some 1 ∧ notifications s =
         [PublishFailed 2 (Some (NativeError "encountered error while publishing message: " 0));
          PublishFailed 2 None])))
    as (s & ts & Hs & (H1 & H2 & H3 & H4)%bool_decide_eq_true & Hw); [by vm_compute|].
  by exists s, ts, (NativeError "encountered error while publishing message: " 0).
Qed.
