(* ===== verification/PersistentPublisher.v ===== *)
(** The persistent publisher: internal/impl/publisher/persistent_message_publisher_impl.go.

    The code of the persistent publisher is that of the direct publisher (DirectPublisher) around
    a table of correlation contexts: a message is published with an identifier, its context
    waits in the table for the acknowledgement of the broker, and is resolved when the
    acknowledgement comes, when the publish fails or when the publisher ends.  The state of
    the publisher therefore contains one of DirectPublisher, whose messages are here the
    publishables with their identifier, and what the two Go files have in common (the lock and
    the buffer, the submission of tasks, the send loop, the signals, readiness) is the same
    program, run on that part of the state.  Disposing of messages is left out. *)

From Stdlib Require Import ZArith Lia.
From stdpp Require Import base list gmap relations strings.
From S2P Require Import Prelude GoStrconv GoEffects GoConc Errors Sdt Lifecycle Validation DirectPublisher.

Section persistent_publisher.
(** Outbound messages with their destination, and what the application attaches to a publish. *)
Context {M U : Type} `{!EqDecision M} `{!EqDecision U}.

(** * State *)

(** The two implementations of [correlationContext]; a blocking context has the channel its
    caller waits on, by its position among those made. *)
Inductive correlationContext : Type :=
| callbackCorrelationContext (message : M) (userContext : U)
| blockingCorrelationContext (message : M) (blocker : nat).

(** A buffered message, with the identifier that its task is made with. *)
Record persistentPublishable : Type := mkPersistentPublishable {
  messageID : Z;
  corr : correlationContext;
}.

#[export] Instance correlationContext_eq_dec : EqDecision correlationContext.
Proof using All. solve_decision. Defined.
#[export] Instance persistentPublishable_eq_dec : EqDecision persistentPublishable.
Proof using All. solve_decision. Defined.

Record publishReceipt : Type := mkReceipt {
  userContext : U;
  message : M;
  receipt_err : option go_error;
  persisted : bool;
}.

#[export] Instance receipt_eq_dec : EqDecision publishReceipt.
Proof using All. solve_decision. Defined.

Abbreviation publisher := (@DirectPublisher.publisher persistentPublishable).

(** An acknowledgement of the broker for a message identifier, and the outcome a context is
    resolved with. *)
Definition acknowledgement : Type := Z * bool * option go_error.
Definition resolution : Type := correlationContext * bool * option go_error.

#[export] Instance acknowledgement_eq_dec : EqDecision acknowledgement.
Proof using Type. apply _. Defined.

(** [acknowledgementHandler]: the handler of this publisher is registered with the service.
    [messageIDs] is the counter of the generator of correlation tags.  The last four fields
    are read by no program: the acknowledgement being handled with the context found for it, the
    acknowledgements handled, the contexts put in the table, and the contexts resolved. *)
Record persistentMessagePublisher : Type := mkPersistent {
  base : publisher;
  publishReceiptListener : bool;
  acknowledgementHandler : bool;
  messageIDs : Z;
  correlationMap : gmap Z correlationContext;
  correlationLock : bool;
  correlationComplete : bool;
  requestCorrelateComplete : bool;
  blockers : list (chan (option go_error));
  receipts : list publishReceipt;
  acking : option (acknowledgement * correlationContext);
  acknowledged : list acknowledgement;
  registered : list (Z * correlationContext);
  resolved : list resolution;
}.

Definition set_base (b : publisher) (s : persistentMessagePublisher) : persistentMessagePublisher :=
  mkPersistent
    b (publishReceiptListener s) (acknowledgementHandler s) (messageIDs s) (correlationMap s)
    (correlationLock s) (correlationComplete s) (requestCorrelateComplete s) (blockers s)
    (receipts s) (acking s) (acknowledged s) (registered s) (resolved s).

Definition set_publishReceiptListener (b : bool) (s : persistentMessagePublisher) : persistentMessagePublisher :=
  mkPersistent
    (base s) b (acknowledgementHandler s) (messageIDs s) (correlationMap s)
    (correlationLock s) (correlationComplete s) (requestCorrelateComplete s) (blockers s)
    (receipts s) (acking s) (acknowledged s) (registered s) (resolved s).

Definition set_acknowledgementHandler (b : bool) (s : persistentMessagePublisher) : persistentMessagePublisher :=
  mkPersistent
    (base s) (publishReceiptListener s) b (messageIDs s) (correlationMap s)
    (correlationLock s) (correlationComplete s) (requestCorrelateComplete s) (blockers s)
    (receipts s) (acking s) (acknowledged s) (registered s) (resolved s).

Definition set_messageIDs (id : Z) (s : persistentMessagePublisher) : persistentMessagePublisher :=
  mkPersistent
    (base s) (publishReceiptListener s) (acknowledgementHandler s) id (correlationMap s)
    (correlationLock s) (correlationComplete s) (requestCorrelateComplete s) (blockers s)
    (receipts s) (acking s) (acknowledged s) (registered s) (resolved s).

Definition set_correlationMap (m : gmap Z correlationContext) (s : persistentMessagePublisher) : persistentMessagePublisher :=
  mkPersistent
    (base s) (publishReceiptListener s) (acknowledgementHandler s) (messageIDs s) m
    (correlationLock s) (correlationComplete s) (requestCorrelateComplete s) (blockers s)
    (receipts s) (acking s) (acknowledged s) (registered s) (resolved s).

Definition set_correlationLock (b : bool) (s : persistentMessagePublisher) : persistentMessagePublisher :=
  mkPersistent
    (base s) (publishReceiptListener s) (acknowledgementHandler s) (messageIDs s)
    (correlationMap s) b (correlationComplete s) (requestCorrelateComplete s) (blockers s)
    (receipts s) (acking s) (acknowledged s) (registered s) (resolved s).

Definition set_correlationComplete (b : bool) (s : persistentMessagePublisher) : persistentMessagePublisher :=
  mkPersistent
    (base s) (publishReceiptListener s) (acknowledgementHandler s) (messageIDs s)
    (correlationMap s) (correlationLock s) b (requestCorrelateComplete s) (blockers s)
    (receipts s) (acking s) (acknowledged s) (registered s) (resolved s).

Definition set_requestCorrelateComplete (b : bool) (s : persistentMessagePublisher) : persistentMessagePublisher :=
  mkPersistent
    (base s) (publishReceiptListener s) (acknowledgementHandler s) (messageIDs s)
    (correlationMap s) (correlationLock s) (correlationComplete s) b (blockers s)
    (receipts s) (acking s) (acknowledged s) (registered s) (resolved s).

Definition set_blockers (l : list (chan (option go_error))) (s : persistentMessagePublisher) : persistentMessagePublisher :=
  mkPersistent
    (base s) (publishReceiptListener s) (acknowledgementHandler s) (messageIDs s)
    (correlationMap s) (correlationLock s) (correlationComplete s)
    (requestCorrelateComplete s) l (receipts s) (acking s) (acknowledged s) (registered s)
    (resolved s).

Definition add_receipt (r : publishReceipt) (s : persistentMessagePublisher) : persistentMessagePublisher :=
  mkPersistent
    (base s) (publishReceiptListener s) (acknowledgementHandler s) (messageIDs s)
    (correlationMap s) (correlationLock s) (correlationComplete s)
    (requestCorrelateComplete s) (blockers s) (receipts s ++ [r]) (acking s) (acknowledged s)
    (registered s) (resolved s).

Definition set_acking (a : option (acknowledgement * correlationContext)) (s : persistentMessagePublisher) : persistentMessagePublisher :=
  mkPersistent
    (base s) (publishReceiptListener s) (acknowledgementHandler s) (messageIDs s)
    (correlationMap s) (correlationLock s) (correlationComplete s)
    (requestCorrelateComplete s) (blockers s) (receipts s) a (acknowledged s) (registered s)
    (resolved s).

Definition log_acknowledged (a : acknowledgement) (s : persistentMessagePublisher) : persistentMessagePublisher :=
  mkPersistent
    (base s) (publishReceiptListener s) (acknowledgementHandler s) (messageIDs s)
    (correlationMap s) (correlationLock s) (correlationComplete s)
    (requestCorrelateComplete s) (blockers s) (receipts s) (acking s) (acknowledged s ++ [a])
    (registered s) (resolved s).

Definition log_registered (id : Z) (context : correlationContext) (s : persistentMessagePublisher) : persistentMessagePublisher :=
  mkPersistent
    (base s) (publishReceiptListener s) (acknowledgementHandler s) (messageIDs s)
    (correlationMap s) (correlationLock s) (correlationComplete s)
    (requestCorrelateComplete s) (blockers s) (receipts s) (acking s) (acknowledged s)
    (registered s ++ [(id, context)]) (resolved s).

Definition log_resolved (r : resolution) (s : persistentMessagePublisher) : persistentMessagePublisher :=
  mkPersistent
    (base s) (publishReceiptListener s) (acknowledgementHandler s) (messageIDs s)
    (correlationMap s) (correlationLock s) (correlationComplete s)
    (requestCorrelateComplete s) (blockers s) (receipts s) (acking s) (acknowledged s)
    (registered s) (resolved s ++ [r]).


Abbreviation pp A := (prog persistentMessagePublisher A).

(** The part of the publisher that is as in the direct publisher. *)
Definition on_base {A} (p : prog publisher A) : pp A := lift base set_base p.

Definition construct (up : bool) (config : backpressureConfiguration) (bufferSize : nat)
    (readiness receipt : bool) (answers : list (option ErrorInfo)) : persistentMessagePublisher :=
  mkPersistent (DirectPublisher.construct up config bufferSize readiness false answers)
    receipt false 0 ∅ false false false [] [] None [] [] [].

(** * Contexts *)

Definition createReceipt (message : M) (userContext : U) (persisted : bool) (err : option go_error)
    : publishReceipt := mkReceipt userContext message err persisted.

(** [resolve] of either context.  The channel of a blocking context has room for one error. *)
Definition resolve (context : correlationContext) (persisted : bool) (err : option go_error)
    : pp unit :=
  match context with
  | callbackCorrelationContext message userContext =>
      let! callback := action (λ s,
        if publishReceiptListener s then AOk true s
        else AOk false (log_resolved (context, persisted, err) s)) in
      if (callback : bool)
      then action (λ s,
             AOk tt (log_resolved (context, persisted, err)
               (if executor_closed (base s) then s
                else add_receipt (createReceipt message userContext persisted err) s)))
      else PRet tt
  | blockingCorrelationContext message blocker =>
      action (λ s,
        match blockers s !! blocker with
        | Some c =>
            match chan_send err c with
            | Done _ c' => AOk tt (log_resolved (context, persisted, err)
                                     (set_blockers (<[blocker := c']> (blockers s)) s))
            | Panicked p _ => APanic p
            | Blocked _ => ABlock
            end
        | None => ABlock
        end)
  end.

Definition correlationLock_Lock : pp unit :=
  action (λ s, if correlationLock s then ABlock else AOk tt (set_correlationLock true s)).
Definition correlationLock_Unlock : pp unit :=
  action (λ s, if correlationLock s then AOk tt (set_correlationLock false s)
               else APanic UnlockOfUnlocked).

Definition addCorrelationContext (messageID : Z) (ctx : correlationContext) : pp unit :=
  correlationLock_Lock ;;;;
  update (λ s, log_registered messageID ctx
                 (set_correlationMap (<[messageID := ctx]> (correlationMap s)) s)) ;;;;
  correlationLock_Unlock.

Definition forget (messageID : Z) (s : persistentMessagePublisher) : persistentMessagePublisher :=
  set_correlationMap (delete messageID (correlationMap s)) s.

Definition removeCorrelationContext (messageID : Z) : pp unit :=
  correlationLock_Lock ;;;; update (forget messageID) ;;;; correlationLock_Unlock.

(** The end of [ackHandler], one action because it is under the lock, which the table and the
    request change under. *)
Definition check_complete : pp unit :=
  action (λ s,
    if decide (state_of (base s) = Terminating) then
      if requestCorrelateComplete s then
        if size (correlationMap s) =? 0 then
          if correlationComplete s then APanic CloseOfClosedChannel
          else AOk tt (set_correlationComplete true s)
        else AOk tt s
      else AOk tt s
    else AOk tt s).

Definition ackHandler (messageID : Z) (persisted : bool) (err : option go_error) : pp unit :=
  correlationLock_Lock ;;;;
  let! context := action (λ s,
    let found := correlationMap s !! messageID in
    AOk found (log_acknowledged (messageID, persisted, err)
      (set_acking ((λ c, (messageID, persisted, err, c)) <$> found) s))) in
  correlationLock_Unlock ;;;;
  match context with
  | None => PRet tt
  | Some context =>
      resolve context persisted err ;;;;
      correlationLock_Lock ;;;;
      update (forget messageID) ;;;;
      check_complete ;;;;
      correlationLock_Unlock
  end.

(** The acknowledgements of the session, one after the other, as the context thread brings
    them; an acknowledgement reaches the handler while it is registered. *)
Fixpoint onAcknowledgements (acks : list acknowledgement) : pp (option go_error) :=
  match acks with
  | [] => PRet None
  | (messageID, persisted, err) :: acks =>
      let! handler := load acknowledgementHandler in
      (if (handler : bool) then ackHandler messageID persisted err else PRet tt) ;;;;
      onAcknowledgements acks
  end.

(** * Publishing *)

Definition generateCorrelationTag : pp Z :=
  action (λ s, let nextId := wrapU 64 (messageIDs s + 1) in AOk nextId (set_messageIDs nextId s)).

(** [setDestination], [setDeliveryMode], [attachCorrelationTag]: the errors of preparing the
    message. *)
Definition publish (setDestination setDeliveryMode attachCorrelationTag : option go_error)
    (ctx : correlationContext) : pp (option go_error) :=
  match setDestination, setDeliveryMode with
  | Some err, _ => PRet (Some err)
  | None, Some err => PRet (Some err)
  | None, None =>
  let! messageID := generateCorrelationTag in
  match attachCorrelationTag with
  | Some err => PRet (Some err)
  | None =>
  let! err := on_base checkStartedStateForPublish in
  match err with
  | Some err => PRet (Some err)
  | None =>
  let! direct := on_base (load is_direct) in
  if (direct : bool) then
    addCorrelationContext messageID ctx ;;;;
    let! errorInfo :=
      on_base (session_Publish (mkPersistentPublishable messageID ctx) (λ _ h, runner_at h)) in
    match errorInfo with
    | None => PRet None
    | Some info =>
        removeCorrelationContext messageID ;;;;
        PRet (if is_would_block errorInfo then Some overflow_error else Some (ToNativeError info ""))
    end
  else on_base (publish_buffered (mkPersistentPublishable messageID ctx))
  end end end.

Definition publishWithCallbackContext (e1 e2 e3 : option go_error) (msg : M) (userContext : U)
    : pp (option go_error) := publish e1 e2 e3 (callbackCorrelationContext msg userContext).

Definition publishWithBlockingContext (e1 e2 e3 : option go_error) (msg : M) (blocker : nat)
    : pp (option go_error) := publish e1 e2 e3 (blockingCorrelationContext msg blocker).

(** The message of the application, or the name of a type that is none of ours; the errors of
    duplicating it and of setting its properties. *)
Definition duplicateMessageAndSetProperties (msg : M + string)
    (duplicate setProperties : option go_error) : M + go_error :=
  match msg, duplicate, setProperties with
  | inr typeName, _, _ => inr (invalid_message_error typeName)
  | inl _, Some err, _ => inr err
  | inl _, None, Some err => inr err
  | inl m, None, None => inl m
  end.

(** [PublishBytes] and [PublishString]: the message of the builder, or its error; the user context is
    user context. *)
Definition PublishBytes (built : M + go_error) (noContext : U) (e1 e2 e3 : option go_error)
    : pp (option go_error) :=
  let! err := on_base checkStartedStateForPublish in
  match err, built with
  | Some err, _ => PRet (Some err)
  | None, inr err => PRet (Some err)
  | None, inl msg => publishWithCallbackContext e1 e2 e3 msg noContext
  end.
Definition PublishString (built : M + go_error) (noContext : U) (e1 e2 e3 : option go_error)
    : pp (option go_error) :=
  let! err := on_base checkStartedStateForPublish in
  match err, built with
  | Some err, _ => PRet (Some err)
  | None, inr err => PRet (Some err)
  | None, inl msg => publishWithCallbackContext e1 e2 e3 msg noContext
  end.

Definition Publish (msg : M + string) (duplicate setProperties : option go_error)
    (userContext : U) (e1 e2 e3 : option go_error) : pp (option go_error) :=
  let! err := on_base checkStartedStateForPublish in
  match err, duplicateMessageAndSetProperties msg duplicate setProperties with
  | Some err, _ => PRet (Some err)
  | None, inr err => PRet (Some err)
  | None, inl msgDup => publishWithCallbackContext e1 e2 e3 msgDup userContext
  end.

Definition timed_out_error : go_error :=
  NewError TimeoutError "timed out waiting for message to be acknowledged" None.

Definition acknowledgementChannel : pp nat :=
  action (λ s, AOk (length (blockers s)) (set_blockers (blockers s ++ [make_chan 1]) s)).

(** [<-acknowledgementChannel]. *)
Definition await_acknowledgement (c : nat) (s : persistentMessagePublisher)
    : act persistentMessagePublisher (option go_error) :=
  match blockers s !! c with
  | Some ch =>
      match chan_recv ch with
      | Done (Some err) ch' => AOk err (set_blockers (<[c := ch']> (blockers s)) s)
      | Done None ch' => AOk None (set_blockers (<[c := ch']> (blockers s)) s)
      | Panicked p _ => APanic p
      | Blocked _ => ABlock
      end
  | None => ABlock
  end.

(** [timer]: the timeout is not negative; [setAckImmediately] is the error of that call. *)
Definition PublishAwaitAcknowledgement (msg : M + string)
    (duplicate setProperties setAckImmediately : option go_error) (timer : bool)
    (e1 e2 e3 : option go_error) : pp (option go_error) :=
  let! err := on_base checkStartedStateForPublish in
  match err, duplicateMessageAndSetProperties msg duplicate setProperties, setAckImmediately with
  | Some err, _, _ => PRet (Some err)
  | None, inr err, _ => PRet (Some err)
  | None, inl _, Some err => PRet (Some err)
  | None, inl msgDup, None =>
      let! c := acknowledgementChannel in
      let! err := publishWithBlockingContext e1 e2 e3 msgDup c in
      match err with
      | Some err => PRet (Some err)
      | None =>
          if timer
          then select [ await_acknowledgement c; (λ s, AOk (Some timed_out_error) s) ]
          else action (await_acknowledgement c)
      end
  end.

Definition SetMessagePublishReceiptListener (listener : bool) : pp unit :=
  update (set_publishReceiptListener listener).

Definition IsReady : pp bool := on_base DirectPublisher.IsReady.
Definition notifyReady : pp unit := on_base DirectPublisher.notifyReady.
Definition NotifyWhenReady : pp unit := on_base DirectPublisher.NotifyWhenReady.

(** * Tasks *)

(** The end of a task, once the session has answered for its message. *)
Definition finish_task (pub : persistentPublishable) (errorInfo : option ErrorInfo) : pp bool :=
  let! isFull := on_base (load (λ s, length (chan_buf (buffer s)) =? chan_cap (buffer s))) in
  let! popped := on_base pop in
  match popped with
  | None => PRet true
  | Some _ =>
      match errorInfo with
      | Some info =>
          removeCorrelationContext (messageID pub) ;;;;
          resolve (corr pub) false
            (Some (ToNativeError info "encountered error while publishing message: "))
      | None => PRet tt
      end ;;;;
      let! reject := on_base (load is_reject) in
      (if isFull && reject then notifyReady else PRet tt) ;;;; PRet true
  end.

(** [sendTask]; the result tells whether the task has come to its end.  Every publish has a
    context. *)
Definition sendTask (fuel : nat) (pub : persistentPublishable) : pp bool :=
  addCorrelationContext (messageID pub) (corr pub) ;;;;
  let! r := on_base (send_loop fuel pub) in
  match r with
  | StillTrying => PRet false
  | Interrupted => removeCorrelationContext (messageID pub) ;;;; PRet true
  | Attempted errorInfo => finish_task pub errorInfo
  end.

Fixpoint run_tasks (fuel : nat) : pp (option go_error) :=
  match fuel with
  | O => PRet None
  | S fuel =>
      let! task := on_base next_task in
      match task with
      | None => PRet None
      | Some pub =>
          let! ended := sendTask fuel pub in
          if (ended : bool) then run_tasks fuel else PRet None
      end
  end.

(** * Start and termination *)

Definition start_body : pp (option go_error) :=
  on_base (update (λ s, set_handlers true (canSendHandler s) s)) ;;;;
  update (set_acknowledgementHandler true) ;;;;
  let! direct := on_base (load is_direct) in
  (if (direct : bool) then on_base (update (λ s, set_handlers (downHandler s) true s))
   else on_base (update (set_spawned true))) ;;;;
  PRet None.

Definition Start : pp (option go_error) :=
  let! r := on_base (starting publisher_texts) in
  if negb (fst r) then PRet (snd r)
  else
    let! err := start_body in
    match err with
    | None => on_base (started None) ;;;; PRet None
    | Some _ =>
        on_base (terminated None) ;;;; on_base (completeStartFuture err) ;;;; PRet err
    end.

(** The range over the closed buffer; the fuel as in DirectPublisher. *)
Fixpoint drain_loop (fuel : nat) (undeliveredCount : nat) (err : option go_error) : pp nat :=
  match fuel with
  | O => action (λ _, APanic IndexOutOfRange)
  | S fuel =>
      let! undelivered := on_base (drain_next undeliveredCount) in
      match undelivered with
      | None => PRet undeliveredCount
      | Some pub => resolve (corr pub) false err ;;;; drain_loop fuel (S undeliveredCount) err
      end
  end.

Definition drainQueue (err : option go_error) : pp nat :=
  on_base close_buffer ;;;;
  let! capacity := on_base (load (λ s, chan_cap (buffer s))) in
  drain_loop (S capacity) 0 err.

(** The range over the table visits its entries in an unspecified order. *)
Context (order : gmap Z correlationContext → list (Z * correlationContext)).

Fixpoint drain_entries (entries : list (Z * correlationContext)) (unackedCount : nat)
    (err : option go_error) : pp nat :=
  match entries with
  | [] => PRet unackedCount
  | (key, value) :: entries =>
      resolve value false err ;;;;
      update (forget key) ;;;;
      drain_entries entries (S unackedCount) err
  end.

Definition drainAckTable (err : option go_error) : pp nat :=
  correlationLock_Lock ;;;;
  let! entries := load (λ s, order (correlationMap s)) in
  let! unackedCount := drain_entries entries 0 err in
  correlationLock_Unlock ;;;; PRet unackedCount.

Definition incomplete_error (undelivered unacked : nat) : go_error :=
  NewError IncompleteMessageDeliveryError
    ("failed to publish messages, publisher terminated with " +:+ sprint_int (Z.of_nat undelivered) +:+
     " undelivered messages and " +:+ sprint_int (Z.of_nat unacked) +:+ " unacknowledged messages") None.

Definition publisherTerminatedError : go_error :=
  NewError IncompleteMessageDeliveryError UnableToPublishAlreadyTerminated None.

Definition report_incomplete (undelivered unacked : nat) : pp (option go_error) :=
  if (0 <? undelivered) || (0 <? unacked)
  then on_base (update (λ s, set_discarded (discarded s + Z.of_nat undelivered) s)) ;;;;
       PRet (Some (incomplete_error undelivered unacked))
  else PRet None.

(** The wait for the acknowledgements that are missing. *)
Definition await_acknowledgements (timer : bool) : pp unit :=
  correlationLock_Lock ;;;;
  let! remainingAcks := load (λ s, size (correlationMap s)) in
  close_signal requestCorrelateComplete set_requestCorrelateComplete ;;;;
  correlationLock_Unlock ;;;;
  if 0 <? remainingAcks then
    if timer
    then select [ (λ s, if correlationComplete s then AOk tt s else ABlock); (λ s, AOk tt s) ]
    else await_closed correlationComplete
  else PRet tt.

Definition terminate_body (timer : bool) : pp (option go_error) :=
  on_base (update (λ s, set_handlers false (canSendHandler s) s)) ;;;;
  let! direct := on_base (load is_direct) in
  let! graceful :=
    (if (direct : bool) then
       on_base (update (λ s, set_handlers (downHandler s) false s)) ;;;; PRet true
     else
       on_base (close_signal waitInterrupt set_waitInterrupt) ;;;;
       on_base (taskBuffer_Terminate timer)) in
  (if (graceful : bool) then await_acknowledgements timer else PRet tt) ;;;;
  update (set_acknowledgementHandler false) ;;;;
  let! undeliveredCount :=
    (if (direct : bool) then PRet 0 else drainQueue (Some publisherTerminatedError)) in
  let! unackedCount := drainAckTable (Some publisherTerminatedError) in
  let! err := report_incomplete undeliveredCount unackedCount in
  on_base executor_Terminate ;;;;
  PRet err.

Definition Terminate (timer : bool) : pp (option go_error) :=
  let! r := on_base (terminate publisher_texts) in
  if negb (fst r) then PRet (snd r)
  else let! err := terminate_body timer in on_base (terminated err) ;;;; PRet err.

Definition unsolicited_body (cause : option go_error) : pp (option go_error) :=
  on_base (update (λ s, note (note_ending false) (set_handlers false (canSendHandler s) s))) ;;;;
  update (set_acknowledgementHandler false) ;;;;
  let! direct := on_base (load is_direct) in
  let! undeliveredCount :=
    (if (direct : bool) then
       on_base (update (λ s, set_handlers (downHandler s) false s)) ;;;; PRet 0
     else
       on_base (close_signal waitInterrupt set_waitInterrupt) ;;;;
       on_base taskBuffer_TerminateNow ;;;;
       drainQueue cause) in
  let! unackedCount := drainAckTable cause in
  let! err := report_incomplete undeliveredCount unackedCount in
  on_base executor_Terminate ;;;;
  PRet err.

Definition unsolicitedTermination (cause : option go_error) (listener : bool)
    : pp (option go_error) :=
  let! r := on_base (terminate publisher_texts) in
  if negb (fst r) then PRet None
  else
    let! err := unsolicited_body cause in
    on_base (terminated err) ;;;;
    (if listener then on_base (update (note (note_listened cause))) else PRet tt) ;;;; PRet None.

(** * Protocol *)

(** The permits of the publisher besides those of its base: the lock of the table, to ask for the
    end of the acknowledgements, and, of the context thread, whether it has announced
    that end and what it is handling. *)
Inductive mine : Type :=
| HoldTable
| MayRequest
| CompleteIs (b : bool)
| AckAt (a : option (acknowledgement * correlationContext)).

#[export] Instance mine_eq_dec : EqDecision mine.
Proof using EqDecision0 EqDecision1. solve_decision. Defined.

Definition held_here (s : persistentMessagePublisher) (y : mine) : nat :=
  match y with
  | HoldTable => if correlationLock s then 0 else 1
  | MayRequest => if waitInterrupt (base s) && negb (requestCorrelateComplete s) then 0 else 1
  | CompleteIs b => if decide (correlationComplete s = b) then 0 else 1
  | AckAt a => if decide (acking s = a) then 0 else 1
  end.

Context (config : backpressureConfiguration) (size_ : nat).
Context (Hbuffered : config ≠ BackpressureDirect).

Record per_inv (s : persistentMessagePublisher) : Prop := {
  per_base : pub_inv config size_ (base s);
  per_requested : requestCorrelateComplete s = true →
    is_complete (base s) = true ∧ waitInterrupt (base s) = true;
  per_complete : correlationComplete s = true →
    requestCorrelateComplete s = true ∧ correlationMap s = ∅;
  per_table : ∀ id context, correlationMap s !! id = Some context → (id, context) ∈ registered s;
  per_acking : ∀ id p err context, acking s = Some (id, p, err, context) →
    (id, context) ∈ registered s ∧ (id, p, err) ∈ acknowledged s;
  per_resolved : ∀ context err, (context, true, err) ∈ resolved s →
    ∃ id, (id, context) ∈ registered s ∧ (id, true, err) ∈ acknowledged s;
  per_receipts : ∀ r, r ∈ receipts s →
    (callbackCorrelationContext (message r) (userContext r), persisted r, receipt_err r) ∈ resolved s;
  per_blockers : ∀ c ch, blockers s !! c = Some ch → chan_closed ch = false ∧
    ∀ err, err ∈ chan_buf ch → ∃ m p, (blockingCorrelationContext m c, p, err) ∈ resolved s;
}.

Definition per_move (s s' : persistentMessagePublisher) : Prop :=
  pub_move (base s) (base s') ∧ resolved s `prefix_of` resolved s'.

Abbreviation bheld := (lc_held (S := publisher) DirectPublisher.gate DirectPublisher.spent DirectPublisher.extra).
Abbreviation bproto := (proto (pub_inv config size_) pub_move bheld lc_total).
Abbreviation qheld := (whole_held base bheld held_here).
Abbreviation qtotal := (whole_total lc_total (λ _ : mine, 1)).
Abbreviation qproto l1 l2 := (proto per_inv per_move qheld qtotal (join (own l1) (own l2))).
Abbreviation qfits s l2 := (fits held_here (λ _ : mine, 1) s (own l2)).

#[local] Instance base_embeds :
  Embeds base set_base (pub_inv config size_) pub_move per_inv per_move held_here.
Proof using Type.
  split.
  - done.
  - apply per_base.
  - intros s t [] Ht Hm. pose proof Hm as (_ & _ & _ & Hc & Hw). split; [|by split].
    split; try assumption. simpl. intros Hr. destruct (per_requested0 Hr). auto.
  - intros s t [| | |] Hs (_ & _ & _ & _ & Hw); simpl; try lia.
    destruct (waitInterrupt (base s)); simpl; [rewrite Hw by done; simpl; lia|case_match; lia].
Qed.

(** An operation of the base. *)
Lemma q_base {A B} (p : prog publisher A) (k : A → pp B) l1 l2 Q :
  bproto (own l1) (pbind p PRet) (λ a m, proto per_inv per_move qheld qtotal (join m (own l2)) (k a) Q) →
  qproto l1 l2 (pbind (on_base p) k) Q.
Proof using Type.
  intros Hp. eapply proto_lift; [apply base_embeds|]. by apply proto_unbind.
Qed.

(** An action on the rest of the publisher. *)
Lemma q_act {V B} (f : persistentMessagePublisher → act persistentMessagePublisher V) l1 l2
    (k : V → pp B) Q :
  (∀ s, per_inv s → fits bheld lc_total (base s) (own l1) → qfits s l2 →
    match f s with
    | AOk v s' => per_inv s' ∧ resolved s `prefix_of` resolved s' ∧ base s' = base s ∧
        ∃ l2', (∀ y, held_here s' y + own l2' y ≤ held_here s y + own l2 y) ∧ qproto l1 l2' (k v) Q
    | ABlock => True
    | APanic _ => False
    end) →
  qproto l1 l2 (PAct f k) Q.
Proof using Type.
  intros Hk s Hs Hf. specialize (Hk s Hs (λ x, Hf (inl x)) (λ y, Hf (inr y))).
  destruct (f s) as [v s'| |]; [|done..]. destruct Hk as (Hs' & Hr & Hb & l2' & Hc & Hk).
  split_and!; [done|by split; [rewrite Hb; by apply pub_move_same|]|].
  exists (join (own l1) (own l2')). split; [|done]. intros [x|y]; simpl; [by rewrite Hb|apply Hc].
Qed.

Ltac here := intros []; cbn [held_here own]; simpl; repeat case_decide; simplify_eq;
  try congruence; try lia.

Lemma q_load {V B} (view : persistentMessagePublisher → V) l1 l2 (k : V → pp B) Q :
  (∀ v, qproto l1 l2 (k v) Q) → qproto l1 l2 (pbind (load view) k) Q.
Proof using Type.
  intros Hk. apply q_act. intros s Hs _ _. split_and!; [done..|]. exists l2. by split.
Qed.

Lemma q_load_base {V B} (view : publisher → V) l1 l2 (k : V → pp B) Q :
  (∀ s, pub_inv config size_ s → qproto l1 l2 (k (view s)) Q) →
  qproto l1 l2 (pbind (on_base (load view)) k) Q.
Proof using Type. intros Hk. apply q_base, proto_load_inv. intros s Hs. by apply Hk. Qed.

Lemma q_direct {B} l1 l2 (k : bool → pp B) Q :
  qproto l1 l2 (k false) Q → qproto l1 l2 (pbind (on_base (load is_direct)) k) Q.
Proof using Hbuffered.
  intros Hk. apply q_load_base. intros s Hs. unfold is_direct.
  rewrite (inv_config _ _ _ Hs), bool_decide_false by done. done.
Qed.

Lemma q_Lock {B} l1 l2 (k : unit → pp B) Q :
  qproto l1 (HoldTable :: l2) (k tt) Q → qproto l1 l2 (pbind correlationLock_Lock k) Q.
Proof using Type.
  intros Hk. apply q_act. intros s Hs _ _. destruct (correlationLock s) eqn:Hl; [done|].
  split_and!; [by destruct Hs|done..|]. exists (HoldTable :: l2). split; [|done].
  intros []; cbn [held_here own]; simpl; rewrite ?Hl; lia.
Qed.

Lemma q_Unlock {B} l1 l2 (k : unit → pp B) Q :
  qproto l1 l2 (k tt) Q → qproto l1 (HoldTable :: l2) (pbind correlationLock_Unlock k) Q.
Proof using Type.
  intros Hk. apply q_act. intros s Hs _ Hf.
  assert (correlationLock s = true) as Hl.
  { specialize (Hf HoldTable). simpl in Hf. destruct (correlationLock s); [done|lia]. }
  rewrite Hl. split_and!; [by destruct Hs|done..|]. exists l2. split; [|done].
  intros []; cbn [held_here own]; simpl; rewrite ?Hl; lia.
Qed.

(** ** Contexts *)

(** Resolving a context: what it takes to say that the broker has the message. *)
Definition may_resolve (context : correlationContext) (p : bool) (err : option go_error)
    (s : persistentMessagePublisher) : Prop :=
  p = true → ∃ id, (id, context) ∈ registered s ∧ (id, true, err) ∈ acknowledged s.

Lemma inv_resolved context p err s : per_inv s → may_resolve context p err s →
  per_inv (log_resolved (context, p, err) s).
Proof using Type.
  intros [] Hp. split; try assumption; simpl.
  - intros c e. rewrite elem_of_app, list_elem_of_singleton.
    intros [Hin|[= -> <- ->]]; [by apply per_resolved0|by apply Hp].
  - intros r Hr. rewrite elem_of_app. left. by apply per_receipts0.
  - intros c ch Hc. destruct (per_blockers0 c ch Hc) as [Ho He]. split; [done|].
    intros e (m & q & Hin)%He. exists m, q. rewrite elem_of_app. by left.
Qed.

Lemma inv_receipt m u p err s : per_inv s →
  (callbackCorrelationContext m u, p, err) ∈ resolved s →
  per_inv (add_receipt (createReceipt m u p err) s).
Proof using Type.
  intros [] Hin. split; try assumption. simpl. intros r.
  rewrite elem_of_app, list_elem_of_singleton. intros [Hr| ->]; [by apply per_receipts0|done].
Qed.

Lemma inv_blocker m c ch p err s : per_inv s → blockers s !! c = Some ch →
  length (chan_buf ch) < chan_cap ch →
  (blockingCorrelationContext m c, p, err) ∈ resolved s →
  per_inv (set_blockers (<[c := mkChan (chan_cap ch) (chan_buf ch ++ [err]) (chan_closed ch)]>
             (blockers s)) s).
Proof using Type.
  intros [] Hc _ Hin. split; try assumption. simpl. intros c' ch'.
  rewrite list_lookup_insert_Some. destruct (per_blockers0 c ch Hc) as [Ho He].
  intros [(-> & <- & _)|(_ & Hc')]; [|by apply per_blockers0].
  split; [done|]. simpl. intros e. rewrite elem_of_app, list_elem_of_singleton.
  intros [Hi| ->]; [by apply He|]. by exists m, p.
Qed.

Lemma q_resolve {B} context p err l1 l2 (k : unit → pp B) Q :
  (∀ s, per_inv s → qfits s l2 → may_resolve context p err s) →
  qproto l1 l2 (k tt) Q → qproto l1 l2 (pbind (resolve context p err) k) Q.
Proof using Type.
  intros Hp Hk. destruct context as [m u|m c]; apply q_act; intros s Hs _ Hf.
  - destruct (publishReceiptListener s).
    + split_and!; [done..|]. exists l2. split; [done|]. cbn [pbind action].
      apply q_act. intros s' Hs' _ Hf'. specialize (Hp s' Hs' Hf').
      pose proof (inv_resolved _ _ _ s' Hs' Hp) as Hi. destruct (executor_closed (base s')).
      * split_and!; [done|by apply prefix_app_r|done|]. exists l2. split; [|done]. by intros [].
      * split_and!; [|by apply prefix_app_r|done|].
        -- apply (inv_receipt m u p err) in Hi; [by destruct Hi|]. simpl.
           rewrite elem_of_app, list_elem_of_singleton. by right.
        -- exists l2. split; [|done]. by intros [].
    + split_and!; [by apply inv_resolved; [|apply Hp]|by apply prefix_app_r|done|].
      exists l2. split; [|done]. by intros [].
  - destruct (blockers s !! c) as [ch|] eqn:Hc; [|done]. unfold chan_send.
    destruct (per_blockers s Hs c ch Hc) as [-> _]. case_decide as Hroom; [|done].
    split_and!; [|by apply prefix_app_r|done|exists l2; split; [by intros []|done]].
    pose proof (inv_resolved _ _ _ s Hs (Hp s Hs Hf)) as Hi.
    eapply (inv_blocker m c ch p err) in Hi; [|done|done|].
    + destruct (per_blockers s Hs c ch Hc) as [Ho _]. rewrite Ho in Hi. by destruct Hi.
    + simpl. rewrite elem_of_app, list_elem_of_singleton. by right.
Qed.

Lemma q_resolve_failed {B} context err l1 l2 (k : unit → pp B) Q :
  qproto l1 l2 (k tt) Q → qproto l1 l2 (pbind (resolve context false err) k) Q.
Proof using Type. by apply q_resolve. Qed.

Lemma inv_forget id s : per_inv s → per_inv (forget id s).
Proof using Type.
  intros []. split; try assumption; simpl.
  - intros Hc. destruct (per_complete0 Hc) as [? ->]. split; [done|]. apply delete_empty.
  - intros i c. rewrite lookup_delete_Some. intros [_ Hi]. by apply per_table0.
Qed.

Lemma q_forget {B} id l1 l2 (k : unit → pp B) Q :
  qproto l1 l2 (k tt) Q → qproto l1 l2 (pbind (update (forget id)) k) Q.
Proof using Type.
  intros Hk. apply q_act. intros s Hs _ _. split_and!; [by apply inv_forget|done..|].
  exists l2. split; [|done]. by intros [].
Qed.

Lemma q_remove {B} id l1 l2 (k : unit → pp B) Q :
  qproto l1 l2 (k tt) Q → qproto l1 l2 (pbind (removeCorrelationContext id) k) Q.
Proof using Type. intros Hk. by apply q_Lock, q_forget, q_Unlock. Qed.

(** A context enters the table while the task goroutine is there. *)
Lemma q_add {B} pub id context l1 l2 (k : unit → pp B) Q :
  qproto (Extra (RunnerAt (Sending pub)) :: l1) l2 (k tt) Q →
  qproto (Extra (RunnerAt (Sending pub)) :: l1) l2 (pbind (addCorrelationContext id context) k) Q.
Proof using Type.
  intros Hk. apply q_Lock, q_act. intros s Hs Hf _.
  pose proof (fits_runner _ _ _ Hf) as Hr.
  destruct (still_there _ _ _ (per_base s Hs)) as [Hc _]; [by rewrite Hr|].
  assert (requestCorrelateComplete s = false) as Hq.
  { apply not_true_iff_false. intros Hq. destruct (per_requested s Hs Hq). congruence. }
  assert (correlationComplete s = false) as Hcc.
  { apply not_true_iff_false. intros Hcc. destruct (per_complete s Hs Hcc). congruence. }
  split_and!; [|done..|].
  - destruct Hs. split; try assumption; simpl.
    + congruence.
    + intros i c. rewrite lookup_insert_Some, elem_of_app, list_elem_of_singleton.
      intros [[-> ->]|[_ Hi]]; [by right|left; by apply per_table0].
    + intros i p err c Ha. destruct (per_acking0 i p err c Ha). rewrite elem_of_app. by auto.
    + intros c err Hin. destruct (per_resolved0 c err Hin) as (i & ? & ?). exists i.
      rewrite elem_of_app. by auto.
  - exists (HoldTable :: l2). split; [by intros []|by apply q_Unlock].
Qed.

(** ** Acknowledgements *)

(** The context thread: whether it has announced the end, and what it handles. *)
Definition context_thread (b : bool) (a : option (acknowledgement * correlationContext)) : list mine :=
  [CompleteIs b; AckAt a].

Lemma fits_acking s b a l2 : qfits s (l2 ++ context_thread b a) →
  correlationComplete s = b ∧ acking s = a.
Proof using All.
  intros Hf. pose proof (Hf (CompleteIs b)) as H1. pose proof (Hf (AckAt a)) as H2.
  assert (∀ y, 1 ≤ own (context_thread b a) y → 1 ≤ own (l2 ++ context_thread b a) y) as Hl.
  { clear. intros y Hy. induction l2; simpl in *; lia. }
  pose proof (Hl (CompleteIs b) (own_here _ _)). pose proof (Hl (AckAt a) (own_second _ _ _)).
  simpl in H1, H2. repeat case_decide; simplify_eq; first [done|lia].
Qed.

Lemma q_lookup {B} id p err b a (k : option correlationContext → pp B) Q :
  (∀ b a, qproto [] (HoldTable :: context_thread b a) (k None) Q) →
  (∀ context, b = false →
     qproto [] (HoldTable :: context_thread false (Some (id, p, err, context))) (k (Some context)) Q) →
  qproto [] (HoldTable :: context_thread b a) (pbind (action (λ s,
    let found := correlationMap s !! id in
    AOk found (log_acknowledged (id, p, err)
      (set_acking ((λ c, (id, p, err, c)) <$> found) s)))) k) Q.
Proof using All.
  intros Hnone Hsome. apply q_act. intros s Hs _ Hf.
  destruct (fits_acking s b a [HoldTable] Hf) as [Hb Ha]. lazy zeta.
  destruct (correlationMap s !! id) as [context|] eqn:Hid; simpl.
  - assert (b = false) as ->.
    { destruct b; [|done]. destruct (per_complete s Hs Hb) as [_ Hm]. by rewrite Hm in Hid. }
    split_and!; [|done..|].
    + destruct Hs. split; try assumption; simpl.
      * intros i q e c [= <- <- <- <-]. rewrite elem_of_app, list_elem_of_singleton. auto.
      * intros c e Hin. destruct (per_resolved0 c e Hin) as (i & ? & ?). exists i.
        rewrite elem_of_app. by auto.
    + exists (HoldTable :: context_thread false (Some (id, p, err, context))).
      split; [unfold context_thread; here|by apply Hsome].
  - split_and!; [|done..|].
    + destruct Hs. split; try assumption; simpl; [done|].
      intros c e Hin. destruct (per_resolved0 c e Hin) as (i & ? & ?). exists i.
      rewrite elem_of_app. by auto.
    + exists (HoldTable :: context_thread b None). split; [unfold context_thread; here|apply Hnone].
Qed.

Lemma q_check_complete {B} a (k : unit → pp B) Q :
  (∀ b, qproto [] (HoldTable :: context_thread b a) (k tt) Q) →
  qproto [] (HoldTable :: context_thread false a) (pbind check_complete k) Q.
Proof using All.
  intros Hk. apply q_act. intros s Hs _ Hf. destruct (fits_acking s false a [HoldTable] Hf) as [Hb Ha].
  rewrite Hb. case_decide as Hst; [destruct (requestCorrelateComplete s) eqn:Hr;
    [destruct (size (correlationMap s) =? 0) eqn:Hsz|]|]; (split_and!; [|done..|]);
    try (exists (HoldTable :: context_thread false a); split; [done|apply Hk]); try done.
  - destruct Hs. split; try assumption. simpl. intros _. split; [done|].
    apply map_size_empty_inv. by apply Nat.eqb_eq.
  - exists (HoldTable :: context_thread true a). split; [unfold context_thread; here|apply Hk].
Qed.

Lemma q_ackHandler id p err b a (Q : unit → _ → Prop) :
  (∀ b a, Q tt (join (own []) (own (context_thread b a)))) →
  qproto [] (context_thread b a) (ackHandler id p err) Q.
Proof using All.
  intros HQ. apply q_Lock, q_lookup.
  - intros b' a'. apply q_Unlock, HQ.
  - intros context ->. apply q_Unlock, q_resolve.
    + intros s Hs Hf ->. destruct (fits_acking s _ _ [] Hf) as [_ Ha].
      exists id. by apply (per_acking s Hs).
    + apply q_Lock, q_forget, q_check_complete. intros b'. apply (q_Unlock _ _ PRet), HQ.
Qed.

Lemma q_onAcknowledgements acks b a : qproto [] (context_thread b a) (onAcknowledgements acks) anything.
Proof using All.
  revert b a. induction acks as [|[[id p] err] acks IH]; intros b a; [done|].
  apply q_load. intros []; [|apply IH]. apply proto_bind, q_ackHandler. intros. apply IH.
Qed.

(** ** Publishing and tasks *)

Lemma q_blockers {B} (k : nat → pp B) l1 l2 Q :
  (∀ c, qproto l1 l2 (k c) Q) → qproto l1 l2 (pbind acknowledgementChannel k) Q.
Proof using All.
  intros Hk. apply q_act. intros s Hs _ _. split_and!; [|done..|exists l2; split; [by intros []|apply Hk]].
  destruct Hs. split; try assumption. simpl. intros c ch.
  rewrite lookup_app_Some, list_lookup_singleton_Some. intros [Hc|(_ & _ & <-)]; [by apply per_blockers0|].
  split; [done|]. simpl. intros e He. by apply elem_of_nil in He.
Qed.

Lemma q_check {B} l1 l2 (k : option go_error → pp B) Q :
  (∀ err, qproto l1 l2 (k err) Q) → qproto l1 l2 (pbind (on_base checkStartedStateForPublish) k) Q.
Proof using All. intros Hk. apply q_base, proto_check. apply Hk. Qed.

Lemma q_publish e1 e2 e3 context (Q : option go_error → _ → Prop) :
  (∀ err, Q err (join (own []) (own []))) → qproto [] [] (publish e1 e2 e3 context) Q.
Proof using All.
  intros HQ. destruct e1; [apply HQ|]. destruct e2; [apply HQ|]. apply q_act. intros s Hs _ _.
  split_and!; [by destruct Hs|done..|]. exists []. split; [by intros []|]. cbn [pbind action].
  destruct e3; [apply HQ|]. apply q_check. intros [err|]; [apply HQ|]. apply q_direct.
  apply proto_unbind, q_base, proto_bind, proto_publish_buffered. intros err. apply HQ.
Qed.

Lemma q_await {B} c (k : option go_error → pp B) (Q : B → _ → Prop) f :
  f = await_acknowledgement c ∨ (∃ err, f = λ s, AOk err s) →
  (∀ err, qproto [] [] (k err) Q) → qproto [] [] (PAct f k) Q.
Proof using All.
  intros Hf Hk. apply q_act. intros s Hs _ _. destruct Hf as [->|[err ->]].
  - unfold await_acknowledgement, chan_recv. destruct (blockers s !! c) as [ch|] eqn:Hc; [|done].
    destruct (per_blockers s Hs c ch Hc) as [Ho He].
    destruct (chan_buf ch) as [|err l] eqn:Hl; [by rewrite Ho|].
    split_and!; [|done..|exists []; split; [by intros []|apply Hk]].
    destruct Hs. split; try assumption. simpl. intros c' ch'. rewrite list_lookup_insert_Some.
    intros [(-> & <- & _)|(_ & Hc')]; [|by apply per_blockers0]. split; [done|]. simpl.
    intros e Hin. apply He. by right.
  - split_and!; [done..|]. exists []. by split.
Qed.

Lemma q_PublishAwaitAcknowledgement msg d p a timer e1 e2 e3 :
  qproto [] [] (PublishAwaitAcknowledgement msg d p a timer e1 e2 e3) anything.
Proof using All.
  apply q_check. intros [err|]; [done|].
  destruct (duplicateMessageAndSetProperties msg d p) as [m|]; [|done]. destruct a; [done|].
  apply q_blockers. intros c. apply proto_bind, q_publish. intros [err|]; [done|].
  destruct timer.
  - intros s Hs Hf f Hin. revert s Hs Hf.
    assert (qproto [] [] (PAct f (PRet (S := persistentMessagePublisher) (A := option go_error))) anything)
      as Hact; [|exact Hact]. eapply q_await; [|done].
    apply elem_of_cons in Hin as [->|Hin%list_elem_of_singleton]; [by left|]. right. eauto.
  - eapply q_await; [by left|done].
Qed.

(** ** Tasks *)

Abbreviation at_ r := [Extra (RunnerAt r)].

Lemma q_finish_task pub r (Q : bool → _ → Prop) :
  Q true (join (own (at_ Idle)) (own [])) → qproto (at_ (Sent pub)) [] (finish_task pub r) Q.
Proof using All.
  intros HQ. apply q_load_base. intros s _.
  apply q_base, (proto_pop config size_ pub). intros [popped|]; [|apply HQ].
  cbn [pbind]. apply proto_bind.
  assert (qproto (at_ Idle) [] (let! reject := on_base (load is_reject) in
     (if (length (chan_buf (buffer s)) =? chan_cap (buffer s)) && reject
      then on_base DirectPublisher.notifyReady else PRet tt) ;;;; PRet true) Q) as Hrest.
  { apply q_load_base. intros s' _. destruct (_ && is_reject s'); [|apply HQ].
    apply q_base, proto_notifyReady, HQ. }
  destruct r as [info|]; [|exact Hrest].
  apply q_remove, (proto_unbind _ _ _ _ _ _ _), q_resolve_failed, Hrest.
Qed.

Lemma q_sendTask fuel pub (Q : bool → _ → Prop) :
  Q true (join (own (at_ Idle)) (own [])) → (∀ n, Q false n) →
  qproto (at_ (Sending pub)) [] (sendTask fuel pub) Q.
Proof using All.
  intros HQ HF. apply q_add, q_base, proto_bind.
  eapply proto_weaken; [|apply (proto_send_loop config size_)].
  intros [r| |] n Hn; lazy iota beta in Hn; subst n.
  - by apply (q_finish_task pub r).
  - by apply (q_remove _ (at_ Idle) []).
  - apply HF.
Qed.

Lemma q_run_tasks fuel : qproto (at_ Idle) [] (run_tasks fuel) anything.
Proof using All.
  induction fuel as [|fuel IH]; [done|]. apply q_base, proto_next_task; [|done]. intros pub.
  apply proto_bind, q_sendTask; [exact IH|done].
Qed.

(** ** Start and termination *)

#[local] Instance base_lifecycle : EmbedsLifecycle (S := publisher) (pub_inv config size_) pub_move
    DirectPublisher.gate DirectPublisher.spent DirectPublisher.extra := embeds config size_.
#[local] Instance base_starts : StartsFreely (S := publisher) (pub_inv config size_) pub_move :=
  pub_starts config size_.

Abbreviation section_permits ph := (join (grant DirectPublisher.gate ph) (own [])).
Abbreviation gproto n p Q := (proto per_inv per_move qheld qtotal n p Q).

Lemma q_update {B} (g : persistentMessagePublisher → persistentMessagePublisher) n
    (k : unit → pp B) Q :
  (∀ s, per_inv s → per_inv (g s)) →
  (∀ s, base (g s) = base s ∧ resolved (g s) = resolved s ∧
        ∀ y, held_here (g s) y = held_here s y) →
  gproto n (k tt) Q → gproto n (pbind (update g) k) Q.
Proof using All.
  intros Hi Hg Hk s Hs Hf. destruct (Hg s) as (Hb & Hr & Hh). split_and!; [by apply Hi| |].
  - split; [rewrite Hb; by apply pub_move_same|by rewrite Hr].
  - exists n. split; [|done]. intros [x|y]; simpl; rewrite ?Hb, ?Hh; lia.
Qed.

(** An operation of the base by the goroutine inside a section. *)
Lemma g_base {A B} (p : prog publisher A) (k : A → pp B) n1 l2 Q :
  bproto n1 (pbind p PRet) (λ a m, gproto (join m (own l2)) (k a) Q) →
  gproto (join n1 (own l2)) (pbind (on_base p) k) Q.
Proof using All.
  intros Hp. eapply proto_lift; [apply base_embeds|]. by apply proto_unbind.
Qed.

Lemma q_start_body :
  gproto (section_permits StartPhase) start_body
    (λ _ n, ∃ m, n = join m (own []) ∧ m (InPhase StartPhase) = 1).
Proof using All.
  apply g_base, proto_update; [by intros s []|done|].
  apply q_update; [by intros s []|intros s; split_and!; [done..|by intros []]|].
  apply g_base, proto_load_inv. intros s _. apply proto_bind.
  destruct (is_direct s);
    (apply proto_unbind, g_base, proto_update; [by intros t []|done|by eexists]).
Qed.

Lemma q_Start : qproto [] [] Start anything.
Proof using All.
  apply g_base, proto_bind, proto_starting; try apply _; [intros err; exact I|].
  apply proto_bind. eapply proto_weaken; [|apply q_start_body].
  intros [err|] n (m & -> & Hm).
  - apply g_base, (proto_terminated _ _ _ _ _ StartPhase); try apply _; [done|].
    apply g_base, proto_complete_start; try apply _. done.
  - apply g_base, proto_started; try apply _; done.
Qed.

Lemma q_drain_loop fuel k err l l2 (Q : nat → _ → Prop) :
  fuel + k = S size_ →
  (∀ n, Q n (join (own (Extra (DrainAt n) :: l)) (own l2))) →
  qproto (Extra (DrainAt k) :: l) l2 (drain_loop fuel k err) Q.
Proof using All.
  intros Hfuel HQ. revert k Hfuel. induction fuel as [|fuel IH]; intros k Hfuel.
  { apply q_act. intros s Hs Hf _.
    pose proof (drain_bound _ _ _ _ _ (per_base s Hs) Hf). simpl in *. lia. }
  apply q_base, proto_drain_next; [|apply HQ]. intros pub.
  apply (q_resolve_failed _ _ (Extra (DrainAt (S k)) :: l) l2), IH. lia.
Qed.

Lemma q_drainQueue err b l l2 (Q : nat → _ → Prop) :
  (∀ n, Q n (join (own (Extra (DrainAt n) :: Extra (Ending b) :: l)) (own l2))) →
  qproto (Once CloseBuffer :: Extra (Ending b) :: l) l2 (drainQueue err) Q.
Proof using All.
  intros HQ. apply q_base, proto_close_buffer, (q_load_base _ _ l2). intros s Hs.
  rewrite (inv_size _ _ _ Hs). apply (q_drain_loop _ _ _ _ l2); [lia|done].
Qed.

Lemma q_drain_entries entries n err l1 l2 (Q : nat → _ → Prop) :
  (∀ n, Q n (join (own l1) (own l2))) → qproto l1 l2 (drain_entries entries n err) Q.
Proof using All.
  intros HQ. revert n. induction entries as [|[key value] entries IH]; intros n; [apply HQ|].
  apply q_resolve_failed, q_forget, IH.
Qed.

Lemma q_drainAckTable err l1 l2 (Q : nat → _ → Prop) :
  (∀ n, Q n (join (own l1) (own l2))) → qproto l1 l2 (drainAckTable err) Q.
Proof using All.
  intros HQ. apply q_Lock, q_load. intros entries. apply proto_bind, q_drain_entries.
  intros n. apply q_Unlock, HQ.
Qed.

Lemma q_report undelivered unacked l1 l2 (Q : option go_error → _ → Prop) :
  (∀ err, Q err (join (own l1) (own l2))) →
  qproto l1 l2 (report_incomplete undelivered unacked) Q.
Proof using All.
  intros HQ. unfold report_incomplete. destruct (_ || _); [|apply HQ].
  apply q_base, proto_update; [by intros s []|done|apply HQ].
Qed.

(** The end of a termination, from the drain of the table on. *)
Lemma q_end undelivered err l1 (Q : option go_error → _ → Prop) :
  (∀ err, Q err (join (own l1) (own []))) →
  qproto l1 [] (let! unackedCount := drainAckTable err in
    let! err := report_incomplete undelivered unackedCount in
    on_base executor_Terminate ;;;; PRet err) Q.
Proof using All.
  intros HQ. apply proto_bind, q_drainAckTable. intros n. apply proto_bind, q_report.
  intros e. apply q_base, proto_executor_Terminate, HQ.
Qed.

(** Closing the wait signal gives the right to ask for the end of the acknowledgements. *)
Lemma q_close_wait {B} l (k : unit → pp B) Q :
  qproto l [MayRequest] (k tt) Q →
  qproto (Once CloseWait :: l) []
    (pbind (on_base (close_signal waitInterrupt set_waitInterrupt)) k) Q.
Proof using All.
  intros Hk s Hs Hf. unfold lift_act.
  assert (bproto (own (Once CloseWait :: l)) (close_signal waitInterrupt set_waitInterrupt)
            (λ _ n, n = own l)) as Hb.
  { apply proto_unbind, proto_close; [done| |intros t; split_and!; [done..|by intros []]|done].
    intros t Ht Hp. by apply (signals_inv _ _ t (tasks t) true). }
  specialize (Hb (base s) (per_base s Hs) (λ x, Hf (inl x))).
  destruct (fits_once _ _ _ (λ x, Hf (inl x))) as [_ Hw]. simpl in Hw.
  lazy beta in Hb |- *. rewrite Hw in *. destruct Hb as (Ht & Hm & n & Hn & Heq). rewrite Heq in Hn.
  destruct (part_move base set_base (pub_inv config size_) pub_move per_inv per_move held_here
    (Embeds := base_embeds) s _ Hs Ht Hm) as [Hs' Hm'].
  split_and!; [done..|]. exists (join (own l) (own [MayRequest])). split; [|done].
  intros [x|y]; [apply Hn|]. specialize (Hf (inr y)).
  assert (requestCorrelateComplete s = false) as Hq.
  { apply not_true_iff_false. intros Hq. destruct (per_requested s Hs Hq). congruence. }
  destruct y; simpl; rewrite ?Hw, ?Hq; simpl; lia.
Qed.

Lemma q_await_acknowledgements timer l (Q : unit → _ → Prop) :
  Q tt (join (own (Extra (Ending true) :: l)) (own [])) →
  qproto (Extra (Ending true) :: l) [MayRequest] (await_acknowledgements timer) Q.
Proof using All.
  intros HQ. apply q_Lock, q_load. intros remainingAcks. apply q_act. intros s Hs Hf1 Hf2.
  assert (waitInterrupt (base s) = true ∧ requestCorrelateComplete s = false) as [Hw Hq].
  { specialize (Hf2 MayRequest). simpl in Hf2.
    destruct (waitInterrupt (base s)), (requestCorrelateComplete s); simpl in Hf2; first [done|lia]. }
  assert (is_complete (base s) = true) as Hc.
  { by apply (inv_ending _ _ _ (per_base s Hs)), (fits_ending _ _ _ Hf1). }
  rewrite Hq. split_and!; [|done..|].
  { destruct Hs. split; try assumption; simpl; [done|]. intros Hcc. by destruct (per_complete0 Hcc). }
  exists [HoldTable]. split; [here; rewrite ?Hw, ?Hq; simpl; lia|].
  apply (q_Unlock _ []). lazy beta. destruct (0 <? remainingAcks); [|apply HQ]. destruct timer.
  - intros s' Hs' Hf f Hin. revert s' Hs' Hf.
    assert (qproto (Extra (Ending true) :: l) [] (PAct f PRet) Q) as Hact; [|exact Hact].
    apply q_act. intros s' Hs' _ _.
    apply elem_of_cons in Hin as [->|Hin%list_elem_of_singleton]; [|subst f].
    + destruct (correlationComplete s'); [|done]. split_and!; [done..|]. exists []. by split.
    + split_and!; [done..|]. exists []. by split.
  - apply q_act. intros s' Hs' _ _. destruct (correlationComplete s'); [|done].
    split_and!; [done..|]. exists []. by split.
Qed.

Abbreviation base_permits := (list (lc_permit once (@DirectPublisher.mine persistentPublishable))).

(** A section's goroutine gives up what is not of the base. *)
Definition leaves (ph : phase) (n : lc_permit once (@DirectPublisher.mine persistentPublishable) + mine → nat) : Prop :=
  (∀ y, n (inr y) = 0) ∧ n (inl (InPhase ph)) = 1.

Lemma g_norm {B} n (p : pp B) : (∀ y, n (inr y) = 0) →
  gproto (join (λ x, n (inl x)) (own [])) p anything → gproto n p anything.
Proof using All.
  intros Hn Hp. eapply proto_ext; [|done|exact Hp]. intros [x|y]; simpl; [done|by rewrite Hn].
Qed.

Lemma g_section ph l p (Q : option go_error → _ → Prop) :
  (∀ x, grant DirectPublisher.gate ph x = own l x) → (∀ b m m', (∀ x, m x = m' x) → Q b m → Q b m') →
  qproto l [] p Q → gproto (section_permits ph) p Q.
Proof using All.
  intros Hl HQ Hp. eapply proto_ext; [|exact HQ|exact Hp]. intros [x|y]; simpl; [by rewrite Hl|done].
Qed.

Lemma leaves_ext ph (b : option go_error) m m' :
  (∀ x, m x = m' x) → leaves ph m → leaves ph m'.
Proof using All. intros Hm [H1 H2]. split; [intros y; by rewrite <-Hm|by rewrite <-Hm]. Qed.

Ltac reorder l1 l2 := apply (proto_drop _ _ _ _ _ (join (own l1) (own l2)));
  [done|intros [[[]|[]|[]]|[]]; simpl; repeat case_decide; simplify_eq; lia|].

Lemma q_terminate_body timer :
  gproto (section_permits TermPhase) (terminate_body timer) (λ _, leaves TermPhase).
Proof using All.
  eapply g_section; [apply grant_own|apply leaves_ext|].
  apply q_base, proto_update; [by intros s []|done|]. apply q_direct, proto_bind. lazy iota.
  reorder (end_permits [Once ChooseEnding; Once CloseBuffer; InPhase TermPhase] : base_permits)
    ([] : list mine).
  apply q_close_wait, proto_unbind, q_base,
    (proto_taskBuffer_Terminate _ _ timer [Once CloseBuffer; InPhase TermPhase]). intros graceful.
  cbn [pbind].
  assert (qproto (Extra (Ending true) :: [Once CloseBuffer; InPhase TermPhase]) []
    (update (set_acknowledgementHandler false) ;;;;
     let! undeliveredCount := drainQueue (Some publisherTerminatedError) in
     let! unackedCount := drainAckTable (Some publisherTerminatedError) in
     let! err := report_incomplete undeliveredCount unackedCount in
     on_base executor_Terminate ;;;; PRet err) (λ _, leaves TermPhase)) as Hrest.
  { apply q_update; [by intros s []|intros s; split_and!; [done..|by intros []]|].
    apply proto_bind.
    reorder ([Once CloseBuffer; Extra (Ending true); InPhase TermPhase] : base_permits) ([] : list mine).
    apply (q_drainQueue _ _ _ []). intros n.
    apply (q_end _ _ [Extra (DrainAt n); Extra (Ending true); InPhase TermPhase]). done. }
  apply proto_bind. destruct graceful.
  - apply q_await_acknowledgements, Hrest.
  - refine (proto_drop _ _ _ _ (join _ (own [MayRequest])) _ _ _ _ _ Hrest); [done|].
    intros [x|[]]; simpl; lia.
Qed.

Lemma q_section_end err (k : unit → pp (option go_error)) n :
  leaves TermPhase n →
  (∀ l2, gproto (join no_permit (own l2)) (k tt) anything) →
  gproto n (pbind (on_base (terminated err)) k) anything.
Proof using All.
  intros [H1 H2] Hk. apply g_norm; [done|].
  apply g_base, (proto_terminated _ _ _ _ _ TermPhase); try apply _; [done|]. apply Hk.
Qed.

Lemma q_Terminate timer : qproto [] [] (Terminate timer) anything.
Proof using All.
  apply g_base, proto_bind, proto_terminate; try apply _; [intros err; exact I|].
  apply proto_bind. eapply proto_weaken; [|apply q_terminate_body].
  intros err n Hn. by apply q_section_end.
Qed.

Lemma q_unsolicited_body cause :
  gproto (section_permits TermPhase) (unsolicited_body cause) (λ _, leaves TermPhase).
Proof using All.
  eapply g_section; [apply grant_own|apply leaves_ext|].
  reorder (Once ChooseEnding :: end_permits [Once CloseBuffer; InPhase TermPhase] : base_permits)
    ([] : list mine).
  apply q_base. intros s Hs Hf.
  destruct (choose_ok _ _ false s _ Hs Hf) as (Hs' & Hm & Hc); [done|].
  split_and!; [by destruct Hs'|done|].
  exists (own (end_permits [Once CloseBuffer; Extra (Ending false); InPhase TermPhase])). split.
  { intros x. specialize (Hc x). etrans; [|exact Hc]. clear.
    destruct x as [[]|[]|[]]; simpl; repeat case_decide; simplify_eq; first [done|lia]. }
  apply (q_update _ (join _ (own []))); [by intros t []|intros t; split_and!; [done..|by intros []]|].
  apply q_direct, proto_bind. lazy iota.
  apply q_close_wait, q_base, (pub_proto_TerminateNow _ _ [Once CloseBuffer; Extra (Ending false);
    InPhase TermPhase]), (q_drainQueue _ _ _ [MayRequest]). intros n.
  reorder ([Extra (DrainAt n); Extra (Ending false); InPhase TermPhase] : base_permits) ([] : list mine).
  by apply q_end.
Qed.

Lemma q_unsolicitedTermination cause listener :
  qproto [] [] (unsolicitedTermination cause listener) anything.
Proof using All.
  apply g_base, proto_bind, proto_terminate; try apply _; [intros err; exact I|].
  apply proto_bind. eapply proto_weaken; [|apply q_unsolicited_body].
  intros err n Hn. apply q_section_end; [done|]. intros l2. apply proto_bind.
  destruct listener; [|done]. apply proto_unbind, g_base, proto_update; [by intros s []|done|done].
Qed.
End persistent_publisher.

(** * The calls of an application *)

Section theorems.
Context {M U : Type} `{!EqDecision M} `{!EqDecision U}.
Context (order : gmap Z (@correlationContext M U) → list (Z * @correlationContext M U)).

(** A call of the application, a goroutine of the session's events, the service going up or
    down; [e1], [e2] and [e3] are the errors of preparing the message. *)
Inductive call : Type :=
| CallPublishBytes (built : M + go_error) (noContext : U) (e1 e2 e3 : option go_error)
| CallPublishString (built : M + go_error) (noContext : U) (e1 e2 e3 : option go_error)
| CallPublish (msg : M + string) (duplicate setProperties : option go_error) (context : U)
    (e1 e2 e3 : option go_error)
| CallPublishAwaitAcknowledgement (msg : M + string)
    (duplicate setProperties setAckImmediately : option go_error) (timer : bool)
    (e1 e2 e3 : option go_error)
| CallSetListener (listener : bool)
| CallStart
| CallTerminate (timer : bool)
| CallDown (cause : option go_error) (listener : bool)
| CallCanSend
| CallNotifyWhenReady
| ParentChange (up : bool).

Definition call_prog (c : call) : prog (@persistentMessagePublisher M U) (option go_error) :=
  match c with
  | CallPublishBytes built noContext e1 e2 e3 => PublishBytes built noContext e1 e2 e3
  | CallPublishString built noContext e1 e2 e3 => PublishString built noContext e1 e2 e3
  | CallPublish msg d p u e1 e2 e3 => Publish msg d p u e1 e2 e3
  | CallPublishAwaitAcknowledgement msg d p a timer e1 e2 e3 =>
      PublishAwaitAcknowledgement msg d p a timer e1 e2 e3
  | CallSetListener listener => SetMessagePublishReceiptListener listener ;;;; PRet None
  | CallStart => Start
  | CallTerminate timer => Terminate order timer
  | CallDown cause listener => unsolicitedTermination order cause listener
  | CallCanSend => notifyReady ;;;; PRet None
  | CallNotifyWhenReady => NotifyWhenReady ;;;; PRet None
  | ParentChange up => on_base (update (set_parent up)) ;;;; PRet None
  end.

(** A publisher, the goroutine of its task buffer, the context thread with its acknowledgements
    and any calls. *)
Definition scene (fuel : nat) (acks : list acknowledgement) (calls : list call)
    (s : @persistentMessagePublisher M U)
    : @persistentMessagePublisher M U * list (prog (@persistentMessagePublisher M U) (option go_error)) :=
  (s, run_tasks fuel :: onAcknowledgements acks :: (call_prog <$> calls)).

Section buffered.
Context (config : backpressureConfiguration) (bufferSize : nat).
Context (Hbuffered : config ≠ BackpressureDirect).

Abbreviation size_ := (size_of config bufferSize).
Abbreviation bheld := (lc_held (S := @publisher (@persistentPublishable M U))
  DirectPublisher.gate DirectPublisher.spent DirectPublisher.extra).
Abbreviation qheld := (whole_held base bheld held_here).
Abbreviation qtotal := (whole_total lc_total (λ _ : @mine M U, 1)).
Abbreviation ok := (pool_ok (per_inv config size_) per_move qheld qtotal).

Lemma q_call c : proto (per_inv config size_) per_move qheld qtotal (join (own []) (own []))
  (call_prog c) anything.
Proof using All.
  destruct c as [built noContext e1 e2 e3|built noContext e1 e2 e3|msg d p u e1 e2 e3|msg d p a timer e1 e2 e3|
    listener| |timer|cause listener| | |up]; cbn [call_prog].
  - apply (q_check order config size_ Hbuffered). intros [err|]; [done|]. destruct built;
      [by apply (q_publish order config size_ Hbuffered)|done].
  - apply (q_check order config size_ Hbuffered). intros [err|]; [done|]. destruct built;
      [by apply (q_publish order config size_ Hbuffered)|done].
  - apply (q_check order config size_ Hbuffered). intros [err|]; [done|].
    destruct (duplicateMessageAndSetProperties msg d p);
      [by apply (q_publish order config size_ Hbuffered)|done].
  - by apply (q_PublishAwaitAcknowledgement order config size_ Hbuffered).
  - apply (q_update order config size_ Hbuffered);
      [by intros s []|intros s; split_and!; [done..|by intros []]|done].
  - by apply (q_Start order config size_ Hbuffered).
  - by apply (q_Terminate order config size_ Hbuffered).
  - by apply (q_unsolicitedTermination order config size_ Hbuffered).
  - unfold notifyReady. by apply (q_base config size_ _ _ [] []), proto_notifyReady.
  - unfold NotifyWhenReady. apply (q_base config size_ _ _ [] []).
    unfold DirectPublisher.NotifyWhenReady, DirectPublisher.IsReady, IsRunning.
    apply proto_bind, proto_load_inv. intros s1 _. destruct (bool_decide _); [|done].
    apply proto_load_inv. intros s2 _. case_match; [|done]. apply proto_unbind. by apply proto_notifyReady.
  - by apply (q_base config size_ _ _ [] []), proto_update; [intros s []| |].
Qed.

Lemma construct_per_inv up readiness receipt answers :
  per_inv config size_ (construct (M:=M) (U:=U) up config bufferSize readiness receipt answers).
Proof using Type.
  split; simpl; try done.
  - apply construct_inv.
  - intros c err Hin. by apply elem_of_nil in Hin.
  - intros r Hr. by apply elem_of_nil in Hr.
Qed.

Lemma persistent_scene_ok fuel acks calls up readiness receipt answers :
  ok (scene fuel acks calls (construct up config bufferSize readiness receipt answers)).
Proof using All.
  exists (join (own [Extra (RunnerAt Idle)]) (own []) :: join (own []) (own (context_thread false None))
          :: replicate (length calls) (join (own []) (own []))). split_and!.
  - apply construct_per_inv.
  - constructor; [by apply (q_run_tasks order config size_ Hbuffered)|].
    constructor; [by apply (q_onAcknowledgements order config size_ Hbuffered)|]. simpl.
    induction calls as [|c calls IH]; simpl; constructor; [apply q_call|done].
  - intros x.
    assert (sum_list ((λ n, n x) <$> replicate (length calls)
      (join (own []) (own []) : lc_permit once _ + mine → nat)) = 0) as Hz.
    { rewrite fmap_replicate. destruct x; simpl; induction (length calls); done. }
    change (qheld (construct up config bufferSize readiness receipt answers) x +
      (join (own [Extra (RunnerAt Idle)]) (own []) x +
       (join (own []) (own (context_thread false None)) x +
        sum_list ((λ n, n x) <$> replicate (length calls) (join (own []) (own []))))) ≤ qtotal x).
    rewrite Hz. destruct x as [[[]|[]|[]]|[]]; simpl; repeat case_decide; simplify_eq; try lia; done.
Qed.
End buffered.

Lemma per_moves (s s' : @persistentMessagePublisher M U) : rtc per_move s s' →
  rtc pub_move (base s) (base s') ∧ resolved s `prefix_of` resolved s'.
Proof using Type.
  induction 1 as [s|s1 s2 s3 [Hb Hr] _ [IHb IHr]]; [done|]. split; [by eapply rtc_l|by etrans].
Qed.

(** C27: a buffered persistent publisher never panics, whatever the application, the session, the
    service and the acknowledgements of the broker do, in any interleaving with the task
    goroutine; its state moves along the lifecycle and its buffer is accounted for as that of
    the direct publisher; and no receipt lies: a receipt that says that its message is persisted
    is for a message whose context was in the table under an identifier that the broker
    acknowledged as persisted, with the error of that acknowledgement.  No resolution of a
    context is ever taken back. *)
Theorem receipts_are_truthful config bufferSize up readiness receipt answers fuel acks calls s ts :
  config ≠ BackpressureDirect →
  pool_steps (scene fuel acks calls (construct up config bufferSize readiness receipt answers)) (s, ts) →
  ¬ pool_panics (s, ts) ∧
  rtc lstate_move NotStarted (state_of (base s)) ∧
  accepted (past (base s)) = (taken (past (base s))).*1 ++ chan_buf (buffer (base s)) ∧
  (∀ n, reported (past (base s)) = Some n →
     chan_buf (buffer (base s)) = [] ∧ n = length (drained (base s))) ∧
  (∀ r, r ∈ receipts s → persisted r = true → ∃ id,
     (id, callbackCorrelationContext (message r) (userContext r)) ∈ registered s ∧
     (id, true, receipt_err r) ∈ acknowledged s) ∧
  (∀ s' ts', pool_steps (s, ts) (s', ts') → resolved s `prefix_of` resolved s').
Proof using All.
  intros Hcfg Hsteps.
  destruct (pool_steps_ok _ _ _ _ _ _ (persistent_scene_ok config bufferSize Hcfg fuel acks calls up
    readiness receipt answers) Hsteps) as [Hok Hmoves].
  pose proof (pool_ok_inv _ _ _ _ _ Hok) as Hs. simpl in Hs.
  pose proof (per_base _ _ _ Hs) as Hb. split_and!.
  - by eapply pool_ok_no_panic.
  - apply per_moves in Hmoves as [Hm _]. by apply pub_moves in Hm as [? _].
  - apply (inv_fifo _ _ _ Hb).
  - intros n Hn. destruct (inv_reported _ _ _ Hb n Hn) as [Hd ?].
    split; [done|]. by rewrite (inv_drained _ _ _ Hb), Hd.
  - intros r Hr Hp. apply (per_resolved _ _ _ Hs). pose proof (per_receipts _ _ _ Hs r Hr) as Hin.
    by rewrite Hp in Hin.
  - intros s' ts' Hsteps'. destruct (pool_steps_ok _ _ _ _ _ _ Hok Hsteps') as [_ Hmoves'].
    by apply per_moves in Hmoves' as [_ ?].
Qed.
End theorems.

(** * The builder *)

(** The builder is that of the direct publisher, from defaults of its own. *)
Definition DefaultPersistentPublisherProperties : gmap string Sdt.data :=
  {[ PublisherPropertyBackPressureBufferCapacity := Sdt.DInt 50;
     PublisherPropertyBackPressureStrategy := Sdt.DString BufferWaitWhenFull ]}.
Definition NewPersistentMessagePublisherBuilderImpl : gmap string Sdt.data :=
  DefaultPersistentPublisherProperties.
Definition OnBackPressureReject : Z → gmap string Sdt.data → gmap string Sdt.data := Validation.OnBackPressureReject.
Definition OnBackPressureWait : Z → gmap string Sdt.data → gmap string Sdt.data := Validation.OnBackPressureWait.
Definition FromConfigurationProvider : option (list (string * Sdt.data)) → gmap string Sdt.data → gmap string Sdt.data :=
  Validation.FromConfigurationProvider.
Definition Build `{!Sdt.GoArch} : gmap string Sdt.data → res go_error (backpressureConfiguration * option Z) :=
  Validation.Build.

(** * Concrete runs *)

Definition table_order (m : gmap Z (@correlationContext nat nat)) := map_to_list m.

Definition publish_call (m u : nat) : call := CallPublish (inl m) None None u None None None.

Definition example_scene :=
  scene table_order 5 [(1%Z, true, None)] [CallStart; publish_call 7 9]
    (construct true BackpressureWait 2 true true []).

Lemma receipts_are_truthful_witness : ∃ s ts, pool_steps example_scene (s, ts) ∧
  receipts s = [mkReceipt 9 7 None true] ∧ ¬ pool_panics (s, ts) ∧
  ∃ id, (id, callbackCorrelationContext 7 9) ∈ registered s ∧ (id, true, None) ∈ acknowledged s.
Proof.
  destruct (plays_to_steps [(2, 9); (3, 9); (0, 8); (1, 10)] example_scene
    (λ s, bool_decide (receipts s = [mkReceipt 9 7 None true]))) as (s & ts & Hs & Hr%bool_decide_eq_true);
    [by vm_compute|].
  exists s, ts.
  destruct (receipts_are_truthful table_order BackpressureWait 2 true true true [] 5 _ _ s ts
    ltac:(done) Hs) as (Hp & _ & _ & _ & Ht & _).
  split_and!; [done..|]. apply (Ht (mkReceipt 9 7 None true)); [|done]. rewrite Hr. by left.
Defined.

(** Without a buffer the publisher can crash.  A publish that has passed its check of the state
    when Terminate begins puts its context in the table after the acknowledgement of the last
    message has closed the channel that Terminate waits on; its own acknowledgement closes
    the channel again, on the context thread. *)
Theorem late_publish_closes_twice :
  ∃ c, pool_steps
    (scene table_order 5 [(1%Z, true, None); (2%Z, true, None)]
       [CallStart; publish_call 7 9; publish_call 8 9; CallTerminate true]
       (construct true BackpressureDirect 0 true true [])) c ∧
    pool_panics c.
Proof.
  apply (plays_panic_steps [(2, 9); (3, 8); (4, 4); (5, 8); (1, 10); (4, 4); (1, 8)] 1).
  by vm_compute.
Qed.

(** Terminate with a negative grace period can wait forever.  It counts a context that the
    publish takes out of the table again because the session does not accept the message;
    no acknowledgement will come, and nobody closes the channel. *)
Theorem terminate_waits_forever :
  ∃ s ts, pool_steps
    (scene table_order 5 [] [CallStart; publish_call 7 9; CallTerminate false]
       (construct true BackpressureDirect 0 true true [Some (mkErrorInfo ReturnCodeWouldBlock None)]))
    (s, ts) ∧
    (correlationMap s = ∅ ∧ (returned <$> ts) !! 3 = Some (Some (Some overflow_error)) ∧
     (returned <$> ts) !! 4 = Some None ∧ state_of (base s) = Terminating) ∧
    ∀ c, ¬ pool_step (s, ts) c.
Proof.
  destruct (plays_out_steps [(2, 9); (3, 8); (4, 8); (3, 3)]
    (scene table_order 5 [] [CallStart; publish_call 7 9; CallTerminate false]
       (construct true BackpressureDirect 0 true true [Some (mkErrorInfo ReturnCodeWouldBlock None)]))
    (λ s rs, bool_decide (correlationMap s = ∅ ∧ rs !! 3 = Some (Some (Some overflow_error)) ∧
       rs !! 4 = Some None ∧ state_of (base s) = Terminating)))
    as (s & ts & Hs & Hc%bool_decide_eq_true & Hw); [by vm_compute|]. by exists s, ts.
Qed.

(** A message can be given two receipts and be counted twice.  When the service goes down while
    the task of a message waits for the session, the message is in the buffer and its context
    in the table; both are drained before the task wakes up and takes the context out. *)
Theorem interrupted_message_resolved_twice :
  ∃ s ts, pool_steps
    (scene table_order 5 [] [CallStart; publish_call 7 9; CallDown None true]
       (construct true BackpressureWait 2 false true [Some (mkErrorInfo ReturnCodeWouldBlock None)]))
    (s, ts) ∧
    (accepted (past (base s)) = [mkPersistentPublishable 1 (callbackCorrelationContext 7 9)] ∧
     receipts s = [mkReceipt 9 7 None false; mkReceipt 9 7 None false] ∧
     terminateFuture (machine (base s)) = mkFuture true (Some (incomplete_error 1 1))) ∧
    ∀ c, ¬ pool_step (s, ts) c.
Proof.
  destruct (plays_out_steps [(2, 9); (3, 9); (0, 5); (4, 25); (0, 5)]
    (scene table_order 5 [] [CallStart; publish_call 7 9; CallDown None true]
       (construct true BackpressureWait 2 false true [Some (mkErrorInfo ReturnCodeWouldBlock None)]))
    (λ s rs, bool_decide
      (accepted (past (base s)) = [mkPersistentPublishable 1 (callbackCorrelationContext 7 9)] ∧
       receipts s = [mkReceipt 9 7 None false; mkReceipt 9 7 None false] ∧
       terminateFuture (machine (base s)) = mkFuture true (Some (incomplete_error 1 1)))))
    as (s & ts & Hs & Hc%bool_decide_eq_true & Hw); [by vm_compute|]. by exists s, ts.
Qed.
