(* ===== verification/DirectReceiver.v ===== *)
(** The direct receiver: internal/impl/receiver/direct_message_receiver_impl.go, but for its
    cache requests, which are in ReceiverCache.

    The operations of the application, the goroutine of the asynchronous handler, the context
    thread of the C library and the goroutines that the receiver starts are programs of atomic
    actions over one shared state.  The context thread handles one message at a time and holds
    the lock of the core receiver for reading while it does (CoreReceiver), which
    [UnregisterRXCallback] takes for writing.  A [go] statement leaves its goroutine in a list, from
    which any worker takes it.  What the session answers to a subscription is read from a
    list, which every theorem leaves arbitrary.  The fields of [history] record what happened
    and are read by no program. *)

From Stdlib Require Import ZArith Lia Ascii.
From stdpp Require Import base list gmap relations strings.
From S2P Require Import Prelude GoStrconv GoEffects GoConc Errors Resource Sdt Lifecycle Validation.

(** * Errors *)

Definition UnableToModifySubscriptionBadState (st : lstate) : go_error :=
  NewError IllegalStateError ("unable to modify subscriptions in state " +:+ stateName st) None.
Definition unsupported_subscription (typeName : string) : go_error :=
  NewError IllegalArgumentError
    ("DirectMessageReceiver does not support subscriptions of type " +:+ typeName) None.
Definition ReceiverCannotReceiveNotStarted : go_error :=
  NewError IllegalStateError "receiver has not yet been started, no messages to receive" None.
Definition ReceiverCannotReceiveAlreadyTerminated : go_error :=
  NewError IllegalStateError "receiver has been terminated, no messages to receive" None.
Definition ReceiverTimedOutWaitingForMessage : go_error :=
  NewError TimeoutError "timed out waiting for message on call to Receive" None.
Definition UnableToRegisterCallbackReceiverTerminating : go_error :=
  NewError IllegalStateError "cannot register message handler, receiver is not running" None.
Definition nil_callback_error : go_error :=
  NewError IllegalArgumentError "callback may not be nil" None.
Definition FailedToAddSubscription : string := "failed to add subscription to receiver: ".
Definition undelivered_error (n : nat) : go_error :=
  NewError IncompleteMessageDeliveryError
    ("failed to dispatch messages, receiver terminated with " +:+ sprint_int (Z.of_nat n) +:+
     " undelivered messages") None.

(** A subscription, or the name of a type that is no topic subscription. *)
Definition Subscription : Type := TopicSubscription + string.

Definition checkDirectMessageReceiverSubscriptionType (subscription : Subscription) : option go_error :=
  match subscription with inl _ => None | inr typeName => Some (unsupported_subscription typeName) end.

Definition subscription_name (subscription : Subscription) : string :=
  match subscription with inl t => subscription_topic t | inr name => name end.

Inductive receiverBackpressureStrategy : Type := strategyDropOldest | strategyDropLatest.

#[export] Instance strategy_eq_dec : EqDecision receiverBackpressureStrategy.
Proof. solve_decision. Defined.

Section direct_receiver.
(** Messages of the C library, and handlers of the application. *)
Context {M MessageHandler : Type} `{!EqDecision M}.

(** * State *)

Record directInboundMessage : Type := mkInbound { pointer : M; discard : bool }.

#[export] Instance directInboundMessage_eq_dec : EqDecision directInboundMessage.
Proof using EqDecision0. solve_decision. Defined.

(** The readers of [subscriptionTerminationLock], each under a number of its own with whether
    it has found the receiver started, the next number, and whether a writer holds the lock. *)
Record termination_lock : Type := mkTermination {
  readers : gmap nat bool;
  next_reader : nat;
  writer : bool;
}.

(** What the session answers to a request: an error at once, or the error of its event. *)
Definition session_answer : Type := option ErrorInfo * option go_error.

(** Goroutines to be started, besides the one of [run]. *)
Inductive goroutine : Type :=
| GoStart
| GoTerminate
| GoUnsolicited (cause : option go_error) (listener : bool)
| GoAddSubscription (subscription : Subscription) (listener : bool)
| GoRemoveSubscription (subscription : Subscription) (listener : bool).

(** What they tell the application, on a channel or through a listener. *)
Inductive async_result : Type :=
| Completed (err : option go_error)
| SubscriptionChanged (subscription : Subscription) (added : bool) (err : option go_error).

(** What the context thread is doing: nothing, about to push a message, about to push one for
    which there is room, about to answer whether the message is kept, after a metric. *)
Inductive pending_metric : Type := NoMetric | CountTermination | CountBackpressure.
Inductive context_state : Type :=
| ContextFree
| Entered (m : M)
| MustSend (m : M) (dropped : bool)
| Decided (m : M) (kept : bool) (pending : pending_metric).

(** The goroutine of [run], and the message it has taken and not yet handed over. *)
Inductive runner_state : Type := NotSpawned | Spawned | Running (hand : option M) | Finished.

(** Who took a message off the buffer; why a message was not put there. *)
Inductive fate : Type := Received | Handed | Dropped | Drained.
Inductive refusal : Type := Late | Latest.

#[export] Instance pending_metric_eq_dec : EqDecision pending_metric.
Proof using Type. solve_decision. Defined.
#[export] Instance context_state_eq_dec : EqDecision context_state.
Proof using EqDecision0. solve_decision. Defined.
#[export] Instance runner_state_eq_dec : EqDecision runner_state.
Proof using EqDecision0. solve_decision. Defined.
#[export] Instance fate_eq_dec : EqDecision fate.
Proof using Type. solve_decision. Defined.
#[export] Instance refusal_eq_dec : EqDecision refusal.
Proof using Type. solve_decision. Defined.

(** [context], [runner]: where these goroutines are; the messages that arrived, those
    pushed, those taken off the buffer, those turned away, the answers to the C library, the
    messages freed; how often the callback has recovered from a closed buffer; the calls of
    handlers; the requests of the session, [true] to subscribe; whether the termination has
    begun to remove the subscriptions; the number of messages it has reported; the calls of the
    termination listener. *)
Record history : Type := mkHistory {
  context : context_state;
  runner : runner_state;
  arrived : list M;
  pushed : list M;
  taken : list (M * fate);
  turned : list (M * refusal);
  answered : list (M * bool);
  freed : list M;
  recovered : nat;
  called : list (MessageHandler * M);
  session_calls : list (bool * string);
  cleaned : bool;
  reported : option nat;
  listened : list (option go_error);
}.

Record receiver : Type := mkReceiver {
  machine : lifecycle;
  parent : bool;
  shareName : option ShareName;
  backpressureStrategy : receiverBackpressureStrategy;
  subscriptionsLock : bool;
  subscriptionTerminationLock : termination_lock;
  subscriptions : list string;
  subscriptionsSynchronizationLock : bool;
  buffer : chan directInboundMessage;
  bufferClosed : bool;
  bufferEmptyOnTerminateFlag : bool;
  bufferEmptyOnTerminate : bool;
  terminationNotification : bool;
  terminationComplete : bool;
  rxCallbackSet : chan bool;
  rxCallback : option MessageHandler;
  isDiscard : bool;
  rxRegistered : bool;
  downHandler : bool;
  session : list session_answer;
  goroutines : list goroutine;
  async_results : list async_result;
  terminationDiscarded : Z;
  backpressureDiscarded : Z;
  discardNotifications : Z;
  cacheTornDown : bool;
  past : history;
}.

Definition at_context (c : context_state) (h : history) : history :=
  mkHistory
    c (runner h) (arrived h) (pushed h) (taken h) (turned h) (answered h) (freed h)
    (recovered h) (called h) (session_calls h) (cleaned h) (reported h) (listened h).

Definition at_runner (r : runner_state) (h : history) : history :=
  mkHistory
    (context h) r (arrived h) (pushed h) (taken h) (turned h) (answered h) (freed h)
    (recovered h) (called h) (session_calls h) (cleaned h) (reported h) (listened h).

Definition note_arrived (m : M) (c : context_state) (h : history) : history :=
  mkHistory
    c (runner h) (arrived h ++ [m]) (pushed h) (taken h) (turned h) (answered h) (freed h)
    (recovered h) (called h) (session_calls h) (cleaned h) (reported h) (listened h).

Definition note_pushed (m : M) (c : context_state) (h : history) : history :=
  mkHistory
    c (runner h) (arrived h) (pushed h ++ [m]) (taken h) (turned h) (answered h) (freed h)
    (recovered h) (called h) (session_calls h) (cleaned h) (reported h) (listened h).

Definition note_taken (m : M) (f : fate) (h : history) : history :=
  mkHistory
    (context h) (runner h) (arrived h) (pushed h) (taken h ++ [(m, f)]) (turned h) (answered h)
    (freed h) (recovered h) (called h) (session_calls h) (cleaned h) (reported h) (listened h).

Definition note_drained (m : M) (h : history) : history :=
  mkHistory
    (context h) (runner h) (arrived h) (pushed h) (taken h ++ [(m, Drained)]) (turned h)
    (answered h) (freed h ++ [m]) (recovered h) (called h) (session_calls h) (cleaned h)
    (reported h) (listened h).

Definition note_turned (m : M) (r : refusal) (c : context_state) (h : history) : history :=
  mkHistory
    c (runner h) (arrived h) (pushed h) (taken h) (turned h ++ [(m, r)]) (answered h) (freed h)
    (recovered h) (called h) (session_calls h) (cleaned h) (reported h) (listened h).

Definition note_answered (m : M) (b : bool) (h : history) : history :=
  mkHistory
    ContextFree (runner h) (arrived h) (pushed h) (taken h) (turned h) (answered h ++ [(m, b)])
    (freed h) (recovered h) (called h) (session_calls h) (cleaned h) (reported h) (listened h).

Definition note_recovered (c : context_state) (h : history) : history :=
  mkHistory
    c (runner h) (arrived h) (pushed h) (taken h) (turned h) (answered h) (freed h)
    (S (recovered h)) (called h) (session_calls h) (cleaned h) (reported h) (listened h).

Definition note_called (f : MessageHandler) (m : M) (h : history) : history :=
  mkHistory
    (context h) (Running None) (arrived h) (pushed h) (taken h) (turned h) (answered h)
    (freed h) (recovered h) (called h ++ [(f, m)]) (session_calls h) (cleaned h) (reported h)
    (listened h).

Definition note_session (b : bool) (topic : string) (h : history) : history :=
  mkHistory
    (context h) (runner h) (arrived h) (pushed h) (taken h) (turned h) (answered h) (freed h)
    (recovered h) (called h) (session_calls h ++ [(b, topic)]) (cleaned h) (reported h)
    (listened h).

Definition note_cleaned  (h : history) : history :=
  mkHistory
    (context h) (runner h) (arrived h) (pushed h) (taken h) (turned h) (answered h) (freed h)
    (recovered h) (called h) (session_calls h) true (reported h) (listened h).

Definition note_reported (n : nat) (h : history) : history :=
  mkHistory
    (context h) (runner h) (arrived h) (pushed h) (taken h) (turned h) (answered h) (freed h)
    (recovered h) (called h) (session_calls h) (cleaned h) (Some n) (listened h).

Definition note_listened (e : option go_error) (h : history) : history :=
  mkHistory
    (context h) (runner h) (arrived h) (pushed h) (taken h) (turned h) (answered h) (freed h)
    (recovered h) (called h) (session_calls h) (cleaned h) (reported h) (listened h ++ [e]).

Definition set_machine (l : lifecycle) (s : receiver) : receiver :=
  mkReceiver
    l (parent s) (shareName s) (backpressureStrategy s) (subscriptionsLock s)
    (subscriptionTerminationLock s) (subscriptions s) (subscriptionsSynchronizationLock s)
    (buffer s) (bufferClosed s) (bufferEmptyOnTerminateFlag s) (bufferEmptyOnTerminate s)
    (terminationNotification s) (terminationComplete s) (rxCallbackSet s) (rxCallback s)
    (isDiscard s) (rxRegistered s) (downHandler s) (session s) (goroutines s) (async_results s)
    (terminationDiscarded s) (backpressureDiscarded s) (discardNotifications s)
    (cacheTornDown s) (past s).

Definition set_parent (b : bool) (s : receiver) : receiver :=
  mkReceiver
    (machine s) b (shareName s) (backpressureStrategy s) (subscriptionsLock s)
    (subscriptionTerminationLock s) (subscriptions s) (subscriptionsSynchronizationLock s)
    (buffer s) (bufferClosed s) (bufferEmptyOnTerminateFlag s) (bufferEmptyOnTerminate s)
    (terminationNotification s) (terminationComplete s) (rxCallbackSet s) (rxCallback s)
    (isDiscard s) (rxRegistered s) (downHandler s) (session s) (goroutines s) (async_results s)
    (terminationDiscarded s) (backpressureDiscarded s) (discardNotifications s)
    (cacheTornDown s) (past s).

Definition set_subscriptionsLock (b : bool) (s : receiver) : receiver :=
  mkReceiver
    (machine s) (parent s) (shareName s) (backpressureStrategy s) b
    (subscriptionTerminationLock s) (subscriptions s) (subscriptionsSynchronizationLock s)
    (buffer s) (bufferClosed s) (bufferEmptyOnTerminateFlag s) (bufferEmptyOnTerminate s)
    (terminationNotification s) (terminationComplete s) (rxCallbackSet s) (rxCallback s)
    (isDiscard s) (rxRegistered s) (downHandler s) (session s) (goroutines s) (async_results s)
    (terminationDiscarded s) (backpressureDiscarded s) (discardNotifications s)
    (cacheTornDown s) (past s).

Definition set_termination_lock (l : termination_lock) (s : receiver) : receiver :=
  mkReceiver
    (machine s) (parent s) (shareName s) (backpressureStrategy s) (subscriptionsLock s) l
    (subscriptions s) (subscriptionsSynchronizationLock s) (buffer s) (bufferClosed s)
    (bufferEmptyOnTerminateFlag s) (bufferEmptyOnTerminate s) (terminationNotification s)
    (terminationComplete s) (rxCallbackSet s) (rxCallback s) (isDiscard s) (rxRegistered s)
    (downHandler s) (session s) (goroutines s) (async_results s) (terminationDiscarded s)
    (backpressureDiscarded s) (discardNotifications s) (cacheTornDown s) (past s).

Definition set_subscriptions (l : list string) (s : receiver) : receiver :=
  mkReceiver
    (machine s) (parent s) (shareName s) (backpressureStrategy s) (subscriptionsLock s)
    (subscriptionTerminationLock s) l (subscriptionsSynchronizationLock s) (buffer s)
    (bufferClosed s) (bufferEmptyOnTerminateFlag s) (bufferEmptyOnTerminate s)
    (terminationNotification s) (terminationComplete s) (rxCallbackSet s) (rxCallback s)
    (isDiscard s) (rxRegistered s) (downHandler s) (session s) (goroutines s) (async_results s)
    (terminationDiscarded s) (backpressureDiscarded s) (discardNotifications s)
    (cacheTornDown s) (past s).

Definition set_synchronization (b : bool) (s : receiver) : receiver :=
  mkReceiver
    (machine s) (parent s) (shareName s) (backpressureStrategy s) (subscriptionsLock s)
    (subscriptionTerminationLock s) (subscriptions s) b (buffer s) (bufferClosed s)
    (bufferEmptyOnTerminateFlag s) (bufferEmptyOnTerminate s) (terminationNotification s)
    (terminationComplete s) (rxCallbackSet s) (rxCallback s) (isDiscard s) (rxRegistered s)
    (downHandler s) (session s) (goroutines s) (async_results s) (terminationDiscarded s)
    (backpressureDiscarded s) (discardNotifications s) (cacheTornDown s) (past s).

Definition set_buffer (c : chan directInboundMessage) (s : receiver) : receiver :=
  mkReceiver
    (machine s) (parent s) (shareName s) (backpressureStrategy s) (subscriptionsLock s)
    (subscriptionTerminationLock s) (subscriptions s) (subscriptionsSynchronizationLock s) c
    (bufferClosed s) (bufferEmptyOnTerminateFlag s) (bufferEmptyOnTerminate s)
    (terminationNotification s) (terminationComplete s) (rxCallbackSet s) (rxCallback s)
    (isDiscard s) (rxRegistered s) (downHandler s) (session s) (goroutines s) (async_results s)
    (terminationDiscarded s) (backpressureDiscarded s) (discardNotifications s)
    (cacheTornDown s) (past s).

Definition set_bufferClosed (b : bool) (s : receiver) : receiver :=
  mkReceiver
    (machine s) (parent s) (shareName s) (backpressureStrategy s) (subscriptionsLock s)
    (subscriptionTerminationLock s) (subscriptions s) (subscriptionsSynchronizationLock s)
    (buffer s) b (bufferEmptyOnTerminateFlag s) (bufferEmptyOnTerminate s)
    (terminationNotification s) (terminationComplete s) (rxCallbackSet s) (rxCallback s)
    (isDiscard s) (rxRegistered s) (downHandler s) (session s) (goroutines s) (async_results s)
    (terminationDiscarded s) (backpressureDiscarded s) (discardNotifications s)
    (cacheTornDown s) (past s).

Definition set_emptyFlag (b : bool) (s : receiver) : receiver :=
  mkReceiver
    (machine s) (parent s) (shareName s) (backpressureStrategy s) (subscriptionsLock s)
    (subscriptionTerminationLock s) (subscriptions s) (subscriptionsSynchronizationLock s)
    (buffer s) (bufferClosed s) b (bufferEmptyOnTerminate s) (terminationNotification s)
    (terminationComplete s) (rxCallbackSet s) (rxCallback s) (isDiscard s) (rxRegistered s)
    (downHandler s) (session s) (goroutines s) (async_results s) (terminationDiscarded s)
    (backpressureDiscarded s) (discardNotifications s) (cacheTornDown s) (past s).

Definition set_bufferEmpty (b : bool) (s : receiver) : receiver :=
  mkReceiver
    (machine s) (parent s) (shareName s) (backpressureStrategy s) (subscriptionsLock s)
    (subscriptionTerminationLock s) (subscriptions s) (subscriptionsSynchronizationLock s)
    (buffer s) (bufferClosed s) (bufferEmptyOnTerminateFlag s) b (terminationNotification s)
    (terminationComplete s) (rxCallbackSet s) (rxCallback s) (isDiscard s) (rxRegistered s)
    (downHandler s) (session s) (goroutines s) (async_results s) (terminationDiscarded s)
    (backpressureDiscarded s) (discardNotifications s) (cacheTornDown s) (past s).

Definition set_terminationNotification (b : bool) (s : receiver) : receiver :=
  mkReceiver
    (machine s) (parent s) (shareName s) (backpressureStrategy s) (subscriptionsLock s)
    (subscriptionTerminationLock s) (subscriptions s) (subscriptionsSynchronizationLock s)
    (buffer s) (bufferClosed s) (bufferEmptyOnTerminateFlag s) (bufferEmptyOnTerminate s) b
    (terminationComplete s) (rxCallbackSet s) (rxCallback s) (isDiscard s) (rxRegistered s)
    (downHandler s) (session s) (goroutines s) (async_results s) (terminationDiscarded s)
    (backpressureDiscarded s) (discardNotifications s) (cacheTornDown s) (past s).

Definition set_terminationComplete (b : bool) (s : receiver) : receiver :=
  mkReceiver
    (machine s) (parent s) (shareName s) (backpressureStrategy s) (subscriptionsLock s)
    (subscriptionTerminationLock s) (subscriptions s) (subscriptionsSynchronizationLock s)
    (buffer s) (bufferClosed s) (bufferEmptyOnTerminateFlag s) (bufferEmptyOnTerminate s)
    (terminationNotification s) b (rxCallbackSet s) (rxCallback s) (isDiscard s)
    (rxRegistered s) (downHandler s) (session s) (goroutines s) (async_results s)
    (terminationDiscarded s) (backpressureDiscarded s) (discardNotifications s)
    (cacheTornDown s) (past s).

Definition set_rxCallbackSet (c : chan bool) (s : receiver) : receiver :=
  mkReceiver
    (machine s) (parent s) (shareName s) (backpressureStrategy s) (subscriptionsLock s)
    (subscriptionTerminationLock s) (subscriptions s) (subscriptionsSynchronizationLock s)
    (buffer s) (bufferClosed s) (bufferEmptyOnTerminateFlag s) (bufferEmptyOnTerminate s)
    (terminationNotification s) (terminationComplete s) c (rxCallback s) (isDiscard s)
    (rxRegistered s) (downHandler s) (session s) (goroutines s) (async_results s)
    (terminationDiscarded s) (backpressureDiscarded s) (discardNotifications s)
    (cacheTornDown s) (past s).

Definition set_rxCallback (f : option MessageHandler) (s : receiver) : receiver :=
  mkReceiver
    (machine s) (parent s) (shareName s) (backpressureStrategy s) (subscriptionsLock s)
    (subscriptionTerminationLock s) (subscriptions s) (subscriptionsSynchronizationLock s)
    (buffer s) (bufferClosed s) (bufferEmptyOnTerminateFlag s) (bufferEmptyOnTerminate s)
    (terminationNotification s) (terminationComplete s) (rxCallbackSet s) f (isDiscard s)
    (rxRegistered s) (downHandler s) (session s) (goroutines s) (async_results s)
    (terminationDiscarded s) (backpressureDiscarded s) (discardNotifications s)
    (cacheTornDown s) (past s).

Definition set_isDiscard (b : bool) (s : receiver) : receiver :=
  mkReceiver
    (machine s) (parent s) (shareName s) (backpressureStrategy s) (subscriptionsLock s)
    (subscriptionTerminationLock s) (subscriptions s) (subscriptionsSynchronizationLock s)
    (buffer s) (bufferClosed s) (bufferEmptyOnTerminateFlag s) (bufferEmptyOnTerminate s)
    (terminationNotification s) (terminationComplete s) (rxCallbackSet s) (rxCallback s) b
    (rxRegistered s) (downHandler s) (session s) (goroutines s) (async_results s)
    (terminationDiscarded s) (backpressureDiscarded s) (discardNotifications s)
    (cacheTornDown s) (past s).

Definition set_rxRegistered (b : bool) (s : receiver) : receiver :=
  mkReceiver
    (machine s) (parent s) (shareName s) (backpressureStrategy s) (subscriptionsLock s)
    (subscriptionTerminationLock s) (subscriptions s) (subscriptionsSynchronizationLock s)
    (buffer s) (bufferClosed s) (bufferEmptyOnTerminateFlag s) (bufferEmptyOnTerminate s)
    (terminationNotification s) (terminationComplete s) (rxCallbackSet s) (rxCallback s)
    (isDiscard s) b (downHandler s) (session s) (goroutines s) (async_results s)
    (terminationDiscarded s) (backpressureDiscarded s) (discardNotifications s)
    (cacheTornDown s) (past s).

Definition set_downHandler (b : bool) (s : receiver) : receiver :=
  mkReceiver
    (machine s) (parent s) (shareName s) (backpressureStrategy s) (subscriptionsLock s)
    (subscriptionTerminationLock s) (subscriptions s) (subscriptionsSynchronizationLock s)
    (buffer s) (bufferClosed s) (bufferEmptyOnTerminateFlag s) (bufferEmptyOnTerminate s)
    (terminationNotification s) (terminationComplete s) (rxCallbackSet s) (rxCallback s)
    (isDiscard s) (rxRegistered s) b (session s) (goroutines s) (async_results s)
    (terminationDiscarded s) (backpressureDiscarded s) (discardNotifications s)
    (cacheTornDown s) (past s).

Definition set_session (l : list session_answer) (s : receiver) : receiver :=
  mkReceiver
    (machine s) (parent s) (shareName s) (backpressureStrategy s) (subscriptionsLock s)
    (subscriptionTerminationLock s) (subscriptions s) (subscriptionsSynchronizationLock s)
    (buffer s) (bufferClosed s) (bufferEmptyOnTerminateFlag s) (bufferEmptyOnTerminate s)
    (terminationNotification s) (terminationComplete s) (rxCallbackSet s) (rxCallback s)
    (isDiscard s) (rxRegistered s) (downHandler s) l (goroutines s) (async_results s)
    (terminationDiscarded s) (backpressureDiscarded s) (discardNotifications s)
    (cacheTornDown s) (past s).

Definition set_goroutines (l : list goroutine) (s : receiver) : receiver :=
  mkReceiver
    (machine s) (parent s) (shareName s) (backpressureStrategy s) (subscriptionsLock s)
    (subscriptionTerminationLock s) (subscriptions s) (subscriptionsSynchronizationLock s)
    (buffer s) (bufferClosed s) (bufferEmptyOnTerminateFlag s) (bufferEmptyOnTerminate s)
    (terminationNotification s) (terminationComplete s) (rxCallbackSet s) (rxCallback s)
    (isDiscard s) (rxRegistered s) (downHandler s) (session s) l (async_results s)
    (terminationDiscarded s) (backpressureDiscarded s) (discardNotifications s)
    (cacheTornDown s) (past s).

Definition set_async_results (l : list async_result) (s : receiver) : receiver :=
  mkReceiver
    (machine s) (parent s) (shareName s) (backpressureStrategy s) (subscriptionsLock s)
    (subscriptionTerminationLock s) (subscriptions s) (subscriptionsSynchronizationLock s)
    (buffer s) (bufferClosed s) (bufferEmptyOnTerminateFlag s) (bufferEmptyOnTerminate s)
    (terminationNotification s) (terminationComplete s) (rxCallbackSet s) (rxCallback s)
    (isDiscard s) (rxRegistered s) (downHandler s) (session s) (goroutines s) l
    (terminationDiscarded s) (backpressureDiscarded s) (discardNotifications s)
    (cacheTornDown s) (past s).

Definition set_terminationDiscarded (n : Z) (s : receiver) : receiver :=
  mkReceiver
    (machine s) (parent s) (shareName s) (backpressureStrategy s) (subscriptionsLock s)
    (subscriptionTerminationLock s) (subscriptions s) (subscriptionsSynchronizationLock s)
    (buffer s) (bufferClosed s) (bufferEmptyOnTerminateFlag s) (bufferEmptyOnTerminate s)
    (terminationNotification s) (terminationComplete s) (rxCallbackSet s) (rxCallback s)
    (isDiscard s) (rxRegistered s) (downHandler s) (session s) (goroutines s) (async_results s)
    n (backpressureDiscarded s) (discardNotifications s) (cacheTornDown s) (past s).

Definition set_backpressureDiscarded (n : Z) (s : receiver) : receiver :=
  mkReceiver
    (machine s) (parent s) (shareName s) (backpressureStrategy s) (subscriptionsLock s)
    (subscriptionTerminationLock s) (subscriptions s) (subscriptionsSynchronizationLock s)
    (buffer s) (bufferClosed s) (bufferEmptyOnTerminateFlag s) (bufferEmptyOnTerminate s)
    (terminationNotification s) (terminationComplete s) (rxCallbackSet s) (rxCallback s)
    (isDiscard s) (rxRegistered s) (downHandler s) (session s) (goroutines s) (async_results s)
    (terminationDiscarded s) n (discardNotifications s) (cacheTornDown s) (past s).

Definition set_discardNotifications (n : Z) (s : receiver) : receiver :=
  mkReceiver
    (machine s) (parent s) (shareName s) (backpressureStrategy s) (subscriptionsLock s)
    (subscriptionTerminationLock s) (subscriptions s) (subscriptionsSynchronizationLock s)
    (buffer s) (bufferClosed s) (bufferEmptyOnTerminateFlag s) (bufferEmptyOnTerminate s)
    (terminationNotification s) (terminationComplete s) (rxCallbackSet s) (rxCallback s)
    (isDiscard s) (rxRegistered s) (downHandler s) (session s) (goroutines s) (async_results s)
    (terminationDiscarded s) (backpressureDiscarded s) n (cacheTornDown s) (past s).

Definition set_cacheTornDown (b : bool) (s : receiver) : receiver :=
  mkReceiver
    (machine s) (parent s) (shareName s) (backpressureStrategy s) (subscriptionsLock s)
    (subscriptionTerminationLock s) (subscriptions s) (subscriptionsSynchronizationLock s)
    (buffer s) (bufferClosed s) (bufferEmptyOnTerminateFlag s) (bufferEmptyOnTerminate s)
    (terminationNotification s) (terminationComplete s) (rxCallbackSet s) (rxCallback s)
    (isDiscard s) (rxRegistered s) (downHandler s) (session s) (goroutines s) (async_results s)
    (terminationDiscarded s) (backpressureDiscarded s) (discardNotifications s) b (past s).

Definition set_past (h : history) (s : receiver) : receiver :=
  mkReceiver
    (machine s) (parent s) (shareName s) (backpressureStrategy s) (subscriptionsLock s)
    (subscriptionTerminationLock s) (subscriptions s) (subscriptionsSynchronizationLock s)
    (buffer s) (bufferClosed s) (bufferEmptyOnTerminateFlag s) (bufferEmptyOnTerminate s)
    (terminationNotification s) (terminationComplete s) (rxCallbackSet s) (rxCallback s)
    (isDiscard s) (rxRegistered s) (downHandler s) (session s) (goroutines s) (async_results s)
    (terminationDiscarded s) (backpressureDiscarded s) (discardNotifications s)
    (cacheTornDown s) h.

Definition note (f : history → history) (s : receiver) : receiver := set_past (f (past s)) s.

#[export] Instance receiver_lifecycle : HasLifecycle receiver := {|
  lc := machine;
  put_lc := set_machine;
  parent_running := parent;
  lc_put _ _ := eq_refl;
  parent_put _ _ := eq_refl;
|}.

Definition buildSubscription (shareName : option ShareName) (subscription : Subscription) : string :=
  match shareName with
  | Some sn => "#share/" +:+ share_name sn +:+ "/" +:+ subscription_name subscription
  | None => subscription_name subscription
  end.

Definition construct (up : bool) (share : option ShareName) (strategy : receiverBackpressureStrategy)
    (backpressureBufferSize : nat) (startupSubscriptions : list Subscription)
    (answers : list session_answer) : receiver :=
  mkReceiver new_lifecycle up share strategy false (mkTermination ∅ 0 false)
    (buildSubscription share <$> startupSubscriptions) false (make_chan backpressureBufferSize)
    false false false false false (make_chan 1) None false false false answers [] [] 0 0 0 false
    (mkHistory ContextFree NotSpawned [] [] [] [] [] [] 0 [] [] false None []).

Abbreviation rp A := (prog receiver A).

(** A [sync.Mutex]. *)
Definition lock (view : receiver → bool) (put : bool → receiver → receiver) : rp unit :=
  action (λ s, if view s then ABlock else AOk tt (put true s)).
Definition unlock (view : receiver → bool) (put : bool → receiver → receiver) : rp unit :=
  action (λ s, if view s then AOk tt (put false s) else APanic UnlockOfUnlocked).

(** [subscriptionTerminationLock]. *)
Definition termination_RLock : rp nat :=
  action (λ s, let l := subscriptionTerminationLock s in
    if writer l then ABlock
    else AOk (next_reader l) (set_termination_lock
           (mkTermination (<[next_reader l := false]> (readers l)) (S (next_reader l)) false) s)).
Definition termination_RUnlock (t : nat) : rp unit :=
  action (λ s, let l := subscriptionTerminationLock s in
    match readers l !! t with
    | Some _ => AOk tt (set_termination_lock
                  (mkTermination (delete t (readers l)) (next_reader l) (writer l)) s)
    | None => APanic UnlockOfUnlocked
    end).
Definition termination_Lock : rp unit :=
  action (λ s, let l := subscriptionTerminationLock s in
    if writer l || negb (bool_decide (readers l = ∅)) then ABlock
    else AOk tt (note note_cleaned
           (set_termination_lock (mkTermination (readers l) (next_reader l) true) s))).
Definition termination_Unlock : rp unit :=
  action (λ s, let l := subscriptionTerminationLock s in
    if writer l
    then AOk tt (set_termination_lock (mkTermination (readers l) (next_reader l) false) s)
    else APanic UnlockOfUnlocked).

(** The state read under the lock for reading. *)
Definition getState_reading (t : nat) : rp lstate :=
  action (λ s, let l := subscriptionTerminationLock s in
    AOk (state_of s)
      (if decide (state_of s = Started)
       then set_termination_lock (mkTermination (<[t := true]> (readers l)) (next_reader l) (writer l)) s
       else s)).

(** * The session *)

(** [internalReceiver.Subscribe] and [Unsubscribe]. *)
Definition session_request (add : bool) (topic : string) : rp session_answer :=
  action (λ s,
    let (r, l) := match session s with [] => ((None, None), []) | r :: l => (r, l) end in
    AOk r (note (note_session add topic) (set_session l s))).

(** [<-result]: the event of a request. *)
Definition await_event (ev : option go_error) : rp (option go_error) := action (λ s, AOk ev s).

Definition RegisterRXCallback : rp unit := update (set_rxRegistered true).
Definition UnregisterRXCallback : rp unit :=
  action (λ s, match context (past s) with
               | ContextFree => AOk tt (set_rxRegistered false s)
               | _ => ABlock
               end).
Definition AddEventHandler : rp unit := update (set_downHandler true).
Definition RemoveEventHandler : rp unit := update (set_downHandler false).

Definition go (g : goroutine) : rp unit := update (λ s, set_goroutines (goroutines s ++ [g]) s).

Definition tell (r : async_result) : rp unit :=
  update (λ s, set_async_results (async_results s ++ [r]) s).

(** * Subscriptions *)

Definition subscribe (topic : string) : rp session_answer :=
  lock subscriptionsSynchronizationLock set_synchronization ;;;;
  let! r := session_request true topic in
  unlock subscriptionsSynchronizationLock set_synchronization ;;;; PRet r.

Definition unsubscribe (topic : string) : rp session_answer :=
  lock subscriptionsSynchronizationLock set_synchronization ;;;;
  let! r := session_request false topic in
  unlock subscriptionsSynchronizationLock set_synchronization ;;;; PRet r.

(** The subscriptions with a topic, appended unless it is there; without its last occurrence. *)
Definition insert_topic (topic : string) (l : list string) : list string :=
  if bool_decide (topic ∈ l) then l else l ++ [topic].

Fixpoint splice_index (i : nat) (topic : string) (l : list string) (found : option nat) : option nat :=
  match l with
  | [] => found
  | t :: l => splice_index (S i) topic l (if decide (t = topic) then Some i else found)
  end.
Definition splice_topic (topic : string) (l : list string) : list string :=
  match splice_index 0 topic l None with
  | Some i => take i l ++ drop (S i) l
  | None => l
  end.

(** [addSubscription] and [removeSubscription], which differ in the request and in what is done
    to the list; [inl] is the event to be awaited. *)
Definition modify_subscription (request : string → rp session_answer)
    (modify : string → list string → list string) (subscription : Subscription)
    : rp (option go_error + go_error) :=
  let! t := termination_RLock in
  let! currentState := getState_reading t in
  if decide (currentState ≠ Started) then
    termination_RUnlock t ;;;; PRet (inr (UnableToModifySubscriptionBadState currentState))
  else
    let! topic := load (λ s, buildSubscription (shareName s) subscription) in
    let! r := request topic in
    match fst r with
    | Some internalErr =>
        termination_RUnlock t ;;;; PRet (inr (ToNativeError internalErr ""))
    | None =>
        lock subscriptionsLock set_subscriptionsLock ;;;;
        update (λ s, set_subscriptions (modify topic (subscriptions s)) s) ;;;;
        unlock subscriptionsLock set_subscriptionsLock ;;;;
        termination_RUnlock t ;;;; PRet (inl (snd r))
    end.

Definition addSubscription : Subscription → rp (option go_error + go_error) :=
  modify_subscription subscribe insert_topic.
Definition removeSubscription : Subscription → rp (option go_error + go_error) :=
  modify_subscription unsubscribe splice_topic.

Definition await_modification (r : option go_error + go_error) : rp (option go_error) :=
  match r with inr err => PRet (Some err) | inl ev => await_event ev end.

(** The checks that the four operations on subscriptions make first. *)
Definition check_modify (subscription : Subscription) : rp (option go_error) :=
  let! currentState := getState in
  PRet (if decide (currentState ≠ Started)
        then Some (UnableToModifySubscriptionBadState currentState)
        else checkDirectMessageReceiverSubscriptionType subscription).

Definition AddSubscription (subscription : Subscription) : rp (option go_error) :=
  let! err := check_modify subscription in
  match err with
  | Some err => PRet (Some err)
  | None => let! r := addSubscription subscription in await_modification r
  end.
Definition RemoveSubscription (subscription : Subscription) : rp (option go_error) :=
  let! err := check_modify subscription in
  match err with
  | Some err => PRet (Some err)
  | None => let! r := removeSubscription subscription in await_modification r
  end.

Definition AddSubscriptionAsync (subscription : Subscription) (listener : bool) : rp (option go_error) :=
  let! err := check_modify subscription in
  match err with
  | Some err => PRet (Some err)
  | None => go (GoAddSubscription subscription listener) ;;;; PRet None
  end.
Definition RemoveSubscriptionAsync (subscription : Subscription) (listener : bool) : rp (option go_error) :=
  let! err := check_modify subscription in
  match err with
  | Some err => PRet (Some err)
  | None => go (GoRemoveSubscription subscription listener) ;;;; PRet None
  end.

(** The goroutines of the last two. *)
Definition change_subscription (add : bool) (subscription : Subscription) (listener : bool)
    : rp (option go_error) :=
  let! r := (if add then addSubscription subscription else removeSubscription subscription) in
  if listener then
    let! err := await_modification r in tell (SubscriptionChanged subscription add err) ;;;; PRet None
  else PRet None.

(** * Receiving *)

(** What the application gets. *)
Inductive answer : Type :=
| Returned (err : option go_error)
| InboundMessage (m : M) (discarded : bool).

#[export] Instance answer_eq_dec : EqDecision answer.
Proof using EqDecision0. solve_decision. Defined.

Inductive received : Type := Got (m : directInboundMessage) | GotClosed | GotTimeout | GotTerminated.

(** [msg, ok = <-receiver.buffer], where [f] is what becomes of the message. *)
Definition receive_buffer (f : fate) (then_ : directInboundMessage → receiver → receiver)
    (s : receiver) : act receiver received :=
  match chan_recv (buffer s) with
  | Done (Some msg) c => AOk (Got msg) (then_ msg (note (note_taken (pointer msg) f) (set_buffer c s)))
  | Done None _ => AOk GotClosed s
  | Panicked p _ => APanic p
  | Blocked _ => ABlock
  end.

Definition buffer_empty (s : receiver) : bool := bool_decide (chan_buf (buffer s) = []).

(** [CompareAndSwapInt32(&receiver.bufferEmptyOnTerminateFlag, 0, 1)] and the close. *)
Definition notify_empty : rp unit :=
  let! swapped := compare_and_swap bufferEmptyOnTerminateFlag set_emptyFlag false true in
  if (swapped : bool) then close_signal bufferEmptyOnTerminate set_bufferEmpty else PRet tt.

(** The deferred check of [ReceiveMessage]. *)
Definition check_empty : rp unit :=
  let! closed := load bufferClosed in
  if (closed : bool) then
    let! empty := load buffer_empty in
    if (empty : bool) then notify_empty else PRet tt
  else PRet tt.

(** The discard indication of a message that the application is about to get. *)
Definition consume (msg : directInboundMessage) : rp directInboundMessage :=
  let! strategy := load backpressureStrategy in
  let! msg := (if decide (strategy = strategyDropOldest)
               then let! b := compare_and_swap isDiscard set_isDiscard true false in
                    PRet (mkInbound (pointer msg) b)
               else PRet msg) in
  (if discard msg
   then update (λ s, set_discardNotifications (discardNotifications s + 1) s) else PRet tt) ;;;;
  PRet msg.

(** [timer]: the timeout is not negative. *)
Definition ReceiveMessage (timer : bool) : rp answer :=
  let! state := getState in
  if decide (state = NotStarted ∨ state = Starting)
  then PRet (Returned (Some ReceiverCannotReceiveNotStarted))
  else
    let! r := select ([ receive_buffer Received (λ _ s, s);
                        (λ s, if bufferEmptyOnTerminate s then AOk GotTerminated s else ABlock) ] ++
                      (if timer then [ (λ s, AOk GotTimeout s) ] else [])) in
    match r with
    | Got msg =>
        let! msg := consume msg in
        check_empty ;;;; PRet (InboundMessage (pointer msg) (discard msg))
    | GotTimeout =>
        check_empty ;;;; PRet (Returned (Some ReceiverTimedOutWaitingForMessage))
    | GotClosed | GotTerminated =>
        check_empty ;;;; PRet (Returned (Some ReceiverCannotReceiveAlreadyTerminated))
    end.

(** [select { case receiver.rxCallbackSet <- b: default: }]. *)
Definition offer_callback (b : bool) : rp bool :=
  atomically rxCallbackSet set_rxCallbackSet (chan_try_send b).

(** [callback] is [None] for nil. *)
Definition ReceiveAsync (callback : option MessageHandler) : rp (option go_error) :=
  let! terminating := IsTerminating in
  let! terminated := (if terminating : bool then PRet true else IsTerminated) in
  if (terminated : bool) then PRet (Some UnableToRegisterCallbackReceiverTerminating)
  else match callback with
  | None => PRet (Some nil_callback_error)
  | Some f =>
      let! first := action (λ s, match rxCallback s with
                                 | None => AOk true (set_rxCallback (Some f) s)
                                 | Some _ => AOk false s
                                 end) in
      (if (first : bool) then offer_callback true ;;;; PRet tt
       else update (set_rxCallback (Some f))) ;;;; PRet None
  end.

(** ** The context thread *)

Inductive pushing : Type := PushOk | PushFull | PushClosed.

Definition push (msg : directInboundMessage) : rp pushing :=
  action (λ s, match chan_try_send msg (buffer s) with
               | Done true c => AOk PushOk (note (note_pushed (pointer msg)
                                  (Decided (pointer msg) true NoMetric)) (set_buffer c s))
               | Done false _ => AOk PushFull s
               | _ => AOk PushClosed (note (note_recovered (Decided (pointer msg) false CountTermination)) s)
               end).

(** The oldest message is taken off: [true] also for the closed and empty buffer. *)
Definition drop_oldest (m : M) : rp bool :=
  action (λ s, match chan_try_recv (buffer s) with
               | Done (Some (Some msg)) c =>
                   AOk true (note (at_context (MustSend m true))
                     (note (note_taken (pointer msg) Dropped) (set_buffer c s)))
               | Done (Some None) c => AOk true (note (at_context (MustSend m false)) s)
               | _ => AOk false (note (at_context (MustSend m false)) s)
               end).

(** [receiver.buffer <- toPush] after that; whether it was sent, or panicked. *)
Definition send_pushed (msg : directInboundMessage) (discard : bool) : rp bool :=
  action (λ s, match chan_send msg (buffer s) with
               | Done _ c => AOk true (note (note_pushed (pointer msg) (Decided (pointer msg) true
                   (if discard then CountBackpressure else NoMetric))) (set_buffer c s))
               | Panicked _ _ =>
                   AOk false (note (note_recovered (Decided (pointer msg) false CountTermination)) s)
               | Blocked _ => ABlock
               end).

Definition count_backpressure (m : M) (kept : bool) : rp unit :=
  update (λ s, note (at_context (Decided m kept NoMetric))
                 (set_backpressureDiscarded (backpressureDiscarded s + 1) s)).
Definition count_termination (m : M) : rp unit :=
  update (λ s, note (at_context (Decided m false NoMetric))
                 (set_terminationDiscarded (terminationDiscarded s + 1) s)).

(** [messageCallback]: whether the message is kept. *)
Definition messageCallback (m : M) : rp bool :=
  let! currentState := action (λ s, let st := state_of s in
    AOk st (if decide (st = Terminating ∨ st = Terminated)
            then note (note_turned m Late (Decided m false CountTermination)) s else s)) in
  if decide (currentState = Terminating ∨ currentState = Terminated)
  then count_termination m ;;;; PRet false
  else
    let! strategy := load backpressureStrategy in
    let! setDiscard := (if decide (strategy = strategyDropLatest)
                        then compare_and_swap isDiscard set_isDiscard true false
                        else PRet false) in
    let toPush := mkInbound m setDiscard in
    let! r := push toPush in
    match r with
    | PushOk => PRet true
    | PushClosed => count_termination m ;;;; PRet false
    | PushFull =>
        match strategy with
        | strategyDropOldest =>
            let! discard := drop_oldest m in
            (if discard then store set_isDiscard true else PRet tt) ;;;;
            let! sent := send_pushed toPush discard in
            if negb sent then count_termination m ;;;; PRet false
            else if discard then count_backpressure m true ;;;; PRet true
            else PRet true
        | strategyDropLatest =>
            update (λ s, note (note_turned m Latest (Decided m false CountBackpressure))
                           (set_isDiscard true s)) ;;;;
            count_backpressure m false ;;;; PRet false
        end
    end.

(** A message of the session: the context thread takes the lock of the core receiver for
    reading, looks for the callback, and answers what the callback does. *)
Definition rxCallback_of_core (m : M) : rp (option go_error) :=
  let! registered := action (λ s, match context (past s) with
    | ContextFree => if rxRegistered s then AOk true (note (note_arrived m (Entered m)) s) else AOk false s
    | _ => ABlock
    end) in
  if (registered : bool) then
    let! kept := messageCallback m in
    update (note (note_answered m kept)) ;;;; PRet None
  else PRet None.

(** ** The goroutine of the handler *)

(** The loop, for at most [fuel] messages; [true] when it has left it. *)
Fixpoint run_loop (fuel : nat) : rp bool :=
  match fuel with
  | O => PRet false
  | S fuel =>
      let! notified := load terminationNotification in
      if (notified : bool) then PRet true
      else
        let! r := select [ receive_buffer Handed (λ msg s, note (at_runner (Running (Some (pointer msg)))) s);
                           (λ s, if terminationNotification s then AOk GotTerminated s else ABlock) ] in
        match r with
        | Got msg =>
            let! callback := load rxCallback in
            let! msg := consume msg in
            match callback with
            | Some f => update (note (note_called f (pointer msg)))
            | None => PRet tt
            end ;;;;
            run_loop fuel
        | GotClosed => notify_empty ;;;; PRet true
        | _ => PRet true
        end
  end.

(** [go receiver.run()], once it has been asked for. *)
Definition run_receiver (fuel : nat) : rp (option go_error) :=
  action (λ s, match runner (past s) with
               | Spawned => AOk tt (note (at_runner (Running None)) s)
               | _ => ABlock
               end) ;;;;
  let! cont := action (λ s, match chan_recv (rxCallbackSet s) with
                            | Done b c => AOk (default false b) (set_rxCallbackSet c s)
                            | Panicked p _ => APanic p
                            | Blocked _ => ABlock
                            end) in
  let! left_ := (if (cont : bool) then run_loop fuel else PRet true) in
  if (left_ : bool) then
    action (λ s, if terminationComplete s then APanic CloseOfClosedChannel
                 else AOk tt (note (at_runner Finished) (set_terminationComplete true s))) ;;;;
    PRet None
  else PRet None.

(** * Start and termination *)

(** The requests for the subscriptions, up to the first that fails. *)
Fixpoint subscribe_all (topics : list string) (added : list (string * option go_error))
    : rp (option go_error * list (string * option go_error)) :=
  match topics with
  | [] => PRet (None, added)
  | topic :: topics =>
      let! r := session_request true topic in
      match fst r with
      | Some errInfo => PRet (Some (ToNativeError errInfo FailedToAddSubscription), added)
      | None => subscribe_all topics (added ++ [(topic, snd r)])
      end
  end.

Fixpoint await_all (added : list (string * option go_error)) : rp (option go_error) :=
  match added with
  | [] => PRet None
  | (_, ev) :: added =>
      let! err := await_event ev in
      match err with Some err => PRet (Some err) | None => await_all added end
  end.

(** The requests to unsubscribe, and their events: errors are logged. *)
Fixpoint unsubscribe_all (topics : list string) (results : list (option go_error))
    : rp (list (option go_error)) :=
  match topics with
  | [] => PRet results
  | topic :: topics =>
      let! r := session_request false topic in
      unsubscribe_all topics (match fst r with Some _ => results | None => results ++ [snd r] end)
  end.
Fixpoint await_results (results : list (option go_error)) : rp unit :=
  match results with
  | [] => PRet tt
  | ev :: results => await_event ev ;;;; await_results results
  end.

Definition start_cleanup (added : list (string * option go_error)) : rp unit :=
  let! unsubResults := unsubscribe_all added.*1 [] in
  await_results unsubResults ;;;;
  RemoveEventHandler ;;;;
  UnregisterRXCallback.

Definition start_body : rp (option go_error) :=
  AddEventHandler ;;;;
  RegisterRXCallback ;;;;
  let! topics := load subscriptions in
  let! r := subscribe_all topics [] in
  match r with
  | (Some err, subscriptionsAdded) => start_cleanup subscriptionsAdded ;;;; PRet (Some err)
  | (None, subscriptionsAdded) =>
      let! err := await_all subscriptionsAdded in
      match err with
      | Some err => start_cleanup subscriptionsAdded ;;;; PRet (Some err)
      | None => update (note (at_runner Spawned)) ;;;; PRet None
      end
  end.

Definition Start : rp (option go_error) := start_around receiver_texts start_body.

Definition cleanupSubscriptions : rp unit :=
  termination_Lock ;;;;
  let! topics := load subscriptions in
  let! results := unsubscribe_all topics [] in
  await_results results ;;;;
  termination_Unlock.

(** The range over the closed buffer, which frees what it takes.  The buffer holds at most
    its capacity, so its capacity and one more are turns enough: running out of them would be a
    crash. *)
Fixpoint drain_loop (fuel : nat) (undeliveredCount : nat) : rp nat :=
  match fuel with
  | O => action (λ _, APanic IndexOutOfRange)
  | S fuel =>
      let! more := action (λ s,
        match chan_recv (buffer s) with
        | Done (Some msg) c => AOk true (note (note_drained (pointer msg)) (set_buffer c s))
        | Done None _ => AOk false s
        | Panicked p _ => APanic p
        | Blocked _ => ABlock
        end) in
      if (more : bool) then drain_loop fuel (S undeliveredCount) else PRet undeliveredCount
  end.

Definition drainQueue : rp nat :=
  let! capacity := load (λ s, chan_cap (buffer s)) in
  let! undeliveredCount := drain_loop (S capacity) 0 in
  notify_empty ;;;; PRet undeliveredCount.

Definition report_undelivered (n : nat) : rp (option go_error) :=
  if 0 <? n then
    update (λ s, note (note_reported n)
                   (set_terminationDiscarded (terminationDiscarded s + Z.of_nat n) s)) ;;;;
    PRet (Some (undelivered_error n))
  else PRet None.

Definition close_buffer : rp unit :=
  action (λ s, match chan_close (buffer s) with
               | Done _ c => AOk tt (set_buffer c s)
               | Panicked p _ => APanic p
               | Blocked _ => ABlock
               end).

(** The cache is torn down by [ReceiverCache.teardownCache], on fields of its own. *)
Definition teardownCache : rp unit := store set_cacheTornDown true.

Definition close_notification : rp unit :=
  close_signal terminationNotification set_terminationNotification.

(** What follows the wait: whether the grace period has passed. *)
Definition terminate_wait (timed_out : bool) : rp (option go_error) :=
  if timed_out then
    close_notification ;;;;
    await_closed terminationComplete ;;;;
    let! undeliveredCount := drainQueue in
    let! err := report_undelivered undeliveredCount in
    match err with
    | Some err => PRet (Some err)
    | None => teardownCache ;;;; PRet None
    end
  else
    await_closed terminationComplete ;;;; teardownCache ;;;; PRet None.

Definition terminate_body : rp (option go_error) :=
  cleanupSubscriptions ;;;;
  UnregisterRXCallback ;;;;
  RemoveEventHandler ;;;;
  offer_callback false ;;;;
  close_buffer ;;;;
  store set_bufferClosed true ;;;;
  let! empty := load buffer_empty in
  (if (empty : bool) then notify_empty else PRet tt) ;;;;
  let! timed_out := select [ (λ s, AOk true s);
                             (λ s, if bufferEmptyOnTerminate s then AOk false s else ABlock) ] in
  terminate_wait timed_out.

(** Any grace period passes: that of the timer of a negative one is over at once. *)
Definition Terminate : rp (option go_error) := terminate_around receiver_texts terminate_body.

Definition unsolicitedTermination (cause : option go_error) (listener : bool) : rp (option go_error) :=
  let! r := terminate receiver_texts in
  if negb (fst r) then PRet None
  else
    UnregisterRXCallback ;;;;
    RemoveEventHandler ;;;;
    offer_callback false ;;;;
    close_buffer ;;;;
    store set_bufferClosed true ;;;;
    close_notification ;;;;
    let! undeliveredCount := drainQueue in
    let! err := report_undelivered undeliveredCount in
    terminated err ;;;;
    (if listener then update (note (note_listened cause)) else PRet tt) ;;;;
    teardownCache ;;;;
    PRet None.

(** [onDownEvent], while its handler is registered. *)
Definition onDownEvent (cause : option go_error) (listener : bool) : rp (option go_error) :=
  let! registered := load downHandler in
  (if (registered : bool) then go (GoUnsolicited cause listener) else PRet tt) ;;;; PRet None.

Definition StartAsync : rp (option go_error) := go GoStart ;;;; PRet None.
Definition TerminateAsync : rp (option go_error) := go GoTerminate ;;;; PRet None.
Definition StartAsyncCallback : rp (option go_error) := go GoStart ;;;; PRet None.
Definition TerminateAsyncCallback : rp (option go_error) := go GoTerminate ;;;; PRet None.

Definition goroutine_prog (g : goroutine) : rp (option go_error) :=
  match g with
  | GoStart => let! err := Start in tell (Completed err) ;;;; PRet None
  | GoTerminate => let! err := Terminate in tell (Completed err) ;;;; PRet None
  | GoUnsolicited cause listener => unsolicitedTermination cause listener
  | GoAddSubscription subscription listener => change_subscription true subscription listener
  | GoRemoveSubscription subscription listener => change_subscription false subscription listener
  end.

(** A worker takes one of the goroutines that were asked for. *)
Definition worker (i : nat) : rp (option go_error) :=
  let! g := action (λ s, match goroutines s !! i with
                         | Some g => AOk g (set_goroutines (delete i (goroutines s)) s)
                         | None => ABlock
                         end) in
  goroutine_prog g.

(** * Any number of goroutines *)

(** The operations of the application, the session bringing a message or going down, the
    service going up or down, and the goroutines of the receiver. *)
Inductive call : Type :=
| CallStart
| CallStartAsync
| CallTerminate
| CallTerminateAsync
| CallAddSubscription (subscription : Subscription)
| CallRemoveSubscription (subscription : Subscription)
| CallAddSubscriptionAsync (subscription : Subscription) (listener : bool)
| CallRemoveSubscriptionAsync (subscription : Subscription) (listener : bool)
| CallReceiveMessage (timer : bool)
| CallReceiveAsync (callback : option MessageHandler)
| Message (m : M)
| DownEvent (cause : option go_error) (listener : bool)
| ParentChange (up : bool)
| Handler (fuel : nat)
| Worker (i : nat).

Definition returning (p : rp (option go_error)) : rp answer :=
  let! err := p in PRet (Returned err).

Definition call_prog (c : call) : rp answer :=
  match c with
  | CallStart => returning Start
  | CallStartAsync => returning StartAsync
  | CallTerminate => returning Terminate
  | CallTerminateAsync => returning TerminateAsync
  | CallAddSubscription sub => returning (AddSubscription sub)
  | CallRemoveSubscription sub => returning (RemoveSubscription sub)
  | CallAddSubscriptionAsync sub listener => returning (AddSubscriptionAsync sub listener)
  | CallRemoveSubscriptionAsync sub listener => returning (RemoveSubscriptionAsync sub listener)
  | CallReceiveMessage timer => ReceiveMessage timer
  | CallReceiveAsync callback => returning (ReceiveAsync callback)
  | Message m => returning (rxCallback_of_core m)
  | DownEvent cause listener => returning (onDownEvent cause listener)
  | ParentChange up => returning (update (set_parent up) ;;;; PRet None)
  | Handler fuel => returning (run_receiver fuel)
  | Worker i => returning (worker i)
  end.

(** The receiver with the goroutines of the given calls. *)
Definition scene (calls : list call) (s : receiver) : receiver * list (rp answer) :=
  (s, call_prog <$> calls).
End direct_receiver.

(** * The builder *)

Definition ReceiverPropertyDirectBackPressureStrategy : string :=
  "solace.messaging.receiver.direct.back-pressure.strategy".
Definition ReceiverPropertyDirectBackPressureBufferCapacity : string :=
  "solace.messaging.receiver.direct.back-pressure.buffer-capacity".
Definition ReceiverBackPressureStrategyDropLatest : string := "BUFFER_DROP_LATEST_WHEN_FULL".
Definition ReceiverBackPressureStrategyDropOldest : string := "BUFFER_DROP_OLDEST_WHEN_FULL".

(** The pattern of [validateShareName] matches a name with [>] or [*] in it. *)
Definition forbidden_in_share_name (c : Ascii.ascii) : bool :=
  Ascii.eqb c ">"%char || Ascii.eqb c "*"%char.
Definition ShareNameMustNotBeEmpty : go_error :=
  NewError IllegalArgumentError "share name must not be empty" None.
Definition ShareNameMustNotContainInvalidCharacters : go_error :=
  NewError IllegalArgumentError "share name must not contain literals '*' or '>'" None.
Definition validateShareName (name : string) : option go_error :=
  if String.eqb name "" then Some ShareNameMustNotBeEmpty
  else if existsb forbidden_in_share_name (String.list_ascii_of_string name)
  then Some ShareNameMustNotContainInvalidCharacters
  else None.

Definition DirectReceiverBackpressureMustBeGreaterThan0 : go_error :=
  NewError InvalidConfigurationError "direct receiver backpressure buffer size must be > 0" None.

Record directMessageReceiverBuilderImpl : Type := mkBuilder {
  properties : gmap string Sdt.data;
  startupSubscriptions : list Subscription;
}.

Definition NewDirectMessageReceiverBuilderImpl : directMessageReceiverBuilderImpl :=
  mkBuilder {[ ReceiverPropertyDirectBackPressureStrategy := Sdt.DString ReceiverBackPressureStrategyDropLatest;
               ReceiverPropertyDirectBackPressureBufferCapacity := Sdt.DInt 50 ]} [].
Definition WithSubscriptions (topics : list Subscription) (b : directMessageReceiverBuilderImpl) :=
  mkBuilder (properties b) topics.
(** [None] is a nil provider. *)
Definition FromConfigurationProvider (provider : option (list (string * Sdt.data)))
    (b : directMessageReceiverBuilderImpl) : directMessageReceiverBuilderImpl :=
  match provider with
  | None => b
  | Some l => mkBuilder (Validation.assign_all l (properties b)) (startupSubscriptions b)
  end.
Definition OnBackPressure (strategy : string) (bufferCapacity : Z)
    (b : directMessageReceiverBuilderImpl) : directMessageReceiverBuilderImpl :=
  mkBuilder (<[ReceiverPropertyDirectBackPressureBufferCapacity := Sdt.DUint bufferCapacity]>
    (<[ReceiverPropertyDirectBackPressureStrategy := Sdt.DString strategy]> (properties b)))
    (startupSubscriptions b).
Definition OnBackPressureDropLatest : Z → directMessageReceiverBuilderImpl → _ :=
  OnBackPressure ReceiverBackPressureStrategyDropLatest.
Definition OnBackPressureDropOldest : Z → directMessageReceiverBuilderImpl → _ :=
  OnBackPressure ReceiverBackPressureStrategyDropOldest.

(** The first subscription of another type. *)
Fixpoint check_subscriptions (subscriptions : list Subscription) : option go_error :=
  match subscriptions with
  | [] => None
  | subscription :: subscriptions =>
      match checkDirectMessageReceiverSubscriptionType subscription with
      | Some err => Some err
      | None => check_subscriptions subscriptions
      end
  end.

(** [BuildWithShareName]: the strategy, the capacity and the subscriptions the receiver is constructed with. *)
Definition BuildWithShareName `{!Sdt.GoArch} (shareName : option ShareName)
    (b : directMessageReceiverBuilderImpl)
    : res go_error (receiverBackpressureStrategy * Z * list Subscription * option ShareName) :=
  match (match shareName with Some sn => validateShareName (share_name sn) | None => None end) with
  | Some err => Err err
  | None =>
  match Validation.StringPropertyValidation ReceiverPropertyDirectBackPressureStrategy
          (Validation.prop (properties b) ReceiverPropertyDirectBackPressureStrategy)
          [ReceiverBackPressureStrategyDropLatest; ReceiverBackPressureStrategyDropOldest] with
  | (_, _, Some err) => Err err
  | (strategy, _, None) =>
  match Validation.IntegerPropertyValidation ReceiverPropertyDirectBackPressureBufferCapacity
          (Validation.prop (properties b) ReceiverPropertyDirectBackPressureBufferCapacity) with
  | (_, _, Some err) => Err err
  | (size, _, None) =>
      if (size <? 1)%Z then Err DirectReceiverBackpressureMustBeGreaterThan0
      else match check_subscriptions (startupSubscriptions b) with
      | Some err => Err err
      | None => Ok (if String.eqb strategy ReceiverBackPressureStrategyDropLatest
                    then strategyDropLatest else strategyDropOldest, size, startupSubscriptions b, shareName)
      end
  end end end.
Definition Build `{!Sdt.GoArch} : directMessageReceiverBuilderImpl → _ := BuildWithShareName None.

(** What is built has room for a message, topic subscriptions only, and a good share name. *)
Lemma built_receiver `{!Sdt.GoArch} shareName b strategy size subs sn :
  BuildWithShareName shareName b = Ok (strategy, size, subs, sn) →
  (0 < size)%Z ∧ Forall (λ sub, ∃ t, sub = inl t) subs ∧
  ∀ n, sn = Some n → share_name n ≠ "" ∧
    ∀ c, c ∈ String.list_ascii_of_string (share_name n) → c ≠ ">"%char ∧ c ≠ "*"%char.
Proof.
  unfold BuildWithShareName. intros Hb.
  destruct (match shareName with Some _ => _ | None => None end) eqn:Hn; [done|].
  destruct (Validation.StringPropertyValidation _ _ _) as [[? ?] [?|]]; [done|].
  destruct (Validation.IntegerPropertyValidation _ _) as [[n ?] [?|]]; [done|].
  destruct (Z.ltb_spec n 1); [done|]. destruct (check_subscriptions _) eqn:Hs; [done|].
  simplify_eq. split_and!; [lia| |].
  - revert Hs. induction (startupSubscriptions b) as [|[t|name] l IH]; simpl; intros Hs; [by constructor| |done].
    constructor; [by eexists|by apply IH].
  - intros n' ->. simpl in Hn. unfold validateShareName in Hn.
    destruct (String.eqb_spec (share_name n') ""); [done|]. split; [done|].
    destruct (existsb _ _) eqn:He; [done|]. intros c Hc.
    assert (forbidden_in_share_name c = false) as Hf.
    { apply not_true_is_false. intros Hf. assert (existsb forbidden_in_share_name
        (String.list_ascii_of_string (share_name n')) = true) as Ht.
      { apply existsb_exists. exists c. split; [by apply list_elem_of_In|done]. }
      congruence. }
    unfold forbidden_in_share_name in Hf. apply orb_false_iff in Hf as [H1 H2].
    apply Ascii.eqb_neq in H1, H2. done.
Qed.
