(* ===== verification/DirectReceiverSafety.v ===== *)
(** The direct receiver under interleaving: the invariant of its state, what each action may do,
    and the accounting of the messages that follows for any number of goroutines.

    The proof is the rely/guarantee argument of GoConc with knowledge: the permits are those of
    the lifecycle (Lifecycle) and of the receiver, and the facts that a goroutine keeps are
    those no action takes back, that the buffer is closed or is empty for good. *)

From Stdlib Require Import ZArith Lia Ascii.
From stdpp Require Import base list gmap relations strings.
From S2P Require Import Prelude GoStrconv GoEffects GoConc Errors Resource Sdt Lifecycle Rules Validation DirectReceiver.

Section direct_receiver_safety.
Context {M MessageHandler : Type} `{!EqDecision M}.
Abbreviation receiver := (@DirectReceiver.receiver M MessageHandler).
Abbreviation directInboundMessage := (@DirectReceiver.directInboundMessage M).
Abbreviation context_state := (@DirectReceiver.context_state M).
Abbreviation answer := (@DirectReceiver.answer M).
Abbreviation call := (@DirectReceiver.call M MessageHandler).
Abbreviation rp A := (prog receiver A).

(** * Protocol *)

(** Actions that are done at most once. *)
Inductive once : Type := Spawn | CloseBuffer | CloseNotification.

(** The permits of the receiver: the positions of the context thread, of the goroutine of the
    handler and of the drain, to announce that the buffer is empty, and the locks. *)
Inductive mine : Type :=
| ContextAt (c : context_state)
| RunnerAt (hand : option M)
| DrainAt (n : nat)
| AnnounceEmpty
| ReadingAt (t : nat) (b : bool)
| Writing
| HoldSubscriptions
| HoldSynchronization.

#[export] Instance once_eq_dec : EqDecision once.
Proof using Type. solve_decision. Defined.
#[export] Instance mine_eq_dec : EqDecision mine.
Proof using EqDecision0. solve_decision. Defined.

Definition gate (x : once) : phase := match x with Spawn => StartPhase | _ => TermPhase end.

Definition spent (s : receiver) (x : once) : bool :=
  match x with
  | Spawn => bool_decide (runner (past s) ≠ NotSpawned)
  | CloseBuffer => chan_closed (buffer s)
  | CloseNotification => terminationNotification s
  end.

(** What was taken off the buffer by the application, by its handler, for want of room, by
    the end of the receiver; what the context thread has in hand. *)
Definition taken_as (f : fate) (s : receiver) : list M := (filter (λ p, p.2 = f) (taken (past s))).*1.
Definition turned_as (r : refusal) (s : receiver) : list M := (filter (λ p, p.2 = r) (turned (past s))).*1.
Definition answered_with (b : bool) (s : receiver) : list M :=
  (filter (λ p, p.2 = b) (answered (past s))).*1.
Definition drained_count (s : receiver) : nat := length (taken_as Drained s).

Definition in_context (c : context_state) : list M :=
  match c with ContextFree => [] | Entered m | MustSend m _ | Decided m _ _ => [m] end.
Definition decided (b : bool) (c : context_state) : list M :=
  match c with Decided m b' _ => if decide (b' = b) then [m] else [] | _ => [] end.
Definition pending_back (c : context_state) : nat :=
  match c with MustSend _ true | Decided _ _ CountBackpressure => 1 | _ => 0 end.
Definition pending_term (c : context_state) : nat :=
  match c with Decided _ _ CountTermination => 1 | _ => 0 end.
Definition in_hand (s : receiver) : list M :=
  match runner (past s) with Running (Some m) => [m] | _ => [] end.

Definition extra (s : receiver) (y : mine) : nat :=
  match y with
  | ContextAt c => if decide (context (past s) = c ∧ c ≠ ContextFree) then 0 else 1
  | RunnerAt h => if decide (runner (past s) = Running h) then 0 else 1
  | DrainAt n => if decide (chan_closed (buffer s) = true ∧ drained_count s = n ∧ reported (past s) = None)
                 then 0 else 1
  | AnnounceEmpty => if bufferEmptyOnTerminateFlag s && negb (bufferEmptyOnTerminate s) then 0 else 1
  | ReadingAt t b => if decide (readers (subscriptionTerminationLock s) !! t = Some b) then 0 else 1
  | Writing => if writer (subscriptionTerminationLock s) then 0 else 1
  | HoldSubscriptions => if subscriptionsLock s then 0 else 1
  | HoldSynchronization => if subscriptionsSynchronizationLock s then 0 else 1
  end.

Section protocol_of_receiver.
Context (size : nat).

Definition closed (s : receiver) : Prop := chan_closed (buffer s) = true.

Record recv_inv (s : receiver) : Prop := {
  inv_fifo : pushed (past s) = (taken (past s)).*1 ++ (pointer <$> chan_buf (buffer s));
  inv_cap : chan_cap (buffer s) = size;
  inv_len : length (chan_buf (buffer s)) ≤ size;
  inv_arrived : arrived (past s) = (answered (past s)).*1 ++ in_context (context (past s));
  inv_kept : pushed (past s) = answered_with true s ++ decided true (context (past s));
  inv_turned : (turned (past s)).*1 = answered_with false s ++ decided false (context (past s));
  inv_backpressure : (backpressureDiscarded s + Z.of_nat (pending_back (context (past s))) =
    Z.of_nat (length (turned_as Latest s) + length (taken_as Dropped s)))%Z;
  inv_termination : (terminationDiscarded s + Z.of_nat (pending_term (context (past s))) =
    Z.of_nat (length (turned_as Late s) + default 0%nat (reported (past s))))%Z;
  inv_room : ∀ m d, context (past s) = MustSend m d → length (chan_buf (buffer s)) < size;
  inv_registered : context (past s) ≠ ContextFree → rxRegistered s = true;
  inv_closed : closed s → rxRegistered s = false ∧ passed (state_of s) TermPhase = true;
  inv_flag : bufferEmptyOnTerminateFlag s = true → closed s ∧ chan_buf (buffer s) = [];
  inv_emptied : bufferEmptyOnTerminate s = true → bufferEmptyOnTerminateFlag s = true;
  inv_bufferClosed : bufferClosed s = true → closed s;
  inv_freed : freed (past s) = taken_as Drained s;
  inv_open : chan_closed (buffer s) = false → drained_count s = 0;
  inv_reported : ∀ n, reported (past s) = Some n → closed s ∧ drained_count s = n;
  inv_complete : terminationComplete s = true → runner (past s) = Finished;
  inv_called : taken_as Handed s = (called (past s)).*2 ++ in_hand s;
  inv_callback : true ∈ chan_buf (rxCallbackSet s) → is_Some (rxCallback s);
  inv_callbackSet : chan_closed (rxCallbackSet s) = false;
  inv_readers : ∀ t, next_reader (subscriptionTerminationLock s) ≤ t →
    readers (subscriptionTerminationLock s) !! t = None;
  inv_reading : ∀ t, readers (subscriptionTerminationLock s) !! t = Some true → cleaned (past s) = false;
  inv_cleaned : cleaned (past s) = true → passed (state_of s) TermPhase = true;
  inv_recovered : recovered (past s) = 0;
  inv_before : ∀ x, passed (state_of s) (gate x) = false → spent s x = false;
}.

(** The requests to subscribe. *)
Definition subscribes (s : receiver) : list (bool * string) := filter (λ p, p.1 = true) (session_calls (past s)).

Record recv_move (s s' : receiver) : Prop := {
  move_state : lstate_move (state_of s) (state_of s');
  move_pushed : pushed (past s) `prefix_of` pushed (past s');
  move_closed : closed s → closed s' ∧ length (chan_buf (buffer s')) ≤ length (chan_buf (buffer s));
  move_callback : is_Some (rxCallback s) → is_Some (rxCallback s');
  move_registered : passed (state_of s) TermPhase = true → rxRegistered s = false → rxRegistered s' = false;
  move_cleaned : cleaned (past s) = true → cleaned (past s') = true ∧ subscribes s' = subscribes s;
}.

Abbreviation rheld := (lc_held gate spent extra).
Abbreviation rproto n := (proto recv_inv recv_move rheld lc_total n).
Abbreviation kr K l := (kproto recv_inv recv_move rheld lc_total K (own l)).
Abbreviation rfits s l := (fits rheld lc_total s (own l)).
Abbreviation rstable K := (stable recv_inv recv_move K).

Lemma move_same s s' :
  state_of s' = state_of s → pushed (past s') = pushed (past s) →
  (closed s → closed s' ∧ length (chan_buf (buffer s')) ≤ length (chan_buf (buffer s))) →
  (is_Some (rxCallback s) → is_Some (rxCallback s')) →
  (rxRegistered s = false → rxRegistered s' = false) →
  (cleaned (past s) = true → cleaned (past s') = true) → subscribes s' = subscribes s →
  recv_move s s'.
Proof using Type.
  intros H1 H2 H3 H4 H5 H6 H7. split; [rewrite H1; by left|by rewrite H2|done|done|auto|auto].
Qed.

Lemma receiver_state s st : recv_inv s → lstate_move (state_of s) st →
  recv_inv (put_state st s) ∧ recv_move s (put_state st s).
Proof using Type.
  intros Hs Hm. split.
  - assert (∀ ph, passed (state_of s) ph = true → passed st ph = true) as Hp.
    { intros []; destruct (state_of s), st; unfold lstate_move in Hm; naive_solver. }
    destruct Hs. split; try assumption; rewrite ?state_of_put_state.
    + intros [? ?]%inv_closed0. auto.
    + intros ?%inv_cleaned0. auto.
    + intros x Hx. apply inv_before0. destruct (passed (state_of s) (gate x)) eqn:He; [|done].
      apply Hp in He. congruence.
  - by split.
Qed.

Lemma receiver_starts : StartsFreely recv_inv recv_move.
Proof using Type.
  intros s Hs Hst. apply receiver_state; [done|]. rewrite Hst. unfold lstate_move. tauto.
Qed.
#[local] Existing Instance receiver_starts.

Lemma receiver_embeds : EmbedsLifecycle recv_inv recv_move gate spent extra.
Proof using Type.
  split.
  - intros s. by apply move_same.
  - intros s st Hs Hm _. by apply receiver_state.
  - intros s f Hs. split; [destruct Hs; by split|by apply move_same].
  - intros s f Hs. split; [destruct Hs; by split|by apply move_same].
  - done.
  - intros s x Hs Hp. by apply (inv_before s Hs).
  - done.
Qed.
#[local] Existing Instance receiver_embeds.

(** ** What is known for good *)

Definition nothing (s : receiver) : Prop := True.
Definition emptied (s : receiver) : Prop := closed s ∧ chan_buf (buffer s) = [].
Definition at_most (n : nat) (s : receiver) : Prop := closed s ∧ length (chan_buf (buffer s)) ≤ n.
Definition unregistered (s : receiver) : Prop :=
  rxRegistered s = false ∧ passed (state_of s) TermPhase = true.
Definition has_callback (s : receiver) : Prop := is_Some (rxCallback s).

Lemma stable_nothing : rstable nothing.
Proof using Type. done. Qed.
Lemma stable_closed : rstable closed.
Proof using Type. intros s s' _ Hm. apply Hm. Qed.
Lemma stable_at_most n : rstable (at_most n).
Proof using Type. intros s s' _ Hm [Hc Hl]. destruct (move_closed _ _ Hm Hc). split; [done|lia]. Qed.
Lemma stable_emptied : rstable emptied.
Proof using Type.
  intros s s' _ Hm [Hc Hl]. destruct (move_closed _ _ Hm Hc) as [? Hl']. split; [done|].
  rewrite Hl in Hl'. simpl in Hl'. by apply nil_length_inv; lia.
Qed.
Lemma stable_unregistered : rstable unregistered.
Proof using Type.
  intros s s' _ Hm [Hr Hp]. split; [by apply (move_registered _ _ Hm)|].
  pose proof (move_state _ _ Hm) as Hst.
  destruct (state_of s), (state_of s'); unfold lstate_move in Hst; naive_solver.
Qed.
Lemma stable_callback : rstable has_callback.
Proof using Type. intros s s' _ Hm. apply Hm. Qed.
Hint Resolve stable_nothing stable_closed stable_at_most stable_emptied stable_unregistered
  stable_callback : core.
Lemma stable_with K φ : rstable K → rstable φ → rstable (λ s, K s ∧ φ s).
Proof using Type. apply stable_and. Qed.
Hint Resolve stable_with : core.

(** ** What the owner of a permit knows *)

Lemma receiver_fits_extra s y l : rfits s (Extra y :: l) → extra s y = 0.
Proof using Type.
  intros Hf. specialize (Hf (Extra y)). pose proof (own_here (Extra y : lc_permit once mine) l).
  unfold lc_total in Hf. cbn [lc_held] in Hf. lia.
Qed.

Lemma fits_context s c l : rfits s (Extra (ContextAt c) :: l) → context (past s) = c ∧ c ≠ ContextFree.
Proof using Type. intros Hf%receiver_fits_extra. simpl in Hf. by case_decide. Qed.
Lemma receiver_fits_runner s h l : rfits s (Extra (RunnerAt h) :: l) → runner (past s) = Running h.
Proof using Type. intros Hf%receiver_fits_extra. simpl in Hf. by case_decide. Qed.
Lemma receiver_fits_drain s n l : rfits s (Extra (DrainAt n) :: l) →
  closed s ∧ drained_count s = n ∧ reported (past s) = None.
Proof using Type. intros Hf%receiver_fits_extra. simpl in Hf. by case_decide. Qed.
Lemma fits_announce s l : rfits s (Extra AnnounceEmpty :: l) →
  bufferEmptyOnTerminateFlag s = true ∧ bufferEmptyOnTerminate s = false.
Proof using Type.
  intros Hf%receiver_fits_extra. simpl in Hf.
  by destruct (bufferEmptyOnTerminateFlag s), (bufferEmptyOnTerminate s).
Qed.
Lemma fits_reading s t b l : rfits s (Extra (ReadingAt t b) :: l) →
  readers (subscriptionTerminationLock s) !! t = Some b.
Proof using Type. intros Hf%receiver_fits_extra. simpl in Hf. by case_decide. Qed.
Lemma fits_writing s l : rfits s (Extra Writing :: l) → writer (subscriptionTerminationLock s) = true.
Proof using Type. intros Hf%receiver_fits_extra. simpl in Hf. by destruct (writer _). Qed.
Lemma fits_subscriptions s l : rfits s (Extra HoldSubscriptions :: l) → subscriptionsLock s = true.
Proof using Type. intros Hf%receiver_fits_extra. simpl in Hf. by destruct (subscriptionsLock s). Qed.
Lemma fits_synchronization s l :
  rfits s (Extra HoldSynchronization :: l) → subscriptionsSynchronizationLock s = true.
Proof using Type. intros Hf%receiver_fits_extra. simpl in Hf. by destruct (subscriptionsSynchronizationLock s). Qed.

Lemma receiver_fits_once s x l : rfits s (Once x :: l) → passed (state_of s) (gate x) = true ∧ spent s x = false.
Proof using Type.
  intros Hf. specialize (Hf (Once x)). pose proof (own_here (Once x : lc_permit once mine) l).
  unfold lc_total in Hf. cbn [lc_held] in Hf.
  destruct (passed _ _), (spent s x); simpl in *; first [done|lia].
Qed.
Lemma fits_phase s ph l : rfits s (InPhase ph :: l) → state_of s = inside ph.
Proof using Type.
  intros Hf. eapply (fits_inside gate spent extra); [exact Hf|]. apply own_here.
Qed.
Lemma receiver_fits_tail s x l : rfits s (x :: l) → rfits s l.
Proof using Type. intros Hf y. specialize (Hf y). simpl in Hf. lia. Qed.

(** Counting permits over an action, kind by kind. *)
Ltac count_cases :=
  intros [?|[]|[]]; cbn [lc_held gate spent extra own];
  unfold state_of, drained_count, taken_as, closed in *; simpl;
  repeat match goal with
         | H : ?b = true |- context [?b] => rewrite H
         | H : ?b = false |- context [?b] => rewrite H
         end; cbn [negb andb];
  repeat case_decide; simplify_eq.
Ltac count := count_cases; try lia; try (exfalso; naive_solver congruence); try (repeat case_match; simplify_eq/=; try congruence; lia).

(** ** Actions *)

Lemma rk_load {V B} (view : receiver → V) K l (k : V → rp B) Q :
  rstable K → (∀ s, recv_inv s → K s → kr K l (k (view s)) Q) → kr K l (pbind (load view) k) Q.
Proof using Type.
  intros Hst Hk. apply k_same; [done|]. intros s Hs HK.
  split_and!; [done|by apply move_same|lia|by apply Hk].
Qed.

(** A read that shows a fact for good. *)
Lemma rk_learn {B} (view : receiver → bool) φ K l (k : bool → rp B) Q :
  rstable K → rstable φ → (∀ s, recv_inv s → K s → view s = true → φ s) →
  kr (λ s, K s ∧ φ s) l (k true) Q → kr K l (k false) Q → kr K l (pbind (load view) k) Q.
Proof using Type.
  intros HK Hφ Hl Ht Hf. apply k_act. intros s Hs _ HKs. split_and!; [done|by apply move_same|].
  destruct (view s) eqn:Hv.
  - exists l, (λ s, K s ∧ φ s). split_and!; [intros x; lia|done|by apply Hl|by apply stable_and|done].
  - exists l, K. split_and!; [intros x; lia|done..].
Qed.

(** ** The buffer *)

Lemma filter_snoc {V} (keep : V → Prop) {dec : ∀ v, Decision (keep v)} (vs : list V) last :
  filter keep (vs ++ [last]) = filter keep vs ++ if decide (keep last) then [last] else [].
Proof using Type. by rewrite filter_app. Qed.

Lemma snoc_as {X} `{EqDecision X} (l : list (M * X)) m (x y : X) :
  (filter (λ p, p.2 = y) (l ++ [(m, x)])).*1 =
  (filter (λ p, p.2 = y) l).*1 ++ (if decide (x = y) then [m] else []).
Proof using Type. rewrite filter_snoc, fmap_app. simpl. by case_decide. Qed.

Lemma chan_recv_some {A} (c : chan A) x xs :
  chan_buf c = x :: xs → chan_recv c = Done (Some x) (mkChan (chan_cap c) xs (chan_closed c)).
Proof using Type. unfold chan_recv. by intros ->. Qed.

(** Taking the oldest message off. *)
Definition take_off (msg : directInboundMessage) (xs : list directInboundMessage) (f : fate)
    (s : receiver) : receiver :=
  note (note_taken (pointer msg) f)
    (set_buffer (mkChan (chan_cap (buffer s)) xs (chan_closed (buffer s))) s).

Lemma receive_buffer_spec f g s :
  match receive_buffer f g s with
  | AOk (Got msg) s' => ∃ xs, chan_buf (buffer s) = msg :: xs ∧ s' = g msg (take_off msg xs f s)
  | AOk GotClosed s' => s' = s ∧ emptied s
  | AOk _ _ | APanic _ => False
  | ABlock => True
  end.
Proof using Type.
  unfold receive_buffer, chan_recv. destruct (chan_buf (buffer s)) as [|x xs] eqn:Hb.
  - destruct (chan_closed (buffer s)) eqn:Hc; [|done]. done.
  - by exists xs.
Qed.

Lemma inv_take_received msg xs s : recv_inv s → chan_buf (buffer s) = msg :: xs →
  recv_inv (take_off msg xs Received s).
Proof using Type.
  intros Hs Hb. destruct Hs.
  split; try assumption; unfold drained_count, taken_as, turned_as, closed in *; simpl;
    rewrite ?snoc_as, ?Hb in *; simpl in *; rewrite ?app_nil_r; try assumption.
  - rewrite inv_fifo0, fmap_app. simpl. by rewrite <-app_assoc.
  - lia.
  - intros m d ?%inv_room0. lia.
  - by intros [? [=]]%inv_flag0.
Qed.

Lemma inv_take_handed msg xs s : recv_inv s → chan_buf (buffer s) = msg :: xs →
  runner (past s) = Running None →
  recv_inv (note (at_runner (Running (Some (pointer msg)))) (take_off msg xs Handed s)).
Proof using Type.
  intros Hs Hb Hr. destruct Hs.
  split; try assumption; unfold drained_count, taken_as, turned_as, closed, in_hand in *; simpl;
    rewrite ?snoc_as, ?Hb, ?Hr in *; simpl in *; rewrite ?app_nil_r in *; try assumption.
  - rewrite inv_fifo0, fmap_app. simpl. by rewrite <-app_assoc.
  - lia.
  - intros m d ?%inv_room0. lia.
  - by intros [? [=]]%inv_flag0.
  - by intros ?%inv_complete0.
  - by rewrite inv_called0.
  - intros x Hx. specialize (inv_before0 x Hx). destruct x; simpl in *; try done.
    rewrite Hr in inv_before0. by apply bool_decide_eq_false in inv_before0 as [].
Qed.

Lemma inv_take_drained msg xs n s : recv_inv s → chan_buf (buffer s) = msg :: xs → closed s →
  reported (past s) = None → drained_count s = n →
  let s' := note (note_drained (pointer msg))
    (set_buffer (mkChan (chan_cap (buffer s)) xs (chan_closed (buffer s))) s) in
  recv_inv s' ∧ drained_count s' = S n.
Proof using Type.
  intros Hs Hb Hc Hr Hn. unfold drained_count in *. split.
  - destruct Hs.
    split; try assumption; unfold drained_count, taken_as, turned_as, closed in *; simpl;
      rewrite ?snoc_as, ?Hb in *; simpl in *; rewrite ?app_nil_r; try assumption.
    + rewrite inv_fifo0, fmap_app. simpl. by rewrite <-app_assoc.
    + lia.
    + intros m d ?%inv_room0. lia.
    + by intros [? [=]]%inv_flag0.
    + by rewrite inv_freed0.
    + congruence.
    + intros k Hk. congruence.
  - unfold taken_as in *. simpl. rewrite snoc_as, length_app. simpl. lia.
Qed.

Lemma move_take msg xs f s : chan_buf (buffer s) = msg :: xs → recv_move s (take_off msg xs f s).
Proof using Type. intros Hb. apply move_same; try done. unfold closed. simpl. rewrite Hb. simpl. auto with lia. Qed.

Lemma drained_take msg xs f s : f ≠ Drained → drained_count (take_off msg xs f s) = drained_count s.
Proof using Type.
  intros Hf. unfold drained_count, taken_as. simpl. rewrite snoc_as, decide_False, app_nil_r by done. done.
Qed.

Lemma held_take msg xs f s x : f ≠ Drained → rheld (take_off msg xs f s) x = rheld s x.
Proof using Type.
  intros Hf. destruct x as [ph|y|y]; simpl; [done|by destruct y|].
  destruct y; simpl; try done. by rewrite drained_take.
Qed.

(** The announcement that the closed buffer is empty. *)
Lemma k_notify {B} K l (k : unit → rp B) Q :
  rstable K → (∀ s, K s → emptied s) → kr K l (k tt) Q → kr K l (pbind notify_empty k) Q.
Proof using Type.
  intros Hst HK Hk. apply k_change; [done|]. intros s Hs Hf HKs. destruct (HK s HKs) as [Hc He].
  destruct (decide (bufferEmptyOnTerminateFlag s = false)) as [Hfl|Hfl].
  - split_and!; [destruct Hs; split; try assumption; auto|by apply move_same|].
    exists (Extra AnnounceEmpty :: l). split.
    + pose proof (inv_emptied s Hs) as Hem. rewrite Hfl in Hem.
      destruct (bufferEmptyOnTerminate s) eqn:Hb; [by discriminate Hem|].
      count.
    + apply k_change; [done|]. clear s Hs Hf HKs Hc He Hfl. intros s Hs Hf HKs.
      destruct (fits_announce _ _ Hf) as [Hfl Hb]. rewrite Hb.
      split_and!; [by destruct Hs; split|by apply move_same|]. exists l. split; [|done].
      count.
  - split_and!; [done|by apply move_same|]. exists l. split; [intros x; lia|]. done.
Qed.

Lemma k_buffer_empty {B} K l (k : bool → rp B) Q :
  rstable K → (∀ s, K s → closed s) →
  kr (λ s, K s ∧ emptied s) l (k true) Q → kr K l (k false) Q →
  kr K l (pbind (load buffer_empty) k) Q.
Proof using Type.
  intros Hst HK. apply rk_learn; [done..|]. intros s Hs HKs Hb.
  unfold buffer_empty in Hb. apply bool_decide_eq_true in Hb. split; [by apply HK|done].
Qed.

Lemma k_check_empty {B} K l (k : unit → rp B) Q :
  rstable K → (∀ K', rstable K' → (∀ s, K' s → K s) → kr K' l (k tt) Q) →
  kr K l (pbind check_empty k) Q.
Proof using Type.
  intros Hst Hk. apply (rk_learn bufferClosed closed); [auto..| | |by apply Hk].
  { intros s Hs _ Hb. by apply (inv_bufferClosed s Hs). }
  apply k_buffer_empty; [auto|by intros s [_ ?]|..].
  - apply k_notify; [auto|by intros s [_ ?]|]. apply Hk; [auto|]. by intros s [[? _] _].
  - apply Hk; [auto|]. by intros s [? _].
Qed.

(** ** Locks and requests *)

(** What is left of the invariant when locks, requests and results change. *)
Ltac inv_other Hs := destruct Hs; split; try assumption.

Lemma k_lock_subscriptions {B} K l (k : unit → rp B) Q :
  rstable K → kr K (Extra HoldSubscriptions :: l) (k tt) Q →
  kr K l (pbind (lock subscriptionsLock set_subscriptionsLock) k) Q.
Proof using Type.
  intros Hst Hk. apply k_change; [done|]. intros s Hs _ _. destruct (subscriptionsLock s) eqn:Hl; [done|].
  split_and!; [by inv_other Hs|by apply move_same|]. eexists. split; [|exact Hk]. count.
Qed.

Lemma k_unlock_subscriptions {B} K l (k : unit → rp B) Q :
  rstable K → kr K l (k tt) Q →
  kr K (Extra HoldSubscriptions :: l) (pbind (unlock subscriptionsLock set_subscriptionsLock) k) Q.
Proof using Type.
  intros Hst Hk. apply k_change; [done|]. intros s Hs Hf _. rewrite (fits_subscriptions _ _ Hf).
  pose proof (fits_subscriptions _ _ Hf) as Hl.
  split_and!; [by inv_other Hs|by apply move_same|]. eexists. split; [|exact Hk]. count.
Qed.

Lemma k_lock_synchronization {B} K l (k : unit → rp B) Q :
  rstable K → kr K (Extra HoldSynchronization :: l) (k tt) Q →
  kr K l (pbind (lock subscriptionsSynchronizationLock set_synchronization) k) Q.
Proof using Type.
  intros Hst Hk. apply k_change; [done|]. intros s Hs _ _.
  destruct (subscriptionsSynchronizationLock s) eqn:Hl; [done|].
  split_and!; [by inv_other Hs|by apply move_same|]. eexists. split; [|exact Hk]. count.
Qed.

Lemma k_unlock_synchronization {B} K l (k : unit → rp B) Q :
  rstable K → kr K l (k tt) Q →
  kr K (Extra HoldSynchronization :: l)
    (pbind (unlock subscriptionsSynchronizationLock set_synchronization) k) Q.
Proof using Type.
  intros Hst Hk. apply k_change; [done|]. intros s Hs Hf _. rewrite (fits_synchronization _ _ Hf).
  pose proof (fits_synchronization _ _ Hf) as Hl.
  split_and!; [by inv_other Hs|by apply move_same|]. eexists. split; [|exact Hk]. count.
Qed.

Ltac count_readers :=
  count_cases; try lia; exfalso;
  repeat match goal with
         | H : context [<[?n := _]> _ !! ?t] |- _ => destruct (decide (n = t)); simplify_map_eq
         | H : context [delete ?n _ !! ?t] |- _ => destruct (decide (n = t)); simplify_map_eq
         end; congruence.

Lemma k_RLock {B} K l (k : nat → rp B) Q :
  rstable K → (∀ t, kr K (Extra (ReadingAt t false) :: l) (k t) Q) →
  kr K l (pbind termination_RLock k) Q.
Proof using Type.
  intros Hst Hk. apply k_change; [done|]. intros s Hs _ _.
  lazy beta zeta. destruct (writer (subscriptionTerminationLock s)) eqn:Hw; [done|].
  pose proof (inv_readers s Hs _ (le_n _)) as Hn.
  split_and!; [|by apply move_same|].
  - inv_other Hs; simpl.
    + intros t Ht. rewrite lookup_insert_ne by lia. apply inv_readers0. lia.
    + intros t. rewrite lookup_insert_Some. intros [[_ [=]]|[_ ?]]. by eapply inv_reading0.
  - eexists. split; [|apply Hk]. count_readers.
Qed.

Lemma k_state_reading {B} t K l (k : lstate → rp B) Q :
  rstable K → kr K (Extra (ReadingAt t true) :: l) (k Started) Q →
  (∀ st, st ≠ Started → kr K (Extra (ReadingAt t false) :: l) (k st) Q) →
  kr K (Extra (ReadingAt t false) :: l) (pbind (getState_reading t) k) Q.
Proof using Type.
  intros Hst Ht Hk. apply k_change; [done|]. intros s Hs Hf _. pose proof (fits_reading _ _ _ _ Hf) as Hr.
  destruct (decide (state_of s = Started)) as [Hst'|Hst'].
  - split_and!; [|by apply move_same|].
    + inv_other Hs; simpl.
      * intros u Hu. rewrite lookup_insert_ne; [by apply inv_readers0|].
        intros <-. rewrite inv_readers0 in Hr by done. done.
      * intros u. rewrite lookup_insert_Some. intros [[-> _]|[_ ?]]; [|by eapply inv_reading0].
        apply not_true_is_false. intros Hc%inv_cleaned0. by rewrite Hst' in Hc.
    + eexists. split; [|rewrite Hst'; exact Ht]. count_readers.
  - split_and!; [done|by apply move_same|]. exists (Extra (ReadingAt t false) :: l).
    split; [intros x; lia|by apply Hk].
Qed.

Lemma k_RUnlock {B} t b K l (k : unit → rp B) Q :
  rstable K → kr K l (k tt) Q → kr K (Extra (ReadingAt t b) :: l) (pbind (termination_RUnlock t) k) Q.
Proof using Type.
  intros Hst Hk. apply k_change; [done|]. intros s Hs Hf _. pose proof (fits_reading _ _ _ _ Hf) as Hr.
  lazy beta zeta. rewrite Hr. split_and!; [|by apply move_same|].
  - inv_other Hs; simpl.
    + intros u Hu. rewrite lookup_delete_None. right. by apply inv_readers0.
    + intros u. rewrite lookup_delete_Some. intros [_ ?]. by eapply inv_reading0.
  - eexists. split; [|exact Hk]. count_readers.
Qed.

Lemma k_request {B} add topic K l (k : session_answer → rp B) Q :
  rstable K → (∀ s, recv_inv s → rfits s l → K s → add = true → cleaned (past s) = false) →
  (∀ r, kr K l (k r) Q) → kr K l (pbind (session_request add topic) k) Q.
Proof using Type.
  intros Hst Hc Hk. apply k_change; [done|]. intros s Hs Hf HK.
  destruct (match session s with [] => (None, None, []) | r :: l => (r, l) end) as [r a] eqn:Hr.
  split_and!; [by inv_other Hs| |exists l; split; [by intros [?|[]|[]]|apply Hk]].
  split; try done.
  - by left.
  - intros Hcl. split; [done|]. unfold subscribes. simpl. rewrite filter_snoc. simpl.
    destruct add; simpl; [rewrite (Hc s) in Hcl by done; done|by rewrite app_nil_r].
Qed.

Lemma k_subscribe {B} topic K l (k : session_answer → rp B) Q :
  rstable K → (∀ s, recv_inv s → rfits s l → cleaned (past s) = false) →
  (∀ r, kr K l (k r) Q) → kr K l (pbind (subscribe topic) k) Q.
Proof using Type.
  intros Hst Hc Hk. apply k_lock_synchronization; [done|]. apply k_request; [done|..].
  - intros s Hs Hf _ _. by apply (Hc s Hs (receiver_fits_tail _ _ _ Hf)).
  - intros r. apply k_unlock_synchronization; [done|]. apply Hk.
Qed.

Lemma k_unsubscribe {B} topic K l (k : session_answer → rp B) Q :
  rstable K → (∀ r, kr K l (k r) Q) → kr K l (pbind (unsubscribe topic) k) Q.
Proof using Type.
  intros Hst Hk. apply k_lock_synchronization; [done|]. apply k_request; [done..|].
  intros r. apply k_unlock_synchronization; [done|]. apply Hk.
Qed.

Lemma k_modify {B} request modify subscription K l (k : option go_error + go_error → rp B) Q :
  rstable K →
  (∀ C topic l (k : session_answer → rp C) Q,
     (∀ s, recv_inv s → rfits s l → cleaned (past s) = false) →
     (∀ r, kr K l (k r) Q) → kr K l (pbind (request topic) k) Q) →
  (∀ r, kr K l (k r) Q) →
  kr K l (pbind (modify_subscription request modify subscription) k) Q.
Proof using Type.
  intros Hst Hreq Hk. apply kproto_bind. apply k_RLock; [done|]. intros t.
  apply k_state_reading; [done|..].
  - apply rk_load; [done|]. intros s Hs _. apply Hreq.
    { intros s' Hs' Hf. apply fits_reading in Hf. by eapply (inv_reading s' Hs'). }
    intros [[e|] ev]; simpl fst.
    + apply k_RUnlock; [done|]. apply Hk.
    + apply k_lock_subscriptions; [done|]. apply k_update; [done|..].
      * intros s' Hs'. by inv_other Hs'.
      * intros s'. by apply move_same.
      * by intros s' [?|[]|[]].
      * apply k_unlock_subscriptions; [done|]. apply k_RUnlock; [done|]. apply Hk.
  - intros st Hn. lazy beta. rewrite decide_True by done. apply k_RUnlock; [done|]. apply Hk.
Qed.

Lemma k_addSubscription {B} subscription K l (k : option go_error + go_error → rp B) Q :
  rstable K → (∀ r, kr K l (k r) Q) → kr K l (pbind (addSubscription subscription) k) Q.
Proof using Type. intros Hst Hk. apply k_modify; [done| |done]. intros. by apply k_subscribe. Qed.

Lemma k_removeSubscription {B} subscription K l (k : option go_error + go_error → rp B) Q :
  rstable K → (∀ r, kr K l (k r) Q) → kr K l (pbind (removeSubscription subscription) k) Q.
Proof using Type. intros Hst Hk. apply k_modify; [done| |done]. intros. by apply k_unsubscribe. Qed.

Lemma k_await_modification {B} r K l (k : option go_error → rp B) Q :
  rstable K → (∀ err, kr K l (k err) Q) → kr K l (pbind (await_modification r) k) Q.
Proof using Type.
  intros Hst Hk. destruct r as [ev|err]; [|apply Hk]. apply k_same; [done|]. intros s Hs _.
  split_and!; [done|by apply move_same|lia|apply Hk].
Qed.

(** Reading the state. *)
Lemma k_getState {B} K l (k : lstate → rp B) Q :
  rstable K → (∀ st, kr K l (k st) Q) → kr K l (pbind getState k) Q.
Proof using Type. intros Hst Hk. apply rk_load; [done|]. intros s _ _. apply Hk. Qed.

(** Fields that only the application sees. *)
Lemma k_tell {B} r K l (k : unit → rp B) Q :
  rstable K → kr K l (k tt) Q → kr K l (pbind (tell r) k) Q.
Proof using Type.
  intros Hst Hk. apply k_update; [done|intros s Hs; by inv_other Hs|intros s; by apply move_same|
    by intros s [?|[]|[]]|done].
Qed.
Lemma k_go {B} g K l (k : unit → rp B) Q :
  rstable K → kr K l (k tt) Q → kr K l (pbind (go g) k) Q.
Proof using Type.
  intros Hst Hk. apply k_update; [done|intros s Hs; by inv_other Hs|intros s; by apply move_same|
    by intros s [?|[]|[]]|done].
Qed.

Lemma k_check_modify {B} subscription K l (k : option go_error → rp B) Q :
  rstable K → (∀ err, kr K l (k err) Q) → kr K l (pbind (check_modify subscription) k) Q.
Proof using Type. intros Hst Hk. apply k_getState; [done|]. intros st. apply Hk. Qed.

Definition over {B} (b : B) (K : receiver → Prop) (n : lc_permit once mine → nat) : Prop := True.

Lemma k_AddSubscription subscription K l : rstable K → kr K l (AddSubscription subscription) over.
Proof using Type.
  intros Hst. apply k_check_modify; [done|]. intros [err|]; [done|].
  apply k_addSubscription; [done|]. intros r. apply kproto_unbind, k_await_modification; done.
Qed.

Lemma k_RemoveSubscription subscription K l : rstable K → kr K l (RemoveSubscription subscription) over.
Proof using Type.
  intros Hst. apply k_check_modify; [done|]. intros [err|]; [done|].
  apply k_removeSubscription; [done|]. intros r. apply kproto_unbind, k_await_modification; done.
Qed.

Lemma k_change_subscription add subscription listener K l :
  rstable K → kr K l (change_subscription add subscription listener) over.
Proof using Type.
  intros Hst. unfold change_subscription.
  assert (∀ r, kr K l (if listener then
    let! err := await_modification r in tell (SubscriptionChanged subscription add err) ;;;; PRet None
    else PRet None) (@over (option go_error))) as Hl.
  { intros r. destruct listener; [|done]. apply k_await_modification; [done|]. intros err.
    by apply k_tell. }
  destruct add; [by apply k_addSubscription|by apply k_removeSubscription].
Qed.

(** ** Receiving *)

Lemma k_isDiscard {B} old new K l (k : bool → rp B) Q :
  rstable K → (∀ b, kr K l (k b) Q) →
  kr K l (pbind (compare_and_swap isDiscard set_isDiscard old new) k) Q.
Proof using Type.
  intros Hst Hk. apply k_same; [done|]. intros s Hs _. case_decide.
  - split_and!; [by inv_other Hs|by apply move_same|by intros [?|[]|[]]|apply Hk].
  - split_and!; [done|by apply move_same|lia|apply Hk].
Qed.

Lemma k_consume {B} msg K l (k : directInboundMessage → rp B) Q :
  rstable K → (∀ msg', pointer msg' = pointer msg → kr K l (k msg') Q) →
  kr K l (pbind (consume msg) k) Q.
Proof using Type.
  intros Hst Hk. apply rk_load; [done|]. intros s _ _.
  assert (∀ msg', pointer msg' = pointer msg → kr K l (pbind
    ((if discard msg' then update (λ s, set_discardNotifications (discardNotifications s + 1) s)
      else PRet tt) ;;;; PRet msg') k) Q) as Hd.
  { intros msg' Hp. destruct (discard msg'); [|by apply Hk].
    apply k_update; [done|intros s' Hs'; by inv_other Hs'|intros s'; by apply move_same|
      by intros s' [?|[]|[]]|by apply Hk]. }
  case_decide; [|by apply Hd]. apply k_isDiscard; [done|]. intros b. by apply Hd.
Qed.

Lemma k_ReceiveMessage timer K l : rstable K → kr K l (ReceiveMessage timer) over.
Proof using Type.
  intros Hst. apply k_getState; [done|]. intros st. case_decide; [done|].
  assert (∀ a, kr K l (check_empty ;;;; PRet a) (@over answer)) as Hend.
  { intros a. by apply k_check_empty. }
  assert (∀ s s' (r : received), recv_inv s → K s → recv_inv s' → recv_move s s' →
    (∀ x, rheld s' x ≤ rheld s x) →
    recv_inv s' ∧ recv_move s s' ∧ ∃ n' K', conserves rheld s (own l) s' n' ∧ K' s' ∧ rstable K' ∧
      kproto recv_inv recv_move rheld lc_total K' n' (match r with
        | Got msg => let! msg := consume msg in
            check_empty ;;;; PRet (InboundMessage (pointer msg) (discard msg))
        | GotTimeout => check_empty ;;;; PRet (Returned (Some ReceiverTimedOutWaitingForMessage))
        | GotClosed | GotTerminated =>
            check_empty ;;;; PRet (Returned (Some ReceiverCannotReceiveAlreadyTerminated))
        end) over) as Hgo.
  { intros s s' r Hs HK Hs' Hm Hx. split_and!; [done..|]. exists (own l), K. split_and!.
    - intros x. specialize (Hx x). lia.
    - by apply (Hst s s').
    - done.
    - destruct r as [msg| | |]; [|by apply Hend..]. apply k_consume; [done|]. intros msg' _. apply Hend. }
  intros s Hs _ HK f Hin. apply elem_of_app in Hin as [Hin|Hin].
  - apply elem_of_cons in Hin as [->|Hin%list_elem_of_singleton].
    + pose proof (receive_buffer_spec Received (λ _ s, s) s) as Hr.
      destruct (receive_buffer _ _ _) as [[msg| | |] s'| |]; try done.
      * destruct Hr as (xs & Hb & ->). apply (Hgo s _ (Got msg) Hs HK).
        -- by apply inv_take_received.
        -- by apply move_take.
        -- intros x. by rewrite held_take.
      * destruct Hr as [-> _]. apply (Hgo s s GotClosed Hs HK Hs); [by apply move_same|lia].
    + subst f. destruct (bufferEmptyOnTerminate s); [|done].
      apply (Hgo s s GotTerminated Hs HK Hs); [by apply move_same|lia].
  - destruct timer; [|by apply elem_of_nil in Hin]. apply list_elem_of_singleton in Hin as ->.
    apply (Hgo s s GotTimeout Hs HK Hs); [by apply move_same|lia].
Qed.

Lemma k_offer_callback {B} b K l (k : bool → rp B) Q :
  rstable K → (∀ s, K s → b = true → has_callback s) → (∀ r, kr K l (k r) Q) →
  kr K l (pbind (offer_callback b) k) Q.
Proof using Type.
  intros Hst Hb Hk. apply k_same; [done|]. intros s Hs HK.
  pose proof (inv_callbackSet s Hs) as Hc. unfold chan_try_send. rewrite Hc. case_decide; simpl.
  - split_and!; [|by apply move_same|by intros [?|[]|[]]|apply Hk].
    inv_other Hs; [|done]. simpl. rewrite elem_of_app, list_elem_of_singleton.
    intros [?| <-]; [by apply inv_callback0|by apply Hb].
  - split_and!; [|by apply move_same|by intros [?|[]|[]]|apply Hk].
    inv_other Hs; done.
Qed.

Lemma k_ReceiveAsync callback K l : rstable K → kr K l (ReceiveAsync callback) over.
Proof using Type.
  intros Hst. apply rk_load; [done|]. intros s _ _.
  assert (∀ b : bool, kr K l (if b then PRet (Some UnableToRegisterCallbackReceiverTerminating)
    else match callback with
  | None => PRet (Some nil_callback_error)
  | Some f =>
      let! first := action (λ s, match rxCallback s with
                                 | None => AOk true (set_rxCallback (Some f) s)
                                 | Some _ => AOk false s
                                 end) in
      (if (first : bool) then offer_callback true ;;;; PRet tt
       else update (set_rxCallback (Some f))) ;;;; PRet None
  end) (@over (option go_error))) as Hgo.
  { intros [|]; [done|]. destruct callback as [f|]; [|done]. apply k_act. clear s. intros s Hs _ HK.
    destruct (rxCallback s) eqn:Hc.
    - split_and!; [done|by apply move_same|]. exists l, K. split_and!; [intros x; lia|done..|].
      apply k_update; [done|intros s' Hs'; by inv_other Hs'|intros s'; by apply move_same|
        by intros s' [?|[]|[]]|done].
    - split_and!; [by inv_other Hs|by apply move_same|].
      exists l, (λ s, K s ∧ has_callback s). split; [by intros [?|[]|[]]|]. split; [|split; [auto|]].
      + split; [|by eexists]. apply (Hst s); [done|by apply move_same|done].
      + apply k_offer_callback; [auto|by intros s' [_ ?]|done]. }
  destruct (bool_decide (state_of s = Terminating)).
  - apply (Hgo true).
  - apply rk_load; [done|]. intros s' _ _. apply Hgo.
Qed.

(** ** The context thread *)

Definition others_same (s s' : receiver) : Prop :=
  ∀ x, match x with Extra (ContextAt _) => True | _ => rheld s' x = rheld s x end.

(** Two positions at once. *)
Ltac contexts :=
  first [ intuition congruence
        | match goal with H : ¬ (_ ∧ _) |- _ => by apply H; split_and!; congruence end ].

Definition with_context (c : context_state) (l : list (lc_permit once mine)) :=
  match c with ContextFree => l | _ => Extra (ContextAt c) :: l end.

Lemma conserves_context s s' c l :
  others_same s s' → context (past s) = c → c ≠ ContextFree →
  conserves rheld s (own (Extra (ContextAt c) :: l)) s' (own (with_context (context (past s')) l)).
Proof using Type.
  intros Hx Hc Hn x. specialize (Hx x).
  assert (rheld s' x = rheld s x → (∀ c, x ≠ Extra (ContextAt c)) →
    rheld s' x + own (with_context (context (past s')) l) x ≤
    rheld s x + own (Extra (ContextAt c) :: l) x) as Hsame.
  { intros He Hne. rewrite He. unfold with_context. cbn [own].
    destruct (context (past s')); cbn [own]; rewrite !decide_False by done; lia. }
  destruct x as [ph|y|y]; [by apply Hsame..|]. destruct y as [c''| | | | | | |]; try (by apply Hsame).
  clear Hsame Hx. unfold with_context. cbn [lc_held extra own]. rewrite Hc.
  destruct (context (past s')) eqn:Hc'; cbn [own]; repeat case_decide; try lia; exfalso;
    contexts.
Qed.

Lemma k_context {V B} (f : receiver → act receiver V) c K l (k : V → rp B) Q :
  rstable K →
  (∀ s, recv_inv s → K s → context (past s) = c → c ≠ ContextFree →
    match f s with
    | AOk v s' => recv_inv s' ∧ recv_move s s' ∧ others_same s s' ∧
        kr K (with_context (context (past s')) l) (k v) Q
    | ABlock => True
    | APanic _ => False
    end) → kr K (Extra (ContextAt c) :: l) (PAct f k) Q.
Proof using Type.
  intros Hst Hk. apply k_change; [done|]. intros s Hs Hf HK. destruct (fits_context _ _ _ Hf) as [Hc Hn].
  specialize (Hk s Hs HK Hc Hn). destruct (f s) as [v s'| |]; [|done..].
  destruct Hk as (? & ? & Hx & Hk). split_and!; [done..|]. eexists. split; [|exact Hk].
  by apply conserves_context.
Qed.

(** The invariant over the steps of a callback. *)
Ltac unfold_inv :=
  unfold drained_count, taken_as, turned_as, answered_with, in_hand, closed in *; simpl in *;
  rewrite ?snoc_as, ?app_nil_r in *; simpl in *.

Lemma open_context s : recv_inv s → context (past s) ≠ ContextFree → chan_closed (buffer s) = false.
Proof using Type.
  intros Hs Hc. apply not_true_is_false. intros [Hr _]%(inv_closed s Hs).
  by rewrite (inv_registered s Hs Hc) in Hr.
Qed.

Lemma inv_late m s : recv_inv s → context (past s) = Entered m →
  recv_inv (note (note_turned m Late (Decided m false CountTermination)) s).
Proof using Type.
  intros [] Hc. split; try assumption; unfold_inv; rewrite ?Hc in *; simpl in *;
    rewrite ?app_nil_r in *; try assumption; try lia.
  - by rewrite fmap_app, inv_turned0.
  - rewrite length_app. simpl. lia.
  - done.
  - intros _. by apply inv_registered0.
Qed.

Lemma inv_latest m s : recv_inv s → context (past s) = Entered m →
  recv_inv (note (note_turned m Latest (Decided m false CountBackpressure)) (set_isDiscard true s)).
Proof using Type.
  intros [] Hc. split; try assumption; unfold_inv; rewrite ?Hc in *; simpl in *;
    rewrite ?app_nil_r in *; try assumption; try lia.
  - by rewrite fmap_app, inv_turned0.
  - rewrite length_app. simpl. lia.
  - done.
  - intros _. by apply inv_registered0.
Qed.

Lemma inv_push m d c p s : recv_inv s → context (past s) = c → in_context c = [m] →
  (∀ b, decided b c = []) → pending_term c = 0 → pending_term (Decided m true p) = 0 →
  pending_back (Decided m true p) = pending_back c → length (chan_buf (buffer s)) < size →
  recv_inv (note (note_pushed m (Decided m true p))
    (set_buffer (mkChan (chan_cap (buffer s)) (chan_buf (buffer s) ++ [mkInbound m d])
       (chan_closed (buffer s))) s)).
Proof using Type.
  intros Hs Hc Hin Hd Ht Ht' Hb Hl.
  assert (context (past s) ≠ ContextFree) as Hn by (by intros Hf; rewrite <-Hc, Hf in Hin).
  pose proof (open_context s Hs Hn) as Ho. destruct Hs. split; try assumption; unfold_inv.
  - rewrite inv_fifo0, fmap_app. simpl. by rewrite app_assoc.
  - rewrite length_app. simpl. lia.
  - by rewrite inv_arrived0, Hc, Hin.
  - by rewrite inv_kept0, Hc, Hd, app_nil_r.
  - by rewrite inv_turned0, Hc, Hd, app_nil_r.
  - rewrite Hc in inv_backpressure0. destruct p; simpl in *; lia.
  - rewrite Hc in inv_termination0. destruct p; simpl in *; lia.
  - done.
  - intros _. by apply inv_registered0.
  - intros [? _]%inv_flag0. congruence.
Qed.

Lemma inv_no_room_needed m s : recv_inv s → context (past s) = Entered m →
  length (chan_buf (buffer s)) < size → recv_inv (note (at_context (MustSend m false)) s).
Proof using Type.
  intros [] Hc Hl. split; try assumption; unfold_inv; rewrite ?Hc in *; simpl in *;
    rewrite ?app_nil_r in *; try assumption; try done.
  intros _. by apply inv_registered0.
Qed.

Lemma inv_drop m msg xs s : recv_inv s → context (past s) = Entered m →
  chan_buf (buffer s) = msg :: xs →
  recv_inv (note (at_context (MustSend m true)) (take_off msg xs Dropped s)).
Proof using Type.
  intros [] Hc Hb. split; try assumption; unfold_inv; rewrite ?Hc, ?Hb in *; simpl in *;
    rewrite ?app_nil_r in *; try assumption; try done.
  - rewrite inv_fifo0, fmap_app. simpl. by rewrite <-app_assoc.
  - lia.
  - rewrite length_app. simpl. lia.
  - intros _. by apply inv_registered0.
  - by intros [? [=]]%inv_flag0.
Qed.

Lemma inv_count_back m b s : recv_inv s → context (past s) = Decided m b CountBackpressure →
  recv_inv (note (at_context (Decided m b NoMetric))
              (set_backpressureDiscarded (backpressureDiscarded s + 1) s)).
Proof using Type.
  intros [] Hc. split; try assumption; unfold_inv; rewrite ?Hc in *; simpl in *; rewrite ?app_nil_r in *;
    try assumption; try done; first [lia|intros _; by apply inv_registered0].
Qed.

Lemma inv_count_term m s : recv_inv s → context (past s) = Decided m false CountTermination →
  recv_inv (note (at_context (Decided m false NoMetric))
              (set_terminationDiscarded (terminationDiscarded s + 1) s)).
Proof using Type.
  intros [] Hc. split; try assumption; unfold_inv; rewrite ?Hc in *; simpl in *; rewrite ?app_nil_r in *;
    try assumption; try done; first [lia|intros _; by apply inv_registered0].
Qed.

Lemma inv_answered m b s : recv_inv s → context (past s) = Decided m b NoMetric →
  recv_inv (note (note_answered m b) s).
Proof using Type.
  intros [] Hc. split; try assumption; unfold_inv; rewrite ?Hc in *; simpl in *; try assumption; try done.
  by rewrite inv_arrived0, fmap_app.
Qed.

Lemma k_count_backpressure {B} m b K l (k : unit → rp B) Q :
  rstable K → kr K (Extra (ContextAt (Decided m b NoMetric)) :: l) (k tt) Q →
  kr K (Extra (ContextAt (Decided m b CountBackpressure)) :: l) (pbind (count_backpressure m b) k) Q.
Proof using Type.
  intros Hst Hk. apply k_context; [done|]. intros s Hs _ Hc _.
  split_and!; [by apply inv_count_back|by apply move_same| |done]. by intros [?|[]|[]].
Qed.

Lemma k_count_termination {B} m K l (k : unit → rp B) Q :
  rstable K → kr K (Extra (ContextAt (Decided m false NoMetric)) :: l) (k tt) Q →
  kr K (Extra (ContextAt (Decided m false CountTermination)) :: l) (pbind (count_termination m) k) Q.
Proof using Type.
  intros Hst Hk. apply k_context; [done|]. intros s Hs _ Hc _.
  split_and!; [by apply inv_count_term|by apply move_same| |done]. by intros [?|[]|[]].
Qed.

Lemma k_push {B} m d K l (k : pushing → rp B) Q :
  rstable K → kr K (Extra (ContextAt (Decided m true NoMetric)) :: l) (k PushOk) Q →
  kr K (Extra (ContextAt (Entered m)) :: l) (k PushFull) Q →
  kr K (Extra (ContextAt (Entered m)) :: l) (pbind (push (mkInbound m d)) k) Q.
Proof using Type.
  intros Hst Hok Hfull. apply k_context; [done|]. intros s Hs _ Hc Hn. unfold chan_try_send.
  rewrite (open_context s Hs) by congruence. case_decide as Hl; simpl.
  - split_and!; [| | |done].
    + rewrite <-(open_context s Hs) by congruence. eapply inv_push; try done. by rewrite <-(inv_cap s Hs).
    + split; try done; [by left|by apply prefix_app_r|]. unfold closed.
      rewrite (open_context s Hs) by congruence. done.
    + intros [?|[]|[]]; simpl; rewrite ?(open_context s Hs) by congruence; done.
  - rewrite Hc. split_and!; [done|by apply move_same|by intros [?|[]|[]]|done].
Qed.

Context (Hsize : 0 < size).

Lemma k_drop_oldest {B} m K l (k : bool → rp B) Q :
  rstable K → (∀ b, kr K (Extra (ContextAt (MustSend m b)) :: l) (k b) Q) →
  kr K (Extra (ContextAt (Entered m)) :: l) (pbind (drop_oldest m) k) Q.
Proof using Hsize.
  intros Hst Hk. apply k_context; [done|]. intros s Hs _ Hc Hn. unfold chan_try_recv.
  destruct (chan_buf (buffer s)) as [|msg xs] eqn:Hb.
  - rewrite (open_context s Hs) by congruence.
    split_and!; [apply inv_no_room_needed; [done..|by rewrite Hb]|by apply move_same|
      by intros [?|[]|[]]|apply Hk].
  - split_and!; [by apply inv_drop| | |apply Hk].
    + apply move_same; try done. unfold closed. simpl. rewrite Hb. simpl. auto with lia.
    + intros [ph|y|y]; [done|by destruct y|]. destruct y; try done. simpl.
      pose proof (drained_take msg xs Dropped s) as Hd. unfold drained_count, taken_as in *.
      simpl in *. by rewrite Hd.
Qed.

Lemma k_send_pushed {B} m d b K l (k : bool → rp B) Q :
  rstable K →
  kr K (Extra (ContextAt (Decided m true (if b : bool then CountBackpressure else NoMetric))) :: l) (k true) Q →
  kr K (Extra (ContextAt (MustSend m b)) :: l) (pbind (send_pushed (mkInbound m d) b) k) Q.
Proof using Type.
  intros Hst Hk. apply k_context; [done|]. intros s Hs _ Hc Hn. unfold chan_send.
  rewrite (open_context s Hs) by congruence. case_decide as Hl; simpl; [|done].
  split_and!; [| | |done].
  - rewrite <-(open_context s Hs) by congruence. eapply inv_push; try done; [by destruct b..|].
    by rewrite <-(inv_cap s Hs).
  - split; try done; [by left|by apply prefix_app_r|]. unfold closed.
    rewrite (open_context s Hs) by congruence. done.
  - intros [?|[]|[]]; simpl; rewrite ?(open_context s Hs) by congruence; done.
Qed.

Lemma k_messageCallback {B} m K l (k : bool → rp B) Q :
  rstable K → (∀ b, kr K (Extra (ContextAt (Decided m b NoMetric)) :: l) (k b) Q) →
  kr K (Extra (ContextAt (Entered m)) :: l) (pbind (messageCallback m) k) Q.
Proof using Hsize.
  intros Hst Hk. apply kproto_bind. apply k_context; [done|]. intros s Hs _ Hc Hn. lazy beta zeta.
  case_decide as Hterm.
  { split_and!; [by apply inv_late|by apply move_same|by intros [?|[]|[]]|].
    lazy beta. rewrite decide_True by done. apply k_count_termination; [done|]. apply Hk. }
  split_and!; [done|by apply move_same|by intros [?|[]|[]]|].
  lazy beta. rewrite decide_False by done. rewrite Hc. clear s Hs Hc Hn Hterm.
  apply rk_load; [done|]. intros s Hs _.
  assert (∀ setDiscard, kr K (Extra (ContextAt (Entered m)) :: l)
    (let! r := push (mkInbound m setDiscard) in
     match r with
     | PushOk => PRet true
     | PushClosed => count_termination m ;;;; PRet false
     | PushFull =>
        match backpressureStrategy s with
        | strategyDropOldest =>
            let! discard := drop_oldest m in
            (if discard then store set_isDiscard true else PRet tt) ;;;;
            let! sent := send_pushed (mkInbound m setDiscard) discard in
            if negb sent then count_termination m ;;;; PRet false
            else if discard then count_backpressure m true ;;;; PRet true
            else PRet true
        | strategyDropLatest =>
            update (λ s, note (note_turned m Latest (Decided m false CountBackpressure))
                           (set_isDiscard true s)) ;;;;
            count_backpressure m false ;;;; PRet false
        end
     end) (λ b K' m', kproto recv_inv recv_move rheld lc_total K' m' (k b) Q)) as Hpush.
  { intros d. apply k_push; [done|by apply Hk|]. destruct (backpressureStrategy s).
    - apply k_drop_oldest; [done|]. intros b.
      assert (kr K (Extra (ContextAt (MustSend m b)) :: l)
        (let! sent := send_pushed (mkInbound m d) b in
         if negb sent then count_termination m ;;;; PRet false
         else if b then count_backpressure m true ;;;; PRet true else PRet true)
        (λ b K' m', kproto recv_inv recv_move rheld lc_total K' m' (k b) Q)) as Hsend.
      { apply k_send_pushed; [done|]. destruct b; [|by apply Hk].
        apply k_count_backpressure; [done|]. apply Hk. }
      destruct b; [|exact Hsend].
      apply k_update; [done|intros s' Hs'; by inv_other Hs'|intros s'; by apply move_same|
        by intros s' [?|[]|[]]|exact Hsend].
    - apply k_context; [done|]. clear s Hs. intros s Hs _ Hc Hn.
      split_and!; [by apply inv_latest|by apply move_same|by intros [?|[]|[]]|].
      apply k_count_backpressure; [done|]. apply Hk. }
  case_decide; [|apply Hpush]. apply k_isDiscard; [done|]. intros b. apply Hpush.
Qed.

Lemma k_rxCallback_of_core m K l : rstable K → kr K l (rxCallback_of_core m) over.
Proof using Hsize.
  intros Hst. apply k_change; [done|]. intros s Hs _ _. destruct (context (past s)) eqn:Hc; [|done..].
  destruct (rxRegistered s) eqn:Hr.
  - split_and!; [|by apply move_same|].
    + destruct Hs. split; try assumption; unfold_inv; rewrite ?Hc in *; simpl in *;
        rewrite ?app_nil_r in *; try assumption; try done. by rewrite inv_arrived0.
    + exists (Extra (ContextAt (Entered m)) :: l). split.
      * intros [?|[]|[]]; cbn [lc_held gate spent extra own]; unfold state_of; simpl; rewrite ?Hc;
          repeat case_decide; try lia; exfalso; contexts.
      * apply k_messageCallback; [done|]. intros b. apply k_change; [done|].
        clear s Hs Hc Hr. intros s Hs Hf _. destruct (fits_context _ _ _ Hf) as [Hc Hn].
        split_and!; [by apply inv_answered|by apply move_same|]. exists l. split; [|done].
        intros [?|[]|[]]; cbn [lc_held gate spent extra own]; unfold state_of; simpl; rewrite ?Hc;
          repeat case_decide; try lia; exfalso; contexts.
  - split_and!; [done|by apply move_same|]. exists l. split; [intros x; lia|done].
Qed.

(** ** The goroutine of the handler *)

Definition others_same_runner (s s' : receiver) : Prop :=
  ∀ x, match x with Extra (RunnerAt _) => True | _ => rheld s' x = rheld s x end.

Lemma k_runner {V B} (f : receiver → act receiver V) h K l (k : V → rp B) Q :
  rstable K →
  (∀ s, recv_inv s → K s → runner (past s) = Running h →
    match f s with
    | AOk v s' => recv_inv s' ∧ recv_move s s' ∧ others_same_runner s s' ∧ ∃ h',
        runner (past s') = Running h' ∧ kr K (Extra (RunnerAt h') :: l) (k v) Q
    | ABlock => True
    | APanic _ => False
    end) → kr K (Extra (RunnerAt h) :: l) (PAct f k) Q.
Proof using Hsize.
  intros Hst Hk. apply k_change; [done|]. intros s Hs Hf HK. pose proof (receiver_fits_runner _ _ _ Hf) as Hr.
  specialize (Hk s Hs HK Hr). destruct (f s) as [v s'| |]; [|done..].
  destruct Hk as (? & ? & Hx & h' & Hr' & Hk). split_and!; [done..|]. eexists. split; [|exact Hk].
  intros x. specialize (Hx x).
  assert (rheld s' x = rheld s x → (∀ h, x ≠ Extra (RunnerAt h)) →
    rheld s' x + own (Extra (RunnerAt h') :: l) x ≤ rheld s x + own (Extra (RunnerAt h) :: l) x) as Hsame.
  { intros He Hne. cbn [own]. rewrite He, !decide_False by done. lia. }
  destruct x as [ph|y|y]; [by apply Hsame..|]. destruct y as [|h''| | | | | |]; try (by apply Hsame).
  clear Hsame Hx Hf. cbn [lc_held extra own]. rewrite Hr, Hr'.
  repeat case_decide; simplify_eq; try lia; congruence.
Qed.

Lemma held_handed msg xs s x : runner (past s) = Running None →
  match x with
  | Extra (RunnerAt _) => True
  | _ => rheld (note (at_runner (Running (Some (pointer msg)))) (take_off msg xs Handed s)) x = rheld s x
  end.
Proof using Hsize.
  intros Hr. pose proof (held_take msg xs Handed s x) as Hx. revert Hx. unfold taken_as, drained_count.
  destruct x as [ph|[| |]|[]]; simpl; try done; intros Hx; try (by apply Hx).
  by rewrite Hr.
Qed.

Lemma inv_handed f m s : recv_inv s → runner (past s) = Running (Some m) →
  recv_inv (note (note_called f m) s).
Proof using Hsize.
  intros [] Hr. split; try assumption; unfold_inv; rewrite ?Hr in *; simpl in *; try done.
  - intros ?%inv_complete0. congruence.
  - by rewrite inv_called0, fmap_app.
  - intros x Hx. specialize (inv_before0 x Hx). destruct x; simpl in *; try done.
    rewrite Hr in inv_before0. by apply bool_decide_eq_false in inv_before0 as [].
Qed.

Lemma k_run_loop {B} fuel K l (k : bool → rp B) Q :
  rstable K → (∀ s, K s → has_callback s) →
  (∀ b K', rstable K' → kr K' (Extra (RunnerAt None) :: l) (k b) Q) →
  kr K (Extra (RunnerAt None) :: l) (pbind (run_loop fuel) k) Q.
Proof using Hsize.
  intros Hst HK Hk. apply kproto_bind.
  assert (∀ b K', rstable K' → kr K' (Extra (RunnerAt None) :: l) (PRet b)
    (λ b K m, kproto recv_inv recv_move rheld lc_total K m (k b) Q)) as Hret by done.
  clear Hk. induction fuel as [|fuel IH]; [by apply Hret|].
  apply rk_load; [done|]. intros s _ _. destruct (terminationNotification s); [by apply Hret|].
  clear s. intros s Hs Hf HKs f Hin.
  apply elem_of_cons in Hin as [->|Hin%list_elem_of_singleton].
  - pose proof (receiver_fits_runner _ _ _ Hf) as Hr.
    pose proof (receive_buffer_spec Handed (λ msg s, note (at_runner (Running (Some (pointer msg)))) s) s) as Hb.
    destruct (receive_buffer _ _ _) as [[msg| | |] s'| |]; try done.
    + destruct Hb as (xs & Hb & ->).
      assert (recv_move s (note (at_runner (Running (Some (pointer msg)))) (take_off msg xs Handed s))) as Hm.
      { apply move_same; try done. unfold closed. simpl. rewrite Hb. simpl. auto with lia. }
      split_and!; [by apply inv_take_handed|done|].
      exists (own (Extra (RunnerAt (Some (pointer msg))) :: l)), K. split_and!; [|by apply (Hst s)|done|].
      * intros x. pose proof (held_handed msg xs s x Hr) as Hx. destruct x as [ph|y|y].
        -- rewrite Hx. cbn [own]. rewrite !decide_False by done. lia.
        -- rewrite Hx. cbn [own]. rewrite !decide_False by done. lia.
        -- destruct y; try (rewrite Hx; cbn [own]; rewrite !decide_False by done; lia).
           clear Hx. cbn [lc_held extra own]. simpl. rewrite Hr.
           repeat case_decide; simplify_eq; try lia; congruence.
      * apply rk_load; [done|]. intros s' Hs' HKs'. destruct (HK s' HKs') as [g Hg]. rewrite Hg.
        apply k_consume; [done|]. intros msg' Hp. apply k_runner; [done|]. intros s1 Hs1 _ Hr1.
        rewrite Hp. split_and!; [by apply inv_handed|by apply move_same| |].
        -- intros [|[| |]|[]]; simpl; try done. by rewrite Hr1.
        -- exists None. split; [done|]. apply IH.
    + destruct Hb as [-> He]. split_and!; [done|by apply move_same|].
      exists (own (Extra (RunnerAt None) :: l)), (λ s, K s ∧ emptied s).
      split; [intros x; lia|]. split; [done|]. split; [auto|].
      apply k_notify; [auto|by intros ? [_ ?]|]. apply Hret. auto.
  - subst f. destruct (terminationNotification s); [|done]. split_and!; [done|by apply move_same|].
    exists (own (Extra (RunnerAt None) :: l)), K. split_and!; [intros x; lia|done..|]. by apply Hret.
Qed.

Lemma k_finish K l (a : option go_error) :
  rstable K → kr K (Extra (RunnerAt None) :: l)
    (action (λ s, if terminationComplete s then APanic CloseOfClosedChannel
                 else AOk tt (note (at_runner Finished) (set_terminationComplete true s))) ;;;; PRet a) over.
Proof using Hsize.
  intros Hst. apply k_change; [done|]. intros s Hs Hf _. pose proof (receiver_fits_runner _ _ _ Hf) as Hr.
  destruct (terminationComplete s) eqn:Hc.
  { pose proof (inv_complete s Hs Hc). congruence. }
  split_and!; [|by apply move_same|].
  - inv_other Hs; unfold_inv; rewrite ?Hr, ?app_nil_r in *; try done. intros x Hx.
    specialize (inv_before0 x Hx). destruct x; simpl in *; try done.
    rewrite Hr in inv_before0. by apply bool_decide_eq_false in inv_before0 as [].
  - exists l. split; [|done]. intros [ph|[]|[]]; cbn [lc_held extra own spent gate]; unfold state_of, drained_count, taken_as; simpl; rewrite ?Hr;
      simpl; try (rewrite decide_False by done); first [lia|repeat case_decide; simplify_eq; lia].
Qed.

Lemma k_run_receiver fuel K l : rstable K → kr K l (run_receiver fuel) over.
Proof using Hsize.
  intros Hst. apply k_change; [done|]. intros s Hs _ _.
  destruct (runner (past s)) eqn:Hr; try done. split_and!; [|by apply move_same|].
  - inv_other Hs; unfold_inv; rewrite ?Hr, ?app_nil_r in *; try done.
    + intros ?%inv_complete0. congruence.
    + intros x Hx. specialize (inv_before0 x Hx). destruct x; simpl in *; try done.
      rewrite Hr in inv_before0. by apply bool_decide_eq_false in inv_before0 as [].
  - exists (Extra (RunnerAt None) :: l). split.
    { intros [ph|[]|[]]; cbn [lc_held extra own spent gate]; unfold state_of, drained_count, taken_as; simpl; rewrite ?Hr; simpl;
        try (rewrite decide_False by done); first [lia|repeat case_decide; simplify_eq; lia]. }
    apply k_act. clear s Hs Hr. intros s Hs _ HKs. unfold chan_recv.
    destruct (chan_buf (rxCallbackSet s)) as [|b bs] eqn:Hb.
    { by rewrite (inv_callbackSet s Hs). }
    assert (recv_inv (set_rxCallbackSet (mkChan (chan_cap (rxCallbackSet s)) bs
              (chan_closed (rxCallbackSet s))) s)) as Hs'.
    { pose proof (inv_callback s Hs) as Hc. rewrite Hb in Hc. inv_other Hs. simpl.
      intros Hin. apply Hc. by apply list_elem_of_further. }
    split_and!; [done|by apply move_same|].
    exists (Extra (RunnerAt None) :: l), (λ s, K s ∧ (b = true → has_callback s)).
    split; [by intros [?|[]|[]]|]. split; [|split].
    + split; [by apply (Hst s); [|apply move_same|]|]. intros ->.
      apply (inv_callback s Hs). rewrite Hb. apply list_elem_of_here.
    + apply stable_with; [done|]. by apply stable_impl.
    + assert (rstable (λ s, K s ∧ (b = true → has_callback s))) as Hst'.
      { apply stable_with; [done|]. by apply stable_impl. }
      destruct b; simpl.
      * apply k_run_loop; [done|by intros s' [_ ?]; auto|]. intros [|] K' HK'; [|done]. by apply k_finish.
      * by apply k_finish.
Qed.

(** ** Start *)

Lemma k_await_event {B} ev K l (k : option go_error → rp B) Q :
  rstable K → kr K l (k ev) Q → kr K l (pbind (await_event ev) k) Q.
Proof using Hsize.
  intros Hst Hk. apply k_same; [done|]. intros s Hs _. split_and!; [done|by apply move_same|lia|done].
Qed.

Lemma k_await_results {B} results K l (k : unit → rp B) Q :
  rstable K → kr K l (k tt) Q → kr K l (pbind (await_results results) k) Q.
Proof using Hsize.
  intros Hst Hk. induction results as [|ev results IH]; [done|]. by apply k_await_event.
Qed.

Lemma k_await_all {B} added K l (k : option go_error → rp B) Q :
  rstable K → (∀ err, kr K l (k err) Q) → kr K l (pbind (await_all added) k) Q.
Proof using Hsize.
  intros Hst Hk. induction added as [|[t ev] added IH]; [apply Hk|].
  apply k_await_event; [done|]. destruct ev; [apply Hk|apply IH].
Qed.

Lemma k_unsubscribe_all {B} topics results K l (k : list (option go_error) → rp B) Q :
  rstable K → (∀ results, kr K l (k results) Q) → kr K l (pbind (unsubscribe_all topics results) k) Q.
Proof using Hsize.
  intros Hst Hk. revert results. induction topics as [|t topics IH]; intros results; [apply Hk|].
  apply k_request; [done..|]. intros [[e|] ev]; apply IH.
Qed.

Lemma k_subscribe_all {B} topics added K l (k : option go_error * list (string * option go_error) → rp B) Q :
  rstable K → (∀ r, kr K (InPhase StartPhase :: l) (k r) Q) →
  kr K (InPhase StartPhase :: l) (pbind (subscribe_all topics added) k) Q.
Proof using Hsize.
  intros Hst Hk. revert added. induction topics as [|t topics IH]; intros added; [apply Hk|].
  apply k_request; [done| |intros [[e|] ev]; [apply Hk|apply IH]].
  intros s Hs Hf _ _. apply not_true_is_false. intros Hc%(inv_cleaned s Hs).
  by rewrite (fits_phase _ _ _ Hf) in Hc.
Qed.

Lemma k_UnregisterRXCallback {B} K l (k : unit → rp B) Q :
  rstable K → kr K l (k tt) Q → kr K l (pbind UnregisterRXCallback k) Q.
Proof using Hsize.
  intros Hst Hk. apply k_same; [done|]. intros s Hs _. destruct (context (past s)) eqn:Hc; [|done..].
  split_and!; [|by apply move_same|by intros [?|[]|[]]|done].
  inv_other Hs; simpl; [congruence|]. intros [_ ?]%inv_closed0. done.
Qed.

(** In a termination it stays unregistered. *)
Lemma k_Unregister_for_good {B} K l (k : unit → rp B) Q :
  rstable K → kr (λ s, K s ∧ unregistered s) (InPhase TermPhase :: l) (k tt) Q →
  kr K (InPhase TermPhase :: l) (pbind UnregisterRXCallback k) Q.
Proof using Hsize.
  intros Hst Hk. apply k_act. intros s Hs Hf HK. destruct (context (past s)) eqn:Hc; [|done..].
  split_and!; [|by apply move_same|].
  { inv_other Hs; simpl; [congruence|]. intros [_ ?]%inv_closed0. done. }
  exists (InPhase TermPhase :: l), (λ s, K s ∧ unregistered s). split; [by intros [?|[]|[]]|].
  split; [|split; [auto|done]]. split; [by apply (Hst s); [|apply move_same|]|]. split; [done|].
  pose proof (fits_phase _ _ _ Hf) as Hp. unfold state_of in *. simpl in *. by rewrite Hp.
Qed.

Lemma k_handler {B} b K l (k : unit → rp B) Q :
  rstable K → kr K l (k tt) Q → kr K l (pbind (update (set_downHandler b)) k) Q.
Proof using Hsize.
  intros Hst Hk. apply k_update; [done|intros s Hs; by inv_other Hs|intros s; by apply move_same|
    by intros s [?|[]|[]]|done].
Qed.

Lemma k_start_cleanup {B} added K l (k : unit → rp B) Q :
  rstable K → kr K l (k tt) Q → kr K l (pbind (start_cleanup added) k) Q.
Proof using Hsize.
  intros Hst Hk. apply kproto_bind. apply k_unsubscribe_all; [done|]. intros results.
  apply k_await_results; [done|]. apply k_handler; [done|].
  apply kproto_unbind. by apply k_UnregisterRXCallback.
Qed.

Lemma k_register {B} K l (k : unit → rp B) Q :
  rstable K → kr K (InPhase StartPhase :: l) (k tt) Q →
  kr K (InPhase StartPhase :: l) (pbind RegisterRXCallback k) Q.
Proof using Hsize.
  intros Hst Hk. apply k_change; [done|]. intros s Hs Hf _. pose proof (fits_phase _ _ _ Hf) as Hp.
  split_and!; [| |exists (InPhase StartPhase :: l); split; [by intros [?|[]|[]]|done]].
  - inv_other Hs; simpl; [done|]. intros [_ Hx]%inv_closed0. by rewrite Hp in Hx.
  - split; try done; [by left|]. intros Hx. by rewrite Hp in Hx.
Qed.

Lemma k_spawn {B} K (k : unit → rp B) Q :
  rstable K → kr K [InPhase StartPhase] (k tt) Q →
  kr K [InPhase StartPhase; Once Spawn] (pbind (update (note (at_runner Spawned))) k) Q.
Proof using Hsize.
  intros Hst Hk. apply k_change; [done|]. intros s Hs Hf _. pose proof (fits_phase _ _ _ Hf) as Hp.
  assert (runner (past s) = NotSpawned) as Hr.
  { specialize (Hf (Once Spawn)). unfold lc_total in Hf. cbn [lc_held gate own] in Hf.
    rewrite Hp in Hf. simpl in Hf. destruct (runner (past s)); [done|..]; simpl in Hf; lia. }
  split_and!; [|by apply move_same|].
  - inv_other Hs; unfold_inv; rewrite ?Hr, ?app_nil_r in *; try done.
    + intros ?%inv_complete0. congruence.
    + intros x Hx. specialize (inv_before0 x Hx). destruct x; simpl in *; try done.
      unfold state_of in *. simpl in *. by rewrite Hp in Hx.
  - eexists. split; [|exact Hk].
    intros [ph|[]|[]]; cbn [lc_held extra own spent gate]; unfold state_of, drained_count, taken_as;
      simpl; rewrite ?Hr; simpl; try (rewrite !decide_False by done);
      first [lia|repeat case_match; simplify_eq/=; lia].
Qed.

Lemma grant_start (x : lc_permit once mine) : grant gate StartPhase x = own [InPhase StartPhase; Once Spawn] x.
Proof using Type. by destruct x as [[]|[]|[]]. Qed.

Lemma grant_term (x : lc_permit once mine) :
  grant gate TermPhase x = own [InPhase TermPhase; Once CloseBuffer; Once CloseNotification] x.
Proof using Type. by destruct x as [[]|[]|[]]. Qed.

Lemma k_start_body {B} (k : option go_error → rp B) Q :
  (∀ err l, kr nothing (InPhase StartPhase :: l) (k err) Q) →
  kr nothing [InPhase StartPhase; Once Spawn] (pbind start_body k) Q.
Proof using Hsize.
  intros Hk. apply kproto_bind. apply k_handler; [done|]. apply k_register; [done|].
  apply rk_load; [done|]. intros s _ _. apply k_subscribe_all; [done|]. intros [[err|] added].
  - apply k_start_cleanup; [done|]. apply Hk.
  - apply k_await_all; [done|]. intros [err|].
    + apply k_start_cleanup; [done|]. apply Hk.
    + apply k_spawn; [done|]. apply Hk.
Qed.

Lemma k_Start {B} (k : option go_error → rp B) Q :
  (∀ err, kr nothing [] (k err) Q) → kr nothing [] (pbind Start k) Q.
Proof using Hsize.
  intros Hk. apply kproto_bind. unfold Start, start_around.
  apply kproto_frame; [done|]. apply proto_starting; try apply _; cbn [fst snd negb].
  { intros err. apply Hk. }
  eapply k_grant; [done|apply grant_start|]. apply k_start_body. intros err l.
  apply (k_drop [InPhase StartPhase]); [by destruct err|intros x; cbn [own]; lia|]. destruct err as [err|].
  - apply k_machine; [done|]. eapply (proto_terminated _ _ _ _ _ StartPhase); try apply _; [done|].
    apply (k_machine _ _ []); [done|]. apply proto_complete_start; try apply _. apply Hk.
  - apply k_machine; [done|]. apply proto_started; try apply _; [done|]. apply Hk.
Qed.

(** ** Termination *)

Lemma k_close_buffer {B} K l (k : unit → rp B) Q :
  rstable K → (∀ s, K s → unregistered s) →
  kr (λ s, K s ∧ closed s) (Extra (DrainAt 0) :: l) (k tt) Q →
  kr K (Once CloseBuffer :: l) (pbind close_buffer k) Q.
Proof using Hsize.
  intros Hst HK Hk. apply k_act. intros s Hs Hf HKs.
  destruct (receiver_fits_once _ _ _ Hf) as [Hp Ho]. simpl in Hp, Ho. unfold chan_close. rewrite Ho.
  destruct (HK s HKs) as [Hr Ht].
  assert (reported (past s) = None) as Hn.
  { destruct (reported (past s)) eqn:He; [|done]. destruct (inv_reported s Hs _ He).
    unfold closed in *. congruence. }
  pose proof (inv_open s Hs Ho) as Hd.
  assert (recv_move s (set_buffer (mkChan (chan_cap (buffer s)) (chan_buf (buffer s)) true) s)) as Hm.
  { by apply move_same. }
  split_and!; [|done|].
  - inv_other Hs; unfold closed in *; simpl in *; try done.
    + by intros [_ ?]%inv_flag0.
    + by intros n [_ ?]%inv_reported0.
    + intros [] Hx; specialize (inv_before0 _ Hx); simpl in *; try done; unfold state_of in *;
        simpl in *; congruence.
  - exists (Extra (DrainAt 0) :: l), (λ s, K s ∧ closed s). split.
    + intros [ph|[]|[]]; cbn [lc_held extra own spent gate]; unfold state_of in *;
        unfold drained_count, taken_as in *; simpl in *; rewrite ?Ho, ?Hn; simpl;
        try (rewrite !decide_False by done); try lia.
      * destruct (state (machine s)); simpl; lia.
      * repeat case_decide; simplify_eq; try lia; exfalso; contexts.
    + split; [split; [by apply (Hst s)|done]|]. split; [auto|done].
Qed.

Lemma k_bufferClosed {B} K l (k : unit → rp B) Q :
  rstable K → (∀ s, K s → closed s) → kr K l (k tt) Q →
  kr K l (pbind (store set_bufferClosed true) k) Q.
Proof using Hsize.
  intros Hst HK Hk. apply k_same; [done|]. intros s Hs HKs.
  split_and!; [|by apply move_same|by intros [?|[]|[]]|done]. inv_other Hs. intros _. exact (HK s HKs).
Qed.

Lemma k_close_notification {B} K l (k : unit → rp B) Q :
  rstable K → kr K l (k tt) Q →
  kr K (Once CloseNotification :: l) (pbind close_notification k) Q.
Proof using Hsize.
  intros Hst Hk. apply k_change; [done|]. intros s Hs Hf _.
  destruct (receiver_fits_once _ _ _ Hf) as [Hp Ho]. simpl in Hp, Ho. rewrite Ho.
  split_and!; [|by apply move_same|].
  - inv_other Hs. intros [] Hx; specialize (inv_before0 _ Hx); simpl in *; try done;
      unfold state_of in *; simpl in *; congruence.
  - eexists. split; [|exact Hk].
    intros [ph|[]|[]]; cbn [lc_held extra own spent gate]; unfold state_of in *;
      unfold drained_count, taken_as in *; simpl in *; rewrite ?Ho; simpl;
      try (rewrite !decide_False by done); try lia.
    destruct (state (machine s)); simpl; lia.
Qed.

Definition others_same_drain (s s' : receiver) : Prop :=
  ∀ x, match x with Extra (DrainAt _) => True | _ => rheld s' x = rheld s x end.

Lemma conserves_drain s s' n n' l :
  others_same_drain s s' → drained_count s = n → closed s ∧ reported (past s) = None →
  (chan_closed (buffer s') = true ∧ drained_count s' = n' ∧ reported (past s') = None) →
  conserves rheld s (own (Extra (DrainAt n) :: l)) s' (own (Extra (DrainAt n') :: l)).
Proof using Hsize.
  intros Hx Hn [Hc Hr] (Hc' & Hn' & Hr') x. specialize (Hx x). unfold closed in Hc.
  assert (rheld s' x = rheld s x → (∀ n, x ≠ Extra (DrainAt n)) →
    rheld s' x + own (Extra (DrainAt n') :: l) x ≤ rheld s x + own (Extra (DrainAt n) :: l) x) as Hsame.
  { intros He Hne. cbn [own]. rewrite He, !decide_False by done. lia. }
  destruct x as [ph|y|y]; [by apply Hsame..|]. destruct y as [| |m| | | | |]; try (by apply Hsame).
  clear Hsame Hx. cbn [lc_held extra own]. rewrite Hn, Hn', Hc, Hc', Hr, Hr'.
  repeat case_decide; simplify_eq; try lia; exfalso; contexts.
Qed.

Lemma k_drain_loop {B} fuel n K l (k : nat → rp B) Q :
  rstable K → (∀ s, K s → at_most (fuel - 1) s) → 0 < fuel →
  (∀ m K', rstable K' → (∀ s, K' s → emptied s) → kr K' (Extra (DrainAt m) :: l) (k m) Q) →
  kr K (Extra (DrainAt n) :: l) (pbind (drain_loop fuel n) k) Q.
Proof using Hsize.
  intros Hst HK Hfuel Hk. revert n K Hst HK Hfuel.
  induction fuel as [|fuel IH]; intros n K Hst HK Hfuel; [lia|].
  apply k_act. intros s Hs Hf HKs. destruct (receiver_fits_drain _ _ _ Hf) as (Hc & Hn & Hr).
  destruct (HK s HKs) as [_ Hl]. unfold chan_recv.
  destruct (chan_buf (buffer s)) as [|msg xs] eqn:Hb.
  - rewrite Hc. split_and!; [done|by apply move_same|].
    exists (Extra (DrainAt n) :: l), (λ s, K s ∧ emptied s). split; [intros x; lia|].
    split; [done|]. split; [auto|]. apply Hk; [auto|by intros ? [_ ?]].
  - destruct (inv_take_drained msg xs n s Hs Hb Hc Hr Hn) as [Hs' Hn'].
    split_and!; [done| |].
    + apply move_same; try done. unfold closed. simpl. rewrite Hb. simpl. auto with lia.
    + exists (Extra (DrainAt (S n)) :: l), (at_most (fuel - 1)). split; [|split; [|split]].
      * apply conserves_drain; [by intros [|[]|[]]|done..|].
        unfold closed in *. by rewrite Hn'.
      * split; [done|]. simpl in *. lia.
      * auto.
      * simpl in Hl. apply IH; [auto..|]. simpl in Hl. lia.
Qed.

Lemma k_drainQueue {B} K l (k : nat → rp B) Q :
  rstable K → (∀ s, K s → closed s) →
  (∀ m K', rstable K' → kr K' (Extra (DrainAt m) :: l) (k m) Q) →
  kr K (Extra (DrainAt 0) :: l) (pbind drainQueue k) Q.
Proof using Hsize.
  intros Hst HK Hk. apply kproto_bind. apply k_act. intros s Hs Hf HKs. rewrite (inv_cap s Hs).
  split_and!; [done|by apply move_same|].
  exists (Extra (DrainAt 0) :: l), (λ s, K s ∧ at_most size s). split; [intros x; lia|].
  split; [|split; [auto|]].
  { split; [done|]. split; [by apply HK|by apply (inv_len s Hs)]. }
  apply k_drain_loop; [auto| |lia|].
  { intros s' [_ [? ?]]. split; [done|lia]. }
  intros m K' HK' He. apply k_notify; [done..|]. by apply Hk.
Qed.

Lemma k_report {B} n K l (k : option go_error → rp B) Q :
  rstable K → (∀ b, k None ≠ PRet b) → (∀ err, kr K l (k err) Q) →
  kr K (Extra (DrainAt n) :: l) (pbind (report_undelivered n) k) Q.
Proof using Hsize.
  intros Hst Hret Hk. unfold report_undelivered. destruct (0 <? n) eqn:Hn.
  - apply k_change; [done|]. intros s Hs Hf _. destruct (receiver_fits_drain _ _ _ Hf) as (Hc & Hd & Hr).
    split_and!; [|by apply move_same|].
    + inv_other Hs; simpl.
      * unfold turned_as in *. simpl. rewrite Hr in inv_termination0. simpl in *. lia.
      * by intros m [= <-].
    + exists l. split; [|apply Hk].
      intros [ph|[]|[]]; cbn [lc_held extra own spent gate]; unfold state_of in *;
        unfold drained_count, taken_as in *; simpl in *; try (rewrite !decide_False by done); try lia.
      repeat case_decide; simplify_eq; try lia; exfalso; contexts.
  - eapply kproto_drop; [apply Hret| | |apply Hk]; [|done]. intros x. simpl. lia.
Qed.

Lemma k_teardown {B} K l (k : unit → rp B) Q :
  rstable K → kr K l (k tt) Q → kr K l (pbind teardownCache k) Q.
Proof using Hsize.
  intros Hst Hk. apply k_update; [done|intros s Hs; by inv_other Hs|intros s; by apply move_same|
    by intros s [?|[]|[]]|done].
Qed.

Lemma k_await {B} view K l (k : unit → rp B) Q :
  rstable K → kr K l (k tt) Q → kr K l (pbind (await_closed view) k) Q.
Proof using Hsize.
  intros Hst Hk. apply k_same; [done|]. intros s Hs _. destruct (view s); [|done].
  split_and!; [done|by apply move_same|lia|done].
Qed.

Lemma k_cleanupSubscriptions {B} K l (k : unit → rp B) Q :
  rstable K → kr K (InPhase TermPhase :: l) (k tt) Q →
  kr K (InPhase TermPhase :: l) (pbind cleanupSubscriptions k) Q.
Proof using Hsize.
  intros Hst Hk. apply kproto_bind. apply k_change; [done|]. intros s Hs Hf _. lazy beta zeta.
  destruct (writer (subscriptionTerminationLock s)) eqn:Hw; [done|].
  case_bool_decide as He; [|done]. pose proof (fits_phase _ _ _ Hf) as Hp. cbn [orb negb].
  split_and!; [| |exists (Extra Writing :: InPhase TermPhase :: l); split].
  - inv_other Hs; simpl.
    + intros t Ht. rewrite He in Ht. done.
    + intros _. unfold state_of in *. simpl in *. by rewrite Hp.
  - split; try done. by left.
  - intros [ph|[]|[]]; cbn [lc_held extra own spent gate]; unfold state_of in *;
      unfold drained_count, taken_as; simpl; rewrite ?Hw; try (rewrite !decide_False by done); lia.
  - apply rk_load; [done|]. intros s' _ _. apply k_unsubscribe_all; [done|]. intros results.
    apply k_await_results; [done|]. apply k_change; [done|]. clear s Hs Hf Hw He Hp s'.
    intros s Hs Hf _. pose proof (fits_writing _ _ Hf) as Hw. lazy beta zeta. rewrite Hw.
    split_and!; [by inv_other Hs|by apply move_same|]. exists (InPhase TermPhase :: l). split; [|done].
    intros [ph|[]|[]]; cbn [lc_held extra own spent gate]; unfold state_of in *;
      unfold drained_count, taken_as; simpl; rewrite ?Hw; try (rewrite !decide_False by done); lia.
Qed.

(** What the two terminations have in common: the end of the arrivals. *)
Definition end_permits : list (lc_permit once mine) :=
  [InPhase TermPhase; Once CloseBuffer; Once CloseNotification].

Lemma k_end_arrivals {B} (k : unit → rp B) Q :
  (∀ K, rstable K → (∀ s, K s → closed s) →
     kr K [Extra (DrainAt 0); InPhase TermPhase; Once CloseNotification] (k tt) Q) →
  kr nothing end_permits
    (UnregisterRXCallback ;;;; RemoveEventHandler ;;;; offer_callback false ;;;; close_buffer ;;;;
     store set_bufferClosed true ;;;; k tt) Q.
Proof using Hsize.
  intros Hk. apply k_Unregister_for_good; [done|].
  assert (rstable (λ s, nothing s ∧ unregistered s)) as Hst by auto.
  apply k_handler; [done|]. apply k_offer_callback; [done..|]. intros _.
  apply (k_drop [Once CloseBuffer; InPhase TermPhase; Once CloseNotification]);
    [done|intros [[]|[]|[]]; simpl; lia|].
  apply k_close_buffer; [done|by intros s [_ ?]|].
  apply k_bufferClosed; [auto|by intros s [_ ?]|]. apply Hk; [auto|by intros s [_ ?]].
Qed.

Lemma k_drain_and_report {B} K l (k : option go_error → rp B) Q :
  rstable K → (∀ s, K s → closed s) → (∀ b, k None ≠ PRet b) →
  (∀ K' err, rstable K' → kr K' l (k err) Q) →
  kr K (Extra (DrainAt 0) :: l)
    (let! undeliveredCount := drainQueue in
     let! err := report_undelivered undeliveredCount in k err) Q.
Proof using Hsize.
  intros Hst HK Hr Hk. apply k_drainQueue; [done..|]. intros m K' HK'. apply k_report; [done..|].
  intros err. by apply Hk.
Qed.

Lemma k_leave {B} K (err : option go_error) (k : unit → rp B) Q :
  rstable K → (∀ K', rstable K' → kr K' [] (k tt) Q) →
  kr K [InPhase TermPhase] (terminated err ;;;; k tt) Q.
Proof using Hsize.
  intros Hst Hk. apply k_machine; [done|]. eapply (proto_terminated _ _ _ _ _ TermPhase); try apply _; [done|].
  by apply Hk.
Qed.

Lemma k_Terminate {B} (k : option go_error → rp B) Q :
  (∀ K err, rstable K → kr K [] (k err) Q) → kr nothing [] (pbind Terminate k) Q.
Proof using Hsize.
  intros Hk. apply kproto_bind. unfold Terminate, terminate_around.
  apply kproto_frame; [done|]. apply proto_terminate; try apply _; cbn [fst snd negb].
  { intros err. by apply (Hk nothing). }
  eapply k_grant; [done|apply grant_term|]. apply kproto_bind. unfold terminate_body.
  apply k_cleanupSubscriptions; [done|].
  apply (k_end_arrivals (λ _, let! empty := load buffer_empty in
    (if empty : bool then notify_empty else PRet tt) ;;;;
    let! timed_out := select [ (λ s, AOk true s);
                               (λ s, if bufferEmptyOnTerminate s then AOk false s else ABlock) ] in
    terminate_wait timed_out)). intros K Hst HK.
  assert (∀ K err, rstable K → kr K [InPhase TermPhase] (terminated err ;;;; PRet err)
    (λ b K m, kproto recv_inv recv_move rheld lc_total K m (k b) Q)) as Hleave.
  { intros K' err HK'. apply (k_leave K' err (λ _, PRet err)); [done|]. intros. by apply Hk. }
  assert (∀ K timed_out, rstable K → (∀ s, K s → closed s) →
    kr K [Extra (DrainAt 0); InPhase TermPhase; Once CloseNotification] (terminate_wait timed_out)
      (λ err K m, kproto recv_inv recv_move rheld lc_total K m (terminated err ;;;; PRet err)
         (λ b K m, kproto recv_inv recv_move rheld lc_total K m (k b) Q))) as Hwait.
  { clear K Hst HK. intros K timed_out Hst HK. unfold terminate_wait. destruct timed_out; lazy iota.
    - apply (k_drop [Once CloseNotification; Extra (DrainAt 0); InPhase TermPhase]);
        [done|intros [[]|[]|[]]; simpl; lia|].
      apply k_close_notification; [done|]. apply k_await; [done|].
      apply (k_drain_and_report K [InPhase TermPhase]); [done..|].
      intros K' [err|] HK'; [by apply Hleave|]. apply k_teardown; [done|]. by apply Hleave.
    - apply (k_drop [InPhase TermPhase]); [done|intros [[]|[]|[]]; simpl; lia|].
      apply k_await; [done|]. apply k_teardown; [done|]. by apply Hleave. }
  assert (∀ K, rstable K → (∀ s, K s → closed s) →
    kr K [Extra (DrainAt 0); InPhase TermPhase; Once CloseNotification]
      (let! timed_out := select [ (λ s, AOk true s);
                               (λ s, if bufferEmptyOnTerminate s then AOk false s else ABlock) ] in
       terminate_wait timed_out)
      (λ err K m, kproto recv_inv recv_move rheld lc_total K m (terminated err ;;;; PRet err)
         (λ b K m, kproto recv_inv recv_move rheld lc_total K m (k b) Q))) as Hsel.
  { clear K Hst HK. intros K Hst HK s Hs Hf HKs f Hin.
    assert (∀ b, recv_inv s ∧ recv_move s s ∧ ∃ n' K', conserves rheld s
      (own [Extra (DrainAt 0); InPhase TermPhase; Once CloseNotification]) s n' ∧ K' s ∧ rstable K' ∧
      kproto recv_inv recv_move rheld lc_total K' n' (terminate_wait b)
        (λ err K m, kproto recv_inv recv_move rheld lc_total K m (terminated err ;;;; PRet err)
         (λ b K m, kproto recv_inv recv_move rheld lc_total K m (k b) Q))) as Hb.
    { intros b. split_and!; [done|by apply move_same|]. eexists _, K.
      split_and!; [|done..|by apply Hwait]. intros x; lia. }
    apply elem_of_cons in Hin as [->|Hin%list_elem_of_singleton]; [apply Hb|].
    subst f. destruct (bufferEmptyOnTerminate s); [apply Hb|done]. }
  lazy beta. apply k_buffer_empty; [done..| |by apply Hsel].
  apply k_notify; [auto|by intros s [_ ?]|]. apply Hsel; [auto|]. intros s [? _]. auto.
Qed.

Lemma k_unsolicitedTermination cause listener : kr nothing [] (unsolicitedTermination cause listener) over.
Proof using Hsize.
  unfold unsolicitedTermination.
  apply kproto_frame; [done|]. apply proto_terminate; try apply _; cbn [fst snd negb]; [done|].
  eapply k_grant; [done|apply grant_term|].
  apply (k_end_arrivals (λ _, close_notification ;;;;
    let! undeliveredCount := drainQueue in
    let! err := report_undelivered undeliveredCount in
    terminated err ;;;;
    (if listener then update (note (note_listened cause)) else PRet tt) ;;;;
    teardownCache ;;;; PRet None)). intros K Hst HK.
  apply (k_drop [Once CloseNotification; Extra (DrainAt 0); InPhase TermPhase]);
    [done|intros [[]|[]|[]]; simpl; lia|].
  apply k_close_notification; [done|].
  apply (k_drain_and_report K [InPhase TermPhase] (λ err, terminated err ;;;;
    (if listener then update (note (note_listened cause)) else PRet tt) ;;;;
    teardownCache ;;;; PRet None)); [done..|].
  intros K' err HK'. apply (k_leave K' err (λ _,
    (if listener then update (note (note_listened cause)) else PRet tt) ;;;;
    teardownCache ;;;; PRet None)); [done|].
  clear K K' Hst HK HK'. intros K Hst. destruct listener; [|by apply k_teardown].
  apply k_update; [done|intros s Hs; by inv_other Hs|intros s; by apply move_same|
    by intros s [?|[]|[]]|by apply k_teardown].
Qed.

Lemma k_returning K l p : rstable K → kr K l p over → kr K l (returning p) over.
Proof using Type. intros Hst Hp. apply kproto_bind. by eapply kproto_weaken. Qed.

Lemma k_goroutine g : kr nothing [] (goroutine_prog g) over.
Proof using Hsize.
  destruct g as [| |cause listener|sub listener|sub listener]; cbn [goroutine_prog].
  - apply k_Start. intros err. by apply k_tell.
  - apply k_Terminate. intros K err Hst. by apply k_tell.
  - apply k_unsolicitedTermination.
  - by apply k_change_subscription.
  - by apply k_change_subscription.
Qed.

Lemma k_worker i : kr nothing [] (worker i) over.
Proof using Hsize.
  apply k_same; [done|]. intros s Hs _. destruct (goroutines s !! i) as [g|]; [|done].
  split_and!; [by inv_other Hs|by apply move_same|by intros [?|[]|[]]|apply k_goroutine].
Qed.

Lemma k_call c : kr nothing [] (call_prog c) over.
Proof using Hsize.
  assert (∀ (add : bool) sub listener, kr nothing [] (let! err := check_modify sub in
    match err with
    | Some err => PRet (Some err)
    | None => go (if add then GoAddSubscription sub listener else GoRemoveSubscription sub listener) ;;;; PRet None
    end) over) as Hmodify.
  { intros add sub listener. apply k_check_modify; [done|]. intros [err|]; [done|]. by apply k_go. }
  destruct c; cbn [call_prog]; try apply k_returning; try done.
  - apply kproto_unbind, k_Start. done.
  - by apply k_go.
  - apply kproto_unbind, k_Terminate. done.
  - by apply k_go.
  - by apply k_AddSubscription.
  - by apply k_RemoveSubscription.
  - apply (Hmodify true).
  - apply (Hmodify false).
  - by apply k_ReceiveMessage.
  - by apply k_ReceiveAsync.
  - by apply k_rxCallback_of_core.
  - apply rk_load; [done|]. intros s _ _. destruct (downHandler s); [by apply k_go|done].
  - apply k_update; [done|intros s Hs; by inv_other Hs|intros s; by apply move_same|
      by intros s [?|[]|[]]|done].
  - by apply k_run_receiver.
  - apply k_worker.
Qed.
End protocol_of_receiver.

Lemma receiver_construct_inv up share strategy size subs answers :
  recv_inv size (construct up share strategy size subs answers).
Proof using Type.
  split; try done; simpl; [lia|..].
  - intros Hin. by apply elem_of_nil in Hin.
  - by intros [].
Qed.

Lemma receiver_scene_ok size calls up share strategy subs answers :
  0 < size →
  kpool_ok (recv_inv size) recv_move (lc_held gate spent extra) lc_total
    (scene calls (construct up share strategy size subs answers)).
Proof using Type.
  intros Hsize. apply kpool_init.
  - apply receiver_construct_inv.
  - intros [[]|[]|[]]; unfold lc_total; simpl; repeat case_decide; lia.
  - apply Forall_fmap, Forall_true. intros c. apply (k_call size Hsize c).
Qed.

(** C28: the direct receiver under any interleaving of the operations of the application, the
    messages and the down event of the session, the goroutine of the asynchronous handler and the
    goroutines that the receiver starts.  Nothing panics: no channel is closed twice, no lock is
    released that is not held, and the callback never meets the closed buffer that it is
    prepared to recover from.  The state moves along the lifecycle.  What is pushed into the buffer
    leaves it in that order, once: to the application, to its handler (which is called in that
    order), dropped for want of room or drained at the end; every message that arrived is
    kept and pushed, or turned away, or in hand, and the metrics count those that are
    discarded; there is room for the new message after a drop.  The announcement that the buffer
    is empty is made only when it is closed and empty, the termination reports exactly
    the messages it drained, and once it has begun to remove the subscriptions none is added.  Only
    drained messages are freed, so those dropped are not. *)
Theorem receiver_accounts_for_messages size calls up share strategy subs answers s ts :
  0 < size →
  pool_steps (scene calls (construct up share strategy size subs answers)) (s, ts) →
  ¬ pool_panics (s, ts) ∧ recovered (past s) = 0 ∧
  rtc lstate_move NotStarted (state_of s) ∧
  (pushed (past s) = (taken (past s)).*1 ++ (pointer <$> chan_buf (buffer s)) ∧
   length (chan_buf (buffer s)) ≤ size) ∧
  taken_as Handed s = (called (past s)).*2 ++ in_hand s ∧
  (arrived (past s) = (answered (past s)).*1 ++ in_context (context (past s)) ∧
   pushed (past s) = answered_with true s ++ decided true (context (past s)) ∧
   (turned (past s)).*1 = answered_with false s ++ decided false (context (past s))) ∧
  (context (past s) = ContextFree →
     backpressureDiscarded s = Z.of_nat (length (turned_as Latest s) + length (taken_as Dropped s)) ∧
     terminationDiscarded s = Z.of_nat (length (turned_as Late s) + default 0 (reported (past s)))) ∧
  (∀ m d, context (past s) = MustSend m d → length (chan_buf (buffer s)) < size) ∧
  (bufferEmptyOnTerminate s = true → closed s ∧ chan_buf (buffer s) = []) ∧
  (∀ n, reported (past s) = Some n → length (taken_as Drained s) = n) ∧
  freed (past s) = taken_as Drained s ∧
  (cleaned (past s) = true → ∀ s' ts', pool_steps (s, ts) (s', ts') → subscribes s' = subscribes s).
Proof using All.
  intros Hsize Hsteps.
  destruct (kpool_steps_ok _ _ _ _ _ _ (receiver_scene_ok size calls up share strategy subs answers Hsize) Hsteps)
    as [Hok Hmoves].
  pose proof (kpool_ok_inv _ _ _ _ _ Hok) as Hs. simpl in Hs. pose proof Hs as [].
  split; [by eapply kpool_ok_no_panic|]. split; [done|]. split.
  { clear - Hmoves. simpl in Hmoves. change NotStarted with (state_of (construct up share strategy size subs answers : receiver)).
    induction Hmoves as [s|s1 s2 s3 Hm _ IH]; [done|]. eapply rtc_l; [apply Hm|exact IH]. }
  split_and!; try done.
  - intros Hc. rewrite Hc in *. simpl in *. split; lia.
  - intros He. by apply inv_flag0, inv_emptied0.
  - intros n Hn. by apply inv_reported0.
  - intros Hc s' ts' Hsteps'. destruct (kpool_steps_ok _ _ _ _ _ _ Hok Hsteps') as [_ Hmoves'].
    simpl in Hmoves'. clear - Hc Hmoves'. revert Hc.
    induction Hmoves' as [s|s1 s2 s3 Hm _ IH]; intros Hc; [done|].
    destruct (move_cleaned _ _ Hm Hc) as [Hc' He]. by rewrite IH, He.
Qed.
End direct_receiver_safety.
