(* ===== verification/DirectReceiverRuns.v ===== *)
(** The direct receiver, one operation at a time: what messages do to a buffer that nobody
    reads, what the operations on subscriptions and [Start] ask of the session and leave
    behind, and schedules in which the receiver goes wrong. *)

From Stdlib Require Import ZArith Lia Ascii.
From stdpp Require Import base list gmap relations strings.
From S2P Require Import Prelude GoStrconv GoEffects GoConc Errors Resource Sdt Lifecycle Validation DirectReceiver DirectReceiverSafety.

Section direct_receiver_runs.
Context {M MessageHandler : Type} `{!EqDecision M}.
Abbreviation receiver := (@DirectReceiver.receiver M MessageHandler).
Abbreviation directInboundMessage := (@DirectReceiver.directInboundMessage M).
Abbreviation context_state := (@DirectReceiver.context_state M).
Abbreviation answer := (@DirectReceiver.answer M).
Abbreviation call := (@DirectReceiver.call M MessageHandler).
Abbreviation rp A := (prog receiver A).

(** * One operation at a time *)

(** ** Messages without a consumer *)

Fixpoint deliver (ms : list M) : rp unit :=
  match ms with
  | [] => PRet tt
  | m :: ms => rxCallback_of_core m ;;;; deliver ms
  end.

(** A receiver that takes messages: started and registered, nothing in progress. *)
Record taking (s : receiver) : Prop := {
  taking_state : state_of s = Started;
  taking_registered : rxRegistered s = true;
  taking_context : context (past s) = ContextFree;
  taking_open : chan_closed (buffer s) = false;
  taking_flag : bufferClosed s = false;
}.

(** What one message does to the buffer, the discard indication and the metric. *)
Definition deliver_one (strategy : receiverBackpressureStrategy) (size : nat) (m : M)
    (x : list directInboundMessage * bool * Z) : list directInboundMessage * bool * Z :=
  let '(buf, flag, n) := x in
  match strategy with
  | strategyDropOldest =>
      if decide (length buf < size) then (buf ++ [mkInbound m false], flag, n)
      else (tail buf ++ [mkInbound m false], true, (n + 1)%Z)
  | strategyDropLatest =>
      if decide (length buf < size) then (buf ++ [mkInbound m flag], false, n)
      else (buf, true, (n + 1)%Z)
  end.

Definition seen_of (s : receiver) : list directInboundMessage * bool * Z :=
  (chan_buf (buffer s), isDiscard s, backpressureDiscarded s).

Lemma run_rxCallback m s : taking s → 0 < chan_cap (buffer s) →
  length (chan_buf (buffer s)) ≤ chan_cap (buffer s) →
  ∃ s', run (rxCallback_of_core m) s = Done None s' ∧ taking s' ∧
    backpressureStrategy s' = backpressureStrategy s ∧ chan_cap (buffer s') = chan_cap (buffer s) ∧
    seen_of s' = deliver_one (backpressureStrategy s) (chan_cap (buffer s)) m (seen_of s).
Proof using Type.
  intros [Hst Hr Hc Ho Hbc] Hcap Hl.
  destruct s as [mc pa sn bs sl st su sy [cap buf cl] bc ef be tn tc rs rc di rr dh se go_ ar td bd dn ct [c ru]].
  simpl in *. unfold state_of in Hst. simpl in Hst. subst.
  destruct bs; unfold rxCallback_of_core, messageCallback; simpl; unfold state_of; simpl; rewrite Hst; simpl.
  - unfold chan_try_send. simpl. case_decide; simpl.
    + eexists. split; [reflexivity|]. split_and!; [by split|done|done|done].
    + unfold chan_try_recv. simpl. destruct buf as [|x xs]; [simpl in *; lia|]. simpl.
      unfold chan_send. simpl. rewrite decide_True by (simpl in *; lia). simpl.
      eexists. split; [reflexivity|]. split_and!; [by split|done|done|done].
  - unfold chan_try_send. destruct di; simpl; (case_decide; simpl;
      (eexists; split; [reflexivity|]; split_and!; [by split|done|done|done])).
Qed.

Lemma deliver_one_bound strategy size m x :
  0 < size → length x.1.1 ≤ size → length (deliver_one strategy size m x).1.1 ≤ size.
Proof using Type.
  intros Hsize. destruct x as [[[|d buf] flag] n]; simpl; intros Hl;
    destruct strategy; simpl; case_decide; simpl; rewrite ?length_app; simpl; lia.
Qed.

Lemma run_deliver ms s : taking s → 0 < chan_cap (buffer s) →
  length (chan_buf (buffer s)) ≤ chan_cap (buffer s) →
  ∃ s', run (deliver ms) s = Done tt s' ∧ taking s' ∧
    backpressureStrategy s' = backpressureStrategy s ∧ chan_cap (buffer s') = chan_cap (buffer s) ∧
    seen_of s' = foldl (λ x m, deliver_one (backpressureStrategy s) (chan_cap (buffer s)) m x) (seen_of s) ms.
Proof using Type.
  revert s. induction ms as [|m ms IH]; intros s Ht Hcap Hl; [by exists s|].
  destruct (run_rxCallback m s Ht Hcap Hl) as (s1 & Hrun & Ht1 & Hb1 & Hc1 & Hs1).
  destruct (IH s1) as (s2 & Hrun2 & Ht2 & Hb2 & Hc2 & Hs2); [done|by rewrite Hc1|..].
  { assert (chan_buf (buffer s1) = (deliver_one (backpressureStrategy s) (chan_cap (buffer s)) m
      (seen_of s)).1.1) as -> by (by rewrite <-Hs1).
    rewrite Hc1. by apply deliver_one_bound. }
  exists s2. split_and!; [|done|by rewrite Hb2|by rewrite Hc2|].
  - exact (run_then _ _ _ _ _ _ Hrun Hrun2).
  - by rewrite Hs2, Hs1, Hb1, Hc1.
Qed.

(** The closed form, from a buffer that has not overflowed. *)
Lemma deliver_oldest size ms buf n : 0 < size → length buf ≤ size →
  foldl (λ x m, deliver_one strategyDropOldest size m x) (buf, false, n) ms =
  (let all := buf ++ ((λ m, mkInbound m false) <$> ms) in
   (drop (length all - size) all, bool_decide (size < length all), (n + Z.of_nat (length all - size))%Z)).
Proof using Type.
  intros Hsize Hl. induction ms as [|m ms IH] using rev_ind; simpl.
  { rewrite app_nil_r, bool_decide_eq_false_2 by lia. replace (length buf - size) with 0 by lia.
    simpl. by rewrite Z.add_0_r. }
  rewrite foldl_snoc, IH. clear IH. simpl. rewrite fmap_app, app_assoc. simpl.
  set (all := buf ++ _). rewrite !length_app. simpl. rewrite length_drop.
  destruct (decide (size ≤ length all)) as [Hs|Hs].
  - rewrite decide_False by lia.
    replace (length all + 1 - size) with (S (length all - size)) by lia.
    rewrite (bool_decide_eq_true_2 (size < length all + 1)) by lia.
    assert (∃ x xs, drop (length all - size) all = x :: xs ∧ xs = drop (S (length all - size)) all)
      as (x & xs & Hd & Hxs).
    { destruct (drop (length all - size) all) as [|x xs] eqn:Hd.
      - apply (f_equal length) in Hd. rewrite length_drop in Hd. simpl in Hd. lia.
      - exists x, xs. split; [done|]. replace (S (length all - size)) with ((length all - size) + 1) by lia.
        by rewrite <-drop_drop, Hd. }
    rewrite Hd. simpl. rewrite Hxs, <-drop_app_le by lia. f_equal. lia.
  - rewrite decide_True by lia. replace (length all - size) with 0 by lia.
    replace (length all + 1 - size) with 0 by lia. simpl.
    by rewrite !bool_decide_eq_false_2 by lia.
Qed.

Lemma deliver_latest size ms buf n : length buf ≤ size →
  foldl (λ x m, deliver_one strategyDropLatest size m x) (buf, false, n) ms =
  (let all := buf ++ ((λ m, mkInbound m false) <$> ms) in
   (take size all, bool_decide (size < length all), (n + Z.of_nat (length all - size))%Z)).
Proof using Type.
  intros Hl. induction ms as [|m ms IH] using rev_ind; simpl.
  { rewrite app_nil_r, bool_decide_eq_false_2, take_ge by lia. replace (length buf - size) with 0 by lia.
    simpl. by rewrite Z.add_0_r. }
  rewrite foldl_snoc, IH. clear IH. simpl. rewrite fmap_app, app_assoc. simpl.
  set (all := buf ++ _). rewrite !length_app. simpl. rewrite length_take.
  destruct (decide (size ≤ length all)) as [Hs|Hs].
  - rewrite decide_False by lia. rewrite (bool_decide_eq_true_2 (size < length all + 1)) by lia.
    rewrite take_app_le by lia. f_equal. lia.
  - rewrite decide_True by lia. rewrite !(bool_decide_eq_false_2 (size < _)) by lia.
    rewrite (take_ge (all ++ _)) by (rewrite length_app; simpl; lia). rewrite take_ge by lia.
    f_equal. lia.
Qed.

(** The message that the application gets next. *)
Lemma run_ReceiveMessage timer msg xs s : taking s →
  chan_buf (buffer s) = msg :: xs →
  let d := match backpressureStrategy s with
           | strategyDropOldest => isDiscard s
           | strategyDropLatest => discard msg
           end in
  ∃ s', run (ReceiveMessage timer) s = Done (InboundMessage (pointer msg) d) s' ∧
    chan_buf (buffer s') = xs ∧
    isDiscard s' = (match backpressureStrategy s with
                    | strategyDropOldest => false
                    | strategyDropLatest => isDiscard s
                    end) ∧
    discardNotifications s' = (discardNotifications s + if d then 1 else 0)%Z.
Proof using Type.
  intros [Hst Hr Hc Ho Hbc] Hb.
  destruct s as [mc pa sn bs sl st su sy [cap buf cl] bc ef be tn tc rs rc di rr dh se go_ ar td bd dn ct [c ru]].
  simpl in *. unfold state_of in Hst. simpl in Hst. subst. destruct msg as [m dm].
  unfold ReceiveMessage. simpl. unfold state_of. simpl. rewrite Hst. simpl.
  destruct bs, di, dm; simpl; (eexists; split; [reflexivity|]; split_and!; try done; simpl; lia).
Qed.

(** The messages of a list that fit, by strategy. *)
Definition kept (strategy : receiverBackpressureStrategy) (size : nat) (all : list M) : list M :=
  match strategy with
  | strategyDropOldest => drop (length all - size) all
  | strategyDropLatest => take size all
  end.


(** ** Subscriptions *)

Lemma splice_index_app i topic l1 l2 found :
  splice_index i topic (l1 ++ l2) found = splice_index (i + length l1) topic l2 (splice_index i topic l1 found).
Proof using Type.
  revert i found. induction l1 as [|t l1 IH]; intros i found; simpl; [by rewrite Nat.add_0_r|].
  rewrite IH. f_equal. lia.
Qed.

Lemma splice_index_absent i topic l found : topic ∉ l → splice_index i topic l found = found.
Proof using Type.
  revert i found. induction l as [|t l IH]; intros i found Hn; simpl; [done|].
  apply not_elem_of_cons in Hn as [Hne Hn]. rewrite decide_False by done. by apply IH.
Qed.

Lemma splice_topic_absent topic l : topic ∉ l → splice_topic topic l = l.
Proof using Type. intros Hn. unfold splice_topic. by rewrite splice_index_absent. Qed.

(** Only the last occurrence goes. *)
Lemma splice_topic_last topic l1 l2 : topic ∉ l2 → splice_topic topic (l1 ++ topic :: l2) = l1 ++ l2.
Proof using Type.
  intros Hn. unfold splice_topic. rewrite splice_index_app. simpl.
  rewrite decide_True, splice_index_absent by done.
  rewrite take_app_le, take_ge by lia. f_equal.
  rewrite drop_app_ge by lia. by replace (S (length l1) - length l1) with 1 by lia.
Qed.

Lemma insert_topic_set topic l : NoDup l →
  NoDup (insert_topic topic l) ∧ ∀ t, t ∈ insert_topic topic l ↔ t = topic ∨ t ∈ l.
Proof using Type.
  intros Hl. unfold insert_topic. case_bool_decide as Hin.
  - split; [done|]. intros t. split; [by right|]. by intros [->|?].
  - split.
    + apply NoDup_app. split_and!; [done| |apply NoDup_singleton].
      intros t Ht ->%list_elem_of_singleton. done.
    + intros t. rewrite elem_of_app, list_elem_of_singleton. naive_solver.
Qed.

Lemma splice_topic_set topic l : NoDup l →
  NoDup (splice_topic topic l) ∧ ∀ t, t ∈ splice_topic topic l ↔ t ≠ topic ∧ t ∈ l.
Proof using Type.
  intros Hl. destruct (decide (topic ∈ l)) as [Hin|Hn].
  - apply list_elem_of_split in Hin as (l1 & l2 & ->).
    apply NoDup_app in Hl as (Hl1 & Hd & [Hn Hl2]%NoDup_cons).
    rewrite splice_topic_last by done. split.
    + apply NoDup_app. split_and!; [done| |done]. intros t Ht1 Ht2. apply (Hd t Ht1). by right.
    + intros t. rewrite !elem_of_app, elem_of_cons. split; [|naive_solver].
      intros Ht. split; [|naive_solver]. intros ->. destruct Ht as [Ht|Ht]; [|done].
      apply (Hd topic Ht). by left.
  - rewrite splice_topic_absent by done. split; [done|]. intros t. split; [|naive_solver].
    intros Ht. split; [|done]. by intros ->.
Qed.

(** No lock of the subscriptions is held. *)
Record unlocked (s : receiver) : Prop := {
  free_subscriptions : subscriptionsLock s = false;
  free_synchronization : subscriptionsSynchronizationLock s = false;
  free_writer : writer (subscriptionTerminationLock s) = false;
  free_reader : ∀ t, next_reader (subscriptionTerminationLock s) ≤ t →
    readers (subscriptionTerminationLock s) !! t = None;
}.

Lemma run_load_eq {V A} (view : receiver → V) (k : V → rp A) s :
  run (pbind (load view) k) s = run (k (view s)) s.
Proof using Type. done. Qed.

Lemma run_lock {A} view put (k : unit → rp A) s :
  view s = false → run (pbind (lock view put) k) s = run (k tt) (put true s).
Proof using Type. simpl. by intros ->. Qed.

Lemma run_unlock {A} view put (k : unit → rp A) s :
  view s = true → run (pbind (unlock view put) k) s = run (k tt) (put false s).
Proof using Type. simpl. by intros ->. Qed.

Definition after_request (add : bool) (topic : string) (answers : list session_answer) (s : receiver)
    : receiver :=
  set_synchronization false (note (note_session add topic) (set_session answers (set_synchronization true s))).

Lemma run_request {A} (add : bool) topic answer answers (k : session_answer → rp A) s :
  subscriptionsSynchronizationLock s = false → session s = answer :: answers →
  run (pbind (if add then subscribe topic else unsubscribe topic) k) s =
  run (k answer) (after_request add topic answers s).
Proof using Type.
  intros Hl Ha. unfold subscribe, unsubscribe. destruct add; simpl; rewrite Hl; simpl; by rewrite Ha.
Qed.

(** The state after a request made under the lock for reading. *)
Definition reading (s : receiver) : receiver :=
  let l := subscriptionTerminationLock s in
  let t := next_reader l in
  set_termination_lock (mkTermination (<[t:=true]> (<[t:=false]> (readers l))) (S t) false) s.
Definition done_reading (s : receiver) : receiver :=
  let l := subscriptionTerminationLock s in
  set_termination_lock (mkTermination (delete (next_reader l - 1) (readers l)) (next_reader l) (writer l)) s.

Lemma run_modify add modify subscription answer answers s :
  state_of s = Started → unlocked s → session s = answer :: answers →
  let topic := buildSubscription (shareName s) subscription in
  let s1 := after_request add topic answers (reading s) in
  run (modify_subscription (λ topic, if add : bool then subscribe topic else unsubscribe topic)
         modify subscription) s =
  match fst answer with
  | Some e => Done (inr (ToNativeError e "")) (done_reading s1)
  | None => Done (inl (snd answer))
              (done_reading (set_subscriptionsLock false
                 (set_subscriptions (modify topic (subscriptions s1)) (set_subscriptionsLock true s1))))
  end.
Proof using Type.
  intros Hst [H1 H2 H3 H4] Ha topic s1.
  assert (∀ A (k : nat → rp A), run (pbind termination_RLock k) s =
    run (k (next_reader (subscriptionTerminationLock s)))
      (set_termination_lock (mkTermination
         (<[next_reader (subscriptionTerminationLock s):=false]> (readers (subscriptionTerminationLock s)))
         (S (next_reader (subscriptionTerminationLock s))) false) s)) as Hlock.
  { intros A k. simpl. by rewrite H3. }
  unfold modify_subscription. rewrite Hlock. clear Hlock.
  set (t := next_reader (subscriptionTerminationLock s)).
  assert (∀ A (k : lstate → rp A) s', state_of s' = Started →
    run (pbind (getState_reading t) k) s' = run (k Started)
      (set_termination_lock (mkTermination (<[t:=true]> (readers (subscriptionTerminationLock s')))
         (next_reader (subscriptionTerminationLock s')) (writer (subscriptionTerminationLock s'))) s')) as Hget.
  { intros A k s' Hs'. simpl. by rewrite Hs'. }
  rewrite Hget by done. clear Hget. rewrite decide_False by auto. rewrite run_load_eq.
  change (set_termination_lock _ _) with (reading s).
  rewrite (run_request _ _ answer answers) by done. fold s1.
  assert (∀ A (k : unit → rp A) s', readers (subscriptionTerminationLock s') !! t = Some true →
    next_reader (subscriptionTerminationLock s') - 1 = t →
    run (pbind (termination_RUnlock t) k) s' = run (k tt) (done_reading s')) as Hun.
  { intros A k s' Hs' Ht. unfold done_reading. rewrite Ht. simpl. by rewrite Hs'. }
  destruct answer as [[e|] ev]; cbn [fst snd].
  - rewrite Hun; [done| |simpl; lia]. simpl. apply lookup_insert_eq.
  - rewrite run_lock by done. rewrite (run_then (update _) _ _ tt _ _ eq_refl eq_refl).
    rewrite run_unlock by done. rewrite Hun; [done| |simpl; lia]. simpl. apply lookup_insert_eq.
Qed.

(** C30: adding and removing a subscription.  Outside the started state, and for a subscription
    of another type, the operation fails and does nothing.  Otherwise the session is
    asked once for the topic (with the share name, if there is one): if it refuses, the
    caller gets its error and the receiver remembers what it did before; if not, the caller gets
    the error of the confirmation, and the receiver remembers the topics it did before
    and this one, or all but this one, each once.  All locks are free again. *)
Theorem subscription_change (add : bool) subscription answer answers s :
  unlocked s → NoDup (subscriptions s) → session s = answer :: answers →
  let operation := if add then AddSubscription subscription else RemoveSubscription subscription in
  if decide (state_of s ≠ Started)
  then run operation s = Done (Some (UnableToModifySubscriptionBadState (state_of s))) s
  else match subscription with
  | inr typeName => run operation s = Done (Some (unsupported_subscription typeName)) s
  | inl t =>
      let topic := buildSubscription (shareName s) subscription in
      ∃ s', run operation s = Done
              (match fst answer with Some e => Some (ToNativeError e "") | None => snd answer end) s' ∧
        unlocked s' ∧
        session_calls (past s') = session_calls (past s) ++ [(add, topic)] ∧
        NoDup (subscriptions s') ∧
        match fst answer with
        | Some _ => subscriptions s' = subscriptions s
        | None => ∀ x, x ∈ subscriptions s' ↔
                    if add then x = topic ∨ x ∈ subscriptions s else x ≠ topic ∧ x ∈ subscriptions s
        end
  end.
Proof using Type.
  intros Hu Hnd Hans operation.
  assert (run operation s = run (let! err := check_modify subscription in
    match err with
    | Some err => PRet (Some err)
    | None => let! r := modify_subscription
        (λ topic, if add : bool then subscribe topic else unsubscribe topic)
        (if add then insert_topic else splice_topic) subscription in await_modification r
    end) s) as -> by by destruct add.
  rewrite run_bind. unfold bind.
  assert (run (check_modify subscription) s = Done (if decide (state_of s ≠ Started)
    then Some (UnableToModifySubscriptionBadState (state_of s))
    else checkDirectMessageReceiverSubscriptionType subscription) s) as -> by done.
  case_decide as Hst; [done|].
  assert (state_of s = Started) as Hst' by (by destruct (decide (state_of s = Started))).
  destruct subscription as [t|name]; [|done]. cbn [checkDirectMessageReceiverSubscriptionType].
  rewrite run_bind. unfold bind. rewrite (run_modify _ _ _ answer answers) by done.
  set (topic := buildSubscription (shareName s) (inl t)).
  assert (∀ s', subscriptionTerminationLock s' = subscriptionTerminationLock (reading s) →
    subscriptionsLock s' = false → subscriptionsSynchronizationLock s' = false → unlocked (done_reading s'))
    as Hun.
  { intros s' Hl ? ?. destruct Hu as [H1 H2 H3 H4]. split; simpl; rewrite ?Hl; simpl; [done..|].
    intros u Hu. rewrite Nat.sub_0_r, lookup_delete_ne, !lookup_insert_ne by lia. apply H4. lia. }
  destruct answer as [[e|] ev]; cbn [fst snd await_modification]; eexists; (split; [reflexivity|]).
  - split_and!; [apply Hun; [done|exact (free_subscriptions s Hu)|done]|done|exact Hnd|done].
  - split_and!; [by apply Hun|done|..]; destruct add;
      first [by apply (insert_topic_set topic (subscriptions s))|
             by apply (splice_topic_set topic (subscriptions s))].
Qed.

(** ** Start *)

(** The state after requests for a list of topics. *)
Definition requested (add : bool) (topic : string) (s : receiver) : receiver :=
  note (note_session add topic) (set_session (tail (session s)) s).
Fixpoint requested_all (add : bool) (topics : list string) (s : receiver) : receiver :=
  match topics with
  | [] => s
  | topic :: topics => requested_all add topics (requested add topic s)
  end.

Definition next_answer (s : receiver) : session_answer :=
  match session s with [] => (None, None) | r :: _ => r end.

Lemma run_session_request {A} add topic (k : session_answer → rp A) s :
  run (pbind (session_request add topic) k) s = run (k (next_answer s)) (requested add topic s).
Proof using Type. unfold next_answer, requested. simpl. by destruct (session s) as [|r l]. Qed.

(** What requests leave alone. *)
Lemma requested_all_same add topics s :
  let s' := requested_all add topics s in
  machine s' = machine s ∧ parent s' = parent s ∧ rxRegistered s' = rxRegistered s ∧
  downHandler s' = downHandler s ∧ subscriptions s' = subscriptions s ∧
  context (past s') = context (past s) ∧ runner (past s') = runner (past s) ∧
  session_calls (past s') = session_calls (past s) ++ ((add,.) <$> topics).
Proof using Type.
  revert s. induction topics as [|t topics IH]; intros s; simpl; [by rewrite app_nil_r|].
  destruct (IH (requested add t s)) as (-> & -> & -> & -> & -> & -> & -> & ->).
  split_and!; try done. simpl. by rewrite <-app_assoc.
Qed.

(** The session accepts some requests, with the errors of their events, and may refuse the
    next. *)
Definition answers_of (evs : list (option go_error)) (refusal : option session_answer)
    (rest : list session_answer) : list session_answer :=
  ((None,.) <$> evs) ++ match refusal with Some r => r :: rest | None => rest end.

Definition refusing (refusal : option session_answer) : option go_error :=
  match refusal with Some (Some e, _) => Some (ToNativeError e FailedToAddSubscription) | _ => None end.

(** The answers are those to the requests for the topics. *)
Definition answers_fit (topics : list string) (evs : list (option go_error))
    (refusal : option session_answer) : Prop :=
  match refusal with
  | None => length evs = length topics
  | Some r => length evs < length topics ∧ is_Some (fst r)
  end.

Definition asked (evs : list (option go_error)) (refusal : option session_answer) : nat :=
  match refusal with None => length evs | Some _ => S (length evs) end.

Lemma run_subscribe_all topics evs refusal rest added s :
  session s = answers_of evs refusal rest → answers_fit topics evs refusal →
  run (subscribe_all topics added) s =
    Done (refusing refusal, added ++ zip topics evs) (requested_all true (take (asked evs refusal) topics) s).
Proof using Type.
  unfold answers_of, answers_fit, asked. revert evs added s.
  induction topics as [|t topics IH]; intros [|ev evs] added s Hs Hf.
  - destruct refusal as [r|]; [simpl in Hf; lia|]. by rewrite app_nil_r.
  - destruct refusal as [r|]; simpl in Hf; lia.
  - destruct refusal as [[[e|] x]|]; [|by destruct Hf as [_ []]|done].
    cbn [subscribe_all]. rewrite run_session_request. unfold next_answer. rewrite Hs. simpl.
    by rewrite app_nil_r.
  - cbn [subscribe_all]. rewrite run_session_request. unfold next_answer. rewrite Hs. simpl fst. simpl snd.
    lazy iota. rewrite (IH evs); [|by simpl; rewrite Hs|destruct refusal; naive_solver lia].
    simpl. rewrite <-app_assoc. by destruct refusal.
Qed.

Lemma zip_fst (topics : list string) (evs : list (option go_error)) :
  (zip topics evs).*1 = take (length evs) topics.
Proof using Type.
  revert evs. induction topics as [|t topics IH]; intros [|ev evs]; simpl; [done..|]. by rewrite IH.
Qed.

Definition first_error (evs : list (option go_error)) : option go_error :=
  match omap id evs with [] => None | err :: _ => Some err end.

Lemma run_await_all added (s : receiver) : run (await_all added) s = Done (first_error added.*2) s.
Proof using Type.
  induction added as [|[t [e|]] added IH]; [done..|]. simpl. by rewrite IH.
Qed.

Lemma run_unsubscribe_all topics results (s : receiver) :
  ∃ results', run (unsubscribe_all topics results) s = Done results' (requested_all false topics s).
Proof using Type.
  revert results s. induction topics as [|t topics IH]; intros results s; [by exists results|].
  cbn [unsubscribe_all]. rewrite run_session_request.
  destruct (next_answer s) as [[e|] ev]; simpl; apply IH.
Qed.

Lemma run_await_results results (s : receiver) : run (await_results results) s = Done tt s.
Proof using Type. induction results as [|ev results IH]; [done|]. simpl. by rewrite IH. Qed.

Lemma run_start_cleanup added s : context (past s) = ContextFree →
  run (start_cleanup added) s =
  Done tt (set_rxRegistered false (set_downHandler false (requested_all false added.*1 s))).
Proof using Type.
  intros Hc. unfold start_cleanup.
  destruct (run_unsubscribe_all added.*1 [] s) as (results & Hr).
  apply (run_then _ _ _ _ _ _ Hr), (run_then _ _ _ _ _ _ (run_await_results results _)). simpl.
  destruct (requested_all_same false added.*1 s) as (_ & _ & _ & _ & _ & -> & _). by rewrite Hc.
Qed.

(** The body of [Start], in the state of the one who starts. *)
Lemma run_start_body evs refusal rest (s : receiver) :
  context (past s) = ContextFree → session s = answers_of evs refusal rest →
  answers_fit (subscriptions s) evs refusal →
  let err := match refusal with Some _ => refusing refusal | None => first_error evs end in
  let s1 := requested_all true (take (asked evs refusal) (subscriptions s))
              (set_rxRegistered true (set_downHandler true s)) in
  run start_body s = Done err
    (match err with
     | Some _ => set_rxRegistered false (set_downHandler false
                   (requested_all false (take (length evs) (subscriptions s)) s1))
     | None => note (at_runner Spawned) s1
     end).
Proof using Type.
  intros Hc Ha Hf err s1. set (s0 := set_rxRegistered true (set_downHandler true s)) in *.
  set (added := zip (subscriptions s) evs).
  assert (run (start_cleanup added) s1 = Done tt (set_rxRegistered false (set_downHandler false
    (requested_all false (take (length evs) (subscriptions s)) s1)))) as Hclean.
  { rewrite run_start_cleanup; [unfold added; by rewrite zip_fst|].
    destruct (requested_all_same true (take (asked evs refusal) (subscriptions s)) s0)
      as (_ & _ & _ & _ & _ & Hc' & _). unfold s1. by rewrite Hc'. }
  unfold start_body. change (run (pbind _ _) s) with
    (run (let! r := subscribe_all (subscriptions s) [] in
          match r with
          | (Some err, subscriptionsAdded) => start_cleanup subscriptionsAdded ;;;; PRet (Some err)
          | (None, subscriptionsAdded) =>
            let! err := await_all subscriptionsAdded in
            match err with
            | Some err => start_cleanup subscriptionsAdded ;;;; PRet (Some err)
            | None => update (note (at_runner Spawned)) ;;;; PRet None
            end
          end) s0).
  apply (run_then _ _ _ _ _ _ (run_subscribe_all (subscriptions s) evs refusal rest [] s0 Ha Hf)).
  fold s1. unfold err. simpl app. fold added. unfold answers_fit in Hf.
  destruct refusal as [[[e|] x]|]; [|by destruct Hf as [_ []]|]; simpl refusing; lazy iota.
  - exact (run_then _ _ _ _ _ _ Hclean eq_refl).
  - apply (run_then _ _ _ _ _ _ (run_await_all added s1)). unfold added at 1 2.
    rewrite snd_zip by lia.
    destruct (first_error evs) as [e|]; [exact (run_then _ _ _ _ _ _ Hclean eq_refl)|done].
Qed.

(** Starting is all or nothing.  A receiver with startup subscriptions, that is not started
    yet and whose service is up, asks the session for its subscriptions one by one.  When
    all are accepted and confirmed it is started, the callback and the down handler are registered
    and the goroutine of the handler is spawned.  When a request is refused, or a confirmation
    brings an error, [Start] returns the first such error; what had been
    subscribed is unsubscribed again, nothing stays registered, no goroutine is spawned, and
    the receiver is terminated with both futures resolved. *)
Theorem start_all_or_nothing evs refusal rest (s : receiver) :
  state_of s = NotStarted → parent s = true → context (past s) = ContextFree →
  runner (past s) = NotSpawned →
  session s = answers_of evs refusal rest → answers_fit (subscriptions s) evs refusal →
  let err := match refusal with Some _ => refusing refusal | None => first_error evs end in
  ∃ s', run Start s = Done err s' ∧
    startFuture (machine s') = mkFuture true err ∧
    rxRegistered s' = bool_decide (err = None) ∧ downHandler s' = bool_decide (err = None) ∧
    runner (past s') = (if err then NotSpawned else Spawned) ∧
    match err with
    | None => state_of s' = Started ∧
        session_calls (past s') = session_calls (past s) ++ ((true,.) <$> subscriptions s)
    | Some _ => state_of s' = Terminated ∧ terminateFuture (machine s') = mkFuture true None ∧
        session_calls (past s') = session_calls (past s) ++
          ((true,.) <$> take (asked evs refusal) (subscriptions s)) ++
          ((false,.) <$> take (length evs) (subscriptions s))
    end.
Proof using Type.
  intros Hst Hp Hc Hr Ha Hf err. unfold Start, start_around.
  assert (run (starting receiver_texts) s = Done (true, None) (put_state Starting s)) as Hstart.
  { unfold starting, getState. rewrite run_load_eq, Hst. simpl. rewrite Hp. simpl.
    unfold state_of in Hst. simpl in Hst. unfold state_of. simpl. by rewrite Hst. }
  pose proof (run_start_body evs refusal rest (put_state Starting s) Hc Ha Hf) as Hbody. cbv zeta in Hbody.
  fold err in Hbody. set (topics := subscriptions s).
  change (subscriptions (put_state Starting s)) with topics in Hbody.
  set (s1 := requested_all true _ _) in Hbody.
  destruct (requested_all_same true (take (asked evs refusal) topics)
    (set_rxRegistered true (set_downHandler true (put_state Starting s))))
    as (_ & _ & Hr1 & Hd1 & _ & _ & Hu1 & Hl1). fold s1 in Hr1, Hd1, Hu1, Hl1.
  set (s2 := requested_all false _ s1) in Hbody.
  destruct (requested_all_same false (take (length evs) topics) s1)
    as (_ & _ & _ & _ & _ & _ & Hu2 & Hl2). fold s2 in Hu2, Hl2.
  destruct err as [e|] eqn:He; eexists;
    (split; [apply (run_then _ _ _ _ _ _ Hstart), (run_then _ _ _ _ _ _ Hbody); reflexivity|]);
    unfold state_of; simpl.
  - rewrite Hu2, Hu1, Hl2, Hl1. split_and!; try done. simpl. by rewrite <-app_assoc.
  - rewrite Hr1, Hd1, Hl1. split_and!; try done. simpl. f_equal. f_equal.
    unfold err in He. destruct refusal as [[[e|] x]|]; [done|by destruct Hf as [_ []]|].
    simpl. apply take_ge. unfold answers_fit in Hf. fold topics in Hf. lia.
Qed.
End direct_receiver_runs.

(** * Concrete runs *)

Definition topic_sub (name : string) : Subscription := inl (mkTopicSubscription name).

(** A fresh receiver with room for two messages, dropping the oldest, and one subscription. *)
Definition example_receiver : @receiver nat nat :=
  construct true None strategyDropOldest 2 [topic_sub "a"] [].

Definition example_scene := scene [CallStart; CallReceiveAsync (Some 9); Message 5; Message 6; Message 7;
  Handler 5; CallTerminate] example_receiver.

(** The receiver is started, three messages come, the oldest is dropped, the handler gets the others,
    and the receiver is terminated with nothing left. *)
Definition full_run : list (nat * nat) :=
  [(0, 11); (2, 5); (3, 5); (4, 9); (1, 4); (5, 16); (6, 16); (5, 3); (6, 7)].

Lemma receiver_accounts_for_messages_witness : ∃ s ts, pool_steps example_scene (s, ts) ∧
  state_of s = Terminated ∧ called (past s) = [(9, 6); (9, 7)] ∧ ¬ pool_panics (s, ts) ∧
  taken_as Dropped s = [5] ∧ backpressureDiscarded s = 1%Z.
Proof.
  destruct (plays_to_steps full_run example_scene (λ s, bool_decide (state_of s = Terminated) &&
    bool_decide (called (past s) = [(9, 6); (9, 7)]) && bool_decide (taken_as Dropped s = [5]) &&
    bool_decide (context (past s) = ContextFree) && bool_decide (turned (past s) = [])))
    as (s & ts & Hs & Hc); [by vm_compute|].
  apply andb_true_iff in Hc as [[[[H1 H2]%andb_true_iff H3]%andb_true_iff H4]%andb_true_iff H5].
  apply bool_decide_eq_true in H1, H2, H3, H4, H5.
  destruct (receiver_accounts_for_messages 2
    [CallStart; CallReceiveAsync (Some 9); Message 5; Message 6; Message 7; Handler 5; CallTerminate]
    true None strategyDropOldest [topic_sub "a"] [] s ts) as (Hp & _ & _ & _ & _ & _ & Hm & _);
    [lia|done|].
  destruct (Hm H4) as [Hb _]. unfold turned_as in Hb. rewrite H3, H5 in Hb.
  exists s, ts. by split_and!.
Defined.

(** A receiver that has room for two messages and has one. *)
Definition started_receiver (strategy : receiverBackpressureStrategy) : @receiver nat nat :=
  set_rxRegistered true (set_buffer (mkChan 2 [mkInbound 1 false] false)
    (put_state Started (construct true None strategy 2 [topic_sub "a"] [((None, None))]))).


Lemma subscription_change_witness : ∃ s',
  run (AddSubscription (topic_sub "b")) (started_receiver strategyDropLatest) = Done None s' ∧
  "b" ∈ subscriptions s'.
Proof.
  destruct (subscription_change true (topic_sub "b") (None, None) [] (started_receiver strategyDropLatest))
    as (s' & Hr & _ & _ & _ & Hi); [by split|apply NoDup_singleton|done|].
  exists s'. split; [exact Hr|]. apply Hi. by left.
Defined.

Definition refused : ErrorInfo := mkErrorInfo ReturnCodeFail None.

(** Two subscriptions, of which the second is refused. *)
Definition refused_receiver : @receiver nat nat :=
  construct true None strategyDropLatest 2 [topic_sub "a"; topic_sub "b"] [(None, None); (Some refused, None)].

Lemma start_all_or_nothing_witness : ∃ s' e, run Start refused_receiver = Done (Some e) s' ∧
  state_of s' = Terminated ∧ session_calls (past s') = [(true, "a"); (true, "b"); (false, "a")].
Proof.
  destruct (start_all_or_nothing [None] (Some (Some refused, None)) [] refused_receiver)
    as (s' & Hr & _ & _ & _ & _ & Ht & _ & Hc); [done..|by split; [simpl; lia|eexists]|].
  eexists s', _. split; [exact Hr|]. split; [exact Ht|exact Hc].
Defined.

(** * What goes wrong *)

(** A receiver that is terminated before it was started is in the terminated state, where
    [ReceiveMessage] should fail; with a negative timeout it waits for ever instead,
    because nothing closes the buffer or announces that it is empty. *)
Theorem receive_waits_forever : ∃ s ts,
  pool_steps (scene [CallTerminate; CallReceiveMessage false] example_receiver) (s, ts) ∧
  state_of s = Terminated ∧ returned <$> ts = [Some (Returned None); None] ∧ ∀ c, ¬ pool_step (s, ts) c.
Proof.
  destruct (plays_out_steps [(0, 4); (1, 1)] (scene [CallTerminate; CallReceiveMessage false] example_receiver)
    (λ s rs, bool_decide (state_of s = Terminated) && bool_decide (rs = [Some (Returned None); None])))
    as (s & ts & Hs & [H1 H2]%andb_true_iff & Hstuck); [by vm_compute|].
  apply bool_decide_eq_true in H1, H2. by exists s, ts.
Qed.

(** A subscription that outlives its receiver.  While one goroutine removes a topic, another
    adds it again between the request of the first to the session and its change of the list: the
    session is subscribed, the list has lost the topic, and the termination, which
    unsubscribes the list, leaves the subscription of the session behind.  Every
    operation returns nil. *)
Theorem subscription_outlives_receiver : ∃ s ts,
  pool_steps (scene [CallStart; CallRemoveSubscription (topic_sub "a"); CallAddSubscription (topic_sub "a");
                     CallTerminate; Handler 5] example_receiver) (s, ts) ∧
  state_of s = Terminated ∧ returned <$> ts = replicate 5 (Some (Returned None)) ∧
  session_calls (past s) = [(true, "a"); (false, "a"); (true, "a")] ∧ subscriptions s = [].
Proof.
  destruct (plays_out_steps [(0, 11); (1, 7); (2, 12); (1, 5); (3, 14); (4, 3); (3, 7)]
    (scene [CallStart; CallRemoveSubscription (topic_sub "a"); CallAddSubscription (topic_sub "a");
            CallTerminate; Handler 5] example_receiver)
    (λ s rs, bool_decide (state_of s = Terminated) && bool_decide (rs = replicate 5 (Some (Returned None))) &&
       bool_decide (session_calls (past s) = [(true, "a"); (false, "a"); (true, "a")]) &&
       bool_decide (subscriptions s = [])))
    as (s & ts & Hs & Hc & _); [by vm_compute|].
  apply andb_true_iff in Hc as [[[H1 H2]%andb_true_iff H3]%andb_true_iff H4].
  apply bool_decide_eq_true in H1, H2, H3, H4. by exists s, ts.
Qed.

(** A termination that has to report undelivered messages returns before it tears down the cache
    of the receiver: the requests outstanding are not cancelled and the goroutine that polls
    their responses is left running. *)
Theorem undelivered_skips_teardown : ∃ s ts,
  pool_steps (scene [CallStart; Message 5; CallTerminate; Handler 5] example_receiver) (s, ts) ∧
  state_of s = Terminated ∧ terminateFuture (machine s) = mkFuture true (Some (undelivered_error 1)) ∧
  cacheTornDown s = false ∧ ∀ c, ¬ pool_step (s, ts) c.
Proof.
  destruct (plays_out_steps [(0, 11); (1, 5); (2, 14); (3, 3); (2, 9)]
    (scene [CallStart; Message 5; CallTerminate; Handler 5] example_receiver)
    (λ s rs, bool_decide (state_of s = Terminated) &&
       bool_decide (terminateFuture (machine s) = mkFuture true (Some (undelivered_error 1))) &&
       negb (cacheTornDown s)))
    as (s & ts & Hs & Hc & Hstuck); [by vm_compute|].
  apply andb_true_iff in Hc as [[H1 H2]%andb_true_iff H3%negb_true_iff].
  apply bool_decide_eq_true in H1, H2. by exists s, ts.
Qed.
