(* ===== verification/RequestReplyReceiver.v ===== *)
(** The request-reply receiver: internal/impl/receiver/request_reply_message_receiver_impl.go.

    The receiver is a direct receiver (DirectReceiver), to which it passes every call on; what it
    adds is the replier of a request, made from the fields of its message (Message), with which
    the application answers the request. *)

From Stdlib Require Import ZArith Lia.
From stdpp Require Import base list gmap strings.
From S2P Require Import Prelude GoEffects GoConc Errors Resource Lifecycle DirectPublisher DirectReceiver.
From S2P Require Import Sdt SdtContainer Message.

(** * Errors *)

Definition nil_reply_error : go_error :=
  NewError IllegalArgumentError "Replier must have OutboundMessage not nil" None.
Definition foreign_reply_error : go_error :=
  NewError IllegalArgumentError "Replier must have OutboundMessage from OutboundMessageBuilder" None.
Definition ReplierFailureToPublishReply : string := "Publish Reply Error: ".
Definition missing_subscription_error : go_error :=
  NewError InvalidConfigurationError
    "RequestReplyReceiverBuilder must have a requestTopicSubscription subscription" None.

(** * Repliers *)

(** [replierImpl], without the session it sends with, which is an argument of [Reply]. *)
Record replierImpl : Type := mkReplier {
  correlationID : string;
  replyToDestination : string;
}.

Section replier.
Context {M K : Type} `{!CContainers K} `{!CMessages M K}.

(** [NewReplierImpl]; [None] when the message lacks one of the fields of a request. *)
Definition NewReplierImpl (requestMsg : InboundMessageImpl M) : option replierImpl :=
  match GetReplyToDestinationName (K := K) requestMsg with
  | (_, false) => None
  | (replyToDestination, true) =>
      match GetCorrelationID (K := K) (inbound_message requestMsg) with
      | (_, false) => None
      | (correlationID, true) => Some (mkReplier correlationID replyToDestination)
      end
  end.

(** The argument of [Reply]: nil, a message that is none of ours, or one of ours. *)
Inductive reply_argument : Type :=
| NilMessage
| ForeignMessage
| OutboundMessage (m : MessageImpl M).

(** The error of a reply the session did not take. *)
Definition reply_error (errInfo : ErrorInfo) : go_error :=
  if decide (ReturnCode errInfo = ReturnCodeWouldBlock) then DirectPublisher.overflow_error
  else ToNativeError errInfo ReplierFailureToPublishReply.

(** [Reply], with [SendReply] of the session: the error, and the message the session was given. *)
Definition Reply (SendReply : M → option ErrorInfo) (replier : replierImpl) (msg : reply_argument)
    : option go_error * option M :=
  match msg with
  | NilMessage => (Some nil_reply_error, None)
  | ForeignMessage => (Some foreign_reply_error, None)
  | OutboundMessage msgImpl =>
      match DuplicateOutboundMessage (K := K) msgImpl with
      | Err err => (Some err, None)
      | Ok replyMsg =>
          match SetAsReplyMessage (K := K) (replyToDestination replier) (correlationID replier) replyMsg with
          | Err err => (Some err, None)
          | Ok replyMsg => (reply_error <$> SendReply (messagePointer replyMsg),
                            Some (messagePointer replyMsg))
          end
      end
  end.

(** * The receiver *)

Context `{!EqDecision M} {H : Type}.

(** [requestReplyMessageReceiverImpl]: a direct receiver.  The handler that it registers there is a
    function of the handler [H] of the application, and stands for it in the state. *)
Abbreviation requestReplyMessageReceiverImpl := (@DirectReceiver.receiver M H).
Abbreviation rr A := (prog requestReplyMessageReceiverImpl A).

Definition IsRunning : rr bool := Lifecycle.IsRunning.
Definition IsTerminated : rr bool := Lifecycle.IsTerminated.
Definition IsTerminating : rr bool := Lifecycle.IsTerminating.
Definition Start : rr (option go_error) := DirectReceiver.Start.
Definition StartAsync : rr (option go_error) := DirectReceiver.StartAsync.
Definition StartAsyncCallback : rr (option go_error) := DirectReceiver.StartAsyncCallback.
Definition Terminate : rr (option go_error) := DirectReceiver.Terminate.
Definition TerminateAsync : rr (option go_error) := DirectReceiver.TerminateAsync.
Definition TerminateAsyncCallback : rr (option go_error) := DirectReceiver.TerminateAsyncCallback.
Definition AddSubscription : DirectReceiver.Subscription → rr (option go_error) :=
  DirectReceiver.AddSubscription.
Definition RemoveSubscription : DirectReceiver.Subscription → rr (option go_error) :=
  DirectReceiver.RemoveSubscription.
Definition AddSubscriptionAsync : DirectReceiver.Subscription → bool → rr (option go_error) :=
  DirectReceiver.AddSubscriptionAsync.
Definition RemoveSubscriptionAsync : DirectReceiver.Subscription → bool → rr (option go_error) :=
  DirectReceiver.RemoveSubscriptionAsync.

(** What the application gets: an error, or a message with the replier of a request. *)
Inductive rr_answer : Type :=
| RRError (err : option go_error)
| RRMessage (m : InboundMessageImpl M) (replier : option replierImpl).

(** A message with its replier, as the application is given it. *)
Definition with_replier (m : M) (discarded : bool) : rr_answer :=
  let msg := NewInboundMessage m discarded in RRMessage msg (NewReplierImpl msg).

Definition ReceiveMessage (timer : bool) : rr rr_answer :=
  let! answer := DirectReceiver.ReceiveMessage timer in
  PRet (match answer with
        | DirectReceiver.Returned err => RRError err
        | DirectReceiver.InboundMessage m discarded => with_replier m discarded
        end).

(** The handler of the application is called with the message and its replier ([handler_call]). *)
Definition ReceiveAsync (callback : option H) : rr (option go_error) :=
  DirectReceiver.ReceiveAsync callback.
Definition handler_call (callback : H) (m : M) (discarded : bool) : H * rr_answer :=
  (callback, with_replier m discarded).
End replier.
Arguments reply_argument M : clear implicits.
Arguments rr_answer M : clear implicits.

(** * The builder *)

Definition NewRequestReplyMessageReceiverBuilderImpl : DirectReceiver.directMessageReceiverBuilderImpl :=
  DirectReceiver.NewDirectMessageReceiverBuilderImpl.
(** The first topic alone. *)
Definition withSubscriptions (topic : DirectReceiver.Subscription)
    (b : DirectReceiver.directMessageReceiverBuilderImpl) : DirectReceiver.directMessageReceiverBuilderImpl :=
  DirectReceiver.WithSubscriptions [topic] b.
Definition FromConfigurationProvider :
    option (list (string * Sdt.data)) → DirectReceiver.directMessageReceiverBuilderImpl →
    DirectReceiver.directMessageReceiverBuilderImpl := DirectReceiver.FromConfigurationProvider.
Definition OnBackPressureDropLatest : Z → DirectReceiver.directMessageReceiverBuilderImpl →
    DirectReceiver.directMessageReceiverBuilderImpl := DirectReceiver.OnBackPressureDropLatest.
Definition OnBackPressureDropOldest : Z → DirectReceiver.directMessageReceiverBuilderImpl →
    DirectReceiver.directMessageReceiverBuilderImpl := DirectReceiver.OnBackPressureDropOldest.

(** The builder afterwards, which keeps the subscription, and the receiver; [None] is a nil
    subscription. *)
Definition BuildWithSharedSubscription `{!GoArch} (requestTopicSubscription : option DirectReceiver.Subscription)
    (shareName : option ShareName) (b : DirectReceiver.directMessageReceiverBuilderImpl)
    : DirectReceiver.directMessageReceiverBuilderImpl *
      res go_error (DirectReceiver.receiverBackpressureStrategy * Z * list DirectReceiver.Subscription *
                    option ShareName) :=
  match requestTopicSubscription with
  | None => (b, Err missing_subscription_error)
  | Some topic =>
      let b := withSubscriptions topic b in (b, DirectReceiver.BuildWithShareName shareName b)
  end.
Definition Build `{!GoArch} (requestTopicSubscription : option DirectReceiver.Subscription)
    (b : DirectReceiver.directMessageReceiverBuilderImpl) :=
  BuildWithSharedSubscription requestTopicSubscription None b.

(** * Properties *)

Section properties.
Context {M K : Type} `{!CContainers K} `{!CMessages M K} `{!CMessagesLaws M K}.

Lemma setter_ok prefix (set : M → res ErrorInfo M) (m m' : MessageImpl M) :
  setter prefix set m = Ok m' → set (messagePointer m) = Ok (messagePointer m').
Proof using Type. unfold setter. destruct (set (messagePointer m)); [by intros [= <-]|done]. Qed.

(** The fields of a reply. *)
Lemma SetAsReplyMessage_fields dest cid (m m' : MessageImpl M) :
  SetAsReplyMessage (K := K) dest cid m = Ok m' →
  msg_get DestinationField (messagePointer m') = Ok ((TopicDestination, cstring dest) : cval K DestinationField) ∧
  msg_get CorrelationId (messagePointer m') = Ok (cstring cid : cval K CorrelationId) ∧
  msg_get AsReply (messagePointer m') = Ok (true : cval K AsReply) ∧
  ∀ f, f ≠ DestinationField → f ≠ CorrelationId → f ≠ AsReply →
    msg_get (K := K) f (messagePointer m') = msg_get f (messagePointer m).
Proof using CMessagesLaws0.
  unfold SetAsReplyMessage. intros Hs. apply res_bind_ok in Hs as (m1 & H1%setter_ok & Hs).
  apply res_bind_ok in Hs as (m2 & H2%setter_ok & H3%setter_ok).
  assert (∀ f v (p p' : M), msg_set (K := K) f v p = Ok p' → binary f = false →
    ∀ g, g ≠ f → msg_get (K := K) g p' = msg_get g p) as Hother.
  { intros f v p p' Hp Hf g Hg. eapply get_set_other; [exact Hp|]. by apply indep_other. }
  split_and!.
  - rewrite (Hother _ _ _ _ H3), (Hother _ _ _ _ H2) by done. by apply (get_set_same DestinationField _ _ _ H1).
  - rewrite (Hother _ _ _ _ H3) by done. by apply (get_set_same CorrelationId _ _ _ H2).
  - by apply (get_set_same AsReply _ _ _ H3).
  - intros f ???. by rewrite (Hother _ _ _ _ H3), (Hother _ _ _ _ H2), (Hother _ _ _ _ H1).
Qed.

End properties.

(** A request of a publisher, as it arrives, and the reply to it. *)
Definition sample_request : MessageImpl table :=
  match (let? m := SetReplyToDestination (K := tree) "#P2P/inbox" plain_message in
         SetCorrelationID (K := tree) "#GO1" m) with Ok m => m | Err _ => plain_message end.
Definition reply_topic_set : MessageImpl table :=
  match SetReplyToDestination (K := tree) "#P2P/inbox" plain_message with Ok m => m | Err _ => plain_message end.
Definition sample_arrived : InboundMessageImpl table := NewInboundMessage (messagePointer sample_request) false.
Definition sample_replier : replierImpl := mkReplier "#GO1" "#P2P/inbox".
Definition sample_reply : table :=
  match snd (Reply (K := tree) (λ _, None) sample_replier (OutboundMessage traced_message)) with
  | Some p => p | None => messagePointer plain_message end.

