(* ===== verification/Events.v ===== *)
(** The event service of a session: internal/impl/core/events.go.

    Handlers are registered per event under identifiers from one counter.  Each operation
    runs under the lock of the service and is one function on its state; iteration over
    the handler maps takes an order as an argument.  The class [HandlerRegistry] is what the
    other components of core rely on. *)

From Stdlib Require Import ZArith Lia.
From stdpp Require Import base list gmap strings.
From S2P Require Import Prelude GoStrconv GoEffects Errors.

#[local] Open Scope Z_scope.

(** * Events *)

(** The events of core. *)
Inductive event : Type :=
| SolClientEventUp | SolClientEventDown | SolClientEventCanSend
| SolClientEventAcknowledgement | SolClientEventRejected
| SolClientEventReconnect | SolClientEventReconnectAttempt
| SolClientSubscriptionOk | SolClientSubscriptionError
| SolClientProvisionOk | SolClientProvisionError.

#[export] Instance event_eq_dec : EqDecision event.
Proof. solve_decision. Defined.

Definition event_index (e : event) : nat :=
  match e with
  | SolClientEventUp => 0 | SolClientEventDown => 1 | SolClientEventCanSend => 2
  | SolClientEventAcknowledgement => 3 | SolClientEventRejected => 4
  | SolClientEventReconnect => 5 | SolClientEventReconnectAttempt => 6
  | SolClientSubscriptionOk => 7 | SolClientSubscriptionError => 8
  | SolClientProvisionOk => 9 | SolClientProvisionError => 10
  end%nat.
Definition event_of_index (n : nat) : option event :=
  [ SolClientEventUp; SolClientEventDown; SolClientEventCanSend;
    SolClientEventAcknowledgement; SolClientEventRejected; SolClientEventReconnect;
    SolClientEventReconnectAttempt; SolClientSubscriptionOk; SolClientSubscriptionError;
    SolClientProvisionOk; SolClientProvisionError ] !! n.

#[export] Program Instance event_countable : Countable event :=
  inj_countable event_index event_of_index _.
Next Obligation. by intros []. Qed.

(** The events of the C session that core knows, and the others. *)
Inductive session_event : Type :=
| SessionEventUpNotice | SessionEventDownError | SessionEventCanSend
| SessionEventAcknowledgement | SessionEventRejectedMsgError
| SessionEventReconnectedNotice | SessionEventReconnectingNotice
| SessionEventSubscriptionError | SessionEventSubscriptionOk
| SessionEventProvisionError | SessionEventProvisionOk
| SessionEventOther (code : Z).

Definition sessionEventMapping (e : session_event) : option event :=
  match e with
  | SessionEventUpNotice => Some SolClientEventUp
  | SessionEventDownError => Some SolClientEventDown
  | SessionEventCanSend => Some SolClientEventCanSend
  | SessionEventAcknowledgement => Some SolClientEventAcknowledgement
  | SessionEventRejectedMsgError => Some SolClientEventRejected
  | SessionEventReconnectedNotice => Some SolClientEventReconnect
  | SessionEventReconnectingNotice => Some SolClientEventReconnectAttempt
  | SessionEventSubscriptionError => Some SolClientSubscriptionError
  | SessionEventSubscriptionOk => Some SolClientSubscriptionOk
  | SessionEventProvisionError => Some SolClientProvisionError
  | SessionEventProvisionOk => Some SolClientProvisionOk
  | SessionEventOther _ => None
  end.

(** What a handler is called with; pointers are addresses. *)
Record sessionEventInfo : Type := mkEventInfo {
  info_err : option go_error;
  infoString : string;
  correlationP : Z;
  userP : Z;
}.

(** * The interface *)

(** A component that registers handlers of type [H]: what registration and removal promise
    while identifiers for [n] more registrations are left. *)
Class HandlerRegistry (S H : Type) : Type := {
  registered : S → Z → event → H → Prop;
  registry_ok : nat → S → Prop;
  add_handler : event → H → S → Z * S;
  remove_handler : Z → S → S → Prop;
  add_handler_ok : ∀ n ev h s id s',
    registry_ok (Datatypes.S n) s → add_handler ev h s = (id, s') →
    registry_ok n s' ∧ (∀ ev' h', ¬ registered s id ev' h') ∧
    ∀ id' ev' h', registered s' id' ev' h' ↔
      registered s id' ev' h' ∨ (id' = id ∧ ev' = ev ∧ h' = h);
  remove_handler_ok : ∀ n id s s', registry_ok n s → remove_handler id s s' →
    registry_ok n s' ∧
    ∀ id' ev' h', registered s' id' ev' h' ↔ registered s id' ev' h' ∧ id' ≠ id;
}.

(** * The service *)

Section events.
Context {H : Type}.

Record ccsmpBackedEvents : Type := mkEvents {
  eventHandlers : gmap event (gmap Z H);
  handlerID : Z;
  (* the session calls [eventCallback] *)
  callbackSet : bool;
}.

Definition newCcsmpEvents : ccsmpBackedEvents := mkEvents ∅ 0 false.

Definition set_handlers (m : gmap event (gmap Z H)) (e : ccsmpBackedEvents) : ccsmpBackedEvents :=
  mkEvents m (handlerID e) (callbackSet e).

Definition start (e : ccsmpBackedEvents) : ccsmpBackedEvents :=
  mkEvents (eventHandlers e) (handlerID e) true.

(** The loop deletes every key. *)
Definition terminate (e : ccsmpBackedEvents) : ccsmpBackedEvents :=
  mkEvents (foldr delete (eventHandlers e) ((map_to_list (eventHandlers e)).*1))
    (handlerID e) false.

(** The table of an event, nil (empty) when there is none. *)
Definition handlers_of (ev : event) (e : ccsmpBackedEvents) : gmap Z H :=
  default ∅ (eventHandlers e !! ev).

(** The map is made by [newCcsmpEvents] and never nil again, so the guard of the method on
    a nil map is never taken. *)
Definition AddEventHandler (sessionEvent : event) (eventHandler : H) (e : ccsmpBackedEvents)
    : Z * ccsmpBackedEvents :=
  let id := wrapU 64 (handlerID e + 1) in
  (id, mkEvents (<[sessionEvent := <[id := eventHandler]> (handlers_of sessionEvent e)]>
                   (eventHandlers e)) id (callbackSet e)).

(** The loop of the removal over the tables in the order [l], up to the first that has the
    identifier. *)
Fixpoint remove_in (id : Z) (l : list (event * gmap Z H)) (m : gmap event (gmap Z H))
    : gmap event (gmap Z H) :=
  match l with
  | [] => m
  | (ev, eventHandlers) :: l =>
      match eventHandlers !! id with
      | Some _ => <[ev := delete id eventHandlers]> m
      | None => remove_in id l m
      end
  end.

Definition RemoveEventHandler (id : Z) (order : list (event * gmap Z H))
    (e : ccsmpBackedEvents) : ccsmpBackedEvents :=
  set_handlers (remove_in id order (eventHandlers e)) e.

(** [emitEvent]: the handlers called, in the order [order] of the table of the event. *)
Definition emitEvent (order : list (Z * H)) (info : sessionEventInfo)
    : list (H * sessionEventInfo) :=
  (λ p, (snd p, info)) <$> order.

(** [eventCallback]; [lastErrorInfo] is the error information of the thread. *)
Definition eventCallback (sessionEvent : session_event) (lastErrorInfo : ErrorInfo)
    (info : string) (correlationP userP : Z) (order : event → list (Z * H))
    : list (H * sessionEventInfo) :=
  match sessionEventMapping sessionEvent with
  | Some mappedEvent =>
      let err := if SubCode lastErrorInfo =? 0 then None
                 else Some (ToNativeError lastErrorInfo "") in
      emitEvent (order mappedEvent) (mkEventInfo err info correlationP userP)
  | None => []
  end.

(** * Properties *)

Definition events_registered (e : ccsmpBackedEvents) (id : Z) (ev : event) (h : H) : Prop :=
  handlers_of ev e !! id = Some h.

(** Identifiers are those the counter has given out, each for one event, and the counter does
    not wrap for [n] more. *)
Definition events_ok (n : nat) (e : ccsmpBackedEvents) : Prop :=
  (0 ≤ handlerID e ∧ handlerID e + Z.of_nat n < 2 ^ 64) ∧
  (∀ id ev h, events_registered e id ev h → 0 < id ≤ handlerID e) ∧
  (∀ id ev ev' h h', events_registered e id ev h → events_registered e id ev' h' → ev = ev').

Lemma handlers_of_insert ev ev' m e :
  handlers_of ev' (set_handlers (<[ev := m]> (eventHandlers e)) e) =
  if decide (ev = ev') then m else handlers_of ev' e.
Proof.
  unfold handlers_of. simpl. case_decide as Hev; [subst; by rewrite lookup_insert_eq|].
  by rewrite lookup_insert_ne.
Qed.

Lemma add_ok n ev h e id e' :
  events_ok (S n) e → AddEventHandler ev h e = (id, e') →
  events_ok n e' ∧ (∀ ev' h', ¬ events_registered e id ev' h') ∧
  ∀ id' ev' h', events_registered e' id' ev' h' ↔
    events_registered e id' ev' h' ∨ (id' = id ∧ ev' = ev ∧ h' = h).
Proof.
  intros (Hid & Hrange & Huniq) [= Hid' <-].
  rewrite wrapU_id in Hid' by (unfold inU; lia). subst id.
  rewrite wrapU_id by (unfold inU; lia).
  assert (∀ ev' h', ¬ events_registered e (handlerID e + 1) ev' h') as Hfresh.
  { intros ev' h' Hr. apply Hrange in Hr. lia. }
  assert (∀ id' ev' h',
    events_registered (mkEvents (<[ev := <[handlerID e + 1 := h]> (handlers_of ev e)]>
      (eventHandlers e)) (handlerID e + 1) (callbackSet e)) id' ev' h' ↔
    events_registered e id' ev' h' ∨ (id' = handlerID e + 1 ∧ ev' = ev ∧ h' = h)) as Hreg.
  { intros id' ev' h'. unfold events_registered at 1.
    change (handlers_of ev' _) with (handlers_of ev' (set_handlers
      (<[ev := <[handlerID e + 1 := h]> (handlers_of ev e)]> (eventHandlers e)) e)).
    rewrite handlers_of_insert. case_decide as Hev; [subst ev'|].
    - rewrite lookup_insert_Some. split.
      + intros [[<- <-]|[Hne Hl]]; [by right|by left].
      + intros [Hl|(-> & _ & ->)]; [|by left]. right. split; [|done].
        intros <-. by destruct (Hfresh ev h').
    - split; [by left|]. by intros [?|(_ & -> & _)]. }
  split; [unfold events_ok; split_and!|by split].
  - cbn [handlerID]. lia.
  - cbn [handlerID]. lia.
  - intros id ev' h'. rewrite Hreg. simpl. intros [Hr|(-> & _)]; [apply Hrange in Hr; lia|lia].
  - intros id ev1 ev2 h1 h2. rewrite !Hreg.
    intros [H1|(-> & -> & ->)] [H2|(Hi & -> & ->)]; subst; try done.
    + by eapply Huniq.
    + by destruct (Hfresh ev1 h1).
    + by destruct (Hfresh ev2 h2).
Qed.

(** The loop of the removal changes the one table that has the identifier. *)
Lemma remove_in_spec id l m :
  (∀ ev t ev' t', (ev, t) ∈ l → (ev', t') ∈ l → is_Some (t !! id) → is_Some (t' !! id) →
     ev = ev') →
  (∀ ev t, (ev, t) ∈ l → m !! ev = Some t) →
  ∀ ev, remove_in id l m !! ev =
    match list_find (λ p, is_Some (p.2 !! id)) l with
    | Some (_, (ev', t)) => if decide (ev = ev') then Some (delete id t) else m !! ev
    | None => m !! ev
    end.
Proof.
  intros Huniq Hm. induction l as [|[ev0 t0] l IH]; intros ev; simpl; [done|].
  destruct (t0 !! id) as [h|] eqn:Ht.
  - rewrite decide_True by eauto.
    case_decide as Hev; [subst; by rewrite lookup_insert_eq|by rewrite lookup_insert_ne].
  - rewrite decide_False by (by intros []).
    rewrite IH.
    + destruct (list_find _ l) as [[? [? ?]]|]; done.
    + intros ev1 t1 ev2 t2 H1 H2. apply (Huniq ev1 t1 ev2 t2); by right.
    + intros ev1 t1 H1. apply Hm. by right.
Qed.

Lemma remove_ok n id order e :
  events_ok n e → range_order (eventHandlers e) order →
  events_ok n (RemoveEventHandler id order e) ∧
  ∀ id' ev' h', events_registered (RemoveEventHandler id order e) id' ev' h' ↔
    events_registered e id' ev' h' ∧ id' ≠ id.
Proof.
  intros (Hid & Hrange & Huniq) Horder.
  assert (∀ ev t, (ev, t) ∈ order ↔ eventHandlers e !! ev = Some t) as Helem
    by (intros; by apply range_order_elem).
  assert (∀ id' ev' h', events_registered (RemoveEventHandler id order e) id' ev' h' ↔
    events_registered e id' ev' h' ∧ id' ≠ id) as Hreg.
  { intros id' ev' h'. unfold events_registered, handlers_of, RemoveEventHandler. simpl.
    rewrite remove_in_spec.
    - destruct (list_find _ order) as [[i [ev t]]|] eqn:Hf.
      + apply list_find_Some in Hf as (Hl & [h Hh] & _).
        assert (eventHandlers e !! ev = Some t) as Ht by (apply Helem; by eapply list_elem_of_lookup_2).
        case_decide as Hev; simpl.
        * subst ev'. rewrite Ht. simpl. rewrite lookup_delete_Some. naive_solver.
        * split; [|by intros []]. intros Hr. split; [done|]. intros ->. apply Hev.
          eapply (Huniq id); [exact Hr|]. unfold events_registered, handlers_of. by rewrite Ht.
      + apply list_find_None in Hf. rewrite Forall_forall in Hf.
        split; [|by intros []]. intros Hr. split; [done|]. intros ->.
        destruct (eventHandlers e !! ev') as [t|] eqn:Ht; [|done].
        apply Helem in Ht. apply (Hf _ Ht). by exists h'.
    - intros ev t ev2 t2 H1%Helem H2%Helem [h1 Hh1] [h2 Hh2].
      eapply (Huniq id); unfold events_registered, handlers_of; [by rewrite H1|by rewrite H2].
    - intros ev t H1. by apply Helem. }
  split; [|done]. split_and!; simpl.
  - lia.
  - lia.
  - intros id' ev' h'. rewrite Hreg. intros [Hr _]. by eapply Hrange.
  - intros id' ev1 ev2 h1 h2. rewrite !Hreg. intros [H1 _] [H2 _]. by eapply Huniq.
Qed.

Definition removes (id : Z) (e e' : ccsmpBackedEvents) : Prop :=
  ∃ order, range_order (eventHandlers e) order ∧ e' = RemoveEventHandler id order e.

Lemma removes_ok n id e e' : events_ok n e → removes id e e' →
  events_ok n e' ∧
  ∀ id' ev' h', events_registered e' id' ev' h' ↔ events_registered e id' ev' h' ∧ id' ≠ id.
Proof. intros He (order & Ho & ->). by apply remove_ok. Qed.

#[export] Instance events_registry : HandlerRegistry ccsmpBackedEvents H := {|
  registered := events_registered;
  registry_ok := events_ok;
  add_handler := AddEventHandler;
  remove_handler := removes;
  add_handler_ok := add_ok;
  remove_handler_ok := removes_ok;
|}.

(** Every handler of an event is called once with what the event brought. *)
Lemma emit_spec (m : gmap Z H) order info :
  range_order m order → emitEvent order info ≡ₚ (λ p, (p.2, info)) <$> map_to_list m.
Proof. intros Ho. unfold emitEvent, range_order in *. by rewrite Ho. Qed.

Lemma terminate_empty e : eventHandlers (terminate e) = ∅.
Proof.
  apply delete_all. auto with go_eff.
Qed.

(** C14: the service behaves as a registry of handlers under fresh identifiers.  Adding a
    handler returns an identifier nobody has, removing one removes that registration and
    nothing else whatever order the tables are visited in, an event of the session calls every
    handler registered for its core event exactly once with one error, and termination
    leaves no registration. *)
Theorem events_refine_registry n e :
  events_ok (S n) e →
  (∀ ev h id e', AddEventHandler ev h e = (id, e') →
     (∀ ev' h', ¬ events_registered e id ev' h') ∧
     ∀ id' ev' h', events_registered e' id' ev' h' ↔
       events_registered e id' ev' h' ∨ (id' = id ∧ ev' = ev ∧ h' = h)) ∧
  (∀ id order, range_order (eventHandlers e) order →
     ∀ id' ev' h', events_registered (RemoveEventHandler id order e) id' ev' h' ↔
       events_registered e id' ev' h' ∧ id' ≠ id) ∧
  (∀ sev ev last info c u order,
     sessionEventMapping sev = Some ev → range_order (handlers_of ev e) (order ev) →
     ∃ err, (err = None ↔ SubCode last = 0) ∧
       eventCallback sev last info c u order ≡ₚ
         (λ p, (p.2, mkEventInfo err info c u)) <$> map_to_list (handlers_of ev e)) ∧
  (∀ id ev h, ¬ events_registered (terminate e) id ev h).
Proof.
  intros He. split_and!.
  - intros ev h id e' Ha. by destruct (add_ok n ev h e id e' He Ha) as (_ & ? & ?).
  - intros id order Ho. by destruct (remove_ok (S n) id order e He Ho).
  - intros sev ev last info c u order Hm Ho. unfold eventCallback. rewrite Hm.
    eexists. split; [|by apply emit_spec].
    destruct (Z.eqb_spec (SubCode last) 0); naive_solver.
  - intros id ev h. unfold events_registered, handlers_of. by rewrite terminate_empty.
Qed.
End events.
Arguments ccsmpBackedEvents H : clear implicits.

(** * Examples *)

(** Two handlers of one event; the first is removed again, the second stays. *)
Definition one_handler : ccsmpBackedEvents Z :=
  (AddEventHandler SolClientEventDown 5 newCcsmpEvents).2.
Definition two_handlers : ccsmpBackedEvents Z :=
  (AddEventHandler SolClientEventDown 7 one_handler).2.

Lemma two_handlers_ok : events_ok 2 two_handlers.
Proof.
  assert (events_ok 4 (newCcsmpEvents (H := Z))) as H0.
  { split; [simpl; lia|]. split; intros; by unfold events_registered in *. }
  destruct (add_ok 3 SolClientEventDown 5 _ _ _ H0 eq_refl) as [H1 _].
  by destruct (add_ok 2 SolClientEventDown 7 _ _ _ H1 eq_refl) as [H2 _].
Qed.

Lemma events_refine_registry_witness :
  let e' := RemoveEventHandler 1 (map_to_list (eventHandlers two_handlers)) two_handlers in
  (∀ h, ¬ events_registered e' 1 SolClientEventDown h) ∧
  events_registered e' 2 SolClientEventDown 7.
Proof.
  destruct (events_refine_registry 1 two_handlers two_handlers_ok) as (_ & Hrem & _).
  specialize (Hrem 1 (map_to_list (eventHandlers two_handlers)) (range_order_exists _)).
  split.
  - intros h Hr. apply Hrem in Hr as [_ Hne]. apply Hne. reflexivity.
  - apply Hrem. split; [vm_compute; reflexivity|discriminate].
Defined.
