(* ===== verification/CorePublisher.v ===== *)
(** The publisher service of a session: internal/impl/core/publisher.go.

    Correlation tags and the routing of acknowledgements, the reply topics and reply handlers
    of requesters with the lock that guards them, the can-send signal, and the start and
    termination of the service over the interface of the event service.  Calls into the C
    session are logged, and their results are arguments. *)

From Stdlib Require Import ZArith Lia Ascii.
From stdpp Require Import base list gmap strings.
From S2P Require Import Prelude GoStrconv GoEffects Errors Events.

#[local] Open Scope Z_scope.

(** * Correlation tags *)

Definition correlationIDLength : nat := 8.
Definition correlationTagLength : nat := correlationIDLength * 2.

(** The loop of [toCorrelationTag], for [n] more turns from [i]. *)
Fixpoint to_tag_loop (pubID messageID : Z) (n i : nat) (shift mask : Z) (tag : list Z)
    : list Z :=
  match n with
  | O => tag
  | S n =>
      let tag := <[i := wrapU 8 (Z.shiftr (Z.land pubID mask) shift)]> tag in
      let tag := <[(i + correlationIDLength)%nat :=
                   wrapU 8 (Z.shiftr (Z.land messageID mask) shift)]> tag in
      to_tag_loop pubID messageID n (S i) (shift + 8) (wrapU 64 (Z.shiftl mask 8)) tag
  end.

Definition toCorrelationTag (pubID messageID : Z) : list Z :=
  to_tag_loop pubID messageID correlationIDLength 0 0 0xFF (replicate correlationTagLength 0).

(** The loop of [fromCorrelationTag]; the tag has the right length. *)
Fixpoint from_tag_loop (bytes : list Z) (n i : nat) (shift pubID messageID : Z) : Z * Z :=
  match n with
  | O => (pubID, messageID)
  | S n =>
      from_tag_loop bytes n (S i) (shift + 8)
        (Z.lor pubID (wrapU 64 (Z.shiftl (nth i bytes 0) shift)))
        (Z.lor messageID (wrapU 64 (Z.shiftl (nth (i + correlationIDLength) bytes 0) shift)))
  end.

Definition fromCorrelationTag (bytes : list Z) : Z * Z * bool :=
  if negb (Nat.eqb (length bytes) correlationTagLength) then (0, 0, false)
  else (from_tag_loop bytes correlationIDLength 0 0 0 0, true).

(** The byte of [x] at bit [s]. *)
Definition byte_at (x s : Z) : Z := Z.land (Z.shiftr x s) 0xFF.

Lemma byte_at_range x s : 0 ≤ byte_at x s < 256.
Proof.
  unfold byte_at. change 0xFF with (Z.ones 8). rewrite Z.land_ones by lia.
  apply Z.mod_pos_bound. lia.
Qed.

Lemma byte_step x mask s : 0 ≤ s → mask = Z.shiftl 0xFF s →
  wrapU 8 (Z.shiftr (Z.land x mask) s) = byte_at x s.
Proof.
  intros Hs ->. rewrite Z.shiftr_land, Z.shiftr_shiftl_l by lia.
  rewrite Z.sub_diag, Z.shiftl_0_r. apply wrapU_id. apply byte_at_range.
Qed.

Definition bytes_of (x : Z) : list Z :=
  byte_at x <$> [0; 8; 16; 24; 32; 40; 48; 56].

Lemma toCorrelationTag_bytes p m : toCorrelationTag p m = bytes_of p ++ bytes_of m.
Proof.
  unfold toCorrelationTag, correlationTagLength, correlationIDLength.
  cbn -[wrapU Z.land Z.shiftr Z.shiftl byte_at Z.add].
  repeat (f_equal; [apply byte_step; [lia|vm_compute; reflexivity]|]).
  f_equal. apply byte_step; [lia|vm_compute; reflexivity].
Qed.

(** Putting a byte above the low bits of [x]. *)
Lemma lor_byte x k : 0 ≤ k →
  Z.lor (x mod 2 ^ k) (Z.shiftl (byte_at x k) k) = x mod 2 ^ (k + 8).
Proof.
  intros Hk. apply Z.bits_inj'. intros n Hn. unfold byte_at.
  rewrite Z.lor_spec, Z.shiftl_spec by lia.
  destruct (Z.lt_ge_cases n k).
  - rewrite (Z.mod_pow2_bits_low x k), (Z.mod_pow2_bits_low x (k + 8)) by lia.
    rewrite (Z.testbit_neg_r _ (n - k)) by lia. by rewrite orb_false_r.
  - rewrite (Z.mod_pow2_bits_high x k) by lia. simpl.
    rewrite Z.land_spec, Z.shiftr_spec by lia.
    replace (n - k + k) with n by lia. change 0xFF with (Z.ones 8).
    destruct (Z.lt_ge_cases n (k + 8)).
    + rewrite Z.mod_pow2_bits_low, Z.ones_spec_low by lia. by rewrite andb_true_r.
    + rewrite Z.mod_pow2_bits_high, Z.ones_spec_high by lia. by rewrite andb_false_r.
Qed.

Lemma shifted_byte x k : 0 ≤ k ≤ 56 →
  wrapU 64 (Z.shiftl (byte_at x k) k) = Z.shiftl (byte_at x k) k.
Proof.
  intros Hk. apply wrapU_id. pose proof (byte_at_range x k).
  rewrite Z.shiftl_mul_pow2 by lia. split; [nia|].
  assert (2 ^ 64 = 2 ^ (64 - k) * 2 ^ k) as -> by (rewrite <-Z.pow_add_r by lia; f_equal; lia).
  apply Z.mul_lt_mono_pos_r; [nia|].
  apply Z.lt_le_trans with (2 ^ 8); [lia|]. apply Z.pow_le_mono_r; lia.
Qed.

(** Reassembling the eight bytes. *)
Lemma reassemble x :
  foldl (λ acc k, Z.lor acc (wrapU 64 (Z.shiftl (byte_at x k) k))) 0
    [0; 8; 16; 24; 32; 40; 48; 56] = x mod 2 ^ 64.
Proof.
  cbn [foldl]. rewrite !shifted_byte by lia.
  change 0 with (0 mod 2 ^ 0) at 1.
  replace (0 mod 2 ^ 0) with (x mod 2 ^ 0) by (by rewrite Z.pow_0_r, !Z.mod_1_r).
  rewrite !lor_byte by lia. done.
Qed.

(** C17: an acknowledgement tag of sixteen bytes gives back the publisher and message
    identifiers it was made from, for all 64-bit identifiers; a tag of any other length is
    refused. *)
Theorem correlation_tag_roundtrip p m :
  inU 64 p → inU 64 m →
  fromCorrelationTag (toCorrelationTag p m) = (p, m, true) ∧
  length (toCorrelationTag p m) = 16%nat ∧
  Forall (inU 8) (toCorrelationTag p m) ∧
  ∀ bytes, length bytes ≠ 16%nat → fromCorrelationTag bytes = (0, 0, false).
Proof.
  intros Hp Hm. rewrite toCorrelationTag_bytes. split_and!.
  - unfold fromCorrelationTag, correlationIDLength.
    assert (length (bytes_of p ++ bytes_of m) = correlationTagLength) as -> by done.
    rewrite Nat.eqb_refl. cbn -[wrapU byte_at Z.shiftl].
    pose proof (reassemble p) as Rp. pose proof (reassemble m) as Rm. cbn [foldl] in Rp, Rm.
    repeat match goal with |- context [Z.add ?a ?b] =>
      let c := eval vm_compute in (Z.add a b) in change (Z.add a b) with c end.
    rewrite Rp, Rm. unfold inU in *. by rewrite !Z.mod_small by lia.
  - done.
  - rewrite Forall_app. split; apply Forall_fmap; repeat constructor; apply byte_at_range.
  - intros bytes Hlen. unfold fromCorrelationTag.
    destruct (Nat.eqb_spec (length bytes) correlationTagLength); [done|done].
Qed.

(** * The service *)

(** The handlers the service registers with the event service. *)
Inductive publisher_handler : Type := OnCanSend | OnAck (persisted : bool).

(** Calls into the C session. *)
Inductive session_call : Type :=
| SubscribeReplyTopic (topic : string) (dispatch : Z)
| UnsubscribeReplyTopic (topic : string) (dispatch : Z)
| SetReplyCallback (registered : bool).

Section publisher.
(** Acknowledgement handlers and reply handlers of the publishers. *)
Context {A R : Type}.

Record ccsmpBackedPublisher : Type := mkPublisher {
  isRunning : Z;
  canSend : chan bool;
  termination : bool;
  eventIDs : Z * Z * Z; (* canSendEventID, acknowledgementEventID, rejectedEventID *)
  acknowledgementHandlerID : Z;
  acknowledgementMap : gmap Z A;
  messageIDs : gmap Z Z; (* the counters of the tag generators *)
  rxLock : rwmutex;
  replyToPrefix : string;
  replyDispatchID : Z;
  publisherRxReplyMap : gmap Z (R * string);
  session_calls : list session_call;
}.

Definition newCcsmpPublisher : ccsmpBackedPublisher :=
  mkPublisher 0 (make_chan 1) false (0, 0, 0) 0 ∅ ∅ rw_free "" 0 ∅ [].

Definition set_running (z : Z) (p : ccsmpBackedPublisher) : ccsmpBackedPublisher :=
  mkPublisher z (canSend p) (termination p) (eventIDs p) (acknowledgementHandlerID p)
    (acknowledgementMap p) (messageIDs p) (rxLock p) (replyToPrefix p) (replyDispatchID p)
    (publisherRxReplyMap p) (session_calls p).
Definition set_canSend (c : chan bool) (p : ccsmpBackedPublisher) : ccsmpBackedPublisher :=
  mkPublisher (isRunning p) c (termination p) (eventIDs p) (acknowledgementHandlerID p)
    (acknowledgementMap p) (messageIDs p) (rxLock p) (replyToPrefix p) (replyDispatchID p)
    (publisherRxReplyMap p) (session_calls p).
Definition set_termination (b : bool) (p : ccsmpBackedPublisher) : ccsmpBackedPublisher :=
  mkPublisher (isRunning p) (canSend p) b (eventIDs p) (acknowledgementHandlerID p)
    (acknowledgementMap p) (messageIDs p) (rxLock p) (replyToPrefix p) (replyDispatchID p)
    (publisherRxReplyMap p) (session_calls p).
Definition set_eventIDs (ids : Z * Z * Z) (p : ccsmpBackedPublisher) : ccsmpBackedPublisher :=
  mkPublisher (isRunning p) (canSend p) (termination p) ids (acknowledgementHandlerID p)
    (acknowledgementMap p) (messageIDs p) (rxLock p) (replyToPrefix p) (replyDispatchID p)
    (publisherRxReplyMap p) (session_calls p).
Definition set_acks (id : Z) (m : gmap Z A) (c : gmap Z Z) (p : ccsmpBackedPublisher)
    : ccsmpBackedPublisher :=
  mkPublisher (isRunning p) (canSend p) (termination p) (eventIDs p) id m c (rxLock p)
    (replyToPrefix p) (replyDispatchID p) (publisherRxReplyMap p) (session_calls p).
Definition set_rxLock (l : rwmutex) (p : ccsmpBackedPublisher) : ccsmpBackedPublisher :=
  mkPublisher (isRunning p) (canSend p) (termination p) (eventIDs p)
    (acknowledgementHandlerID p) (acknowledgementMap p) (messageIDs p) l (replyToPrefix p)
    (replyDispatchID p) (publisherRxReplyMap p) (session_calls p).
Definition set_prefix (s : string) (p : ccsmpBackedPublisher) : ccsmpBackedPublisher :=
  mkPublisher (isRunning p) (canSend p) (termination p) (eventIDs p)
    (acknowledgementHandlerID p) (acknowledgementMap p) (messageIDs p) (rxLock p) s
    (replyDispatchID p) (publisherRxReplyMap p) (session_calls p).
Definition set_replyDispatchID (z : Z) (p : ccsmpBackedPublisher) : ccsmpBackedPublisher :=
  mkPublisher (isRunning p) (canSend p) (termination p) (eventIDs p)
    (acknowledgementHandlerID p) (acknowledgementMap p) (messageIDs p) (rxLock p)
    (replyToPrefix p) z (publisherRxReplyMap p) (session_calls p).
Definition set_replyMap (m : gmap Z (R * string)) (p : ccsmpBackedPublisher)
    : ccsmpBackedPublisher :=
  mkPublisher (isRunning p) (canSend p) (termination p) (eventIDs p)
    (acknowledgementHandlerID p) (acknowledgementMap p) (messageIDs p) (rxLock p)
    (replyToPrefix p) (replyDispatchID p) m (session_calls p).
Definition log_call (c : session_call) (p : ccsmpBackedPublisher) : ccsmpBackedPublisher :=
  mkPublisher (isRunning p) (canSend p) (termination p) (eventIDs p)
    (acknowledgementHandlerID p) (acknowledgementMap p) (messageIDs p) (rxLock p)
    (replyToPrefix p) (replyDispatchID p) (publisherRxReplyMap p) (session_calls p ++ [c]).

Abbreviation PM := (M ccsmpBackedPublisher).
Definition on_rxLock (m : M rwmutex unit) : PM unit := zoom rxLock set_rxLock m.

(** ** Acknowledgements *)

Definition AddAcknowledgementHandler (ackHandler : A) (p : ccsmpBackedPublisher)
    : Z * ccsmpBackedPublisher :=
  let pubID := wrapU 64 (acknowledgementHandlerID p + 1) in
  (pubID, set_acks pubID (<[pubID := ackHandler]> (acknowledgementMap p))
            (<[pubID := 0]> (messageIDs p)) p).

(** The generator that AddAcknowledgementHandler returned for [pubID]. *)
Definition next_tag (pubID : Z) (p : ccsmpBackedPublisher)
    : Z * list Z * ccsmpBackedPublisher :=
  let nextId := wrapU 64 (default 0 (messageIDs p !! pubID) + 1) in
  (nextId, toCorrelationTag pubID nextId,
   set_acks (acknowledgementHandlerID p) (acknowledgementMap p)
     (<[pubID := nextId]> (messageIDs p)) p).

Definition RemoveAcknowledgementHandler (pubID : Z) (p : ccsmpBackedPublisher)
    : ccsmpBackedPublisher :=
  set_acks (acknowledgementHandlerID p) (delete pubID (acknowledgementMap p)) (messageIDs p) p.

(** [onAcknowledgement]: the handler called and what it is called with; the tag is absent when
    the event carries no correlation pointer. *)
Definition onAcknowledgement (tag : option (list Z)) (persisted : bool) (err : option go_error)
    (p : ccsmpBackedPublisher) : option (A * (Z * bool * option go_error)) :=
  match tag with
  | None => None
  | Some tag =>
      match fromCorrelationTag tag with
      | (pubID, msgID, true) =>
          match acknowledgementMap p !! pubID with
          | Some callback => Some (callback, (msgID, persisted, err))
          | None => None
          end
      | (_, _, false) => None
      end
  end.

(** ** Requests and replies *)

(** The dispatch pointer of a requester is its identifier. *)
Definition NewSessionReplyDispatch (id : Z) : Z := id.

Definition RequestCorrelationPrefix : string := "#GOS".

Definition CreateReplyToTopic (pubID : string) (p : ccsmpBackedPublisher) : string :=
  replyToPrefix p +:+ pubID.

(** The result of the subscription is [subscribeError]. *)
Definition AddRequestorReplyHandler (replyHandler : R) (subscribeError : option ErrorInfo)
    : PM (res ErrorInfo (string * Z)) :=
  let* p := get in
  let pubID := wrapU 64 (replyDispatchID p + 1) in
  modify (set_replyDispatchID pubID) ;;;
  let replyToTopic := replyToPrefix p +:+ sprintf_016X pubID in
  let dispatchPointer := NewSessionReplyDispatch pubID in
  on_rxLock Lock ;;;
  modify (λ p, set_replyMap
    (<[dispatchPointer := (replyHandler, replyToTopic)]> (publisherRxReplyMap p)) p) ;;;
  on_rxLock Unlock ;;;
  modify (log_call (SubscribeReplyTopic replyToTopic dispatchPointer)) ;;;
  match subscribeError with
  | Some errorInfo =>
      on_rxLock Lock ;;;
      modify (λ p, set_replyMap (delete dispatchPointer (publisherRxReplyMap p)) p) ;;;
      on_rxLock Unlock ;;;
      ret (Err errorInfo)
  | None => ret (Ok (replyToTopic, pubID))
  end.

(** The correlation identifier of a request; [messageID] is the counter of the generator. *)
Definition next_correlation (messageID : Z) : Z * string :=
  let nextID := wrapU 64 (messageID + 1) in
  (nextID, RequestCorrelationPrefix +:+ sprintf_016X nextID).

Definition RemoveRequestorReplyHandler (replyToTopic : string)
    (unsubscribeError : option ErrorInfo) : PM (option ErrorInfo) :=
  let pubIDHex := default ""%string (last (split "/" replyToTopic)) in
  match ParseUint pubIDHex 16 64 with
  | (_, Some _) => ret None
  | (pubID, None) =>
      let pubIndex := NewSessionReplyDispatch pubID in
      modify (log_call (UnsubscribeReplyTopic replyToTopic pubIndex)) ;;;
      match unsubscribeError with
      | Some errorInfo => ret (Some errorInfo)
      | None =>
          on_rxLock Lock ;;;
          modify (λ p, set_replyMap (delete pubIndex (publisherRxReplyMap p)) p) ;;;
          on_rxLock Unlock ;;;
          ret None
      end
  end.

(** [onReplyMessage] up to the callback it calls, [None] when it returns false at once; that
    return leaves the read lock held. *)
Definition onReplyMessage (userP : Z) : PM (option R) :=
  on_rxLock RLock ;;;
  let* p := get in
  match publisherRxReplyMap p !! userP with
  | None => ret None
  | Some (handler, _) => on_rxLock RUnlock ;;; ret (Some handler)
  end.

(** The session property is the topic of the inbox, which ends in a [#]. *)
Definition GetP2PTopicPrefix (p2pTopicInUse : string) : string :=
  String.substring 0 (String.length p2pTopicInUse - 1) p2pTopicInUse.

Definition startRequestor (p2pTopicInUse : res ErrorInfo string) : PM bool :=
  match p2pTopicInUse with
  | Err _ => modify (set_prefix "") ;;; ret false
  | Ok topic =>
      modify (set_prefix (GetP2PTopicPrefix topic)) ;;;
      modify (log_call (SetReplyCallback true)) ;;; ret true
  end.

(** The unsubscriptions at the end of the service, in the order [order] of the map. *)
Definition terminateRequestor (order : list (Z * (R * string))) : PM unit :=
  modify (log_call (SetReplyCallback false)) ;;;
  on_rxLock Lock ;;;
  modify (λ p, set_replyMap (foldr delete (publisherRxReplyMap p) order.*1) p) ;;;
  on_rxLock Unlock ;;;
  foldr (λ e m, modify (log_call (UnsubscribeReplyTopic (snd (snd e))
                 (NewSessionReplyDispatch (fst e)))) ;;; m) (ret tt) order.

(** ** The can-send signal *)

Definition onCanSend : PM unit :=
  let* _ := zoom canSend set_canSend (chan_try_send true) in ret tt.

(** AwaitWritable once its wait for [canSend] ends: whether the caller may publish again. *)
Definition AwaitWritable : PM bool :=
  let* r := zoom canSend set_canSend chan_recv in ret (default false r).

(** ** Start and termination, over any event service *)

Section lifecycle.
Context {ES H : Type} `{!HandlerRegistry ES H} (handler : publisher_handler → H).

Definition start (p2pTopicInUse : res ErrorInfo string)
    (p : ccsmpBackedPublisher) (es : ES) : outcome ccsmpBackedPublisher unit * ES :=
  if decide (isRunning p = 0) then
    let p := set_running 1 p in
    let (canSendEventID, es) := add_handler SolClientEventCanSend (handler OnCanSend) es in
    let (ackID, es) :=
      add_handler SolClientEventAcknowledgement (handler (OnAck true)) es in
    let (rejectedID, es) :=
      add_handler SolClientEventRejected (handler (OnAck false)) es in
    let p := set_eventIDs (canSendEventID, ackID, rejectedID) p in
    ((let* _ := startRequestor p2pTopicInUse in ret tt) p, es)
  else (Done tt p, es).

(** The first half of [terminate]: whether the caller is the one that terminates. *)
Definition terminate_begin : PM bool :=
  let* p := get in
  if decide (isRunning p = 1) then
    modify (set_running 2) ;;;
    let* _ := zoom canSend set_canSend (chan_try_send false) in
    let* closed := gets termination in
    if (closed : bool) then panic CloseOfClosedChannel
    else modify (set_termination true) ;;; ret true
  else ret false.

(** The second half, after the publish loop has ended. *)
Inductive terminate_end (p : ccsmpBackedPublisher) (es : ES)
    : outcome ccsmpBackedPublisher unit → ES → Prop :=
| terminate_end_intro es1 es2 es3 order :
    remove_handler (eventIDs p).1.1 es es1 →
    remove_handler (eventIDs p).1.2 es1 es2 →
    remove_handler (eventIDs p).2 es2 es3 →
    range_order (publisherRxReplyMap p) order →
    terminate_end p es (terminateRequestor order p) es3.
End lifecycle.

(** * Properties *)

(** The acknowledgement of a message reaches the handler of the publisher that sent it,
    with the identifier its generator gave out, and nobody else, at any later time; it reaches
    no one once that handler is removed; and the generator counts up from the last identifier. *)
Theorem acknowledgement_routing pub n tag (p p' : ccsmpBackedPublisher) :
  inU 64 pub → next_tag pub p = (n, tag, p') →
  (∀ q persisted err, onAcknowledgement (Some tag) persisted err q =
     (λ h, (h, (n, persisted, err))) <$> acknowledgementMap q !! pub) ∧
  (∀ q persisted err,
     onAcknowledgement (Some tag) persisted err (RemoveAcknowledgementHandler pub q) = None) ∧
  acknowledgementMap p' = acknowledgementMap p ∧
  messageIDs p' = <[pub := n]> (messageIDs p) ∧
  (0 ≤ default 0 (messageIDs p !! pub) < 2 ^ 64 - 1 →
     n = default 0 (messageIDs p !! pub) + 1).
Proof.
  intros Hpub [= <- <- <-].
  set (n := wrapU 64 (default 0 (messageIDs p !! pub) + 1)).
  assert (inU 64 n) as Hn by (by apply wrapU_range).
  destruct (correlation_tag_roundtrip pub n Hpub Hn) as (Hrt & _).
  split_and!; [..|done|done|].
  - intros q persisted err. unfold onAcknowledgement. rewrite Hrt.
    by destruct (acknowledgementMap q !! pub).
  - intros q persisted err. unfold onAcknowledgement. rewrite Hrt. simpl.
    by rewrite lookup_delete_eq.
  - intros Hr. apply wrapU_id. unfold inU. lia.
Qed.

Lemma zoom_done {T} (m : M rwmutex T) (p : ccsmpBackedPublisher) a l :
  m (rxLock p) = Done a l → zoom rxLock set_rxLock m p = Done a (set_rxLock l p).
Proof. unfold zoom. by intros ->. Qed.

(** A string without its last character. *)
Lemma GetP2PTopicPrefix_last s c : GetP2PTopicPrefix (s +:+ String c EmptyString) = s.
Proof.
  unfold GetP2PTopicPrefix. rewrite string_length_app. simpl.
  replace (String.length s + 1 - 1)%nat with (String.length s) by lia. apply substring_app.
Qed.

(** C18: a requester's reply topic leads back to it.  On a session whose inbox topic ends in a
    level, a new requester gets a topic under which replies reach its handler; removing the handler
    by that topic unsubscribes the same topic and dispatch pointer and restores the table of
    handlers; both leave the lock free. *)
Theorem reply_topic_roundtrip inbox rh (p : ccsmpBackedPublisher) :
  rxLock p = rw_free →
  replyToPrefix p = GetP2PTopicPrefix (inbox +:+ "/#") →
  inU 64 (replyDispatchID p + 1) → 0 ≤ replyDispatchID p →
  publisherRxReplyMap p !! (replyDispatchID p + 1) = None →
  ∃ topic p1 p2,
    AddRequestorReplyHandler rh None p = Done (Ok (topic, replyDispatchID p + 1)) p1 ∧
    onReplyMessage (replyDispatchID p + 1) p1 = Done (Some rh) p1 ∧
    RemoveRequestorReplyHandler topic None p1 = Done None p2 ∧
    publisherRxReplyMap p2 = publisherRxReplyMap p ∧
    rxLock p1 = rw_free ∧ rxLock p2 = rw_free ∧
    session_calls p2 = session_calls p ++
      [SubscribeReplyTopic topic (replyDispatchID p + 1);
       UnsubscribeReplyTopic topic (replyDispatchID p + 1)].
Proof.
  intros Hl Hpre Hroom Hpos Hfresh. set (pub := replyDispatchID p + 1) in *.
  assert (replyToPrefix p = inbox +:+ "/") as Hpre'.
  { rewrite Hpre. rewrite <-(GetP2PTopicPrefix_last (inbox +:+ "/") "#"%char). f_equal.
    by rewrite string_app_assoc. }
  eexists _, _, _. split_and!.
  - unfold AddRequestorReplyHandler, bind, get, modify, on_rxLock.
    rewrite (zoom_done Lock _ tt (mkRW 0 true)) by (simpl; by rewrite Hl).
    rewrite (zoom_done Unlock _ tt rw_free) by done.
    unfold ret. rewrite (wrapU_id 64 (replyDispatchID p + 1)) by done. reflexivity.
  - unfold onReplyMessage, bind, get, on_rxLock.
    rewrite (zoom_done RLock _ tt (mkRW 1 false)) by done. simpl. unfold NewSessionReplyDispatch.
    rewrite lookup_insert_eq. rewrite (zoom_done RUnlock _ tt rw_free) by done. reflexivity.
  - unfold RemoveRequestorReplyHandler. fold pub.
    assert (last (split "/" (replyToPrefix p +:+ sprintf_016X pub)) = Some (sprintf_016X pub))
      as ->.
    { rewrite Hpre'. assert ((inbox +:+ "/") +:+ sprintf_016X pub =
        inbox +:+ String "/" (sprintf_016X pub)) as ->.
      { by rewrite string_app_assoc. }
      apply split_last, sprintf_016X_no_slash. unfold pub. lia. }
    cbn [from_option id]. rewrite ParseUint_016X by done.
    unfold bind, modify, on_rxLock.
    rewrite (zoom_done Lock _ tt (mkRW 0 true)) by done.
    rewrite (zoom_done Unlock _ tt rw_free) by done. reflexivity.
  - simpl. unfold NewSessionReplyDispatch. rewrite delete_insert_id; done.
  - done.
  - done.
  - simpl. by rewrite <-app_assoc.
Qed.

(** A reply for a dispatch pointer nobody has leaves the lock of the reply handlers held
    for reading for ever: every later registration, and the termination of the service, blocks. *)
Theorem onReplyMessage_leaks_lock userP (p : ccsmpBackedPublisher) :
  rxLock p = rw_free → publisherRxReplyMap p !! userP = None →
  ∃ p', onReplyMessage userP p = Done None p' ∧ rxLock p' = mkRW 1 false ∧
    (∀ rh err, ∃ q, AddRequestorReplyHandler rh err p' = Blocked q) ∧
    (∀ order, ∃ q, terminateRequestor order p' = Blocked q).
Proof.
  intros Hl Hm. eexists. split_and!.
  - unfold onReplyMessage, bind, get, on_rxLock.
    rewrite (zoom_done RLock _ tt (mkRW 1 false)) by (by rewrite Hl). simpl. rewrite Hm.
    reflexivity.
  - done.
  - intros rh err. eexists.
    unfold AddRequestorReplyHandler, bind, get, modify, on_rxLock, zoom, Lock.
    cbn -[wrapU sprintf_016X]. reflexivity.
  - intros order. eexists. unfold terminateRequestor, bind, modify, on_rxLock, zoom, Lock.
    cbn. reflexivity.
Qed.

(** The termination of the requesters empties the table and unsubscribes every topic of it. *)
Lemma terminateRequestor_ok p order :
  rxLock p = rw_free → range_order (publisherRxReplyMap p) order →
  ∃ p', terminateRequestor order p = Done tt p' ∧ publisherRxReplyMap p' = ∅ ∧
    rxLock p' = rw_free.
Proof.
  intros Hl Ho. unfold terminateRequestor, bind, modify, on_rxLock.
  rewrite (zoom_done Lock _ tt (mkRW 0 true)) by (simpl; by rewrite Hl).
  rewrite (zoom_done Unlock _ tt rw_free) by done.
  set (q := set_rxLock rw_free _).
  assert (publisherRxReplyMap q = ∅ ∧ rxLock q = rw_free) as [Hq1 Hq2]
    by (split; [by apply delete_all|done]).
  clearbody q. clear -Hq1 Hq2. revert q Hq1 Hq2.
  induction order as [|e order IH]; intros q Hq1 Hq2; [by exists q|]. simpl. by apply IH.
Qed.

(** Starting the service registers its three handlers, and its termination removes them
    and nothing else, whatever the event service is; starting or terminating again does nothing. *)
Theorem start_terminate_registry {ES H : Type} `{HandlerRegistry ES H}
    (handler : publisher_handler → H) (inbox : res ErrorInfo string)
    (p p1 : ccsmpBackedPublisher) (es es1 es2 : ES) (o : outcome ccsmpBackedPublisher unit) :
  registry_ok 3 es → isRunning p = 0 → rxLock p = rw_free →
  start handler inbox p es = (Done tt p1, es1) →
  terminate_end p1 es1 o es2 →
  isRunning p1 = 1 ∧
  (∃ id, registered es1 id SolClientEventCanSend (handler OnCanSend)) ∧
  (∀ b : bool, ∃ id, registered es1 id (if b then SolClientEventAcknowledgement
                                  else SolClientEventRejected) (handler (OnAck b))) ∧
  (∀ id ev h, registered es2 id ev h ↔ registered es id ev h) ∧
  start handler inbox p1 es1 = (Done tt p1, es1) ∧
  ∃ p2, o = Done tt p2 ∧ publisherRxReplyMap p2 = ∅ ∧ rxLock p2 = rw_free.
Proof.
  intros Hes Hrun Hl Hstart Hend. unfold start in Hstart at 1. rewrite decide_True in Hstart by done.
  destruct (add_handler SolClientEventCanSend _ es) as [c esa] eqn:Ha.
  destruct (add_handler SolClientEventAcknowledgement _ esa) as [a esb] eqn:Hb.
  destruct (add_handler SolClientEventRejected _ esb) as [r esc] eqn:Hc.
  destruct (add_handler_ok _ _ _ _ _ _ Hes Ha) as (Hoka & Hfa & Hra).
  destruct (add_handler_ok _ _ _ _ _ _ Hoka Hb) as (Hokb & Hfb & Hrb).
  destruct (add_handler_ok _ _ _ _ _ _ Hokb Hc) as (Hokc & Hfc & Hrc).
  injection Hstart as Hp <-.
  assert (isRunning p1 = 1 ∧ eventIDs p1 = (c, a, r)) as [Hrun1 Hids].
  { unfold startRequestor, bind, modify, ret in Hp. destruct inbox; by injection Hp as <-. }
  inversion Hend as [e1 e2 e3 order H1 H2 H3 Ho]; subst. rewrite Hids in H1, H2, H3. simpl in *.
  destruct (remove_handler_ok _ _ _ _ Hokc H1) as (Hok1 & Hr1).
  destruct (remove_handler_ok _ _ _ _ Hok1 H2) as (Hok2 & Hr2).
  destruct (remove_handler_ok _ _ _ _ Hok2 H3) as (Hok3 & Hr3).
  split_and!; [done|..].
  - exists c. rewrite Hrc, Hrb, Hra. naive_solver.
  - intros []; [exists a; rewrite Hrc, Hrb; naive_solver|exists r; rewrite Hrc; naive_solver].
  - intros id ev h. rewrite Hr3, Hr2, Hr1, Hrc, Hrb, Hra. split; [naive_solver|].
    intros Hreg. split_and!; [by do 3 left|..]; intros ->.
    + by apply (Hfa ev h).
    + apply (Hfb ev h). rewrite Hra. by left.
    + apply (Hfc ev h). rewrite Hrb, Hra. by do 2 left.
  - unfold start. by rewrite Hrun1.
  - apply terminateRequestor_ok; [|done]. rewrite <-Hl.
    unfold startRequestor, bind, modify, ret in Hp. destruct inbox; by injection Hp as <-.
Qed.
End publisher.
Arguments ccsmpBackedPublisher A R : clear implicits.

(** * Examples *)

Lemma correlation_tag_roundtrip_witness :
  fromCorrelationTag (toCorrelationTag 0x0102 (2 ^ 64 - 1)) = (0x0102, 2 ^ 64 - 1, true).
Proof.
  apply (correlation_tag_roundtrip 0x0102 (2 ^ 64 - 1)); unfold inU; lia.
Defined.

(** A publisher service with one publisher, whose handler is 11. *)
Definition example_publisher : ccsmpBackedPublisher Z Z :=
  (AddAcknowledgementHandler 11 newCcsmpPublisher).2.

Lemma acknowledgement_routing_witness :
  onAcknowledgement (Some (next_tag 1 example_publisher).1.2) true None example_publisher =
    Some (11, (1, true, None)).
Proof.
  destruct (acknowledgement_routing 1 1 (next_tag 1 example_publisher).1.2 example_publisher
    (next_tag 1 example_publisher).2) as (H & _).
  - unfold inU. lia.
  - vm_compute. reflexivity.
  - rewrite H. vm_compute. reflexivity.
Defined.

(** A started service on a session with an inbox topic. *)
Definition inbox_publisher : ccsmpBackedPublisher Z Z :=
  set_prefix (GetP2PTopicPrefix "#P2P/v:broker/x/#") newCcsmpPublisher.

Lemma reply_topic_roundtrip_witness :
  ∃ topic p1, AddRequestorReplyHandler 9 None inbox_publisher = Done (Ok (topic, 1)) p1 ∧
    onReplyMessage 1 p1 = Done (Some 9) p1 ∧
    topic = "#P2P/v:broker/x/0000000000000001"%string.
Proof.
  destruct (reply_topic_roundtrip "#P2P/v:broker/x" 9 inbox_publisher)
    as (topic & p1 & p2 & Ha & Hr & _).
  - reflexivity.
  - reflexivity.
  - unfold inU. simpl. lia.
  - simpl. lia.
  - reflexivity.
  - exists topic, p1. split_and!; [exact Ha|exact Hr|].
    vm_compute in Ha. injection Ha as <- _. reflexivity.
Defined.

Lemma onReplyMessage_leaks_lock_witness :
  ∃ p', onReplyMessage 5 inbox_publisher = Done None p' ∧
    ∃ q, AddRequestorReplyHandler 9 None p' = Blocked q.
Proof.
  destruct (onReplyMessage_leaks_lock 5 inbox_publisher eq_refl eq_refl)
    as (p' & H1 & _ & H2 & _).
  exists p'. split; [exact H1|apply H2].
Defined.

Definition started_service :
  outcome (ccsmpBackedPublisher Z Z) unit * ccsmpBackedEvents publisher_handler :=
  start id (Ok "#P2P/v:broker/x/#"%string) newCcsmpPublisher newCcsmpEvents.

Lemma start_terminate_registry_witness :
  ∃ o es2, terminate_end (final_state started_service.1) started_service.2 o es2 ∧
    isRunning (final_state started_service.1) = 1 ∧
    ∀ id ev h, ¬ registered es2 id ev h.
Proof.
  set (p1 := final_state started_service.1). set (es1 := started_service.2).
  assert (∃ o es2, terminate_end p1 es1 o es2) as (o & es2 & Hend).
  { eexists _, _. eapply (terminate_end_intro p1 es1 _ _ _ (map_to_list (publisherRxReplyMap p1)));
      [by eexists; split; [apply range_order_exists|]..|apply range_order_exists]. }
  exists o, es2. split; [exact Hend|].
  destruct (start_terminate_registry id (Ok "#P2P/v:broker/x/#"%string) newCcsmpPublisher p1
    newCcsmpEvents es1 es2 o) as (H1 & _ & _ & H2 & _).
  - split; [simpl; lia|]. split; intros; by unfold events_registered in *.
  - reflexivity.
  - reflexivity.
  - vm_compute. reflexivity.
  - exact Hend.
  - split; [exact H1|]. intros i ev h Hr. apply H2 in Hr. discriminate Hr.
Defined.
