(* ===== verification/RequestReplyPublisher.v ===== *)
(** The request-reply publisher: internal/impl/publisher/request_reply_message_publisher_impl.go.

    The code is that of the direct publisher (DirectPublisher) around a table of requests.  A
    request gets an entry with two channels: on [sentChan] it is told whether its message was
    sent, on [result] the thread of the C library hands it its reply.  The goroutine of the
    request waits on the two, answers the application and takes its entry out of the table.
    As in PersistentPublisher the state contains one of DirectPublisher, and what the two Go
    files have in common is the same program, run on that part.  Entries are pointers in Go:
    here they are positions in a list that only grows. *)

From Stdlib Require Import ZArith Lia.
From stdpp Require Import base list gmap relations strings.
From S2P Require Import Prelude GoStrconv GoEffects GoConc Errors Lifecycle Validation.
From S2P Require Import DirectPublisher CorePublisher.

(** * Errors *)

Definition cannot_receive_error : go_error :=
  NewError IllegalStateError "publisher has been terminated, no reply messages to receive" None.
Definition reply_timeout_error : go_error :=
  NewError TimeoutError "timed out waiting for reply message for request publish" None.
Definition missing_handler_error : go_error :=
  NewError IllegalArgumentError
    "got nil ReplyMessageHandler, ReplyMessageHandler is required for Publish" None.
(** The errors of [AwaitWritable]. *)
Definition can_send_interrupted : go_error := PlainError "wait for can send interrupted".
Definition wait_terminated : go_error := PlainError "received terminate signal, stopping wait".

Section request_reply.
(** Outbound messages with their destination, what the application attaches to a request, and
    replies of the C library. *)
Context {M U R : Type} `{!EqDecision M} `{!EqDecision U} `{!EqDecision R}.

(** * State *)

(** A buffered message with its correlation identifier. *)
Record request : Type := mkRequest { message : M; correlationID : string }.

#[export] Instance request_eq_dec : EqDecision request.
Proof using EqDecision0. solve_decision. Defined.

Abbreviation publisher := (@DirectPublisher.publisher request).

(** How far the goroutine of a request is: it waits, it has taken a reply off its channel, it has
    answered.  What became of a reply that left the channel: it was given to the application,
    disposed of, or dropped and never freed. *)
Inductive stage : Type := Waiting | Took (r : R) | Answered.
Inductive fate : Type := Given | Disposed | Leaked.

#[export] Instance stage_eq_dec : EqDecision stage.
Proof using EqDecision2. solve_decision. Defined.
#[export] Instance fate_eq_dec : EqDecision fate.
Proof. solve_decision. Defined.

(** The last three fields are read by no program: the key of the entry, where its goroutine
    is, and what became of its replies. *)
Record correlationEntryImpl : Type := mkEntry {
  userContext : U;
  handler : bool;
  timeout : Z;
  received : bool;
  result : chan R;
  sentChan : chan (option go_error);
  key : string;
  at_stage : stage;
  gone : list (R * fate);
}.

(** [replyHandler]: the handler of this publisher is registered with the service;
    [nextMessageID] is the counter of the generator of correlation identifiers;
    [entries] are the entries made so far, to which the table points.  The last three
    fields are read by no program: whether Terminate has closed the channels of the entries,
    the replies that arrived, each with the entry that took it, and the answers given. *)
Record requestReplyPublisher : Type := mkRequestReply {
  base : publisher;
  replyHandler : bool;
  nextMessageID : Z;
  requestCorrelationMap : gmap string nat;
  rxLock : bool;
  correlationComplete : bool;
  requestCorrelateComplete : bool;
  entries : list correlationEntryImpl;
  swept : bool;
  replies : list (string * R * option nat);
  answers : list (nat * option R * option go_error);
}.

Definition set_base (b : publisher) (s : requestReplyPublisher) : requestReplyPublisher :=
  mkRequestReply b (replyHandler s) (nextMessageID s) (requestCorrelationMap s) (rxLock s)
    (correlationComplete s) (requestCorrelateComplete s) (entries s) (swept s) (replies s) (answers s).

Definition set_replyHandler (b : bool) (s : requestReplyPublisher) : requestReplyPublisher :=
  mkRequestReply (base s) b (nextMessageID s) (requestCorrelationMap s) (rxLock s)
    (correlationComplete s) (requestCorrelateComplete s) (entries s) (swept s) (replies s) (answers s).

(** The table, with the counter of identifiers and the entries. *)
Definition set_table (n : Z) (m : gmap string nat) (l : list correlationEntryImpl)
    (s : requestReplyPublisher) : requestReplyPublisher :=
  mkRequestReply (base s) (replyHandler s) n m (rxLock s)
    (correlationComplete s) (requestCorrelateComplete s) l (swept s) (replies s) (answers s).

Definition set_rxLock (b : bool) (s : requestReplyPublisher) : requestReplyPublisher :=
  mkRequestReply (base s) (replyHandler s) (nextMessageID s) (requestCorrelationMap s) b
    (correlationComplete s) (requestCorrelateComplete s) (entries s) (swept s) (replies s) (answers s).

Definition set_correlationComplete (b : bool) (s : requestReplyPublisher) : requestReplyPublisher :=
  mkRequestReply (base s) (replyHandler s) (nextMessageID s) (requestCorrelationMap s) (rxLock s)
    b (requestCorrelateComplete s) (entries s) (swept s) (replies s) (answers s).

Definition set_requestCorrelateComplete (b : bool) (s : requestReplyPublisher) : requestReplyPublisher :=
  mkRequestReply (base s) (replyHandler s) (nextMessageID s) (requestCorrelationMap s) (rxLock s)
    (correlationComplete s) b (entries s) (swept s) (replies s) (answers s).

Definition set_swept (s : requestReplyPublisher) : requestReplyPublisher :=
  mkRequestReply (base s) (replyHandler s) (nextMessageID s) (requestCorrelationMap s) (rxLock s)
    (correlationComplete s) (requestCorrelateComplete s) (entries s) true (replies s) (answers s).

Definition log_reply (id : string) (r : R) (taker : option nat) (s : requestReplyPublisher)
    : requestReplyPublisher :=
  mkRequestReply (base s) (replyHandler s) (nextMessageID s) (requestCorrelationMap s) (rxLock s)
    (correlationComplete s) (requestCorrelateComplete s) (entries s) (swept s)
    (replies s ++ [(id, r, taker)]) (answers s).

Definition log_answer (i : nat) (m : option R) (err : option go_error) (s : requestReplyPublisher)
    : requestReplyPublisher :=
  mkRequestReply (base s) (replyHandler s) (nextMessageID s) (requestCorrelationMap s) (rxLock s)
    (correlationComplete s) (requestCorrelateComplete s) (entries s) (swept s) (replies s)
    (answers s ++ [(i, m, err)]).

Definition set_map (m : gmap string nat) (s : requestReplyPublisher) : requestReplyPublisher :=
  set_table (nextMessageID s) m (entries s) s.
Definition set_entries (l : list correlationEntryImpl) (s : requestReplyPublisher)
    : requestReplyPublisher := set_table (nextMessageID s) (requestCorrelationMap s) l s.
Definition put_entry (i : nat) (e : correlationEntryImpl) (s : requestReplyPublisher)
    : requestReplyPublisher := set_entries (<[i := e]> (entries s)) s.

Definition set_received (b : bool) (e : correlationEntryImpl) : correlationEntryImpl :=
  mkEntry (userContext e) (handler e) (timeout e) b (result e) (sentChan e) (key e) (at_stage e) (gone e).
Definition set_result (c : chan R) (e : correlationEntryImpl) : correlationEntryImpl :=
  mkEntry (userContext e) (handler e) (timeout e) (received e) c (sentChan e) (key e) (at_stage e) (gone e).
Definition set_sentChan (c : chan (option go_error)) (e : correlationEntryImpl) : correlationEntryImpl :=
  mkEntry (userContext e) (handler e) (timeout e) (received e) (result e) c (key e) (at_stage e) (gone e).
Definition to_stage (st : stage) (e : correlationEntryImpl) : correlationEntryImpl :=
  mkEntry (userContext e) (handler e) (timeout e) (received e) (result e) (sentChan e) (key e) st (gone e).
Definition note_gone (l : list (R * fate)) (e : correlationEntryImpl) : correlationEntryImpl :=
  mkEntry (userContext e) (handler e) (timeout e) (received e) (result e) (sentChan e) (key e)
    (at_stage e) (gone e ++ l).

Abbreviation rr := (prog requestReplyPublisher).

(** The part of the publisher that is as in the direct publisher. *)
Definition on_base {A} (p : prog publisher A) : rr A := lift base set_base p.

Definition construct (up : bool) (config : backpressureConfiguration) (bufferSize : nat)
    (readiness : bool) (answers : list (option ErrorInfo)) : requestReplyPublisher :=
  mkRequestReply (DirectPublisher.construct up config bufferSize readiness false answers)
    false 0 ∅ false false false [] false [] [].

(** * The table of requests *)

Definition rxLock_Lock : rr unit :=
  action (λ s, if rxLock s then ABlock else AOk tt (set_rxLock true s)).
Definition rxLock_Unlock : rr unit :=
  action (λ s, if rxLock s then AOk tt (set_rxLock false s) else APanic UnlockOfUnlocked).

(** An operation on the entry at a position. *)
Definition on_entry {V} (i : nat) (f : correlationEntryImpl → act correlationEntryImpl V)
    (s : requestReplyPublisher) : act requestReplyPublisher V :=
  match entries s !! i with
  | Some e =>
      match f e with
      | AOk v e' => AOk v (put_entry i e' s)
      | ABlock => ABlock
      | APanic p => APanic p
      end
  | None => APanic NilDereference
  end.

(** [construct] of an entry. *)
Definition new_entry (userContext : U) (timeout : Z) (handler : bool) (id : string)
    : correlationEntryImpl :=
  mkEntry userContext handler timeout false (make_chan 1) (make_chan 1) id Waiting [].

Definition createReplyCorrelation (userContext : U) (timeout : Z) (handler : bool)
    : rr (string * nat) :=
  rxLock_Lock ;;;;
  let! c := action (λ s,
    let (n, id) := next_correlation (nextMessageID s) in
    AOk (id, length (entries s))
      (set_table n (<[id := length (entries s)]> (requestCorrelationMap s))
         (entries s ++ [new_entry userContext timeout handler id]) s)) in
  rxLock_Unlock ;;;; PRet c.

(** [select { case <-c: default: close(c) }]: the channel afterwards, and what was received. *)
Definition drain_or_close {A} (c : chan A) : chan A * list A :=
  match chan_buf c with
  | x :: xs => (mkChan (chan_cap c) xs (chan_closed c), [x])
  | [] => (mkChan (chan_cap c) [] true, [])
  end.

(** The two channels of an entry that leaves the table. *)
Definition close_channels (e : correlationEntryImpl) : correlationEntryImpl :=
  let (c, lost) := drain_or_close (result e) in
  set_sentChan (drain_or_close (sentChan e)).1
    (note_gone ((., Leaked) <$> lost) (set_result c e)).

(** The end of the requests is announced once it has been asked for and the table is empty. *)
Definition check_drained (s : requestReplyPublisher) : requestReplyPublisher :=
  if requestCorrelateComplete s && (size (requestCorrelationMap s) =? 0)
  then (if correlationComplete s then s else set_correlationComplete true s) else s.

(** The body of [closeReplyCorrelation], one action because it is under the lock: the table and
    the ends of the channels change under it only, and nobody but the caller receives on the
    channels of its entry. *)
Definition forget (id : string) (s : requestReplyPublisher) : act requestReplyPublisher unit :=
  match requestCorrelationMap s !! id with
  | None => AOk tt s
  | Some i =>
      match on_entry i (λ e, AOk tt (close_channels e)) (set_map (delete id (requestCorrelationMap s)) s) with
      | AOk _ s' => AOk tt (check_drained s')
      | a => a
      end
  end.

Definition closeReplyCorrelation (id : string) : rr unit :=
  rxLock_Lock ;;;; action (forget id) ;;;; rxLock_Unlock.

(** The channel has room for one error; the send is under the lock. *)
Definition signalRequestCorrelationSent (id : string) (sentErr : option go_error) : rr unit :=
  rxLock_Lock ;;;;
  action (λ s,
    match requestCorrelationMap s !! id with
    | None => AOk tt s
    | Some i => on_entry i (λ e,
        match chan_send sentErr (sentChan e) with
        | Done _ c => AOk tt (set_sentChan c e)
        | Panicked p _ => APanic p
        | Blocked _ => ABlock
        end) s
    end) ;;;;
  rxLock_Unlock.

(** [handleReplyMessage]: whether the reply was taken; the sender frees it otherwise.  A send on
    a closed channel panics, which is recovered. *)
Definition handleReplyMessage (r : R) (id : string) : rr bool :=
  rxLock_Lock ;;;;
  let! ret := action (λ s,
    match requestCorrelationMap s !! id with
    | None => AOk false (log_reply id r None s)
    | Some i =>
        match entries s !! i with
        | None => APanic NilDereference
        | Some corEntry =>
            if received corEntry then AOk false (log_reply id r None s)
            else
              match chan_send r (result corEntry) with
              | Done _ c => AOk true (log_reply id r (Some i)
                              (put_entry i (set_received true (set_result c corEntry)) s))
              | Panicked _ _ => AOk false (log_reply id r None
                                  (put_entry i (set_received true corEntry) s))
              | Blocked _ => ABlock
              end
        end
    end) in
  rxLock_Unlock ;;;; PRet ret.

(** The replies of the session, one after the other, as the context thread brings them; a
    reply reaches the handler while it is registered. *)
Fixpoint onReplies (l : list (string * R)) : rr (option go_error) :=
  match l with
  | [] => PRet None
  | (id, r) :: l =>
      let! handled := load replyHandler in
      (if (handled : bool) then handleReplyMessage r id ;;;; PRet tt
       else update (log_reply id r None)) ;;;;
      onReplies l
  end.

(** * The goroutine of a request *)

(** [case <-publisher.correlationComplete]. *)
Definition on_complete {V} (v : V) (s : requestReplyPublisher) : act requestReplyPublisher V :=
  if correlationComplete s then AOk v s else ABlock.

(** The wait for the message to be sent. *)
Definition await_sent (i : nat) : rr (option go_error) :=
  select [ on_entry i (λ e,
             match chan_recv (sentChan e) with
             | Done (Some sentErr) c => AOk sentErr (set_sentChan c e)
             | Done None _ => AOk (Some cannot_receive_error) e
             | Panicked p _ => APanic p
             | Blocked _ => ABlock
             end);
           on_complete (Some cannot_receive_error) ].

(** The wait for the reply; the timer may fire at any time, and there is none for a negative
    timeout. *)
Definition await_reply (i : nat) (timeout : Z) : rr (res go_error R) :=
  select ([ on_entry i (λ e,
              match chan_recv (result e) with
              | Done (Some msgP) c => AOk (Ok msgP) (to_stage (Took msgP) (set_result c e))
              | Done None _ => AOk (Err cannot_receive_error) e
              | Panicked p _ => APanic p
              | Blocked _ => ABlock
              end);
            on_complete (Err cannot_receive_error) ] ++
          (if (0 <=? timeout)%Z then [ (λ s, AOk (Err reply_timeout_error) s) ] else [])).

(** A reply is kept when the request is still in the table. *)
Definition check_tracked (i : nat) (id : string) (msgP : R) : rr (res go_error R) :=
  rxLock_Lock ;;;;
  let! tracked := load (λ s, bool_decide (is_Some (requestCorrelationMap s !! id))) in
  (if (tracked : bool) then PRet tt
   else action (on_entry i (λ e, AOk tt (to_stage Waiting (note_gone [(msgP, Disposed)] e))))) ;;;;
  rxLock_Unlock ;;;;
  PRet (if (tracked : bool) then Ok msgP else Err cannot_receive_error).

(** [DispatchOutcome]: the handler of the request is called, or the outcome is what the caller
    of PublishAwaitResponse gets. *)
Definition dispatch (i : nat) (outcome : res go_error R) : rr unit :=
  action (λ s,
    match on_entry i (λ e, AOk tt
            (match outcome with
             | Ok msgP => to_stage Answered (note_gone [(msgP, Given)] e)
             | Err _ => to_stage Answered e
             end)) s with
    | AOk _ s' => AOk tt (match outcome with
                          | Ok msgP => log_answer i (Some msgP) None s'
                          | Err err => log_answer i None (Some err) s'
                          end)
    | a => a
    end).

(** The closure that [createReplyCorrelation] returns. *)
Definition replyOutcome (id : string) (i : nat) (timeout : Z) : rr (res go_error R) :=
  let! sentErr := await_sent i in
  let! outcome :=
    match sentErr with
    | Some err => PRet (Err err)
    | None =>
        let! received := await_reply i timeout in
        match received with
        | Err err => PRet (Err err)
        | Ok msgP => check_tracked i id msgP
        end
    end in
  dispatch i outcome ;;;;
  closeReplyCorrelation id ;;;;
  PRet outcome.

(** * Publishing *)

Definition sent_error (info : ErrorInfo) : go_error :=
  ToNativeError info "encountered error while publishing message: ".

(** The half of [publish] without a buffer. *)
Definition publish_direct (pub : request) : rr (option go_error) :=
  let! errorInfo := on_base (session_Publish pub (λ _ h, runner_at h)) in
  match errorInfo with
  | Some info =>
      signalRequestCorrelationSent (correlationID pub) (Some (sent_error info)) ;;;;
      PRet (if is_would_block errorInfo then Some overflow_error else Some (ToNativeError info ""))
  | None => signalRequestCorrelationSent (correlationID pub) None ;;;; PRet None
  end.

(** [setDestination], [setReplyTo], [setCorrelationID]: the errors of preparing the message.  The
    result is what the closure of the request is made of. *)
Definition publish (setDestination setReplyTo setCorrelationID : option go_error) (msg : M)
    (handler : bool) (timeout : Z) (userContext : U) : rr (res go_error (string * nat)) :=
  match setDestination with
  | Some err => PRet (Err err)
  | None =>
  let! err := on_base checkStartedStateForPublish in
  match err, setReplyTo with
  | Some err, _ => PRet (Err err)
  | None, Some err => PRet (Err err)
  | None, None =>
  let! c := createReplyCorrelation userContext timeout handler in
  let! ret :=
    match setCorrelationID with
    | Some err => PRet (Some err)
    | None =>
        let! direct := on_base (load is_direct) in
        if (direct : bool) then publish_direct (mkRequest msg (fst c))
        else on_base (publish_buffered (mkRequest msg (fst c)))
    end in
  match ret with
  | Some err => closeReplyCorrelation (fst c) ;;;; PRet (Err err)
  | None => PRet (Ok c)
  end end end.

Definition publishAsync (e1 e2 e3 : option go_error) (msg : M) (handler : bool) (timeout : Z)
    (userContext : U) : rr (res go_error (string * nat)) :=
  if handler then publish e1 e2 e3 msg handler timeout userContext
  else PRet (Err missing_handler_error).

(** [go outcomeHandler()]: the goroutine of the call goes on as the one it starts, since the
    caller shares nothing with it. *)
Definition go_outcome (timeout : Z) (published : res go_error (string * nat)) : rr (option go_error) :=
  match published with
  | Err err => PRet (Some err)
  | Ok (id, i) => replyOutcome id i timeout ;;;; PRet None
  end.

(** The message of the builder, or its error. *)
Definition PublishBytes (built : M + go_error) (e1 e2 e3 : option go_error) (handler : bool)
    (timeout : Z) (userContext : U) : rr (option go_error) :=
  match built with
  | inr err => PRet (Some err)
  | inl msg =>
      let! published := publishAsync e1 e2 e3 msg handler timeout userContext in
      go_outcome timeout published
  end.
Definition PublishString (built : M + go_error) (e1 e2 e3 : option go_error) (handler : bool)
    (timeout : Z) (userContext : U) : rr (option go_error) :=
  match built with
  | inr err => PRet (Some err)
  | inl msg =>
      let! published := publishAsync e1 e2 e3 msg handler timeout userContext in
      go_outcome timeout published
  end.

(** The message of the application, or the name of a type that is none of ours; the errors of
    duplicating it and of setting its properties. *)
Definition prepare (msg : M + string) (duplicate setProperties : option go_error) : M + go_error :=
  match msg, duplicate, setProperties with
  | inr typeName, _, _ => inr (invalid_message_error typeName)
  | inl _, Some err, _ => inr err
  | inl _, None, Some err => inr err
  | inl m, None, None => inl m
  end.

Definition Publish (msg : M + string) (duplicate setProperties e1 e2 e3 : option go_error)
    (handler : bool) (timeout : Z) (userContext : U) : rr (option go_error) :=
  let! err := on_base checkStartedStateForPublish in
  match err, prepare msg duplicate setProperties with
  | Some err, _ => PRet (Some err)
  | None, inr err => PRet (Some err)
  | None, inl msgDup =>
      let! published := publishAsync e1 e2 e3 msgDup handler timeout userContext in
      go_outcome timeout published
  end.

(** Without a handler and a context of the application; the reply is in [answers]. *)
Definition PublishAwaitResponse (msg : M + string) (duplicate setProperties e1 e2 e3 : option go_error)
    (timeout : Z) (noContext : U) : rr (option go_error) :=
  let! err := on_base checkStartedStateForPublish in
  match err, prepare msg duplicate setProperties with
  | Some err, _ => PRet (Some err)
  | None, inr err => PRet (Some err)
  | None, inl msgDup =>
      let! published := publish e1 e2 e3 msgDup false timeout noContext in
      match published with
      | Err err => PRet (Some err)
      | Ok (id, i) =>
          let! outcome := replyOutcome id i timeout in
          PRet (match outcome with Ok _ => None | Err err => Some err end)
      end
  end.

Definition IsReady : rr bool := on_base DirectPublisher.IsReady.
Definition notifyReady : rr unit := on_base DirectPublisher.notifyReady.
Definition NotifyWhenReady : rr unit := on_base DirectPublisher.NotifyWhenReady.

(** * Tasks *)

(** The end of a task, once the session has answered for its message.  The executor is given a
    function that does nothing when the session refused the message. *)
Definition finish_task (pub : request) (errorInfo : option ErrorInfo) : rr bool :=
  let! isFull := on_base (load (λ s, length (chan_buf (buffer s)) =? chan_cap (buffer s))) in
  let! popped := on_base pop in
  match popped with
  | None => PRet true
  | Some _ =>
      match errorInfo with
      | Some _ => on_base (executor_Submit (PublishFailed pub None)) ;;;; PRet tt
      | None => PRet tt
      end ;;;;
      let! reject := on_base (load is_reject) in
      (if isFull && reject then notifyReady else PRet tt) ;;;; PRet true
  end.

(** The error of an interrupted [AwaitWritable]: either. *)
Definition await_error : rr go_error :=
  select [ (λ s, AOk can_send_interrupted s); (λ s, AOk wait_terminated s) ].

(** [sendTask]; the result tells whether the task has come to its end. *)
Definition sendTask (fuel : nat) (pub : request) : rr bool :=
  let! r := on_base (send_loop fuel pub) in
  match r with
  | StillTrying => PRet false
  | Interrupted =>
      let! err := await_error in
      signalRequestCorrelationSent (correlationID pub) (Some err) ;;;; PRet true
  | Attempted errorInfo =>
      signalRequestCorrelationSent (correlationID pub) (sent_error <$> errorInfo) ;;;;
      finish_task pub errorInfo
  end.

Fixpoint run_tasks (fuel : nat) : rr (option go_error) :=
  match fuel with
  | O => PRet None
  | S fuel =>
      let! task := on_base next_task in
      match task with
      | None => PRet None
      | Some pub =>
          let! ended := sendTask fuel pub in
          if (ended : bool) then run_tasks fuel else PRet None
      end
  end.

(** * Start and termination *)

(** [subscribeError] is the error of [AddRequestorReplyHandler]. *)
Definition start_body (subscribeError : option ErrorInfo) : rr (option go_error) :=
  on_base (update (λ s, set_handlers true (canSendHandler s) s)) ;;;;
  let! direct := on_base (load is_direct) in
  (if (direct : bool) then on_base (update (λ s, set_handlers (downHandler s) true s))
   else on_base (update (set_spawned true))) ;;;;
  match subscribeError with
  | Some errorInfo =>
      PRet (Some (ToNativeError errorInfo
        "encountered error while adding publisher reply message callback: "))
  | None => update (set_replyHandler true) ;;;; PRet None
  end.

Definition Start (subscribeError : option ErrorInfo) : rr (option go_error) :=
  let! r := on_base (starting publisher_texts) in
  if negb (fst r) then PRet (snd r)
  else
    let! err := start_body subscribeError in
    match err with
    | None => on_base (started None) ;;;; PRet None
    | Some _ =>
        on_base (update (set_handlers false false)) ;;;;
        on_base (terminated None) ;;;; on_base (completeStartFuture err) ;;;; PRet err
    end.

(** The range over the closed buffer; the fuel as in DirectPublisher. *)
Fixpoint drain_loop (fuel : nat) (undeliveredCount : nat) (err : option go_error) : rr nat :=
  match fuel with
  | O => action (λ _, APanic IndexOutOfRange)
  | S fuel =>
      let! undelivered := on_base (drain_next undeliveredCount) in
      match undelivered with
      | None => PRet undeliveredCount
      | Some pub =>
          signalRequestCorrelationSent (correlationID pub) err ;;;;
          drain_loop fuel (S undeliveredCount) err
      end
  end.

Definition drainQueue (err : option go_error) : rr nat :=
  on_base close_buffer ;;;;
  let! capacity := on_base (load (λ s, chan_cap (buffer s))) in
  drain_loop (S capacity) 0 err.

(** The wait for the replies that are missing; [graceful] is not read again after it. *)
Definition await_replies (timer : bool) : rr unit :=
  rxLock_Lock ;;;;
  let! outstandingReplies := load (λ s, size (requestCorrelationMap s)) in
  close_signal requestCorrelateComplete set_requestCorrelateComplete ;;;;
  rxLock_Unlock ;;;;
  if 0 <? outstandingReplies then
    if timer
    then select [ on_complete tt; (λ s, AOk tt s) ]
    else await_closed correlationComplete
  else PRet tt.

(** The channels of one entry at the end: [result] is closed whatever it is. *)
Definition sweep_entry (e : correlationEntryImpl) : act correlationEntryImpl unit :=
  match chan_close (result e) with
  | Done _ c => AOk tt (set_result c (set_sentChan (drain_or_close (sentChan e)).1 e))
  | Panicked p _ => APanic p
  | Blocked _ => ABlock
  end.

Fixpoint sweep (l : list nat) (s : requestReplyPublisher) : act requestReplyPublisher unit :=
  match l with
  | [] => AOk tt s
  | i :: l =>
      match on_entry i sweep_entry s with
      | AOk _ s' => sweep l s'
      | a => a
      end
  end.

(** The requests that are left; one action because it is under the lock, and what the goroutines of
    the requests receive meanwhile they might as well receive before or after it. *)
Definition close_correlations : rr unit :=
  rxLock_Lock ;;;;
  action (λ s, sweep (map_to_list (requestCorrelationMap s)).*2
                 (set_swept (if correlationComplete s then s else set_correlationComplete true s))) ;;;;
  rxLock_Unlock.

Definition publisherTerminatedError : go_error :=
  NewError IncompleteMessageDeliveryError UnableToPublishAlreadyTerminated None.

(** [unsubscribed]: [RemoveRequestorReplyHandler] had no error. *)
Definition terminate_body (timer unsubscribed : bool) : rr (option go_error) :=
  on_base (update (λ s, set_handlers false (canSendHandler s) s)) ;;;;
  let! direct := on_base (load is_direct) in
  let! graceful :=
    (if (direct : bool) then
       on_base (update (λ s, set_handlers (downHandler s) false s)) ;;;; PRet true
     else
       on_base (close_signal waitInterrupt set_waitInterrupt) ;;;;
       on_base (taskBuffer_Terminate timer)) in
  (if (graceful : bool) then await_replies timer else PRet tt) ;;;;
  update (λ s, if unsubscribed then set_replyHandler false s else s) ;;;;
  let! undeliveredCount :=
    (if (direct : bool) then PRet 0 else drainQueue (Some publisherTerminatedError)) in
  close_correlations ;;;;
  await_closed correlationComplete ;;;;
  let! err := on_base (report_undelivered undeliveredCount) in
  on_base executor_Terminate ;;;;
  PRet err.

Definition Terminate (timer unsubscribed : bool) : rr (option go_error) :=
  let! r := on_base (terminate publisher_texts) in
  if negb (fst r) then PRet (snd r)
  else let! err := terminate_body timer unsubscribed in on_base (terminated err) ;;;; PRet err.

Definition unsolicited_body (cause : option go_error) : rr (option go_error) :=
  on_base (update (λ s, note (note_ending false) (set_handlers false (canSendHandler s) s))) ;;;;
  let! direct := on_base (load is_direct) in
  let! err :=
    (if (direct : bool) then
       on_base (update (λ s, set_handlers (downHandler s) false s)) ;;;; PRet None
     else
       on_base (close_signal waitInterrupt set_waitInterrupt) ;;;;
       on_base taskBuffer_TerminateNow ;;;;
       let! undeliveredCount := drainQueue cause in
       on_base (report_undelivered undeliveredCount)) in
  on_base executor_Terminate ;;;;
  PRet err.

Definition unsolicitedTermination (cause : option go_error) (listener : bool)
    : rr (option go_error) :=
  let! r := on_base (terminate publisher_texts) in
  if negb (fst r) then PRet None
  else
    let! err := unsolicited_body cause in
    on_base (terminated err) ;;;;
    (if listener then on_base (update (note (note_listened cause))) else PRet tt) ;;;; PRet None.

(** * Protocol *)

(** The permits of the publisher besides those of its base: the lock of the table, to ask for the
    end of the requests, to close what is left of them, and the place of the goroutine of a
    request. *)
Inductive mine : Type :=
| HoldTable
| MayRequest
| MaySweep
| StageOf (i : nat) (st : stage).

#[export] Instance mine_eq_dec : EqDecision mine.
Proof using EqDecision2. solve_decision. Defined.

Definition held_here (s : requestReplyPublisher) (y : mine) : nat :=
  match y with
  | HoldTable => if rxLock s then 0 else 1
  | MayRequest => if waitInterrupt (base s) && negb (requestCorrelateComplete s) then 0 else 1
  | MaySweep => if waitInterrupt (base s) && negb (swept s) then 0 else 1
  | StageOf i st =>
      match entries s !! i with
      | Some e => if decide (at_stage e = st) then 0 else 1
      | None => 1
      end
  end.

(** The replies an entry took, the one its goroutine holds, the one in its channel. *)
Definition taken_by (i : nat) (l : list (string * R * option nat)) : list R :=
  omap (λ p, if decide (p.2 = Some i) then Some p.1.2 else None) l.
Definition in_hand (st : stage) : list R := match st with Took r => [r] | _ => [] end.

Record entry_ok (s : requestReplyPublisher) (i : nat) (e : correlationEntryImpl) : Prop := {
  entry_replies : taken_by i (replies s) = (gone e).*1 ++ in_hand (at_stage e) ++ chan_buf (result e);
  entry_once : length (taken_by i (replies s)) ≤ 1;
  entry_fresh : received e = false → taken_by i (replies s) = [];
  entry_caps : chan_cap (result e) = 1;
}.

(** An answer is a reply or an error, and the reply is one that the entry took. *)
Definition answer_from (e : correlationEntryImpl) (m : option R) (err : option go_error) : Prop :=
  match m, err with
  | Some r, None => (r, Given) ∈ gone e
  | None, Some _ => True
  | _, _ => False
  end.
Definition answer_ok (s : requestReplyPublisher) (i : nat) (m : option R) (err : option go_error) : Prop :=
  ∃ e, entries s !! i = Some e ∧ at_stage e = Answered ∧ answer_from e m err.

Context (config : backpressureConfiguration) (size_ : nat).
Context (Hbuffered : config ≠ BackpressureDirect).

Record rr_inv (s : requestReplyPublisher) : Prop := {
  rr_base : pub_inv config size_ (base s);
  rr_requested : requestCorrelateComplete s = true →
    is_complete (base s) = true ∧ waitInterrupt (base s) = true;
  rr_swept : swept s = true →
    is_complete (base s) = true ∧ waitInterrupt (base s) = true ∧ correlationComplete s = true;
  rr_table : ∀ k i, requestCorrelationMap s !! k = Some i → ∃ e, entries s !! i = Some e ∧ key e = k ∧
    (swept s = false → chan_closed (result e) = false ∧ chan_closed (sentChan e) = false);
  rr_entries : ∀ i e, entries s !! i = Some e → entry_ok s i e;
  rr_replies : ∀ k r i, (k, r, Some i) ∈ replies s → ∃ e, entries s !! i = Some e ∧ key e = k;
  rr_answers : ∀ i m err, (i, m, err) ∈ answers s → answer_ok s i m err;
  rr_once : NoDup (answers s).*1.*1;
}.

Definition rr_move (s s' : requestReplyPublisher) : Prop :=
  pub_move (base s) (base s') ∧ answers s `prefix_of` answers s' ∧
  (swept s = true → swept s' = true).

Abbreviation bheld := (lc_held (S := publisher) DirectPublisher.gate DirectPublisher.spent DirectPublisher.extra).
Abbreviation bproto := (proto (pub_inv config size_) pub_move bheld lc_total).
Abbreviation rheld := (whole_held base bheld held_here).
Abbreviation rtotal := (whole_total lc_total (λ _ : mine, 1)).
Abbreviation rproto l1 l2 := (proto rr_inv rr_move rheld rtotal (join (own l1) (own l2))).
Abbreviation rfits s l2 := (fits held_here (λ _ : mine, 1) s (own l2)).

#[local] Instance rr_embeds :
  Embeds base set_base (pub_inv config size_) pub_move rr_inv rr_move held_here.
Proof using Type.
  split.
  - done.
  - apply rr_base.
  - intros s t Hs Ht Hm. pose proof Hm as (_ & _ & _ & Hc & Hw). split; [|by split_and!].
    destruct Hs. split; try assumption; simpl.
    + intros Hr. destruct (rr_requested0 Hr). auto.
    + intros Hr. destruct (rr_swept0 Hr) as (? & ? & ?). auto.
    + intros i e Hi. destruct (rr_entries0 i e Hi). by split.
  - intros s t y Hs (_ & _ & _ & _ & Hw). destruct y; simpl; try lia;
      (destruct (waitInterrupt (base s)); simpl; [rewrite Hw by done; simpl; lia|case_match; lia]).
Qed.

(** An operation of the base. *)
Lemma r_base {A B} (p : prog publisher A) (k : A → rr B) n1 l2 Q :
  bproto n1 (pbind p PRet) (λ a m, proto rr_inv rr_move rheld rtotal (join m (own l2)) (k a) Q) →
  proto rr_inv rr_move rheld rtotal (join n1 (own l2)) (pbind (on_base p) k) Q.
Proof using Type.
  intros Hp. eapply proto_lift; [apply rr_embeds|]. by apply proto_unbind.
Qed.

(** An action on the rest of the publisher. *)
Lemma r_act {V B} (f : requestReplyPublisher → act requestReplyPublisher V) n1 l2 (k : V → rr B) Q :
  (∀ s, rr_inv s → fits bheld lc_total (base s) n1 → rfits s l2 →
    match f s with
    | AOk v s' => rr_inv s' ∧ rr_move s s' ∧ base s' = base s ∧
        ∃ l2', (∀ y, held_here s' y + own l2' y ≤ held_here s y + own l2 y) ∧
          proto rr_inv rr_move rheld rtotal (join n1 (own l2')) (k v) Q
    | ABlock => True
    | APanic _ => False
    end) →
  proto rr_inv rr_move rheld rtotal (join n1 (own l2)) (PAct f k) Q.
Proof using Type.
  intros Hk s Hs Hf. specialize (Hk s Hs (λ x, Hf (inl x)) (λ y, Hf (inr y))).
  destruct (f s) as [v s'| |]; [|done..]. destruct Hk as (Hs' & Hm & Hb & l2' & Hc & Hk).
  split_and!; [done..|].
  exists (join n1 (own l2')). split; [|done]. intros [x|y]; simpl; [by rewrite Hb|apply Hc].
Qed.

(** The same for a case of a select. *)
Lemma r_sel {V B} (fs : list (requestReplyPublisher → act requestReplyPublisher V)) n1 l2 (k : V → rr B) Q :
  (∀ f, f ∈ fs → proto rr_inv rr_move rheld rtotal (join n1 (own l2)) (PAct f k) Q) →
  proto rr_inv rr_move rheld rtotal (join n1 (own l2)) (PSel fs k) Q.
Proof using Type. intros Hk s Hs Hf f Hin. exact (Hk f Hin s Hs Hf). Qed.

(** One that leaves the base, the answers and the permits. *)
Lemma rr_move_same s s' : base s' = base s → answers s' = answers s →
  (swept s = true → swept s' = true) → rr_move s s'.
Proof using Type. intros Hb Ha Hw. split_and!; [rewrite Hb; by apply pub_move_same|by rewrite Ha|done]. Qed.

Lemma r_same {V B} (f : requestReplyPublisher → act requestReplyPublisher V) n1 l2 (k : V → rr B) Q :
  (∀ s, rr_inv s → rfits s l2 →
    match f s with
    | AOk v s' => rr_inv s' ∧ base s' = base s ∧ answers s' = answers s ∧
        (swept s = true → swept s' = true) ∧ (∀ y, held_here s' y ≤ held_here s y) ∧
        proto rr_inv rr_move rheld rtotal (join n1 (own l2)) (k v) Q
    | ABlock => True
    | APanic _ => False
    end) →
  proto rr_inv rr_move rheld rtotal (join n1 (own l2)) (PAct f k) Q.
Proof using Type.
  intros Hk. apply r_act. intros s Hs _ Hf. specialize (Hk s Hs Hf). destruct (f s) as [v s'| |]; [|done..].
  destruct Hk as (? & ? & ? & ? & Hy & ?). split_and!; [done|by apply rr_move_same|done|].
  exists l2. split; [|done]. intros y. specialize (Hy y). lia.
Qed.

Lemma r_load {V B} (view : requestReplyPublisher → V) n1 l2 (k : V → rr B) Q :
  (∀ v, proto rr_inv rr_move rheld rtotal (join n1 (own l2)) (k v) Q) →
  proto rr_inv rr_move rheld rtotal (join n1 (own l2)) (pbind (load view) k) Q.
Proof using Type. intros Hk. apply r_same. intros s Hs _. by split_and!. Qed.

Lemma r_load_base {V B} (view : publisher → V) l1 l2 (k : V → rr B) Q :
  (∀ s, pub_inv config size_ s → rproto l1 l2 (k (view s)) Q) →
  rproto l1 l2 (pbind (on_base (load view)) k) Q.
Proof using Type. intros Hk. apply r_base, proto_load_inv. intros s Hs. by apply Hk. Qed.

Lemma r_direct {B} l1 l2 (k : bool → rr B) Q :
  rproto l1 l2 (k false) Q → rproto l1 l2 (pbind (on_base (load is_direct)) k) Q.
Proof using Hbuffered.
  intros Hk. apply r_load_base. intros s Hs. unfold is_direct.
  rewrite (inv_config _ _ _ Hs), bool_decide_false by done. done.
Qed.

(** ** The invariant *)

(** What the goroutine at a stage of a request knows. *)
Lemma fits_stage s i st l : rfits s (StageOf i st :: l) →
  ∃ e, entries s !! i = Some e ∧ at_stage e = st.
Proof using Type.
  intros Hf. specialize (Hf (StageOf i st)). pose proof (own_here (StageOf i st) l) as Ho.
  cbn [held_here] in Hf. destruct (entries s !! i) as [e|]; [|lia].
  exists e. split; [done|]. case_decide; [done|lia].
Qed.

Lemma fits_table s l : rfits s (HoldTable :: l) → rxLock s = true.
Proof using Type.
  intros Hf. specialize (Hf HoldTable). pose proof (own_here HoldTable l). cbn [held_here] in Hf.
  destruct (rxLock s); [done|lia].
Qed.

(** Nothing of the invariant depends on the lock. *)
Lemma inv_lock b s : rr_inv s → rr_inv (set_rxLock b s).
Proof using Type.
  intros []. split; try assumption. intros i e Hi. destruct (rr_entries0 i e Hi). by split.
Qed.

Lemma r_Lock {B} n1 l2 (k : unit → rr B) Q :
  proto rr_inv rr_move rheld rtotal (join n1 (own (HoldTable :: l2))) (k tt) Q →
  proto rr_inv rr_move rheld rtotal (join n1 (own l2)) (pbind rxLock_Lock k) Q.
Proof using Type.
  intros Hk. apply r_act. intros s Hs _ _. destruct (rxLock s) eqn:Hl; [done|].
  split_and!; [by apply inv_lock|by apply rr_move_same|done|]. exists (HoldTable :: l2). split; [|done].
  intros []; cbn [held_here own]; simpl; rewrite ?Hl; lia.
Qed.

Lemma r_Unlock {B} n1 l2 (k : unit → rr B) Q :
  proto rr_inv rr_move rheld rtotal (join n1 (own l2)) (k tt) Q →
  proto rr_inv rr_move rheld rtotal (join n1 (own (HoldTable :: l2))) (pbind rxLock_Unlock k) Q.
Proof using Type.
  intros Hk. apply r_act. intros s Hs _ Hf. pose proof (fits_table _ _ Hf) as Hl.
  rewrite Hl. split_and!; [by apply inv_lock|by apply rr_move_same|done|]. exists l2. split; [|done].
  intros []; cbn [held_here own]; simpl; rewrite ?Hl; lia.
Qed.

(** An entry changed, in its channels, its stage or what is gone of it. *)
Lemma inv_entry s i e e' :
  rr_inv s → entries s !! i = Some e → key e' = key e → entry_ok s i e' →
  (swept s = false → (∃ k, requestCorrelationMap s !! k = Some i) →
     chan_closed (result e') = false ∧ chan_closed (sentChan e') = false) →
  (at_stage e = Answered → at_stage e' = Answered ∧ ∀ r, (r, Given) ∈ gone e → (r, Given) ∈ gone e') →
  rr_inv (put_entry i e' s).
Proof using Type.
  intros Hs Hi Hkey Hok Hopen Hans.
  assert (i < length (entries s)) as Hlt by by eapply lookup_lt_Some.
  assert (∀ j x, entries (put_entry i e' s) !! j = Some x →
    (j = i ∧ x = e') ∨ (j ≠ i ∧ entries s !! j = Some x)) as Hcase.
  { intros j x. simpl. rewrite list_lookup_insert_Some. naive_solver. }
  assert (entries (put_entry i e' s) !! i = Some e') as Hnew by (by apply list_lookup_insert_eq).
  assert (∀ j x, j ≠ i → entries s !! j = Some x → entries (put_entry i e' s) !! j = Some x) as Hold.
  { intros j x Hj Hx. simpl. by rewrite list_lookup_insert_ne. }
  destruct Hs. split; try assumption.
  - intros k j Hk. destruct (rr_table0 k j Hk) as (x & Hx & Hkx & Ho).
    destruct (decide (j = i)) as [->|Hj]; [|exists x; auto].
    exists e'. split_and!; [done|congruence|]. intros Hsw. apply Hopen; [done|by exists k].
  - intros j x [[-> ->]|[_ Hx]]%Hcase; [by destruct Hok|]. destruct (rr_entries0 j x Hx). by split.
  - intros k r j Hin. destruct (rr_replies0 k r j Hin) as (x & Hx & Hkx).
    destruct (decide (j = i)) as [->|Hj]; [|by eauto]. exists e'. split; [done|congruence].
  - intros j m err Hin. destruct (rr_answers0 j m err Hin) as (x & Hx & Hst & Hm).
    destruct (decide (j = i)) as [->|Hj]; [|by exists x; auto]. exists e'.
    assert (x = e) as -> by congruence. destruct (Hans Hst) as [? Hg]. split_and!; [done..|].
    destruct m, err; [done|by apply Hg|done|done].
Qed.

(** Changing an entry that stays at its stage moves no permit; one that moves on takes the permit
    of its goroutine along. *)
Lemma held_entry s i e e' y : entries s !! i = Some e → at_stage e' = at_stage e →
  held_here (put_entry i e' s) y = held_here s y.
Proof using Type.
  intros Hi Hst. destruct y as [| | |j st]; simpl; try done.
  destruct (decide (j = i)) as [->|Hj]; [|by rewrite list_lookup_insert_ne].
  rewrite list_lookup_insert_eq, Hi, Hst; [done|by eapply lookup_lt_Some].
Qed.

Lemma held_stage s i e e' st l y : entries s !! i = Some e → at_stage e = st → at_stage e' ≠ st →
  held_here (put_entry i e' s) y + own (StageOf i (at_stage e') :: l) y ≤
  held_here s y + own (StageOf i st :: l) y.
Proof using Type.
  intros Hi Hst Hne. subst st. destruct y as [| | |j st]; cbn [own];
    [rewrite !decide_False by done; simpl; lia..|].
  assert (i < length (entries s)) as Hlt by by eapply lookup_lt_Some.
  simpl. destruct (decide (j = i)) as [->|Hj].
  - rewrite list_lookup_insert_eq, Hi by done. repeat case_decide; simplify_eq; lia.
  - rewrite list_lookup_insert_ne by done. rewrite !(decide_False (P := StageOf j _ = _)) by congruence. lia.
Qed.

(** What an entry took. *)
Lemma taken_snoc i l k r t :
  taken_by i (l ++ [(k, r, t)]) = taken_by i l ++ (if decide (t = Some i) then [r] else []).
Proof using Type. unfold taken_by. rewrite omap_app. simpl. by case_decide. Qed.

Lemma taken_here i l k r : taken_by i (l ++ [(k, r, Some i)]) = taken_by i l ++ [r].
Proof using Type. by rewrite taken_snoc, decide_True. Qed.
Lemma taken_other i l k r t : t ≠ Some i → taken_by i (l ++ [(k, r, t)]) = taken_by i l.
Proof using Type. intros Ht. by rewrite taken_snoc, decide_False, app_nil_r. Qed.

Lemma taken_elem i l r : r ∈ taken_by i l → ∃ k, (k, r, Some i) ∈ l.
Proof using Type.
  unfold taken_by. rewrite list_elem_of_omap. intros ([[k r'] t] & Hin & Hr). simpl in Hr.
  case_decide; simplify_eq. by exists k.
Qed.

Lemma taken_none i l : (∀ k r, (k, r, Some i) ∉ l) → taken_by i l = [].
Proof using Type.
  intros Hn. destruct (taken_by i l) as [|r rs] eqn:Ht; [done|].
  destruct (taken_elem i l r) as [k Hin]; [rewrite Ht; by left|]. by destruct (Hn k r).
Qed.

(** A reply in the channel: nothing is in hand. *)
Lemma entry_buffered s i e r l : entry_ok s i e → chan_buf (result e) = r :: l →
  gone e = [] ∧ in_hand (at_stage e) = [] ∧ l = [].
Proof using Type.
  intros [Hr Ho _] Hb. rewrite Hr, Hb, !length_app, length_fmap in Ho. simpl in Ho.
  split_and!; apply nil_length_inv; lia.
Qed.

Lemma entry_replaced s i e e' : entry_ok s i e → received e' = received e → result e' = result e →
  at_stage e' = at_stage e → gone e' = gone e → entry_ok s i e'.
Proof using Type. intros [] H1 H2 H3 H4. by split; rewrite ?H1, ?H2, ?H3, ?H4. Qed.

(** ** Operations on the table *)

Lemma rr_inv_new s u t h n id :
  rr_inv s →
  rr_inv (set_table n (<[id := length (entries s)]> (requestCorrelationMap s))
            (entries s ++ [new_entry u t h id]) s).
Proof using Type.
  intros Hs.
  assert (∀ i e, entries s !! i = Some e → (entries s ++ [new_entry u t h id]) !! i = Some e) as Hold.
  { intros i e Hi. by apply lookup_app_l_Some. }
  assert ((entries s ++ [new_entry u t h id]) !! length (entries s) = Some (new_entry u t h id)) as Hnew
    by (by rewrite lookup_app_r, Nat.sub_diag by lia).
  destruct Hs. split; try assumption; simpl.
  - intros k i. rewrite lookup_insert_Some. intros [[<- <-]|[_ Hk]].
    + exists (new_entry u t h id). by split_and!.
    + destruct (rr_table0 k i Hk) as (e & ? & ? & ?). exists e. auto.
  - intros i e. rewrite lookup_app_Some, list_lookup_singleton_Some. intros [Hi|(Hi & H0 & <-)].
    + destruct (rr_entries0 i e Hi). by split.
    + assert (taken_by i (replies s) = []) as Ht.
      { apply taken_none. intros k r Hin. destruct (rr_replies0 k r i Hin) as (e & He & _).
        apply lookup_lt_Some in He. lia. }
      split; simpl; rewrite ?Ht; simpl; first [done|lia].
  - intros k r i Hin. destruct (rr_replies0 k r i Hin) as (e & He & ?). exists e. auto.
  - intros i m err Hin. destruct (rr_answers0 i m err Hin) as (e & ? & ? & ?). exists e. auto.
Qed.

Lemma r_create {B} u t h n1 l2 (k : string * nat → rr B) Q :
  (∀ id i, proto rr_inv rr_move rheld rtotal (join n1 (own (StageOf i Waiting :: l2))) (k (id, i)) Q) →
  proto rr_inv rr_move rheld rtotal (join n1 (own l2)) (pbind (createReplyCorrelation u t h) k) Q.
Proof using Type.
  intros Hk. apply r_Lock, r_act. intros s Hs _ _.
  destruct (next_correlation (nextMessageID s)) as [n id].
  split_and!; [by apply rr_inv_new|by apply rr_move_same|done|].
  exists (HoldTable :: StageOf (length (entries s)) Waiting :: l2). split; [|apply r_Unlock, Hk].
  intros [| | |i st]; cbn [own]; rewrite ?(decide_False (P := _ = StageOf _ _)) by done;
    [simpl; lia..|].
  simpl. destruct (decide (i = length (entries s))) as [->|Hi].
  - rewrite lookup_app_r, Nat.sub_diag, (lookup_ge_None_2 (entries s)) by lia. simpl.
    repeat case_decide; simplify_eq; lia.
  - rewrite !(decide_False (P := StageOf i _ = _)) by congruence.
    destruct (entries s !! i) as [e|] eqn:He; [by rewrite (lookup_app_l_Some _ _ _ _ He)|].
    case_match; [case_decide|]; lia.
Qed.

(** Closing the channels of an entry that is not in the table. *)
Lemma close_channels_ok s i e : entry_ok s i e → entry_ok s i (close_channels e).
Proof using Type.
  intros Hok. unfold close_channels, drain_or_close.
  destruct (chan_buf (result e)) as [|r l] eqn:Hb; simpl.
  - destruct Hok. rewrite Hb in *. split; simpl; rewrite ?app_nil_r in *; done.
  - destruct (entry_buffered s i e r l Hok Hb) as (Hg & Hh & ->).
    destruct Hok. rewrite Hg, Hh, Hb in *. split; simpl; rewrite ?Hg, ?Hh; done.
Qed.

Lemma close_channels_stage e : at_stage (close_channels e) = at_stage e ∧ key (close_channels e) = key e ∧
  ∀ r, (r, Given) ∈ gone e → (r, Given) ∈ gone (close_channels e).
Proof using Type.
  unfold close_channels. destruct (drain_or_close (result e)). split_and!; [done..|].
  intros r Hr. simpl. rewrite elem_of_app. by left.
Qed.

(** Taking a request out of the table. *)
Lemma inv_delete id s : rr_inv s → rr_inv (set_map (delete id (requestCorrelationMap s)) s).
Proof using Type.
  intros []. split; try assumption; simpl.
  - intros k i. rewrite lookup_delete_Some. intros [_ Hk]. by apply rr_table0.
  - intros i e Hi. destruct (rr_entries0 i e Hi). by split.
Qed.

Lemma deleted_unreferenced id i s : rr_inv s → requestCorrelationMap s !! id = Some i →
  ¬ ∃ k, delete id (requestCorrelationMap s) !! k = Some i.
Proof using Type.
  intros Hs Hid [k [Hne Hk]%lookup_delete_Some].
  destruct (rr_table s Hs id i Hid) as (e & He & Hke & _).
  destruct (rr_table s Hs k i Hk) as (e' & He' & Hke' & _). congruence.
Qed.

Lemma inv_check_drained s : rr_inv s → rr_inv (check_drained s).
Proof using Type.
  intros Hs. unfold check_drained. destruct (_ && _); [|done].
  destruct (correlationComplete s) eqn:Hc; [done|].
  destruct Hs. split; try assumption; simpl.
  - intros Hw. destruct (rr_swept0 Hw) as (? & ? & ?). done.
  - intros i e Hi. destruct (rr_entries0 i e Hi). by split.
Qed.

Lemma check_drained_same s : base (check_drained s) = base s ∧ answers (check_drained s) = answers s ∧
  swept (check_drained s) = swept s ∧ (∀ y, held_here (check_drained s) y = held_here s y).
Proof using Type. unfold check_drained. destruct (_ && _), (correlationComplete s); by split_and!. Qed.

Lemma r_close {B} id n1 l2 (k : unit → rr B) Q :
  proto rr_inv rr_move rheld rtotal (join n1 (own l2)) (k tt) Q →
  proto rr_inv rr_move rheld rtotal (join n1 (own l2)) (pbind (closeReplyCorrelation id) k) Q.
Proof using Type.
  intros Hk. apply r_Lock, r_same. intros s Hs Hf. unfold forget.
  destruct (requestCorrelationMap s !! id) as [i|] eqn:Hid; [|by split_and!; try apply r_Unlock].
  destruct (rr_table s Hs id i Hid) as (e & He & Hke & _).
  unfold on_entry. cbn [entries set_map set_table]. rewrite He.
  set (s' := set_map (delete id (requestCorrelationMap s)) s).
  destruct (close_channels_stage e) as (Hst & Hk' & Hg).
  destruct (check_drained_same (put_entry i (close_channels e) s')) as (Hb & Ha & Hw & Hh).
  split_and!; [|by rewrite Hb|by rewrite Ha|by rewrite Hw| |by apply r_Unlock].
  - apply inv_check_drained. apply (inv_entry s' i e); [by apply inv_delete|done|done|..].
    + apply close_channels_ok. destruct (rr_entries s Hs i e He). by split.
    + intros _ Hex. by destruct (deleted_unreferenced id i s Hs Hid).
    + by rewrite Hst.
  - intros y. rewrite Hh. etrans; [by apply Nat.eq_le_incl, (held_entry s' i e)|]. by destruct y.
Qed.

(** Telling a request whether it was sent, while Terminate has not closed its channel. *)
Lemma r_signal {B} id err n1 l2 (k : unit → rr B) Q :
  (∀ s, rr_inv s → fits bheld lc_total (base s) n1 → rfits s (HoldTable :: l2) → swept s = false) →
  proto rr_inv rr_move rheld rtotal (join n1 (own l2)) (k tt) Q →
  proto rr_inv rr_move rheld rtotal (join n1 (own l2)) (pbind (signalRequestCorrelationSent id err) k) Q.
Proof using Type.
  intros Hsw Hk. apply r_Lock, r_act. intros s Hs Hf1 Hf2. specialize (Hsw s Hs Hf1 Hf2).
  destruct (requestCorrelationMap s !! id) as [i|] eqn:Hid.
  - destruct (rr_table s Hs id i Hid) as (e & He & _ & Ho). destruct (Ho Hsw) as [_ Hsent].
    unfold on_entry. rewrite He. unfold chan_send. rewrite Hsent. case_decide; [|done].
    split_and!; [|by apply rr_move_same|done|].
    + apply (inv_entry s i e); [done..| | |].
      * eapply entry_replaced; [by apply (rr_entries s Hs)|done..].
      * intros _ _. simpl. destruct (Ho Hsw). by split.
      * done.
    + exists (HoldTable :: l2). split; [|by apply r_Unlock]. intros y.
      by rewrite (held_entry s i e) by done.
  - split_and!; [done|by apply rr_move_same|done|]. exists (HoldTable :: l2). split; [done|by apply r_Unlock].
Qed.

(** A reply that is not taken. *)
Lemma inv_refused id r s : rr_inv s → rr_inv (log_reply id r None s).
Proof using Type.
  intros []. split; try assumption; simpl.
  - intros i e Hi. destruct (rr_entries0 i e Hi).
    split; simpl; rewrite ?taken_other by done; assumption.
  - intros k r' i. rewrite elem_of_app, list_elem_of_singleton. intros [Hin|[=]]. by eapply rr_replies0.
Qed.

(** A reply that goes into the channel of its entry. *)
Lemma inv_taken id r i e s : rr_inv s → requestCorrelationMap s !! id = Some i →
  entries s !! i = Some e → received e = false → chan_closed (result e) = false →
  rr_inv (log_reply id r (Some i) (put_entry i (set_received true (set_result
    (mkChan (chan_cap (result e)) (chan_buf (result e) ++ [r]) false) e)) s)).
Proof using Type.
  intros Hs Hid He Hr Hc. set (e' := set_received true _).
  destruct (rr_entries s Hs i e He) as [Ht Ho Hf Hcap]. specialize (Hf Hr).
  rewrite Hf in Ht. symmetry in Ht. apply app_nil in Ht as [Hg [Hh Hb]%app_nil].
  destruct (rr_table s Hs id i Hid) as (e0 & He0 & Hke & Hopen). assert (e0 = e) as -> by congruence.
  assert (i < length (entries s)) as Hlt by by eapply lookup_lt_Some.
  assert (∀ j x, <[i := e']> (entries s) !! j = Some x →
    (j = i ∧ x = e') ∨ (j ≠ i ∧ entries s !! j = Some x)) as Hcase.
  { intros j x. rewrite list_lookup_insert_Some. naive_solver. }
  assert (∀ (P : nat → correlationEntryImpl → Prop) j x, entries s !! j = Some x → P j x →
    (j = i → x = e → P j x → P j e') → ∃ x', <[i := e']> (entries s) !! j = Some x' ∧ P j x') as Hkeep.
  { intros P j x Hx HP Hnew. destruct (decide (j = i)) as [->|Hj].
    - exists e'. rewrite list_lookup_insert_eq by done. split; [done|]. apply Hnew; [done|congruence|done].
    - exists x. by rewrite list_lookup_insert_ne. }
  destruct Hs. split; try assumption; simpl.
  - intros k j Hk. destruct (rr_table0 k j Hk) as (x & Hx & Hkx & Hox).
    apply (Hkeep (λ j x, key x = k ∧ (swept s = false →
      chan_closed (result x) = false ∧ chan_closed (sentChan x) = false)) j x Hx); [done|].
    intros _ -> [? Hox']. split; [done|]. intros Hw. destruct (Hox' Hw). by split.
  - intros j x [[-> ->]|[Hj Hx]]%Hcase.
    + split; simpl; rewrite ?taken_here, ?Hf; simpl; [|lia|done|done].
      by rewrite Hg, Hh, Hb.
    + destruct (rr_entries0 j x Hx).
      split; simpl; rewrite ?taken_other by congruence; assumption.
  - intros k r' j. rewrite elem_of_app, list_elem_of_singleton. intros [Hin|[= -> -> ->]].
    + destruct (rr_replies0 k r' j Hin) as (x & Hx & Hkx).
      by apply (Hkeep (λ _ x, key x = k) j x Hx); [|intros _ ->].
    + exists e'. rewrite list_lookup_insert_eq by done. by split.
  - intros j m err Hin. destruct (rr_answers0 j m err Hin) as (x & Hx & Hst & Hm).
    by apply (Hkeep (λ _ x, at_stage x = Answered ∧ answer_from x m err) j x Hx);
      [split|intros _ ->].
Qed.

Lemma r_handle {B} r id n1 l2 (k : bool → rr B) Q :
  (∀ b, proto rr_inv rr_move rheld rtotal (join n1 (own l2)) (k b) Q) →
  proto rr_inv rr_move rheld rtotal (join n1 (own l2)) (pbind (handleReplyMessage r id) k) Q.
Proof using Type.
  intros Hk. apply r_Lock, r_same. intros s Hs _.
  destruct (requestCorrelationMap s !! id) as [i|] eqn:Hid;
    [|split_and!; [by apply inv_refused|done..|by intros []|apply r_Unlock, Hk]].
  destruct (rr_table s Hs id i Hid) as (e & He & Hke & Ho). rewrite He.
  destruct (received e) eqn:Hr;
    [split_and!; [by apply inv_refused|done..|by intros []|apply r_Unlock, Hk]|].
  unfold chan_send. destruct (chan_closed (result e)) eqn:Hc; [|case_decide; [|done]].
  - split_and!; [|done..| |apply r_Unlock, Hk].
    + apply inv_refused, (inv_entry s i e); [done..| | |done].
      * destruct (rr_entries s Hs i e He). by split.
      * intros Hw _. destruct (Ho Hw). congruence.
    + intros y. etrans; [|by apply Nat.eq_le_incl, (held_entry s i e (set_received true e))]. by destruct y.
  - split_and!; [by apply inv_taken|done..| |apply r_Unlock, Hk].
    intros y. rewrite <-(held_entry s i e (set_received true (set_result (mkChan (chan_cap (result e))
      (chan_buf (result e) ++ [r]) false) e)) y He eq_refl). by destruct y.
Qed.

Lemma r_onReplies l : rproto [] [] (onReplies l) anything.
Proof using Type.
  induction l as [|[id r] l IH]; [done|]. apply r_load. intros [].
  - cbn [pbind]. apply proto_bind. apply (r_handle r id (own []) []). intros b. apply IH.
  - apply r_same. intros s Hs _. split_and!; [by apply inv_refused|done..|by intros []|apply IH].
Qed.

(** ** The goroutine of a request *)

(** A receive that leaves the entry where it is, or the end of the requests. *)
Lemma r_complete {V B} (v : V) n1 l2 (k : V → rr B) Q :
  proto rr_inv rr_move rheld rtotal (join n1 (own l2)) (k v) Q →
  proto rr_inv rr_move rheld rtotal (join n1 (own l2)) (PAct (on_complete v) k) Q.
Proof using Type.
  intros Hk. apply r_same. intros s Hs _. unfold on_complete. destruct (correlationComplete s); [|done].
  by split_and!.
Qed.

Lemma r_await_sent {B} i n1 l2 (k : option go_error → rr B) Q :
  (∀ err, proto rr_inv rr_move rheld rtotal (join n1 (own (StageOf i Waiting :: l2))) (k err) Q) →
  proto rr_inv rr_move rheld rtotal (join n1 (own (StageOf i Waiting :: l2))) (pbind (await_sent i) k) Q.
Proof using Type.
  intros Hk. apply r_sel. intros f Hin.
  apply elem_of_cons in Hin as [->|Hin%list_elem_of_singleton]; [|subst f; by apply r_complete].
  apply r_same. intros s Hs Hf. destruct (fits_stage _ _ _ _ Hf) as (e & He & Hst).
  unfold on_entry. rewrite He. unfold chan_recv. destruct (chan_buf (sentChan e)) as [|err l] eqn:Hb.
  - destruct (chan_closed (sentChan e)); [|done]. unfold put_entry.
    rewrite list_insert_id by done. split_and!; [by destruct s|done..|by destruct s|apply Hk].
  - split_and!; [|done..| |apply Hk].
    + apply (inv_entry s i e); [done..| | |done].
      * by eapply entry_replaced; [by apply (rr_entries s Hs)|..].
      * intros Hw [k' Hk']. destruct (rr_table s Hs k' i Hk') as (e0 & He0 & _ & Ho).
        assert (e0 = e) as -> by congruence. destruct (Ho Hw). by split.
    + intros y. by rewrite (held_entry s i e).
Qed.

Lemma stage_keeps_channels s i e e' : rr_inv s → entries s !! i = Some e →
  chan_closed (result e') = chan_closed (result e) → sentChan e' = sentChan e →
  swept s = false → (∃ k, requestCorrelationMap s !! k = Some i) →
  chan_closed (result e') = false ∧ chan_closed (sentChan e') = false.
Proof using Type.
  intros Hs He Hr Hsent Hw [k Hk]. destruct (rr_table s Hs k i Hk) as (e0 & He0 & _ & Ho).
  assert (e0 = e) as -> by congruence. destruct (Ho Hw). by rewrite Hr, Hsent.
Qed.

Lemma r_await_reply {B} i timeout n1 l2 (k : res go_error R → rr B) Q :
  (∀ r, proto rr_inv rr_move rheld rtotal (join n1 (own (StageOf i (Took r) :: l2))) (k (Ok r)) Q) →
  (∀ err, proto rr_inv rr_move rheld rtotal (join n1 (own (StageOf i Waiting :: l2))) (k (Err err)) Q) →
  proto rr_inv rr_move rheld rtotal (join n1 (own (StageOf i Waiting :: l2)))
    (pbind (await_reply i timeout) k) Q.
Proof using Type.
  intros Hok Herr. apply r_sel. intros f Hin.
  apply elem_of_app in Hin as [Hin|Hin].
  - apply elem_of_cons in Hin as [->|Hin%list_elem_of_singleton]; [|subst f; by apply r_complete].
    apply r_act. intros s Hs _ Hf. destruct (fits_stage _ _ _ _ Hf) as (e & He & Hst).
    unfold on_entry. rewrite He. unfold chan_recv. destruct (chan_buf (result e)) as [|r l] eqn:Hb.
    + destruct (chan_closed (result e)); [|done]. unfold put_entry. rewrite list_insert_id by done.
      split_and!; [by destruct s|by apply rr_move_same|by destruct s|].
      exists (StageOf i Waiting :: l2). split; [by destruct s|apply Herr].
    + destruct (entry_buffered s i e r l) as (Hg & Hh & ->); [by apply (rr_entries s Hs)|done|].
      split_and!; [|by apply rr_move_same|done|].
      * apply (inv_entry s i e); [done..| | |by rewrite Hst].
        -- destruct (rr_entries s Hs i e He). rewrite Hg, Hh, Hb in *. by split; simpl; rewrite ?Hg.
        -- by eapply stage_keeps_channels.
      * exists (StageOf i (Took r) :: l2). split; [|apply Hok]. intros y.
        by apply (held_stage s i e (to_stage (Took r) (set_result _ e)) Waiting).
  - destruct (0 <=? timeout)%Z; [|by apply elem_of_nil in Hin].
    apply list_elem_of_singleton in Hin as ->. apply r_same. intros s Hs _. by split_and!.
Qed.

Definition holding (i : nat) (outcome : res go_error R) : mine :=
  StageOf i (match outcome with Ok r => Took r | Err _ => Waiting end).

Lemma r_check_tracked i id r n1 l2 (Q : res go_error R → _ → Prop) :
  (∀ outcome, (outcome = Ok r ∨ ∃ err, outcome = Err err) →
     Q outcome (join n1 (own (holding i outcome :: l2)))) →
  proto rr_inv rr_move rheld rtotal (join n1 (own (StageOf i (Took r) :: l2))) (check_tracked i id r) Q.
Proof using Type.
  intros HQ. apply r_Lock, r_load. intros [].
  - apply r_Unlock. apply (HQ (Ok r)). by left.
  - apply r_act. intros s Hs _ Hf.
    destruct (fits_stage s i (Took r) l2) as (e & He & Hst).
    { intros y. specialize (Hf y). simpl in *. lia. }
    unfold on_entry. rewrite He. split_and!; [|by apply rr_move_same|done|].
    + apply (inv_entry s i e); [done..| | |by rewrite Hst].
      * destruct (rr_entries s Hs i e He). rewrite Hst in *. split; simpl in *; try done.
        rewrite fmap_app. simpl. by rewrite <-app_assoc.
      * by eapply stage_keeps_channels.
    + exists (HoldTable :: StageOf i Waiting :: l2). split.
      * intros y. pose proof (held_stage s i e (to_stage Waiting (note_gone [(r, Disposed)] e)) (Took r) l2 y
          He Hst ltac:(done)) as Hy. cbn [own at_stage to_stage] in Hy |- *. lia.
      * apply r_Unlock. apply (HQ (Err cannot_receive_error)). right. eauto.
Qed.

Lemma rr_inv_answer s i e m err : rr_inv s → entries s !! i = Some e → at_stage e ≠ Answered →
  ∀ e', key e' = key e → entry_ok s i e' → chan_closed (result e') = chan_closed (result e) →
  sentChan e' = sentChan e → at_stage e' = Answered →
  answer_from e' m err → rr_inv (log_answer i m err (put_entry i e' s)).
Proof using Type.
  intros Hs He Hst e' Hkey Hok Hc Hsent Hst' Hans.
  assert (rr_inv (put_entry i e' s)) as Hs'.
  { apply (inv_entry s i e); [done..| |done]. intros. by eapply stage_keeps_channels. }
  assert (∀ m err, (i, m, err) ∉ answers s) as Hnew.
  { intros m0 err0 Hin. destruct (rr_answers s Hs i m0 err0 Hin) as (e0 & He0 & Hst0 & _). congruence. }
  assert (<[i := e']> (entries s) !! i = Some e') as Hi
    by (apply list_lookup_insert_eq; by eapply lookup_lt_Some).
  destruct Hs'. split; try assumption.
  - intros j x Hx. destruct (rr_entries0 j x Hx). by split.
  - simpl. intros j m0 err0. rewrite elem_of_app, list_elem_of_singleton.
    intros [Hin|[= -> -> ->]]; [exact (rr_answers0 _ _ _ Hin)|].
    exists e'. split_and!; [exact Hi|exact Hst'|exact Hans].
  - simpl. rewrite !fmap_app. apply NoDup_app. split_and!; [apply (rr_once s Hs)| |apply NoDup_singleton].
    intros j Hj Hj'. apply list_elem_of_singleton in Hj' as ->. simpl in Hj.
    apply list_elem_of_fmap in Hj as ([j m0] & Hj0 & Hj). simpl in Hj0. subst j.
    apply list_elem_of_fmap in Hj as ([[j m1] err1] & [= -> ->] & Hin). by apply (Hnew m1 err1).
Qed.

Lemma r_dispatch {B} i outcome n1 l2 (k : unit → rr B) Q :
  proto rr_inv rr_move rheld rtotal (join n1 (own l2)) (k tt) Q →
  proto rr_inv rr_move rheld rtotal (join n1 (own (holding i outcome :: l2)))
    (pbind (dispatch i outcome) k) Q.
Proof using Type.
  intros Hk. apply r_act. intros s Hs _ Hf.
  destruct (fits_stage _ _ _ _ Hf) as (e & He & Hst). unfold on_entry. rewrite He.
  assert (at_stage e ≠ Answered) as Hne by (rewrite Hst; by destruct outcome).
  destruct (rr_entries s Hs i e He) as [Ht Hon Hfr Hcap].
  assert (∀ e' m err, at_stage e' = Answered → ∀ y,
    held_here (log_answer i m err (put_entry i e' s)) y + own l2 y ≤
    held_here s y + own (holding i outcome :: l2) y) as Hheld.
  { intros e' m err Hst' y. unfold holding. rewrite <-Hst.
    pose proof (held_stage s i e e' (at_stage e) l2 y He eq_refl) as Hy. rewrite Hst' in Hy.
    specialize (Hy ltac:(congruence)). cbn [own] in *. destruct y; simpl in *; lia. }
  destruct outcome as [r|err]; (split_and!; [| |done|exists l2; split; [by apply Hheld|exact Hk]]).
  - apply (rr_inv_answer s i e); try done; [|apply elem_of_app; right; by left].
    rewrite Hst in Ht. split; simpl in *; try done. by rewrite fmap_app, <-app_assoc.
  - split_and!; [by apply pub_move_same|by apply prefix_app_r|done].
  - apply (rr_inv_answer s i e); try done. rewrite Hst in Ht. by split.
  - split_and!; [by apply pub_move_same|by apply prefix_app_r|done].
Qed.

Lemma r_replyOutcome {B} id i timeout n1 l2 (k : res go_error R → rr B) Q :
  (∀ outcome, proto rr_inv rr_move rheld rtotal (join n1 (own l2)) (k outcome) Q) →
  proto rr_inv rr_move rheld rtotal (join n1 (own (StageOf i Waiting :: l2)))
    (pbind (replyOutcome id i timeout) k) Q.
Proof using Type.
  intros Hk. apply proto_bind, r_await_sent. intros sentErr. apply proto_bind.
  assert (∀ outcome, proto rr_inv rr_move rheld rtotal (join n1 (own (holding i outcome :: l2)))
    (dispatch i outcome ;;;; closeReplyCorrelation id ;;;; PRet outcome)
    (λ b m, proto rr_inv rr_move rheld rtotal m (k b) Q)) as Hend.
  { intros outcome. apply r_dispatch, r_close, Hk. }
  destruct sentErr as [err|]; [apply (Hend (Err err))|].
  apply r_await_reply; [|intros err; apply (Hend (Err err))].
  intros r. apply r_check_tracked. intros outcome _. apply Hend.
Qed.

(** ** Publishing and tasks *)

Lemma r_check {B} l1 l2 (k : option go_error → rr B) Q :
  (∀ err, rproto l1 l2 (k err) Q) → rproto l1 l2 (pbind (on_base checkStartedStateForPublish) k) Q.
Proof using Type. intros Hk. apply r_base, proto_check. apply Hk. Qed.

(** A publish that fails gives up its entry. *)
Lemma r_publish {B} e1 e2 e3 msg h t u (k : res go_error (string * nat) → rr B) Q :
  (∀ id i, rproto [] [StageOf i Waiting] (k (Ok (id, i))) Q) → (∀ err, rproto [] [] (k (Err err)) Q) →
  rproto [] [] (pbind (publish e1 e2 e3 msg h t u) k) Q.
Proof using All.
  intros Hok Herr. unfold publish. destruct e1; [apply Herr|]. apply proto_bind, r_check.
  intros [err|]; [apply Herr|]. destruct e2; [apply Herr|]. apply r_create. intros id i. cbn [fst].
  assert (∀ ret, rproto [] [StageOf i Waiting]
    (match ret with
     | Some err => closeReplyCorrelation id ;;;; PRet (Err err)
     | None => PRet (Ok (id, i))
     end) (λ b m, proto rr_inv rr_move rheld rtotal m (k b) Q)) as Hend.
  { intros [err|]; [|apply Hok]. apply (proto_drop _ _ _ _ _ (join (own []) (own [])));
      [done|intros [x|y]; simpl; lia|]. apply r_close, Herr. }
  apply proto_bind. destruct e3 as [err|]; [apply (Hend (Some err))|].
  apply r_direct. apply proto_unbind, r_base, proto_bind, proto_publish_buffered. intros err. apply Hend.
Qed.

Lemma r_go_outcome e1 e2 e3 msg h t u : rproto [] []
  (let! published := publishAsync e1 e2 e3 msg h t u in go_outcome t published) anything.
Proof using All.
  unfold publishAsync. destruct h; [|done]. apply r_publish; [|done].
  intros id i. by apply (r_replyOutcome id i t (own []) []).
Qed.

Lemma r_PublishAwaitResponse msg d p e1 e2 e3 t u :
  rproto [] [] (PublishAwaitResponse msg d p e1 e2 e3 t u) anything.
Proof using All.
  apply r_check. intros [err|]; [done|]. destruct (prepare msg d p); [|done].
  apply r_publish; [|done]. intros id i. by apply (r_replyOutcome id i t (own []) []).
Qed.

Abbreviation at_ r := [Extra (RunnerAt r)].

(** While the task goroutine is there, and before the end closes the channels, nothing is swept. *)
Lemma not_swept_running s r : rr_inv s → fits bheld lc_total (base s) (own (at_ r)) → r ≠ Gone →
  swept s = false.
Proof using Type.
  intros Hs Hf Hr. pose proof (fits_runner _ _ _ Hf) as Hrun.
  destruct (still_there _ _ _ (rr_base s Hs)) as [Hc _]; [by rewrite Hrun|].
  apply not_true_iff_false. intros Hw. destruct (rr_swept s Hs Hw). congruence.
Qed.

Lemma not_swept_yet s l : rfits s (MaySweep :: l) → swept s = false.
Proof using Type.
  intros Hf. specialize (Hf MaySweep). pose proof (own_here MaySweep l). cbn [held_here] in Hf.
  destruct (swept s); [|done]. rewrite andb_false_r in Hf. lia.
Qed.

Lemma r_finish_task pub r (Q : bool → _ → Prop) :
  Q true (join (own (at_ Idle)) (own [])) → rproto (at_ (Sent pub)) [] (finish_task pub r) Q.
Proof using All.
  intros HQ. apply r_load_base. intros s _.
  apply r_base, (proto_pop config size_ pub). intros [popped|]; [|apply HQ].
  cbn [pbind]. apply proto_bind.
  assert (rproto (at_ Idle) [] (let! reject := on_base (load is_reject) in
     (if (length (chan_buf (buffer s)) =? chan_cap (buffer s)) && reject
      then on_base DirectPublisher.notifyReady else PRet tt) ;;;; PRet true) Q) as Hrest.
  { apply r_load_base. intros s' _. destruct (_ && is_reject s'); [|apply HQ].
    apply r_base, proto_notifyReady, HQ. }
  destruct r as [info|]; [|exact Hrest]. apply r_base, proto_executor_Submit. intros b. exact Hrest.
Qed.

Lemma r_sendTask fuel pub (Q : bool → _ → Prop) :
  Q true (join (own (at_ Idle)) (own [])) → (∀ n, Q false n) →
  rproto (at_ (Sending pub)) [] (sendTask fuel pub) Q.
Proof using All.
  intros HQ HF. apply r_base, proto_bind.
  eapply proto_weaken; [|apply (proto_send_loop config size_)].
  intros [r| |] n Hn; lazy iota beta in Hn; subst n; [| |apply HF].
  - apply (r_signal _ _ (own (at_ (Sent pub))) []).
    + intros s Hs Hf _. by apply (not_swept_running s (Sent pub)).
    + by apply (r_finish_task pub r).
  - apply r_sel. intros f Hin.
    assert (∃ err, f = λ s, AOk err s) as [err ->].
    { apply elem_of_cons in Hin as [->|Hin%list_elem_of_singleton]; eauto. }
    apply r_same. intros s Hs _. split_and!; [done..|]. apply (r_signal _ _ (own (at_ Idle)) []); [|exact HQ].
    intros s' Hs' Hf _. by apply (not_swept_running s' Idle).
Qed.

Lemma r_run_tasks fuel : rproto (at_ Idle) [] (run_tasks fuel) anything.
Proof using All.
  induction fuel as [|fuel IH]; [done|]. apply r_base, proto_next_task; [|done]. intros pub.
  apply proto_bind, r_sendTask; [exact IH|done].
Qed.

(** ** Start and termination *)

#[local] Instance base_lifecycle : EmbedsLifecycle (S := publisher) (pub_inv config size_) pub_move
    DirectPublisher.gate DirectPublisher.spent DirectPublisher.extra := embeds config size_.
#[local] Instance base_starts : StartsFreely (S := publisher) (pub_inv config size_) pub_move :=
  pub_starts config size_.

Abbreviation section_permits ph := (join (grant DirectPublisher.gate ph) (own [])).
Abbreviation gproto n p Q := (proto rr_inv rr_move rheld rtotal n p Q).

(** An update of fields that neither the invariant nor the permits look at. *)
Lemma r_update {B} (g : requestReplyPublisher → requestReplyPublisher) n1 l2 (k : unit → rr B) Q :
  (∀ s, rr_inv s → rr_inv (g s)) →
  (∀ s, base (g s) = base s ∧ answers (g s) = answers s ∧ swept (g s) = swept s ∧
        ∀ y, held_here (g s) y = held_here s y) →
  gproto (join n1 (own l2)) (k tt) Q → gproto (join n1 (own l2)) (pbind (update g) k) Q.
Proof using All.
  intros Hi Hg Hk. apply r_same. intros s Hs _. destruct (Hg s) as (Hb & Ha & Hw & Hh).
  split_and!; [by apply Hi|done|done|by rewrite Hw|intros y; by rewrite Hh|done].
Qed.

Lemma inv_replyHandler b s : rr_inv s → rr_inv (set_replyHandler b s).
Proof using All. intros []. split; try assumption. intros i e Hi. destruct (rr_entries0 i e Hi). by split. Qed.

Lemma r_start_body err :
  gproto (section_permits StartPhase) (start_body err)
    (λ _ n, ∃ m, n = join m (own []) ∧ m (InPhase StartPhase) = 1).
Proof using All.
  apply r_base, proto_update; [by intros s []|done|].
  apply r_base, proto_load_inv. intros s _.
  apply proto_bind. destruct (is_direct s);
    (apply proto_unbind, r_base, proto_update; [by intros t []|done|]; cbn [pbind];
     destruct err; [by eexists|];
     apply r_update; [intros t; apply inv_replyHandler|by intros t; split_and!; [..|intros []]|];
     by eexists).
Qed.

Lemma r_Start err : rproto [] [] (Start err) anything.
Proof using All.
  apply r_base, proto_bind, proto_starting; try apply _; [intros e; exact I|].
  apply proto_bind. eapply proto_weaken; [|apply r_start_body].
  intros [e|] n (m & -> & Hm).
  - apply r_base, proto_update; [by intros s []|done|].
    apply r_base, (proto_terminated _ _ _ _ _ StartPhase); try apply _; [done|].
    apply r_base, proto_complete_start; try apply _. done.
  - apply r_base, proto_started; try apply _; done.
Qed.

Lemma r_drain_loop fuel k err l (Q : nat → _ → Prop) :
  fuel + k = S size_ →
  (∀ n, Q n (join (own (Extra (DrainAt n) :: l)) (own [MaySweep]))) →
  rproto (Extra (DrainAt k) :: l) [MaySweep] (drain_loop fuel k err) Q.
Proof using All.
  intros Hfuel HQ. revert k Hfuel. induction fuel as [|fuel IH]; intros k Hfuel.
  { apply r_act. intros s Hs Hf _.
    pose proof (drain_bound _ _ _ _ _ (rr_base s Hs) Hf). simpl in *. lia. }
  apply r_base, proto_drain_next; [|apply HQ]. intros pub.
  apply (r_signal _ _ (own (Extra (DrainAt (S k)) :: l)) [MaySweep]); [|apply IH; lia].
  intros s _ _ Hf. apply (not_swept_yet s []). intros y. specialize (Hf y). simpl in *. lia.
Qed.

Lemma r_drainQueue err b l (Q : nat → _ → Prop) :
  (∀ n, Q n (join (own (Extra (DrainAt n) :: Extra (Ending b) :: l)) (own [MaySweep]))) →
  rproto (Once CloseBuffer :: Extra (Ending b) :: l) [MaySweep] (drainQueue err) Q.
Proof using All.
  intros HQ. apply r_base, proto_close_buffer, (r_load_base _ _ [MaySweep]). intros s Hs.
  rewrite (inv_size _ _ _ Hs). by apply r_drain_loop; [lia|].
Qed.

(** Closing the wait signal gives the right to ask for the end of the requests, and to close what is
    left of them. *)
Lemma r_close_wait {B} l (k : unit → rr B) Q :
  rproto l [MayRequest; MaySweep] (k tt) Q →
  rproto (Once CloseWait :: l) []
    (pbind (on_base (close_signal waitInterrupt set_waitInterrupt)) k) Q.
Proof using All.
  intros Hk s Hs Hf. unfold lift_act.
  assert (bproto (own (Once CloseWait :: l)) (close_signal waitInterrupt set_waitInterrupt)
            (λ _ n, n = own l)) as Hb.
  { apply proto_unbind, proto_close; [done| |intros t; split_and!; [done..|by intros []]|done].
    intros t Ht Hp. by apply (signals_inv _ _ t (tasks t) true). }
  specialize (Hb (base s) (rr_base s Hs) (λ x, Hf (inl x))).
  destruct (fits_once _ _ _ (λ x, Hf (inl x))) as [_ Hw]. simpl in Hw.
  lazy beta in Hb |- *. rewrite Hw in *. destruct Hb as (Ht & Hm & n & Hn & Heq). rewrite Heq in Hn.
  destruct (part_move base set_base (pub_inv config size_) pub_move rr_inv rr_move held_here
    (Embeds := rr_embeds) s _ Hs Ht Hm) as [Hs' Hm'].
  split_and!; [done..|]. exists (join (own l) (own [MayRequest; MaySweep])). split; [|done].
  intros [x|y]; [apply Hn|]. specialize (Hf (inr y)).
  assert (requestCorrelateComplete s = false) as Hq.
  { apply not_true_iff_false. intros Hq. destruct (rr_requested s Hs Hq). congruence. }
  assert (swept s = false) as Hsw.
  { apply not_true_iff_false. intros Hq'. destruct (rr_swept s Hs Hq') as (_ & ? & _). congruence. }
  destruct y; simpl; rewrite ?Hw, ?Hq, ?Hsw; simpl; lia.
Qed.

Lemma r_await_replies timer l (Q : unit → _ → Prop) :
  Q tt (join (own (Extra (Ending true) :: l)) (own [MaySweep])) →
  rproto (Extra (Ending true) :: l) [MayRequest; MaySweep] (await_replies timer) Q.
Proof using All.
  intros HQ. apply r_Lock, r_load. intros outstanding. apply r_act. intros s Hs Hf1 Hf2.
  assert (waitInterrupt (base s) = true ∧ requestCorrelateComplete s = false) as [Hw Hq].
  { specialize (Hf2 MayRequest). simpl in Hf2.
    destruct (waitInterrupt (base s)), (requestCorrelateComplete s); simpl in Hf2; first [done|lia]. }
  assert (is_complete (base s) = true) as Hc.
  { by apply (inv_ending _ _ _ (rr_base s Hs)), (fits_ending _ _ _ Hf1). }
  rewrite Hq. split_and!; [|by apply rr_move_same|done|].
  { destruct Hs. split; try assumption; simpl; [done|]. intros i e Hi. destruct (rr_entries0 i e Hi). by split. }
  exists [HoldTable; MaySweep]. split.
  { intros []; cbn [held_here own]; simpl; rewrite ?Hw, ?Hq; simpl; try lia. }
  apply r_Unlock. lazy beta. destruct (0 <? outstanding); [|apply HQ]. destruct timer.
  - apply r_sel. intros f Hin.
    apply elem_of_cons in Hin as [->|Hin%list_elem_of_singleton]; [by apply r_complete|subst f].
    apply r_same. intros s' Hs' _. by split_and!.
  - apply r_same. intros s' Hs' _. destruct (correlationComplete s'); [|done]. by split_and!.
Qed.

(** Closing what is left: no entry of the table has its channel closed yet, and no entry is in it
    twice. *)
Lemma sweep_entry_ok s i e : entry_ok s i e → chan_closed (result e) = false →
  ∃ e', sweep_entry e = AOk tt e' ∧ entry_ok s i e' ∧ key e' = key e ∧ at_stage e' = at_stage e ∧
    gone e' = gone e.
Proof using Type.
  intros [] Hc. unfold sweep_entry, chan_close. rewrite Hc. eexists. split; [done|]. by split_and!.
Qed.

Lemma sweep_ok l : NoDup l → ∀ s, rr_inv s → swept s = true →
  (∀ i, i ∈ l → ∃ e, entries s !! i = Some e ∧ chan_closed (result e) = false) →
  ∃ s', sweep l s = AOk tt s' ∧ rr_inv s' ∧ base s' = base s ∧ answers s' = answers s ∧
    swept s' = true ∧ ∀ y, held_here s' y = held_here s y.
Proof using Type.
  induction l as [|i l IH]; intros Hl s Hs Hw Hopen; [by exists s|].
  apply NoDup_cons in Hl as [Hi Hl].
  destruct (Hopen i) as (e & He & Hc); [by left|].
  destruct (sweep_entry_ok s i e (rr_entries s Hs i e He) Hc) as (e' & Hsw & Hok & Hk & Hst & Hg).
  simpl. unfold on_entry. rewrite He, Hsw.
  destruct (IH Hl (put_entry i e' s)) as (s' & -> & Hs' & Hb & Ha & Hw' & Hh).
  - apply (inv_entry s i e); try done; [intros Hw'; congruence|]. rewrite Hst, Hg. done.
  - done.
  - intros j Hj. destruct (Hopen j) as (x & Hx & Hcx); [by right|]. exists x. split; [|done].
    simpl. by rewrite list_lookup_insert_ne by (intros ->; done).
  - exists s'. split_and!; try done. intros y. rewrite Hh. by apply (held_entry s i e).
Qed.

Lemma table_values_unique s : rr_inv s → NoDup (map_to_list (requestCorrelationMap s)).*2.
Proof using Type.
  intros Hs. apply NoDup_fmap_2_strong; [|apply NoDup_map_to_list].
  intros [k i] [k' i'] Hk%elem_of_map_to_list Hk'%elem_of_map_to_list Heq. simpl in Heq. subst i'.
  destruct (rr_table s Hs k i Hk) as (e & He & Hke & _).
  destruct (rr_table s Hs k' i Hk') as (e' & He' & Hke' & _). congruence.
Qed.

Lemma r_close_correlations {B} l (k : unit → rr B) Q :
  rproto (Extra (Ending true) :: l) [] (k tt) Q →
  rproto (Extra (Ending true) :: l) [MaySweep] (pbind close_correlations k) Q.
Proof using All.
  intros Hk. apply r_Lock, r_act. intros s Hs Hf1 Hf2.
  assert (waitInterrupt (base s) = true ∧ swept s = false) as [Hw Hsw].
  { specialize (Hf2 MaySweep). simpl in Hf2.
    destruct (waitInterrupt (base s)), (swept s); simpl in Hf2; first [done|lia]. }
  assert (is_complete (base s) = true) as Hc.
  { by apply (inv_ending _ _ _ (rr_base s Hs)), (fits_ending _ _ _ Hf1). }
  set (s1 := set_swept (if correlationComplete s then s else set_correlationComplete true s)).
  assert (base s1 = base s ∧ entries s1 = entries s ∧ requestCorrelationMap s1 = requestCorrelationMap s ∧
    answers s1 = answers s ∧ replies s1 = replies s ∧ rxLock s1 = rxLock s ∧
    correlationComplete s1 = true ∧ requestCorrelateComplete s1 = requestCorrelateComplete s)
    as (Hb & He & Hm & Ha & Hr & Hl & Hcc & Hq).
  { unfold s1. destruct (correlationComplete s) eqn:Hcc; by split_and!. }
  assert (rr_inv s1) as Hs1.
  { destruct Hs. split; rewrite ?Hb, ?He, ?Hm, ?Ha, ?Hr, ?Hq; try assumption; try done.
    - intros k' i Hk'. destruct (rr_table0 k' i Hk') as (e & ? & ? & _). by exists e.
    - intros i e Hi. destruct (rr_entries0 i e Hi). by split; rewrite ?Hr.
    - intros i m err Hin. destruct (rr_answers0 i m err Hin) as (e & ? & ?). exists e. by rewrite He. }
  destruct (sweep_ok (map_to_list (requestCorrelationMap s)).*2 (table_values_unique s Hs) s1 Hs1)
    as (s' & -> & Hs' & Hb' & Ha' & Hw' & Hh'); [done| |].
  { intros i ([k' i'] & -> & Hk'%elem_of_map_to_list)%list_elem_of_fmap.
    destruct (rr_table s Hs k' i' Hk') as (e & Hi & _ & Ho). exists e. rewrite He.
    split; [done|]. by destruct (Ho Hsw). }
  split_and!; [done|apply rr_move_same; congruence|congruence|]. exists [HoldTable].
  split; [|by apply r_Unlock]. intros y. rewrite Hh'.
  destruct y; cbn [held_here own]; rewrite ?Hb, ?He, ?Hl, ?Hq, ?Hw, ?Hsw; simpl; lia.
Qed.

Abbreviation base_permits := (list (lc_permit once (@DirectPublisher.mine request))).

(** A section's goroutine gives up what is not of the base. *)
Definition leaves (ph : phase) (n : lc_permit once (@DirectPublisher.mine request) + mine → nat) : Prop :=
  (∀ y, n (inr y) = 0) ∧ n (inl (InPhase ph)) = 1.

Lemma r_section ph l p (Q : option go_error → _ → Prop) :
  (∀ x, grant DirectPublisher.gate ph x = own l x) → (∀ b m m', (∀ x, m x = m' x) → Q b m → Q b m') →
  rproto l [] p Q → gproto (section_permits ph) p Q.
Proof using All.
  intros Hl HQ Hp. eapply proto_ext; [|exact HQ|exact Hp]. intros [x|y]; simpl; [by rewrite Hl|done].
Qed.

Lemma rr_leaves_ext ph (b : option go_error) m m' :
  (∀ x, m x = m' x) → leaves ph m → leaves ph m'.
Proof using All. intros Hm [H1 H2]. split; [intros y; by rewrite <-Hm|by rewrite <-Hm]. Qed.

Ltac reorder l1 l2 := apply (proto_drop _ _ _ _ _ (join (own l1) (own l2)));
  [done|intros [[[]|[]|[]]|[]]; simpl; repeat case_decide; simplify_eq; lia|].

(** From the drain on. *)
Lemma r_end n l (Q : option go_error → _ → Prop) :
  (∀ err, Q err (join (own l) (own []))) →
  rproto l [] (let! err := on_base (report_undelivered n) in on_base executor_Terminate ;;;; PRet err) Q.
Proof using All.
  intros HQ. apply r_base, proto_bind, proto_report_undelivered. intros err.
  apply r_base, proto_executor_Terminate, HQ.
Qed.

Lemma r_terminate_body timer unsubscribed :
  gproto (section_permits TermPhase) (terminate_body timer unsubscribed) (λ _, leaves TermPhase).
Proof using All.
  eapply r_section; [apply grant_own|apply rr_leaves_ext|].
  apply r_base, proto_update; [by intros s []|done|]. apply r_direct, proto_bind. lazy iota.
  reorder (end_permits [Once ChooseEnding; Once CloseBuffer; InPhase TermPhase] : base_permits)
    ([] : list mine).
  apply r_close_wait, proto_unbind, r_base,
    (proto_taskBuffer_Terminate _ _ timer [Once CloseBuffer; InPhase TermPhase]). intros graceful.
  cbn [pbind].
  assert (rproto (Extra (Ending true) :: [Once CloseBuffer; InPhase TermPhase]) [MaySweep]
    (update (λ s, if unsubscribed then set_replyHandler false s else s) ;;;;
     let! undeliveredCount := drainQueue (Some publisherTerminatedError) in
     close_correlations ;;;;
     await_closed correlationComplete ;;;;
     let! err := on_base (report_undelivered undeliveredCount) in
     on_base executor_Terminate ;;;; PRet err) (λ _, leaves TermPhase)) as Hrest.
  { apply r_update; [intros s Hs; destruct unsubscribed; [by apply inv_replyHandler|done]|
      intros s; destruct unsubscribed; by split_and!; [..|intros []]|].
    apply proto_bind.
    reorder ([Once CloseBuffer; Extra (Ending true); InPhase TermPhase] : base_permits) [MaySweep].
    apply r_drainQueue. intros n.
    reorder ([Extra (Ending true); Extra (DrainAt n); InPhase TermPhase] : base_permits) [MaySweep].
    apply r_close_correlations. apply r_same. intros s Hs _.
    destruct (correlationComplete s); [|done]. split_and!; [done..|].
    by apply (r_end n [Extra (Ending true); Extra (DrainAt n); InPhase TermPhase]). }
  apply proto_bind. destruct graceful.
  - apply r_await_replies, Hrest.
  - refine (proto_drop _ _ _ _ (join _ (own [MayRequest; MaySweep])) _ _ _ _ _ Hrest); [done|].
    intros [x|[]]; simpl; lia.
Qed.

Lemma r_section_end err (k : unit → rr (option go_error)) n :
  leaves TermPhase n →
  (∀ l2, gproto (join no_permit (own l2)) (k tt) anything) →
  gproto n (pbind (on_base (terminated err)) k) anything.
Proof using All.
  intros [H1 H2] Hk.
  eapply (proto_ext _ _ _ _ (join (λ x, n (inl x)) (own []))); [intros [x|y]; simpl; [done|by rewrite H1]|done|].
  apply r_base, (proto_terminated _ _ _ _ _ TermPhase); try apply _; [done|]. apply Hk.
Qed.

Lemma r_Terminate timer unsubscribed : rproto [] [] (Terminate timer unsubscribed) anything.
Proof using All.
  apply r_base, proto_bind, proto_terminate; try apply _; [intros err; exact I|].
  apply proto_bind. eapply proto_weaken; [|apply r_terminate_body].
  intros err n Hn. by apply r_section_end.
Qed.

Lemma r_unsolicited_body cause :
  gproto (section_permits TermPhase) (unsolicited_body cause) (λ _, leaves TermPhase).
Proof using All.
  eapply r_section; [apply grant_own|apply rr_leaves_ext|].
  reorder (Once ChooseEnding :: end_permits [Once CloseBuffer; InPhase TermPhase] : base_permits)
    ([] : list mine).
  apply r_base. intros s Hs Hf.
  destruct (choose_ok _ _ false s _ Hs Hf) as (Hs' & Hm & Hc); [done|].
  split_and!; [by destruct Hs'|done|].
  exists (own (end_permits [Once CloseBuffer; Extra (Ending false); InPhase TermPhase])). split.
  { intros x. specialize (Hc x). etrans; [|exact Hc]. clear.
    destruct x as [[]|[]|[]]; simpl; repeat case_decide; simplify_eq; first [done|lia]. }
  apply r_direct, proto_bind, proto_bind. lazy iota.
  apply r_close_wait, r_base, (pub_proto_TerminateNow _ _ [Once CloseBuffer; Extra (Ending false);
    InPhase TermPhase]).
  cbn [pbind]. reorder ([Once CloseBuffer; Extra (Ending false); InPhase TermPhase] : base_permits) [MaySweep].
  apply proto_bind, r_drainQueue. intros n.
  apply proto_unbind, r_base, proto_bind, proto_report_undelivered. intros err. cbn [proto].
  reorder ([Extra (DrainAt n); Extra (Ending false); InPhase TermPhase] : base_permits) ([] : list mine).
  by apply (r_base _ _ _ []), proto_executor_Terminate.
Qed.

Lemma r_unsolicitedTermination cause listener :
  rproto [] [] (unsolicitedTermination cause listener) anything.
Proof using All.
  apply r_base, proto_bind, proto_terminate; try apply _; [intros err; exact I|].
  apply proto_bind. eapply proto_weaken; [|apply r_unsolicited_body].
  intros err n Hn. apply r_section_end; [done|]. intros l2. apply proto_bind.
  destruct listener; [|done]. apply proto_unbind, r_base, proto_update; [by intros s []|done|done].
Qed.
End request_reply.

(** * The calls of an application *)

Section theorems.
Context {M U R : Type} `{!EqDecision M} `{!EqDecision U} `{!EqDecision R}.

(** A call of the application, a goroutine of the session's events, the service going up or
    down; [e1], [e2] and [e3] are the errors of preparing the message. *)
Inductive call : Type :=
| CallPublishBytes (built : M + go_error) (e1 e2 e3 : option go_error) (handler : bool)
    (timeout : Z) (userContext : U)
| CallPublishString (built : M + go_error) (e1 e2 e3 : option go_error) (handler : bool)
    (timeout : Z) (userContext : U)
| CallPublish (msg : M + string) (duplicate setProperties e1 e2 e3 : option go_error)
    (handler : bool) (timeout : Z) (userContext : U)
| CallPublishAwaitResponse (msg : M + string) (duplicate setProperties e1 e2 e3 : option go_error)
    (timeout : Z) (noContext : U)
| CallStart (subscribeError : option ErrorInfo)
| CallTerminate (timer unsubscribed : bool)
| CallDown (cause : option go_error) (listener : bool)
| CallCanSend
| CallNotifyWhenReady
| ParentChange (up : bool).

Definition call_prog (c : call) : prog (@requestReplyPublisher M U R) (option go_error) :=
  match c with
  | CallPublishBytes built e1 e2 e3 h t u => PublishBytes built e1 e2 e3 h t u
  | CallPublishString built e1 e2 e3 h t u => PublishString built e1 e2 e3 h t u
  | CallPublish msg d p e1 e2 e3 h t u => Publish msg d p e1 e2 e3 h t u
  | CallPublishAwaitResponse msg d p e1 e2 e3 t u => PublishAwaitResponse msg d p e1 e2 e3 t u
  | CallStart subscribeError => Start subscribeError
  | CallTerminate timer unsubscribed => Terminate timer unsubscribed
  | CallDown cause listener => unsolicitedTermination cause listener
  | CallCanSend => notifyReady ;;;; PRet None
  | CallNotifyWhenReady => NotifyWhenReady ;;;; PRet None
  | ParentChange up => on_base (update (set_parent up)) ;;;; PRet None
  end.

(** A publisher, the goroutine of its task buffer, the context thread with its replies and any
    calls. *)
Definition scene (fuel : nat) (arriving : list (string * R)) (calls : list call)
    (s : @requestReplyPublisher M U R)
    : @requestReplyPublisher M U R * list (prog (@requestReplyPublisher M U R) (option go_error)) :=
  (s, run_tasks fuel :: onReplies arriving :: (call_prog <$> calls)).

Section buffered.
Context (config : backpressureConfiguration) (bufferSize : nat).
Context (Hbuffered : config ≠ BackpressureDirect).

Abbreviation size_ := (size_of config bufferSize).
Abbreviation bheld := (lc_held (S := @publisher (@request M))
  DirectPublisher.gate DirectPublisher.spent DirectPublisher.extra).
Abbreviation rheld := (whole_held (base (M:=M) (U:=U) (R:=R)) bheld held_here).
Abbreviation rtotal := (whole_total lc_total (λ _ : @mine R, 1)).
Abbreviation ok := (pool_ok (rr_inv (U := U) config size_) rr_move rheld rtotal).

Lemma r_call c : proto (rr_inv config size_) rr_move rheld rtotal (join (own []) (own []))
  (call_prog c) anything.
Proof using All.
  destruct c as [built e1 e2 e3 h t u|built e1 e2 e3 h t u|msg d p e1 e2 e3 h t u|msg d p e1 e2 e3 t u|
    err|timer un|cause listener| | |up]; cbn [call_prog].
  - destruct built; [by apply (r_go_outcome config size_ Hbuffered)|done].
  - destruct built; [by apply (r_go_outcome config size_ Hbuffered)|done].
  - apply (r_check config size_ [] []). intros [err|]; [done|].
    destruct (prepare msg d p); [by apply (r_go_outcome config size_ Hbuffered)|done].
  - by apply (r_PublishAwaitResponse config size_ Hbuffered).
  - by apply (r_Start config size_ Hbuffered).
  - by apply (r_Terminate config size_ Hbuffered).
  - by apply (r_unsolicitedTermination config size_ Hbuffered).
  - by apply (r_base config size_ _ _ (own []) []), proto_notifyReady.
  - unfold NotifyWhenReady. apply (r_base config size_ _ _ (own []) []).
    unfold DirectPublisher.NotifyWhenReady, DirectPublisher.IsReady, IsRunning.
    apply proto_bind, proto_load_inv. intros s1 _. destruct (bool_decide _); [|done].
    apply proto_load_inv. intros s2 _. case_match; [|done]. apply proto_unbind. by apply proto_notifyReady.
  - by apply (r_base config size_ _ _ (own []) []), proto_update; [intros s []| |].
Qed.

Lemma construct_rr_inv up readiness answers :
  rr_inv config size_ (construct (M:=M) (U:=U) (R:=R) up config bufferSize readiness answers).
Proof using Type.
  split; simpl; try done.
  - apply construct_inv.
  - intros k r i Hin. by apply elem_of_nil in Hin.
  - intros i m err Hin. by apply elem_of_nil in Hin.
  - apply NoDup_nil_2.
Qed.

Lemma request_scene_ok fuel arriving calls up readiness answers :
  ok (scene fuel arriving calls (construct up config bufferSize readiness answers)).
Proof using All.
  exists (join (own [Extra (RunnerAt Idle)]) (own []) :: replicate (S (length calls)) (join (own []) (own []))).
  split_and!.
  - apply construct_rr_inv.
  - constructor; [by apply (r_run_tasks config size_ Hbuffered)|].
    constructor; [by apply (r_onReplies config size_)|]. simpl.
    induction calls as [|c calls IH]; simpl; constructor; [apply r_call|done].
  - intros x.
    assert (sum_list ((λ n, n x) <$> replicate (S (length calls))
      (join (own []) (own []) : lc_permit once _ + mine → nat)) = 0) as Hz.
    { rewrite fmap_replicate. destruct x; simpl; induction (length calls); done. }
    change (rheld (construct up config bufferSize readiness answers) x +
      (join (own [Extra (RunnerAt Idle)]) (own []) x +
        sum_list ((λ n, n x) <$> replicate (S (length calls)) (join (own []) (own [])))) ≤ rtotal x).
    rewrite Hz. destruct x as [[[]|[]|[]]|[]]; simpl; repeat case_decide; simplify_eq; try lia; done.
Qed.
End buffered.

Lemma rr_moves (s s' : @requestReplyPublisher M U R) : rtc rr_move s s' →
  rtc pub_move (base s) (base s') ∧ answers s `prefix_of` answers s' ∧ (swept s = true → swept s' = true).
Proof using Type.
  induction 1 as [s|s1 s2 s3 (Hb & Ha & Hw) _ (IHb & IHa & IHw)]; [done|].
  split_and!; [by eapply rtc_l|by etrans|auto].
Qed.

(** The reply given to a request came for its correlation identifier. *)
Lemma given_came config size_ (s : @requestReplyPublisher M U R) i e r :
  rr_inv config size_ s → entries s !! i = Some e → (r, Given) ∈ gone e → (key e, r, Some i) ∈ replies s.
Proof using Type.
  intros Hs He Hg.
  assert (r ∈ taken_by i (replies s)) as Hin.
  { rewrite (entry_replies _ _ _ (rr_entries _ _ _ Hs i e He)), elem_of_app. left.
    apply list_elem_of_fmap. by exists (r, Given). }
  apply taken_elem in Hin as [k Hin]. destruct (rr_replies _ _ _ Hs k r i Hin) as (e' & He' & Hk).
  assert (e' = e) as -> by congruence. by rewrite Hk.
Qed.

End theorems.

(** * The builder *)

(** The builder is that of the direct publisher, with its defaults. *)
Definition NewRequestReplyMessagePublisherBuilderImpl : gmap string Sdt.data :=
  DefaultDirectPublisherProperties.
Definition OnBackPressureReject : Z → gmap string Sdt.data → gmap string Sdt.data := Validation.OnBackPressureReject.
Definition OnBackPressureWait : Z → gmap string Sdt.data → gmap string Sdt.data := Validation.OnBackPressureWait.
Definition FromConfigurationProvider : option (list (string * Sdt.data)) → gmap string Sdt.data → gmap string Sdt.data :=
  Validation.FromConfigurationProvider.
Definition Build `{!Sdt.GoArch} : gmap string Sdt.data → res go_error (backpressureConfiguration * option Z) :=
  Validation.Build.

(** * Concrete runs *)

(** The first identifier of the generator. *)
Definition first_id : string := (next_correlation 0).2.

Definition publish_call (m : nat) (timeout : Z) : call (M:=nat) (U:=nat) :=
  CallPublish (inl m) None None None None None true timeout 9.

Definition example_scene config arriving calls :=
  scene (M:=nat) (U:=nat) (R:=nat) 5 arriving calls (construct true config 2 true []).

(** A request is sent, its reply arrives and is given to it. *)
Lemma answered_run : ∃ s ts,
  pool_steps (example_scene BackpressureWait [(first_id, 33)] [CallStart None; publish_call 7 (-1)]) (s, ts) ∧
  bool_decide (answers s = [(0, Some 33, None)]) = true.
Proof. apply (plays_to_steps [(2, 9); (3, 11); (0, 7); (1, 4); (3, 9)]). by vm_compute. Qed.


(** Without a buffer the publisher can crash the application.  A publish that has made its
    entry when Terminate begins, and that the session answers after Terminate has closed the
    channels of the entries that are left, tells its request that it was sent, on a closed
    channel; the panic is on the goroutine of the application, and nothing recovers it. *)
Theorem late_publish_crashes :
  ∃ c, pool_steps (example_scene BackpressureDirect []
         [CallStart None; publish_call 7 5; CallTerminate true true]) c ∧ pool_panics c.
Proof. apply (plays_panic_steps [(2, 9); (3, 7); (4, 17); (3, 1)] 3). by vm_compute. Qed.

(** A request without a timeout waits for ever when the service goes down.  Its message has
    been sent, the publisher has ended by itself and is terminated, no reply can come, and
    neither the handler of the request nor its caller is ever told. *)
Theorem down_event_strands_requests :
  ∃ s ts, pool_steps (example_scene BackpressureWait []
            [CallStart None; publish_call 7 (-1); CallDown None true]) (s, ts) ∧
    (state_of (base s) = Terminated ∧ answers s = [] ∧ (at_stage <$> entries s) = [Waiting] ∧
     size (requestCorrelationMap s) = 1 ∧ (returned <$> ts) !! 3 = Some None) ∧
    ∀ c, ¬ pool_step (s, ts) c.
Proof.
  destruct (plays_out_steps [(2, 9); (3, 11); (0, 8); (3, 1); (4, 14); (0, 1)]
    (example_scene BackpressureWait [] [CallStart None; publish_call 7 (-1); CallDown None true])
    (λ s rs, bool_decide (state_of (base s) = Terminated ∧ answers s = [] ∧
       (at_stage <$> entries s) = [Waiting] ∧ size (requestCorrelationMap s) = 1 ∧ rs !! 3 = Some None)))
    as (s & ts & Hs & Hc%bool_decide_eq_true & Hw); [by vm_compute|]. by exists s, ts.
Qed.

(** A reply can be taken and never be freed: it arrives when the timer of its request has fired
    and the request is still in the table; the session is told that it was taken, and it is
    dropped with the channel it is in. *)
Theorem late_reply_leaks :
  ∃ s ts, pool_steps (example_scene BackpressureWait [(first_id, 33)] [CallStart None; publish_call 7 5]) (s, ts) ∧
    answers s = [(0, None, Some reply_timeout_error)] ∧ replies s = [(first_id, 33, Some 0)] ∧
    (gone <$> entries s) = [[(33, Leaked)]] ∧ requestCorrelationMap s = ∅.
Proof.
  destruct (plays_to_steps [(2, 9); (3, 11); (0, 7); (3, 3); (1, 4); (3, 3)]
    (example_scene BackpressureWait [(first_id, 33)] [CallStart None; publish_call 7 5])
    (λ s, bool_decide (answers s = [(0, None, Some reply_timeout_error)] ∧
       replies s = [(first_id, 33, Some 0)] ∧ (gone <$> entries s) = [[(33, Leaked)]] ∧
       requestCorrelationMap s = ∅)))
    as (s & ts & Hs & Hc%bool_decide_eq_true); [by vm_compute|]. by exists s, ts.
Qed.

(** A start that fails leaves the goroutine of the task buffer behind: the publisher is terminated,
    Terminate does nothing, and the goroutine waits for ever. *)
Theorem failed_start_leaves_task_goroutine :
  ∃ s ts, pool_steps (example_scene BackpressureWait []
            [CallStart (Some (mkErrorInfo ReturnCodeFail None)); CallTerminate true true]) (s, ts) ∧
    (state_of (base s) = Terminated ∧ runner_at (past (base s)) = Idle ∧ spawned (base s) = true ∧
     (returned <$> ts) !! 0 = Some None ∧ (returned <$> ts) !! 3 = Some (Some None)) ∧
    ∀ c, ¬ pool_step (s, ts) c.
Proof.
  destruct (plays_out_steps [(2, 10); (3, 3)]
    (example_scene BackpressureWait []
       [CallStart (Some (mkErrorInfo ReturnCodeFail None)); CallTerminate true true])
    (λ s rs, bool_decide (state_of (base s) = Terminated ∧ runner_at (past (base s)) = Idle ∧
       spawned (base s) = true ∧ rs !! 0 = Some None ∧ rs !! 3 = Some (Some None))))
    as (s & ts & Hs & Hc%bool_decide_eq_true & Hw); [by vm_compute|]. by exists s, ts.
Qed.
