(* ===== verification/Correlation.v ===== *)
(** The correlation tables of core: the map from the identifiers of outstanding requests to
    the channels their results are delivered on, which internal/impl/core/receiver.go keeps
    for subscriptions and internal/impl/core/endpoint_provisioner.go for provisioning.

    Every operation runs under the mutex of its table.  Channels are references into a heap,
    since the table and the goroutine that waits share them; [sent] is history. *)

From Stdlib Require Import ZArith Lia.
From stdpp Require Import base list gmap strings.
From S2P Require Import Prelude GoStrconv GoEffects Errors.

(** The event delivered to the waiter. *)
Record corr_event : Type := mkCorrEvent { ev_id : Z; ev_err : option go_error }.

Record table : Type := mkTable {
  correlation : gmap Z nat;
  correlationID : Z;
  channels : list (chan corr_event);
  sent : list (nat * corr_event);
}.

Definition new_table : table := mkTable ∅ 0 [] [].

Definition set_correlation (m : gmap Z nat) (t : table) : table :=
  mkTable m (correlationID t) (channels t) (sent t).

(** A fresh identifier with a channel of one place. *)
Definition newCorrelation : M table (Z * nat) := λ t,
  let newID := wrapU 64 (correlationID t + 1) in
  let resultChan := length (channels t) in
  Done (newID, resultChan)
    (mkTable (<[newID := resultChan]> (correlation t)) newID (channels t ++ [make_chan 1])
       (sent t)).

Definition ClearCorrelation (id : Z) : M table unit :=
  modify (λ t, set_correlation (delete id (correlation t)) t).

(** [resultChan <- event]; a reference outside the heap is a nil channel. *)
Definition deliver (resultChan : nat) (ev : corr_event) : M table unit := λ t,
  match channels t !! resultChan with
  | None => Blocked t
  | Some c =>
      match chan_send ev c with
      | Done _ c' =>
          Done tt (mkTable (correlation t) (correlationID t) (<[resultChan := c']> (channels t))
                     (sent t ++ [(resultChan, ev)]))
      | Panicked p _ => Panicked p t
      | Blocked _ => Blocked t
      end
  end.

(** The result of a request comes in. *)
Definition handleEvent (corrP : Z) (err : option go_error) : M table unit :=
  let* t := get in
  match correlation t !! corrP with
  | Some resultChan =>
      ClearCorrelation corrP ;;; deliver resultChan (mkCorrEvent corrP err)
  | None => ret tt
  end.

(** The loop of the termination over the entries [order] of the table. *)
Fixpoint drain (order : list (Z * nat)) (terminationError : go_error) : M table unit :=
  match order with
  | [] => ret tt
  | (id, resultChan) :: order =>
      ClearCorrelation id ;;;
      deliver resultChan (mkCorrEvent id (Some terminationError)) ;;;
      drain order terminationError
  end.

(** A request: the call into the C library comes back with [errInfo]. *)
Definition request (errInfo : option ErrorInfo) : M table (res ErrorInfo (Z * nat)) :=
  let* r := newCorrelation in
  match errInfo with
  | Some e => ClearCorrelation (fst r) ;;; ret (Err e)
  | None => ret (Ok r)
  end.

(** The waiter takes what is on its channel, if there is something. *)
Definition take_result (c : nat) : M table (option corr_event) := λ t,
  match channels t !! c with
  | Some ch =>
      match chan_try_recv ch with
      | Done (Some (Some ev)) ch' =>
          Done (Some ev) (mkTable (correlation t) (correlationID t) (<[c := ch']> (channels t))
                            (sent t))
      | _ => Done None t
      end
  | None => Done None t
  end.

(** * The invariant *)

(** A channel in the table is empty and open; nothing was sent on it; no two identifiers share
    one; identifiers come from the counter, which has room for [n] more. *)
Record table_ok (n : nat) (t : table) : Prop := {
  ok_counter : (0 ≤ correlationID t)%Z ∧ (correlationID t + Z.of_nat n < 2 ^ 64)%Z;
  ok_ids : ∀ id c, correlation t !! id = Some c → (0 < id ≤ correlationID t)%Z;
  ok_fresh : ∀ id c, correlation t !! id = Some c →
    channels t !! c = Some (make_chan 1) ∧ c ∉ (sent t).*1;
  ok_inj : ∀ id id' c, correlation t !! id = Some c → correlation t !! id' = Some c → id = id';
  ok_once : NoDup (sent t).*1;
  ok_heap : ∀ c ev, (c, ev) ∈ sent t → c < length (channels t);
}.

Lemma new_table_ok n : (Z.of_nat n < 2 ^ 64)%Z → table_ok n new_table.
Proof.
  intros Hn. split; simpl; [lia|by intros ? ?..|constructor|]. intros c ev H. set_solver.
Qed.

Lemma table_ok_weaken n n' t : n' ≤ n → table_ok n t → table_ok n' t.
Proof. intros Hn [[? ?] ? ? ? ? ?]. split; try done. lia. Qed.

Lemma newCorrelation_ok n t : table_ok (S n) t →
  ∃ t', newCorrelation t = Done ((correlationID t + 1)%Z, length (channels t)) t' ∧
    table_ok n t' ∧
    correlation t' = <[(correlationID t + 1)%Z := length (channels t)]> (correlation t) ∧
    correlation t !! (correlationID t + 1)%Z = None ∧ sent t' = sent t.
Proof.
  intros [[Hc1 Hc2] Hids Hfr Hinj Honce Hheap].
  unfold newCorrelation. rewrite wrapU_id by (unfold inU; lia).
  assert (correlation t !! (correlationID t + 1)%Z = None) as Hnone.
  { destruct (correlation t !! _) as [c|] eqn:H; [|done]. apply Hids in H. lia. }
  assert (∀ id c, correlation t !! id = Some c → c < length (channels t)) as Hlt.
  { intros id c H. destruct (Hfr id c H) as [H' _]. by eapply lookup_lt_Some. }
  eexists. split; [reflexivity|]. split_and!; try done. split; simpl; try done.
  - lia.
  - intros id c. rewrite lookup_insert_Some. intros [[<- <-]|[_ H]]; [lia|]. apply Hids in H. lia.
  - intros id c. rewrite lookup_insert_Some. intros [[<- <-]|[_ H]].
    + split; [by rewrite lookup_app_r, Nat.sub_diag by done|].
      intros ([c ev] & Hc & H)%list_elem_of_fmap. apply Hheap in H. simpl in Hc. lia.
    + split; [|by eapply Hfr]. rewrite lookup_app_l by (by eapply Hlt). by eapply Hfr.
  - intros id id' c. rewrite !lookup_insert_Some.
    intros [[<- <-]|[_ H]] [[<- Hc]|[_ H']]; try done.
    + apply Hlt in H'. lia.
    + subst. apply Hlt in H. lia.
    + by eapply Hinj.
  - intros c ev H. rewrite length_app. apply Hheap in H. lia.
Qed.

Lemma Clear_ok n id t : table_ok n t →
  table_ok n (set_correlation (delete id (correlation t)) t).
Proof.
  intros [Hc Hids Hfr Hinj Honce Hheap]. split; simpl; try done.
  - intros id' c. rewrite lookup_delete_Some. intros [_ H]. by eapply Hids.
  - intros id' c. rewrite lookup_delete_Some. intros [_ H]. by eapply Hfr.
  - intros i1 i2 c. rewrite !lookup_delete_Some. intros [_ H1] [_ H2]. by eapply Hinj.
Qed.

(** Resolving an outstanding identifier neither blocks nor panics. *)
Lemma resolve_ok n id c err t : table_ok n t → correlation t !! id = Some c →
  ∃ t', (ClearCorrelation id ;;; deliver c (mkCorrEvent id err)) t = Done tt t' ∧
    table_ok n t' ∧ correlation t' = delete id (correlation t) ∧
    sent t' = sent t ++ [(c, mkCorrEvent id err)] ∧
    channels t' = <[c := mkChan 1 [mkCorrEvent id err] false]> (channels t).
Proof.
  intros [Hc Hids Hfr Hinj Honce Hheap] Hid. destruct (Hfr id c Hid) as [Hch Hns].
  unfold bind, ClearCorrelation, modify, deliver. simpl. rewrite Hch. simpl.
  eexists. split; [reflexivity|]. split_and!; try done.
  assert (c < length (channels t)) as Hlt by (by eapply lookup_lt_Some).
  split; simpl; try done.
  - intros id' c'. rewrite lookup_delete_Some. intros [_ H]. by eapply Hids.
  - intros id' c'. rewrite lookup_delete_Some. intros [Hne H]. destruct (Hfr id' c' H).
    assert (c ≠ c') by (intros ->; apply Hne; by eapply Hinj).
    split; [by rewrite list_lookup_insert_ne|]. rewrite fmap_app. set_solver.
  - intros i1 i2 c'. rewrite !lookup_delete_Some. intros [_ H1] [_ H2]. by eapply Hinj.
  - rewrite fmap_app. apply NoDup_app. split_and!; [done|set_solver|apply NoDup_singleton].
  - intros c' ev'. rewrite length_insert, elem_of_app, list_elem_of_singleton.
    intros [H|[= -> ->]]; [by eapply Hheap|done].
Qed.

Lemma handleEvent_ok n id err t : table_ok n t →
  ∃ t', handleEvent id err t = Done tt t' ∧ table_ok n t' ∧
    correlation t' = delete id (correlation t) ∧
    sent t' = sent t ++
      match correlation t !! id with Some c => [(c, mkCorrEvent id err)] | None => [] end.
Proof.
  intros Ht. unfold handleEvent, bind at 1, get.
  destruct (correlation t !! id) as [c|] eqn:Hid.
  - destruct (resolve_ok n id c err t Ht Hid) as (t' & Hr & Ht' & Hc & Hs & _).
    exists t'. by split_and!.
  - exists t. split_and!; [done|done|by rewrite delete_id|by rewrite app_nil_r].
Qed.

(** The termination empties the table and gives every waiter the error. *)
Lemma drain_ok n err order t : table_ok n t → range_order (correlation t) order →
  ∃ t', drain order err t = Done tt t' ∧ table_ok n t' ∧ correlation t' = ∅ ∧
    sent t' = sent t ++ ((λ p, (p.2, mkCorrEvent p.1 (Some err))) <$> order).
Proof.
  revert t. induction order as [|[id c] order IH]; intros t Ht Ho.
  - exists t. split_and!; [done|done| |by rewrite app_nil_r].
    apply map_eq. intros id. rewrite lookup_empty.
    destruct (correlation t !! id) as [c|] eqn:Hid; [|done].
    apply (range_order_elem _ _ _ _ Ho) in Hid. by apply not_elem_of_nil in Hid.
  - assert (correlation t !! id = Some c) as Hid
      by (apply (range_order_elem _ _ _ _ Ho); left).
    destruct (resolve_ok n id c (Some err) t Ht Hid) as (t1 & Hr & Ht1 & Hc & Hs & _).
    assert (range_order (correlation t1) order) as Ho1.
    { rewrite Hc. unfold range_order in *.
      apply (Permutation_cons_inv (a := (id, c))). rewrite Ho.
      rewrite <-(map_to_list_delete (correlation t) id c Hid). done. }
    destruct (IH t1 Ht1 Ho1) as (t' & Hd & Ht' & He & Hs').
    exists t'. split_and!; [|done|done|].
    + cbn [drain]. unfold bind at 1. unfold bind at 1 in Hr. simpl in Hr |- *.
      unfold bind. by rewrite Hr.
    + rewrite Hs', Hs, <-app_assoc. done.
Qed.

(** * Any sequence of operations *)

Inductive table_op : Type :=
| OpRequest (errInfo : option ErrorInfo)
| OpNew
| OpClear (id : Z)
| OpEvent (id : Z) (err : option go_error)
| OpTerminate (err : go_error) (order : list (Z * nat))
| OpTake (c : nat).

Definition run_op (o : table_op) : M table unit :=
  match o with
  | OpRequest e => let* _ := request e in ret tt
  | OpNew => let* _ := newCorrelation in ret tt
  | OpClear id => ClearCorrelation id
  | OpEvent id err => handleEvent id err
  | OpTerminate err order => drain order err
  | OpTake c => let* _ := take_result c in ret tt
  end.

(** A termination visits the table it finds. *)
Definition op_valid (o : table_op) (t : table) : Prop :=
  match o with OpTerminate _ order => range_order (correlation t) order | _ => True end.

Definition op_news (o : table_op) : nat :=
  match o with OpRequest _ | OpNew => 1 | _ => 0 end.

(** The results of the operations one after the other. *)
Inductive run_ops : table → list table_op → outcome table unit → Prop :=
| run_ops_nil t : run_ops t [] (Done tt t)
| run_ops_cons t o os t' r :
    op_valid o t → run_op o t = Done tt t' → run_ops t' os r → run_ops t (o :: os) r
| run_ops_stuck t o os r :
    op_valid o t → run_op o t = r → (∀ t', r ≠ Done tt t') → run_ops t (o :: os) r.

Lemma take_result_ok n c t : table_ok n t →
  ∃ r t', take_result c t = Done r t' ∧ table_ok n t' ∧ correlation t' = correlation t ∧
    sent t' = sent t.
Proof.
  intros Ht. unfold take_result. destruct (channels t !! c) as [ch|] eqn:Hch; [|by eexists _, t].
  unfold chan_try_recv. destruct (chan_buf ch) as [|ev buf] eqn:Hb.
  { destruct (chan_closed ch); by eexists _, t. }
  eexists _, _. split; [reflexivity|]. split_and!; [|done|done].
  destruct Ht as [Hc Hids Hfr Hinj Honce Hheap]. split; simpl; try done.
  - intros id c' Hid. destruct (Hfr id c' Hid) as [Hc' Hns]. split; [|done].
    rewrite list_lookup_insert_ne; [done|]. intros ->. rewrite Hch in Hc'.
    injection Hc' as ->. done.
  - intros c' ev' H. rewrite length_insert. by eapply Hheap.
Qed.

Lemma run_op_ok n o t : table_ok (op_news o + n) t → op_valid o t →
  ∃ t', run_op o t = Done tt t' ∧ table_ok n t'.
Proof.
  intros Ht Hv. destruct o as [e| |id|id err|err order|c]; simpl in *.
  - destruct (newCorrelation_ok n t Ht) as (t1 & Hr & Ht1 & _).
    unfold request, bind. rewrite Hr. destruct e; simpl; eexists; (split; [reflexivity|]); [|done].
    by apply Clear_ok.
  - destruct (newCorrelation_ok n t Ht) as (t1 & Hr & Ht1 & _).
    unfold bind. rewrite Hr. by eexists.
  - eexists. split; [reflexivity|]. by apply Clear_ok.
  - destruct (handleEvent_ok n id err t Ht) as (t' & ? & ? & _). by exists t'.
  - destruct (drain_ok n err order t Ht Hv) as (t' & ? & ? & _). by exists t'.
  - destruct (take_result_ok n c t Ht) as (r & t' & Hr & ? & _). unfold bind. rewrite Hr. by exists t'.
Qed.

Lemma run_ops_ok n os t r :
  table_ok (sum_list (op_news <$> os) + n) t → run_ops t os r →
  ∃ t', r = Done tt t' ∧ table_ok n t'.
Proof.
  intros Ht Hr. revert Ht. induction Hr as [t|t o os t' r Hv Ho Hr IH|t o os r Hv Ho Hd]; intros Ht.
  - by exists t.
  - simpl in Ht. rewrite <-Nat.add_assoc in Ht.
    destruct (run_op_ok _ o t Ht Hv) as (t2 & Ho2 & Ht2).
    rewrite Ho in Ho2. injection Ho2 as <-. by apply IH.
  - simpl in Ht. rewrite <-Nat.add_assoc in Ht.
    destruct (run_op_ok _ o t Ht Hv) as (t2 & Ho2 & Ht2). rewrite Ho in Ho2. by destruct (Hd t2).
Qed.

(** C20: whatever requests, results, cancellations and terminations follow each other, in any
    order, no operation blocks or panics while it holds the lock of the table, and every
    channel gets at most one result, which it has room for. *)
Theorem results_delivered_once os r :
  (Z.of_nat (sum_list (op_news <$> os)) < 2 ^ 64)%Z →
  run_ops new_table os r →
  ∃ t, r = Done tt t ∧ NoDup (sent t).*1 ∧
    (∀ id c, correlation t !! id = Some c →
       channels t !! c = Some (make_chan 1) ∧ c ∉ (sent t).*1).
Proof.
  intros Hn Hr. destruct (run_ops_ok 0 os new_table r) as (t & -> & Ht).
  - apply new_table_ok. by rewrite Nat.add_0_r.
  - done.
  - exists t. destruct Ht. by split_and!.
Qed.

(** Two requests, one that fails, one that is answered twice and taken once, then the end. *)
Definition example_ops : list table_op :=
  [OpRequest None; OpRequest (Some (GetLastErrorInfoReturnCodeOnly ReturnCodeFail));
   OpEvent 1 None; OpEvent 1 None; OpTake 0; OpNew;
   OpTerminate (PlainError "down") [(3%Z, 2)]].

Lemma results_delivered_once_witness :
  ∃ t, run_ops new_table example_ops (Done tt t) ∧ NoDup (sent t).*1 ∧ (sent t).*1 = [0; 2].
Proof.
  assert (∃ t, run_ops new_table example_ops (Done tt t) ∧ (sent t).*1 = [0; 2])
    as (t & Ht & Hs).
  { eexists. split.
    - repeat (eapply run_ops_cons;
        [first [exact I|unfold op_valid, range_order; vm_compute; reflexivity]
        |vm_compute; reflexivity|]).
      apply run_ops_nil.
    - reflexivity. }
  exists t. split; [exact Ht|]. split; [|exact Hs].
  assert (Z.of_nat (sum_list (op_news <$> example_ops)) < 2 ^ 64)%Z as Hn
    by (vm_compute; reflexivity).
  destruct (results_delivered_once example_ops (Done tt t) Hn Ht) as (t' & He & Hnd & _).
  injection He as ->. exact Hnd.
Defined.
