(* ===== verification/CoreReceiver.v ===== *)
(** The receiver service of a session, internal/impl/core/receiver.go, and the endpoint
    provisioner, internal/impl/core/endpoint_provisioner.go: two clients of a correlation
    table and of the event service.

    A call into the C session is logged together with the identifier of its request; its
    result is an argument. *)

From Stdlib Require Import ZArith Lia.
From stdpp Require Import base list gmap strings.
From S2P Require Import Prelude GoStrconv GoEffects Errors Events Correlation.

#[local] Open Scope Z_scope.

(** * The receiver service *)

(** The handlers the services register with the event service. *)
Inductive result_handler : Type :=
| HandleSubscriptionOK | HandleSubscriptionErr | HandleProvisionOK | HandleProvisionErr.

Inductive receiver_call : Type :=
| SessionSubscribe (topic : string) (ptr id : Z)
| SessionUnsubscribe (topic : string) (ptr id : Z)
| EndpointUnsubscribeCall (properties : list string) (topic : string) (id : Z)
| FlowSubscribe (topic : string) (id : Z)
| FlowUnsubscribe (topic : string) (id : Z)
| EndpointProvision (properties : list string)
| EndpointProvisionAsync (properties : list string) (id : Z) (ignoreExistErrors : bool)
| EndpointDeprovisionAsync (properties : list string) (id : Z) (ignoreMissingErrors : bool)
| SetMessageCallback (registered : bool).

Section receiver.
(** Receive callbacks. *)
Context {C : Type}.

Record ccsmpBackedReceiver : Type := mkReceiver {
  running : Z;
  rxMap : gmap Z C;
  dispatchID : Z;
  subscriptions : table;
  subscriptionOkEvent : Z;
  subscriptionErrorEvent : Z;
  receiver_calls : list receiver_call;
}.

Definition newCcsmpReceiver : ccsmpBackedReceiver := mkReceiver 0 ∅ 0 new_table 0 0 [].

Definition set_running (z : Z) (r : ccsmpBackedReceiver) : ccsmpBackedReceiver :=
  mkReceiver z (rxMap r) (dispatchID r) (subscriptions r) (subscriptionOkEvent r)
    (subscriptionErrorEvent r) (receiver_calls r).
Definition set_rx (m : gmap Z C) (d : Z) (r : ccsmpBackedReceiver) : ccsmpBackedReceiver :=
  mkReceiver (running r) m d (subscriptions r) (subscriptionOkEvent r)
    (subscriptionErrorEvent r) (receiver_calls r).
Definition set_subscriptions (t : table) (r : ccsmpBackedReceiver) : ccsmpBackedReceiver :=
  mkReceiver (running r) (rxMap r) (dispatchID r) t (subscriptionOkEvent r)
    (subscriptionErrorEvent r) (receiver_calls r).
Definition set_events (ok err : Z) (r : ccsmpBackedReceiver) : ccsmpBackedReceiver :=
  mkReceiver (running r) (rxMap r) (dispatchID r) (subscriptions r) ok err (receiver_calls r).
Definition log_call (c : receiver_call) (r : ccsmpBackedReceiver) : ccsmpBackedReceiver :=
  mkReceiver (running r) (rxMap r) (dispatchID r) (subscriptions r) (subscriptionOkEvent r)
    (subscriptionErrorEvent r) (receiver_calls r ++ [c]).

Abbreviation RM := (M ccsmpBackedReceiver).
Definition on_table {A} (m : M table A) : RM A := zoom subscriptions set_subscriptions m.

(** ** Receive callbacks *)

(** The callback a message is handed to; without one the message is refused. *)
Definition rxCallback (userP : Z) (r : ccsmpBackedReceiver) : option C := rxMap r !! userP.

Definition RegisterRXCallback (msgCallback : C) (r : ccsmpBackedReceiver)
    : Z * ccsmpBackedReceiver :=
  let dispatchPointer := wrapU 64 (dispatchID r + 1) in
  (dispatchPointer, set_rx (<[dispatchPointer := msgCallback]> (rxMap r)) dispatchPointer r).

Definition UnregisterRXCallback (ptr : Z) (r : ccsmpBackedReceiver) : ccsmpBackedReceiver :=
  set_rx (delete ptr (rxMap r)) (dispatchID r) r.

(** ** Requests *)

Definition ClearSubscriptionCorrelation (id : Z) : RM unit := on_table (ClearCorrelation id).

(** A request of the session under a new correlation: [call] is the call into C, [errInfo]
    its result. *)
Definition correlated (call : Z → receiver_call) (errInfo : option ErrorInfo)
    : RM (res ErrorInfo (Z * nat)) :=
  let* r := on_table newCorrelation in
  modify (log_call (call (fst r))) ;;;
  match errInfo with
  | Some e => ClearSubscriptionCorrelation (fst r) ;;; ret (Err e)
  | None => ret (Ok r)
  end.

Definition Subscribe (topic : string) (ptr : Z) : option ErrorInfo → RM (res ErrorInfo (Z * nat)) :=
  correlated (SessionSubscribe topic ptr).
Definition Unsubscribe (topic : string) (ptr : Z) : option ErrorInfo → RM (res ErrorInfo (Z * nat)) :=
  correlated (SessionUnsubscribe topic ptr).

Definition EndpointPropID : string := "ENDPOINT_ID".
Definition EndpointPropQueue : string := "2".
Definition EndpointPropDurable : string := "ENDPOINT_DURABLE".
Definition PropEnableVal : string := "1".
Definition EndpointPropName : string := "ENDPOINT_NAME".
Definition EndpointPropAccesstype : string := "ENDPOINT_ACCESSTYPE".
Definition EndpointPropAccesstypeNonexclusive : string := "0".
Definition EndpointPropAccesstypeExclusive : string := "1".

Definition getEndpointProperties (queueName : string) : list string :=
  [EndpointPropID; EndpointPropQueue; EndpointPropDurable; PropEnableVal; EndpointPropName;
   queueName].

Definition ProvisionEndpoint (queueName : string) (isExclusive : bool)
    (errInfo : option ErrorInfo) : RM (option ErrorInfo) :=
  modify (log_call (EndpointProvision
    (getEndpointProperties queueName ++ [EndpointPropAccesstype] ++
     [if isExclusive then EndpointPropAccesstypeExclusive
      else EndpointPropAccesstypeNonexclusive]))) ;;;
  ret errInfo.

Definition EndpointUnsubscribe (queueName topic : string)
    : option ErrorInfo → RM (res ErrorInfo (Z * nat)) :=
  correlated (EndpointUnsubscribeCall (getEndpointProperties queueName) topic).

(** The persistent receiver's subscriptions go through its parent's table. *)
Definition persistent_Subscribe (topic : string)
    : option ErrorInfo → RM (res ErrorInfo (Z * nat)) := correlated (FlowSubscribe topic).
Definition persistent_Unsubscribe (topic : string)
    : option ErrorInfo → RM (res ErrorInfo (Z * nat)) := correlated (FlowUnsubscribe topic).

(** ** Results *)

Definition handleSubscriptionEvent (event : sessionEventInfo) (err : option go_error)
    : RM unit := on_table (handleEvent (correlationP event) err).
Definition handleSubscriptionOK (event : sessionEventInfo) : RM unit :=
  handleSubscriptionEvent event None.
Definition handleSubscriptionErr (event : sessionEventInfo) : RM unit :=
  handleSubscriptionEvent event (info_err event).

(** ** Start and termination *)

Definition subscription_termination_error : go_error :=
  NewError ServiceUnreachableError
    "could not confirm subscription, the messaging service was terminated" None.

Section lifecycle.
Context {ES H : Type} `{HandlerRegistry ES H} (handler : result_handler → H).

Definition start (r : ccsmpBackedReceiver) (es : ES) : ccsmpBackedReceiver * ES :=
  if decide (running r = 0) then
    let r := log_call (SetMessageCallback true) (set_running 1 r) in
    let (ok, es) := add_handler SolClientSubscriptionOk (handler HandleSubscriptionOK) es in
    let (err, es) :=
      add_handler SolClientSubscriptionError (handler HandleSubscriptionErr) es in
    (set_events ok err r, es)
  else (r, es).

Inductive terminate (r : ccsmpBackedReceiver) (es : ES)
    : outcome ccsmpBackedReceiver unit → ES → Prop :=
| terminate_not_running : running r ≠ 1 → terminate r es (Done tt r) es
| terminate_running es1 es2 order :
    running r = 1 →
    remove_handler (subscriptionOkEvent r) es es1 →
    remove_handler (subscriptionErrorEvent r) es1 es2 →
    range_order (correlation (subscriptions r)) order →
    terminate r es
      (on_table (drain order subscription_termination_error)
         (log_call (SetMessageCallback false) (set_running 0 r))) es2.
End lifecycle.
End receiver.
Arguments ccsmpBackedReceiver C : clear implicits.

(** * The endpoint provisioner *)

Module Provisioner.

Record ccsmpBackedEndpointProvisioner : Type := mkProvisioner {
  isRunning : Z;
  provisions : table;
  provisionOkEvent : Z;
  provisionErrorEvent : Z;
  provisioner_calls : list receiver_call;
}.

Definition newCcsmpEndpointProvisioner : ccsmpBackedEndpointProvisioner :=
  mkProvisioner 0 new_table 0 0 [].

Definition set_provisions (t : table) (p : ccsmpBackedEndpointProvisioner)
    : ccsmpBackedEndpointProvisioner :=
  mkProvisioner (isRunning p) t (provisionOkEvent p) (provisionErrorEvent p)
    (provisioner_calls p).
Definition set_isRunning (z : Z) (p : ccsmpBackedEndpointProvisioner)
    : ccsmpBackedEndpointProvisioner :=
  mkProvisioner z (provisions p) (provisionOkEvent p) (provisionErrorEvent p)
    (provisioner_calls p).
Definition log_provision (c : receiver_call) (p : ccsmpBackedEndpointProvisioner)
    : ccsmpBackedEndpointProvisioner :=
  mkProvisioner (isRunning p) (provisions p) (provisionOkEvent p) (provisionErrorEvent p)
    (provisioner_calls p ++ [c]).

Abbreviation VM := (M ccsmpBackedEndpointProvisioner).
Definition on_provisions {A} (m : M table A) : VM A := zoom provisions set_provisions m.

Definition ClearProvisionCorrelation (id : Z) : VM unit := on_provisions (ClearCorrelation id).

Definition getNewProvisionCorrelation : VM (Z * nat) := on_provisions newCorrelation.

Definition Provision (properties : list string) (ignoreExistErrors : bool)
    (errInfo : option ErrorInfo) : VM (res ErrorInfo (Z * nat)) :=
  let* r := getNewProvisionCorrelation in
  modify (log_provision (EndpointProvisionAsync properties (fst r) ignoreExistErrors)) ;;;
  match errInfo with
  | Some e => ClearProvisionCorrelation (fst r) ;;; ret (Err e)
  | None => ret (Ok r)
  end.

Definition Deprovision (properties : list string) (ignoreMissingErrors : bool)
    (errInfo : option ErrorInfo) : VM (res ErrorInfo (Z * nat)) :=
  let* r := getNewProvisionCorrelation in
  modify (log_provision (EndpointDeprovisionAsync properties (fst r) ignoreMissingErrors)) ;;;
  match errInfo with
  | Some e => ClearProvisionCorrelation (fst r) ;;; ret (Err e)
  | None => ret (Ok r)
  end.

Definition handleProvisionAndDeprovisionEvent (event : sessionEventInfo)
    (err : option go_error) : VM unit := on_provisions (handleEvent (correlationP event) err).
Definition handleProvisionAndDeprovisionOK (event : sessionEventInfo) : VM unit :=
  handleProvisionAndDeprovisionEvent event None.
Definition handleProvisionAndDeprovisionErr (event : sessionEventInfo) : VM unit :=
  handleProvisionAndDeprovisionEvent event (info_err event).

Definition provision_termination_error : go_error :=
  NewError ServiceUnreachableError
    "could not confirm provision/deprovision, the messaging service was terminated" None.

Section lifecycle.
Context {ES H : Type} `{HandlerRegistry ES H} (handler : result_handler → H).

Definition start_provisioner (p : ccsmpBackedEndpointProvisioner) (es : ES)
    : ccsmpBackedEndpointProvisioner * ES :=
  if decide (isRunning p = 0) then
    let (ok, es) := add_handler SolClientProvisionOk (handler HandleProvisionOK) es in
    let (err, es) := add_handler SolClientProvisionError (handler HandleProvisionErr) es in
    (mkProvisioner 1 (provisions p) ok err (provisioner_calls p), es)
  else (p, es).

Inductive terminate_provisioner (p : ccsmpBackedEndpointProvisioner) (es : ES)
    : outcome ccsmpBackedEndpointProvisioner unit → ES → Prop :=
| provisioner_not_running : isRunning p ≠ 1 → terminate_provisioner p es (Done tt p) es
| provisioner_running es1 es2 order :
    isRunning p = 1 →
    remove_handler (provisionOkEvent p) es es1 →
    remove_handler (provisionErrorEvent p) es1 es2 →
    range_order (correlation (provisions p)) order →
    terminate_provisioner p es
      (on_provisions (drain order provision_termination_error) (set_isRunning 0 p)) es2.
End lifecycle.
End Provisioner.

(** * Properties *)

Section properties.
Context {C : Type}.

Lemma on_table_done {A} (m : M table A) (r : ccsmpBackedReceiver C) a t :
  m (subscriptions r) = Done a t → on_table m r = Done a (set_subscriptions t r).
Proof. unfold on_table, zoom. by intros ->. Qed.

(** The requests of the receiver service, on a topic. *)
Definition requests (queueName topic : string) (ptr : Z)
    : list (option ErrorInfo → M (ccsmpBackedReceiver C) (res ErrorInfo (Z * nat))) :=
  [Subscribe topic ptr; Unsubscribe topic ptr; EndpointUnsubscribe queueName topic;
   persistent_Subscribe topic; persistent_Unsubscribe topic].

Lemma correlated_spec n call errInfo (r : ccsmpBackedReceiver C) :
  table_ok (S n) (subscriptions r) →
  ∃ r', correlated call errInfo r =
      Done (match errInfo with
            | Some e => Err e
            | None => Ok (correlationID (subscriptions r) + 1, length (channels (subscriptions r)))
            end) r' ∧
    table_ok n (subscriptions r') ∧
    correlation (subscriptions r) !! (correlationID (subscriptions r) + 1) = None ∧
    correlation (subscriptions r') =
      match errInfo with
      | Some _ => correlation (subscriptions r)
      | None => <[correlationID (subscriptions r) + 1 := length (channels (subscriptions r))]>
                  (correlation (subscriptions r))
      end ∧
    sent (subscriptions r') = sent (subscriptions r) ∧
    receiver_calls r' = receiver_calls r ++ [call (correlationID (subscriptions r) + 1)].
Proof.
  intros Ht. destruct (newCorrelation_ok n _ Ht) as (t & Hnew & Ht' & Hc & Hnone & Hs).
  unfold correlated, bind at 1. rewrite (on_table_done _ _ _ _ Hnew).
  destruct errInfo as [e|]; eexists; (split; [reflexivity|]); split_and!; simpl; try done.
  - by apply Clear_ok.
  - rewrite Hc. by apply delete_insert_id.
Qed.

(** Every request of the receiver service (subscribing and unsubscribing on the session,
    an endpoint or a flow) leaves nothing behind when its call fails, and otherwise
    registers a fresh channel that gets the result of that request, once: the error of the
    event, or none when it succeeded; later results under the same identifier are ignored. *)
Theorem request_result n queueName topic ptr op (r : ccsmpBackedReceiver C) e info :
  table_ok (S n) (subscriptions r) → op ∈ requests queueName topic ptr →
  (∃ r', op (Some e) r = Done (Err e) r' ∧
     correlation (subscriptions r') = correlation (subscriptions r) ∧
     sent (subscriptions r') = sent (subscriptions r)) ∧
  (∃ id c r1, op None r = Done (Ok (id, c)) r1 ∧
     correlation (subscriptions r) !! id = None ∧
     (correlationP info = id → ∃ r2 r3,
        handleSubscriptionOK info r1 = Done tt r2 ∧
        handleSubscriptionErr info r1 = Done tt r3 ∧
        sent (subscriptions r2) = sent (subscriptions r) ++ [(c, mkCorrEvent id None)] ∧
        sent (subscriptions r3) = sent (subscriptions r) ++ [(c, mkCorrEvent id (info_err info))] ∧
        correlation (subscriptions r2) = correlation (subscriptions r) ∧
        correlation (subscriptions r3) = correlation (subscriptions r) ∧
        handleSubscriptionOK info r2 = Done tt r2 ∧
        handleSubscriptionErr info r3 = Done tt r3)).
Proof.
  intros Ht Hop.
  assert (∃ call, op = correlated call) as [call ->].
  { unfold requests in Hop. rewrite !elem_of_cons, elem_of_nil in Hop.
    destruct Hop as [->|[->|[->|[->|[->|[]]]]]]; by eexists. }
  split.
  - destruct (correlated_spec n call (Some e) r Ht) as (r' & Hr & _ & _ & Hc & Hs & _).
    by exists r'.
  - destruct (correlated_spec n call None r Ht) as (r1 & Hr & Ht1 & Hnone & Hc & Hs & _).
    eexists _, _, r1. split_and!; [exact Hr|done|]. intros Hid.
    assert (∀ err, ∃ r2, handleSubscriptionEvent info err r1 = Done tt r2 ∧
      sent (subscriptions r2) = sent (subscriptions r) ++
        [(length (channels (subscriptions r)), mkCorrEvent (correlationP info) err)] ∧
      correlation (subscriptions r2) = correlation (subscriptions r) ∧
      ∀ err', handleSubscriptionEvent info err' r2 = Done tt r2) as Hev.
    { intros err. destruct (handleEvent_ok n (correlationP info) err _ Ht1)
        as (t & Ht2 & _ & Hc2 & Hs2).
      rewrite Hc, Hid, lookup_insert_eq, Hs in Hs2. rewrite Hc, Hid in Hc2.
      rewrite delete_insert_id in Hc2 by done.
      eexists. split; [by apply on_table_done|]. simpl. split_and!; [by rewrite Hs2, Hid|done|].
      intros err'. unfold handleSubscriptionEvent, on_table, zoom, handleEvent, bind, get. simpl.
      rewrite Hc2, Hid, Hnone. done. }
    destruct (Hev None) as (r2 & ? & Hs2 & ? & H2).
    destruct (Hev (info_err info)) as (r3 & ? & Hs3 & ? & H3).
    rewrite Hid in Hs2, Hs3. exists r2, r3. split_and!; try done; [apply H2|apply H3].
Qed.

(** The waiters of a table all get the error of a termination. *)
Definition woken (t t' : table) (err : go_error) : Prop :=
  correlation t' = ∅ ∧
  ∀ id c, correlation t !! id = Some c → (c, mkCorrEvent id (Some err)) ∈ sent t'.

Lemma drain_wakes n err order t :
  table_ok n t → range_order (correlation t) order →
  ∃ t', drain order err t = Done tt t' ∧ woken t t' err.
Proof.
  intros Ht Ho. destruct (drain_ok n err order t Ht Ho) as (t' & Hd & _ & Hc & Hs).
  exists t'. split; [done|]. split; [done|]. intros id c Hid. rewrite Hs, elem_of_app. right.
  apply list_elem_of_fmap. exists (id, c). split; [done|]. by apply (range_order_elem _ _ _ _ Ho).
Qed.

(** C21: the receiver service registers the two handlers of subscription results when it starts;
    its termination removes exactly these, and every request still outstanding gets an
    unreachable-service error on its channel without the termination ever blocking. *)
Theorem receiver_termination {ES H : Type} `{HandlerRegistry ES H}
    (handler : result_handler → H) n (r r1 r2 : ccsmpBackedReceiver C) (es es1 es3 : ES) o :
  registry_ok 2 es → running r = 0 → start handler r es = (r1, es1) →
  table_ok n (subscriptions r2) → running r2 = 1 →
  subscriptionOkEvent r2 = subscriptionOkEvent r1 →
  subscriptionErrorEvent r2 = subscriptionErrorEvent r1 →
  terminate r2 es1 o es3 →
  running r1 = 1 ∧
  (∃ id, registered es1 id SolClientSubscriptionOk (handler HandleSubscriptionOK)) ∧
  (∃ id, registered es1 id SolClientSubscriptionError (handler HandleSubscriptionErr)) ∧
  (∀ id ev h, registered es3 id ev h ↔ registered es id ev h) ∧
  ∃ r3, o = Done tt r3 ∧ running r3 = 0 ∧
    woken (subscriptions r2) (subscriptions r3) subscription_termination_error.
Proof.
  intros Hes Hrun Hstart Ht Hrun2 Hok Herr Hterm. unfold start in Hstart.
  rewrite decide_True in Hstart by done.
  destruct (add_handler SolClientSubscriptionOk _ es) as [a esa] eqn:Ha.
  destruct (add_handler SolClientSubscriptionError _ esa) as [b esb] eqn:Hb.
  destruct (add_handler_ok _ _ _ _ _ _ Hes Ha) as (Hoka & Hfa & Hra).
  destruct (add_handler_ok _ _ _ _ _ _ Hoka Hb) as (Hokb & Hfb & Hrb).
  injection Hstart as <- <-. simpl in Hok, Herr.
  destruct Hterm as [Hne|e1 e2 order _ H1 H2 Ho]; [done|]. rewrite Hok in H1. rewrite Herr in H2.
  destruct (remove_handler_ok _ _ _ _ Hokb H1) as (Hok1 & Hr1).
  destruct (remove_handler_ok _ _ _ _ Hok1 H2) as (Hok2 & Hr2).
  split_and!; [done|..].
  - exists a. rewrite Hrb, Hra. naive_solver.
  - exists b. rewrite Hrb. naive_solver.
  - intros id ev h. rewrite Hr2, Hr1, Hrb, Hra. split; [naive_solver|].
    intros Hreg. split_and!; [by do 2 left|..]; intros ->.
    + by apply (Hfa ev h).
    + apply (Hfb ev h). rewrite Hra. by left.
  - destruct (drain_wakes n subscription_termination_error order _ Ht Ho) as (t' & Hd & Hw).
    eexists. split; [by apply on_table_done|]. done.
Qed.
End properties.

(** The endpoint provisioner keeps the same promises: a failed call leaves nothing behind, an
    outstanding one gets the result of its event, and the termination wakes every waiter with
    an unreachable-service error and removes its two handlers. *)
Theorem provisioner_results {ES H : Type} `{HandlerRegistry ES H} (handler : result_handler → H)
    n p op properties flag e info (es : ES) o es' :
  table_ok (S n) (Provisioner.provisions p) →
  op = Provisioner.Provision properties flag ∨ op = Provisioner.Deprovision properties flag →
  registry_ok 0 es → Provisioner.terminate_provisioner p es o es' →
  (∃ p', op (Some e) p = Done (Err e) p' ∧
     correlation (Provisioner.provisions p') = correlation (Provisioner.provisions p)) ∧
  (∃ id c p1, op None p = Done (Ok (id, c)) p1 ∧
     (correlationP info = id → ∃ p2,
        Provisioner.handleProvisionAndDeprovisionErr info p1 = Done tt p2 ∧
        sent (Provisioner.provisions p2) =
          sent (Provisioner.provisions p) ++ [(c, mkCorrEvent id (info_err info))] ∧
        correlation (Provisioner.provisions p2) = correlation (Provisioner.provisions p))) ∧
  (Provisioner.isRunning p = 1 →
     (∀ id ev h, registered es' id ev h ↔ registered es id ev h ∧
        id ≠ Provisioner.provisionOkEvent p ∧ id ≠ Provisioner.provisionErrorEvent p) ∧
     ∃ p3, o = Done tt p3 ∧ woken (Provisioner.provisions p) (Provisioner.provisions p3)
                              Provisioner.provision_termination_error).
Proof.
  intros Ht Hop Hes Hterm.
  destruct (newCorrelation_ok n _ Ht) as (t & Hnew & Ht' & Hc & Hnone & Hs).
  assert (∀ A (m : M table A) q a t', m (Provisioner.provisions q) = Done a t' →
    Provisioner.on_provisions m q = Done a (Provisioner.set_provisions t' q)) as Hon.
  { intros A m q a t' Hm. unfold Provisioner.on_provisions, zoom. by rewrite Hm. }
  split_and!.
  - destruct Hop as [->| ->]; eexists; (split;
      [unfold Provisioner.Provision, Provisioner.Deprovision, Provisioner.getNewProvisionCorrelation,
         bind at 1;
       rewrite (Hon _ _ _ _ _ Hnew); reflexivity|]);
      simpl; rewrite Hc; by apply delete_insert_id.
  - assert (∃ p1, op None p = Done (Ok (correlationID (Provisioner.provisions p) + 1,
      length (channels (Provisioner.provisions p)))) p1 ∧ Provisioner.provisions p1 = t)
      as (p1 & Hp1 & Hpt).
    { destruct Hop as [->| ->]; eexists; (split;
        [unfold Provisioner.Provision, Provisioner.Deprovision, Provisioner.getNewProvisionCorrelation,
         bind at 1;
         rewrite (Hon _ _ _ _ _ Hnew); reflexivity|]); done. }
    eexists _, _, p1. split; [exact Hp1|]. intros Hid.
    rewrite <-Hpt in Ht', Hc, Hs.
    destruct (handleEvent_ok n (correlationP info) (info_err info) _ Ht')
      as (t2 & Ht2 & _ & Hc2 & Hs2).
    eexists. split; [by apply Hon|]. simpl.
    rewrite Hc, Hid, lookup_insert_eq, Hs in Hs2. rewrite Hc, Hid in Hc2.
    rewrite delete_insert_id in Hc2 by done. done.
  - intros Hrun. destruct Hterm as [Hne|e1 e2 order _ H1 H2 Ho]; [done|].
    destruct (remove_handler_ok _ _ _ _ Hes H1) as (Hok1 & Hr1).
    destruct (remove_handler_ok _ _ _ _ Hok1 H2) as (Hok2 & Hr2).
    split; [intros id ev h; rewrite Hr2, Hr1; naive_solver|].
    destruct (drain_wakes (S n) Provisioner.provision_termination_error order _ Ht Ho)
      as (t' & Hd & Hw).
    eexists. split; [by apply Hon|done].
Qed.

(** * Examples *)

Definition idle_receiver : ccsmpBackedReceiver Z := newCcsmpReceiver.
Definition no_events : ccsmpBackedEvents result_handler := newCcsmpEvents.

Lemma no_events_ok : registry_ok (H := result_handler) 2 no_events.
Proof. split; [simpl; lia|]. split; intros; by unfold events_registered in *. Qed.

(** The result of request 1, a rejected subscription. *)
Definition refused_info : sessionEventInfo :=
  mkEventInfo (Some (PlainError "no such topic")) "" 1 0.

Lemma request_result_witness :
  ∃ id c r1 r3, Subscribe "a/b" 7 None idle_receiver = Done (Ok (id, c)) r1 ∧
    handleSubscriptionErr refused_info r1 = Done tt r3 ∧
    sent (subscriptions r3) = [(c, mkCorrEvent id (Some (PlainError "no such topic")))].
Proof.
  destruct (request_result 3 "q" "a/b" 7 (Subscribe "a/b" 7) idle_receiver
    (GetLastErrorInfoReturnCodeOnly ReturnCodeFail) refused_info
    (new_table_ok 4 ltac:(vm_compute; reflexivity)) ltac:(left)) as (_ & id & c & r1 & Hr & _ & Hev).
  assert (correlationP refused_info = id) as Hid by (injection Hr as <- _ _; vm_compute; reflexivity).
  destruct (Hev Hid) as (r2 & r3 & _ & H3 & _ & Hs & _).
  exists id, c, r1, r3. split_and!; [exact Hr|exact H3|exact Hs].
Defined.

(** A receiver service that has started and has one subscription outstanding. *)
Definition started_receiver : ccsmpBackedReceiver Z * ccsmpBackedEvents result_handler :=
  start id idle_receiver no_events.
Definition subscribing_receiver : ccsmpBackedReceiver Z :=
  final_state (Subscribe "a/b" 7 None started_receiver.1).

Lemma subscribing_receiver_ok : table_ok 3 (subscriptions subscribing_receiver).
Proof.
  destruct (correlated_spec 3 (SessionSubscribe "a/b" 7) None started_receiver.1
    (new_table_ok 4 ltac:(vm_compute; reflexivity))) as (r' & Hr & Hok & _).
  unfold subscribing_receiver, Subscribe. by rewrite Hr.
Qed.

Lemma receiver_termination_witness :
  ∃ r3 es3, terminate subscribing_receiver started_receiver.2 (Done tt r3) es3 ∧
    (0%nat, mkCorrEvent 1 (Some subscription_termination_error)) ∈ sent (subscriptions r3).
Proof.
  assert (∃ o es3, terminate subscribing_receiver started_receiver.2 o es3) as (o & es3 & Ht).
  { eexists _, _.
    eapply (terminate_running _ _ _ _ (map_to_list (correlation (subscriptions subscribing_receiver))));
      [vm_compute; reflexivity|by eexists; split; [apply range_order_exists|]..
      |apply range_order_exists]. }
  destruct (receiver_termination id 3 idle_receiver started_receiver.1 subscribing_receiver
    no_events started_receiver.2 es3 o no_events_ok eq_refl (surjective_pairing _)
    subscribing_receiver_ok eq_refl eq_refl eq_refl Ht)
    as (_ & _ & _ & _ & r3 & Ho & _ & _ & Hw).
  exists r3, es3. rewrite <-Ho. split; [exact Ht|]. apply Hw. vm_compute. reflexivity.
Defined.

Definition running_provisioner :
    Provisioner.ccsmpBackedEndpointProvisioner * ccsmpBackedEvents result_handler :=
  Provisioner.start_provisioner id Provisioner.newCcsmpEndpointProvisioner no_events.

Lemma provisioner_results_witness :
  ∃ id c p1 p2,
    Provisioner.Provision ["ENDPOINT_NAME"; "q"]%string true None running_provisioner.1 =
      Done (Ok (id, c)) p1 ∧
    Provisioner.handleProvisionAndDeprovisionErr refused_info p1 = Done tt p2 ∧
    sent (Provisioner.provisions p2) =
      [(c, mkCorrEvent id (Some (PlainError "no such topic")))].
Proof.
  assert (∃ o es', Provisioner.terminate_provisioner running_provisioner.1
    running_provisioner.2 o es') as (o & es' & Ht).
  { eexists _, _.
    eapply (Provisioner.provisioner_running _ _ _ _
      (map_to_list (correlation (Provisioner.provisions running_provisioner.1))));
      [vm_compute; reflexivity|by eexists; split; [apply range_order_exists|]..
      |apply range_order_exists]. }
  assert (registry_ok 0 running_provisioner.2) as Hes.
  { unfold running_provisioner, Provisioner.start_provisioner.
    destruct (add_handler_ok 1 SolClientProvisionOk HandleProvisionOK no_events _ _
      no_events_ok eq_refl) as [H1 _].
    destruct (add_handler_ok 0 SolClientProvisionError HandleProvisionErr _ _ _ H1 eq_refl)
      as [H2 _]. exact H2. }
  destruct (provisioner_results id 3 running_provisioner.1
    (Provisioner.Provision ["ENDPOINT_NAME"; "q"]%string true) ["ENDPOINT_NAME"; "q"]%string true
    (GetLastErrorInfoReturnCodeOnly ReturnCodeFail) refused_info running_provisioner.2 o es'
    (new_table_ok 4 ltac:(vm_compute; reflexivity)) (or_introl eq_refl) Hes Ht)
    as (_ & (idn & c & p1 & Hp & Hev) & _).
  assert (correlationP refused_info = idn) as Hid
    by (injection Hp as <- _ _; vm_compute; reflexivity).
  destruct (Hev Hid) as (p2 & H2 & Hs & _).
  exists idn, c, p1, p2. split_and!; [exact Hp|exact H2|exact Hs].
Defined.
