(* ===== verification/Metrics.v ===== *)
(** The metrics of a messaging service: internal/impl/core/metrics.go.

    The statistics of the C session are an argument of the operations that read them, so that
    what is captured at the termination and what is read live can be told apart.  Counters are
    64-bit and wrap. *)

From Stdlib Require Import ZArith Lia.
From stdpp Require Import base list gmap strings.
From S2P Require Import Prelude GoStrconv GoEffects.

#[local] Open Scope Z_scope.

(** * Metrics and statistics *)

(** metrics.Metric; any other integer is no metric. *)
Inductive metric : Type :=
| BrokerDiscardNotificationsReceived | CompressedBytesReceived | ConnectionAttempts
| ControlBytesReceived | ControlBytesSent | ControlMessagesReceived | ControlMessagesSent
| DirectBytesReceived | DirectBytesSent | DirectMessagesReceived | DirectMessagesSent
| InternalDiscardNotifications | PersistentAcknowledgeSent | PersistentBytesReceived
| PersistentBytesRedelivered | PersistentBytesSent | PersistentDuplicateMessagesDiscarded
| PersistentMessagesReceived | PersistentMessagesRedelivered | PersistentMessagesSent
| PersistentNoMatchingFlowMessagesDiscarded | PersistentOutOfOrderMessagesDiscarded
| PersistentMessagesAccepted | PersistentMessagesFailed | PersistentMessagesRejected
| PublishMessagesDiscarded | PublishedMessagesAcknowledged | PublisherAcknowledgementReceived
| PublisherAcknowledgementTimeouts | PublisherWindowClosed | PublisherWouldBlock
| TotalBytesReceived | TotalBytesSent | TotalMessagesReceived | TotalMessagesSent
| TooBigMessagesDiscarded | UnknownParameterMessagesDiscarded
| ReceivedMessagesTerminationDiscarded | ReceivedMessagesBackpressureDiscarded
| PublishMessagesTerminationDiscarded | PublishMessagesBackpressureDiscarded
| CacheRequestsSent | CacheRequestsFailed | CacheRequestsSucceeded
| MetricOther (m : Z).

#[export] Instance metric_eq_dec : EqDecision metric.
Proof. solve_decision. Defined.

(** The receive statistics of the C session that are read here. *)
Inductive rx_stat : Type :=
| RXDirectBytes | RXDirectMsgs | RXDiscardInd | RXDiscardSmfUnknownElement | RXDiscardMsgTooBig
| RXAcked | RXDiscardDuplicate | RXDiscardNoMatchingFlow | RXDiscardOutoforder
| RXPersistentBytes | RXPersistentMsgs | RXCtlMsgs | RXCtlBytes | RXTotalDataBytes
| RXTotalDataMsgs | RXCompressedBytes | RXCacherequestErrorResponse | RXSettleAccepted
| RXSettleFailed | RXSettleRejected | RXCacherequestOkResponse | RXCacherequestFulfillData
| RXOther (code : Z).

#[export] Instance rx_stat_eq_dec : EqDecision rx_stat.
Proof. solve_decision. Defined.

Definition rx_stat_index (s : rx_stat) : nat + Z :=
  match s with
  | RXDirectBytes => inl 0 | RXDirectMsgs => inl 1 | RXDiscardInd => inl 2
  | RXDiscardSmfUnknownElement => inl 3 | RXDiscardMsgTooBig => inl 4 | RXAcked => inl 5
  | RXDiscardDuplicate => inl 6 | RXDiscardNoMatchingFlow => inl 7
  | RXDiscardOutoforder => inl 8 | RXPersistentBytes => inl 9 | RXPersistentMsgs => inl 10
  | RXCtlMsgs => inl 11 | RXCtlBytes => inl 12 | RXTotalDataBytes => inl 13
  | RXTotalDataMsgs => inl 14 | RXCompressedBytes => inl 15
  | RXCacherequestErrorResponse => inl 16 | RXSettleAccepted => inl 17
  | RXSettleFailed => inl 18 | RXSettleRejected => inl 19 | RXCacherequestOkResponse => inl 20
  | RXCacherequestFulfillData => inl 21
  | RXOther code => inr code
  end%nat.

Definition rx_stat_of_index (i : nat + Z) : option rx_stat :=
  match i with
  | inl n =>
      [RXDirectBytes; RXDirectMsgs; RXDiscardInd; RXDiscardSmfUnknownElement;
       RXDiscardMsgTooBig; RXAcked; RXDiscardDuplicate; RXDiscardNoMatchingFlow;
       RXDiscardOutoforder; RXPersistentBytes; RXPersistentMsgs; RXCtlMsgs; RXCtlBytes;
       RXTotalDataBytes; RXTotalDataMsgs; RXCompressedBytes; RXCacherequestErrorResponse;
       RXSettleAccepted; RXSettleFailed; RXSettleRejected; RXCacherequestOkResponse;
       RXCacherequestFulfillData] !! n
  | inr code => Some (RXOther code)
  end.

#[export] Program Instance rx_stat_countable : Countable rx_stat :=
  inj_countable rx_stat_index rx_stat_of_index _.
Next Obligation. by intros []. Qed.

(** Its transmit statistics. *)
Inductive tx_stat : Type :=
| TXTotalDataBytes | TXTotalDataMsgs | TXDirectBytes | TXDirectMsgs | TXPersistentBytes
| TXPersistentMsgs | TXPersistentBytesRedelivered | TXPersistentRedelivered | TXAcksRxed
| TXWindowClose | TXAckTimeout | TXCtlMsgs | TXCtlBytes | TXTotalConnectionAttempts
| TXGuaranteedMsgsSentConfirmed | TXDiscardChannelError | TXWouldBlock | TXCacherequestSent
| TXOther (code : Z).

#[export] Instance tx_stat_eq_dec : EqDecision tx_stat.
Proof. solve_decision. Defined.

Definition tx_stat_index (s : tx_stat) : nat + Z :=
  match s with
  | TXTotalDataBytes => inl 0 | TXTotalDataMsgs => inl 1 | TXDirectBytes => inl 2
  | TXDirectMsgs => inl 3 | TXPersistentBytes => inl 4 | TXPersistentMsgs => inl 5
  | TXPersistentBytesRedelivered => inl 6 | TXPersistentRedelivered => inl 7
  | TXAcksRxed => inl 8 | TXWindowClose => inl 9 | TXAckTimeout => inl 10 | TXCtlMsgs => inl 11
  | TXCtlBytes => inl 12 | TXTotalConnectionAttempts => inl 13
  | TXGuaranteedMsgsSentConfirmed => inl 14 | TXDiscardChannelError => inl 15
  | TXWouldBlock => inl 16 | TXCacherequestSent => inl 17
  | TXOther code => inr code
  end%nat.

Definition tx_stat_of_index (i : nat + Z) : option tx_stat :=
  match i with
  | inl n =>
      [TXTotalDataBytes; TXTotalDataMsgs; TXDirectBytes; TXDirectMsgs; TXPersistentBytes;
       TXPersistentMsgs; TXPersistentBytesRedelivered; TXPersistentRedelivered; TXAcksRxed;
       TXWindowClose; TXAckTimeout; TXCtlMsgs; TXCtlBytes; TXTotalConnectionAttempts;
       TXGuaranteedMsgsSentConfirmed; TXDiscardChannelError; TXWouldBlock; TXCacherequestSent] !! n
  | inr code => Some (TXOther code)
  end.

#[export] Program Instance tx_stat_countable : Countable tx_stat :=
  inj_countable tx_stat_index tx_stat_of_index _.
Next Obligation. by intros []. Qed.

Definition rxMetrics : list (metric * rx_stat) :=
  [(DirectBytesReceived, RXDirectBytes); (DirectMessagesReceived, RXDirectMsgs);
   (BrokerDiscardNotificationsReceived, RXDiscardInd);
   (UnknownParameterMessagesDiscarded, RXDiscardSmfUnknownElement);
   (TooBigMessagesDiscarded, RXDiscardMsgTooBig); (PersistentAcknowledgeSent, RXAcked);
   (PersistentDuplicateMessagesDiscarded, RXDiscardDuplicate);
   (PersistentNoMatchingFlowMessagesDiscarded, RXDiscardNoMatchingFlow);
   (PersistentOutOfOrderMessagesDiscarded, RXDiscardOutoforder);
   (PersistentBytesReceived, RXPersistentBytes);
   (PersistentMessagesReceived, RXPersistentMsgs); (ControlMessagesReceived, RXCtlMsgs);
   (ControlBytesReceived, RXCtlBytes); (TotalBytesReceived, RXTotalDataBytes);
   (TotalMessagesReceived, RXTotalDataMsgs); (CompressedBytesReceived, RXCompressedBytes);
   (CacheRequestsFailed, RXCacherequestErrorResponse);
   (PersistentMessagesAccepted, RXSettleAccepted); (PersistentMessagesFailed, RXSettleFailed);
   (PersistentMessagesRejected, RXSettleRejected)].

Definition txMetrics : list (metric * tx_stat) :=
  [(TotalBytesSent, TXTotalDataBytes); (TotalMessagesSent, TXTotalDataMsgs);
   (DirectBytesSent, TXDirectBytes); (DirectMessagesSent, TXDirectMsgs);
   (PersistentBytesSent, TXPersistentBytes); (PersistentMessagesSent, TXPersistentMsgs);
   (PersistentBytesRedelivered, TXPersistentBytesRedelivered);
   (PersistentMessagesRedelivered, TXPersistentRedelivered);
   (PublisherAcknowledgementReceived, TXAcksRxed); (PublisherWindowClosed, TXWindowClose);
   (PublisherAcknowledgementTimeouts, TXAckTimeout); (ControlMessagesSent, TXCtlMsgs);
   (ControlBytesSent, TXCtlBytes); (ConnectionAttempts, TXTotalConnectionAttempts);
   (PublishedMessagesAcknowledged, TXGuaranteedMsgsSentConfirmed);
   (PublishMessagesDiscarded, TXDiscardChannelError); (PublisherWouldBlock, TXWouldBlock);
   (CacheRequestsSent, TXCacherequestSent)].

(** NextGenMetric: indices of the counters of this package. *)
Definition MetricReceivedMessagesTerminationDiscarded : Z := 0.
Definition MetricReceivedMessagesBackpressureDiscarded : Z := 1.
Definition MetricPublishMessagesTerminationDiscarded : Z := 2.
Definition MetricPublishMessagesBackpressureDiscarded : Z := 3.
Definition MetricInternalDiscardNotifications : Z := 4.
Definition metricCount : nat := 5.

Definition clientMetrics : list (metric * Z) :=
  [(ReceivedMessagesTerminationDiscarded, MetricReceivedMessagesTerminationDiscarded);
   (ReceivedMessagesBackpressureDiscarded, MetricReceivedMessagesBackpressureDiscarded);
   (PublishMessagesTerminationDiscarded, MetricPublishMessagesTerminationDiscarded);
   (PublishMessagesBackpressureDiscarded, MetricPublishMessagesBackpressureDiscarded);
   (InternalDiscardNotifications, MetricInternalDiscardNotifications)].

(** The entries of an aggregated metric, as the type switch tells them apart. *)
Inductive stat_ref : Type := StatRX (s : rx_stat) | StatTX (s : tx_stat) | StatUnknown.

Definition aggregatedMetrics : list (metric * list stat_ref) :=
  [(CacheRequestsSucceeded, [StatRX RXCacherequestOkResponse; StatRX RXCacherequestFulfillData])].

(** The lookup of a map literal. *)
Fixpoint assoc {V} (k : metric) (l : list (metric * V)) : option V :=
  match l with
  | [] => None
  | (k', v) :: l => if decide (k = k') then Some v else assoc k l
  end.

(** * The service *)

(** What the C session answers at one moment. *)
Record session_stats : Type := mkStats { rx_value : rx_stat → Z; tx_value : tx_stat → Z }.

Record ccsmpBackedMetrics : Type := mkMetrics {
  metrics : list Z;
  duplicateAcks : Z;
  (* nil until the termination *)
  capturedTxMetrics : option (gmap tx_stat Z);
  capturedRxMetrics : option (gmap rx_stat Z);
}.

Definition newCcsmpMetrics : ccsmpBackedMetrics :=
  mkMetrics (replicate metricCount 0) 0 None None.

Definition set_metrics (l : list Z) (m : ccsmpBackedMetrics) : ccsmpBackedMetrics :=
  mkMetrics l (duplicateAcks m) (capturedTxMetrics m) (capturedRxMetrics m).
Definition set_duplicateAcks (z : Z) (m : ccsmpBackedMetrics) : ccsmpBackedMetrics :=
  mkMetrics (metrics m) z (capturedTxMetrics m) (capturedRxMetrics m).
Definition set_captured (tx : option (gmap tx_stat Z)) (rx : option (gmap rx_stat Z))
    (m : ccsmpBackedMetrics) : ccsmpBackedMetrics :=
  mkMetrics (metrics m) (duplicateAcks m) tx rx.

(** The loop of a capture over the statistics in the order the map gives them. *)
Definition capture {K} `{Countable K} (read : K → Z) (order : list (metric * K)) : gmap K Z :=
  foldl (λ captured stat, <[stat := read stat]> captured) ∅ order.*2.

Definition captureTXStats (session : session_stats) (order : list (metric * tx_stat))
    (m : ccsmpBackedMetrics) : ccsmpBackedMetrics :=
  match capturedTxMetrics m with
  | Some _ => m
  | None => set_captured (Some (capture (tx_value session) order)) (capturedRxMetrics m) m
  end.

Definition captureRXStats (session : session_stats) (order : list (metric * rx_stat))
    (m : ccsmpBackedMetrics) : ccsmpBackedMetrics :=
  match capturedRxMetrics m with
  | Some _ => m
  | None => set_captured (capturedTxMetrics m) (Some (capture (rx_value session) order)) m
  end.

Definition terminate (session : session_stats) (tx_order : list (metric * tx_stat))
    (rx_order : list (metric * rx_stat)) (m : ccsmpBackedMetrics) : ccsmpBackedMetrics :=
  captureRXStats session rx_order (captureTXStats session tx_order m).

(** ** Reading *)

Definition getTXStat (session : session_stats) (stat : tx_stat) (m : ccsmpBackedMetrics) : Z :=
  match capturedTxMetrics m with
  | Some captured => default 0 (captured !! stat)
  | None => tx_value session stat
  end.

Definition getRXStat (session : session_stats) (stat : rx_stat) (m : ccsmpBackedMetrics) : Z :=
  match capturedRxMetrics m with
  | Some captured => default 0 (captured !! stat)
  | None => rx_value session stat
  end.

(** [backedMetrics.metrics[metric]]. *)
Definition index_of (metric : Z) : option nat :=
  if metric <? 0 then None else Some (Z.to_nat metric).

Definition getNextGenStat (metric : Z) : M ccsmpBackedMetrics Z :=
  let* m := get in
  match index_of metric ≫= (metrics m !!.) with
  | Some v => ret v
  | None => panic IndexOutOfRange
  end.

Definition getAggregateStat (session : session_stats) (stats : list stat_ref)
    (m : ccsmpBackedMetrics) : Z :=
  foldl (λ count stat,
    match stat with
    | StatRX s => wrapU 64 (count + getRXStat session s m)
    | StatTX s => wrapU 64 (count + getTXStat session s m)
    | StatUnknown => count
    end) 0 stats.

Definition GetStat (session : session_stats) (metric : metric) : M ccsmpBackedMetrics Z :=
  match assoc metric rxMetrics with
  | Some rxMetric =>
      let* m := get in
      let rxStat := getRXStat session rxMetric m in
      let duplicateAck := duplicateAcks m in
      if decide (0 < duplicateAck ∧ metric = PersistentMessagesAccepted)
      then ret (wrapU 64 (rxStat - duplicateAck))
      else ret rxStat
  | None =>
  match assoc metric txMetrics with
  | Some txMetric => gets (getTXStat session txMetric)
  | None =>
  match assoc metric clientMetrics with
  | Some clientMetric => getNextGenStat clientMetric
  | None =>
  match assoc metric aggregatedMetrics with
  | Some aggregatedMetricArray => gets (getAggregateStat session aggregatedMetricArray)
  | None => ret 0
  end end end end.

(** ** Writing *)

Definition IncrementMetric (metric : Z) (amount : Z) : M ccsmpBackedMetrics unit :=
  let* m := get in
  match index_of metric with
  | Some i =>
      match metrics m !! i with
      | Some v => modify (set_metrics (<[i := wrapU 64 (v + amount)]> (metrics m)))
      | None => panic IndexOutOfRange
      end
  | None => panic IndexOutOfRange
  end.

Definition incrementDuplicateAckCount (m : ccsmpBackedMetrics) : ccsmpBackedMetrics :=
  set_duplicateAcks (wrapU 64 (duplicateAcks m + 1)) m.

(** Setting every key of a captured map to 0, which does not depend on their order. *)
Definition zeroed {K} `{Countable K} (captured : gmap K Z) : gmap K Z := (λ _, 0) <$> captured.

(** The result tells whether the statistics of the C session are to be cleared. *)
Definition resetNativeStats (m : ccsmpBackedMetrics) : ccsmpBackedMetrics * bool :=
  match capturedRxMetrics m with
  | Some rx =>
      (set_captured (zeroed <$> capturedTxMetrics m) (Some (zeroed rx)) m, false)
  | None => (m, true)
  end.

(** The loop over the counters. *)
Fixpoint reset_counters (n : nat) (l : list Z) : list Z :=
  match n with
  | O => l
  | S n => <[n := 0]> (reset_counters n l)
  end.

Definition ResetStats (m : ccsmpBackedMetrics) : ccsmpBackedMetrics * bool :=
  resetNativeStats (set_duplicateAcks 0 (set_metrics (reset_counters metricCount (metrics m)) m)).

(** * Properties *)

(** The counters of this package are there. *)
Definition metrics_ok (m : ccsmpBackedMetrics) : Prop := length (metrics m) = metricCount.

Lemma capture_lookup {K} `{Countable K} (read : K → Z) order stat :
  capture read order !! stat = if decide (stat ∈ order.*2) then Some (read stat) else None.
Proof.
  unfold capture. assert (∀ l (c : gmap K Z),
    foldl (λ captured stat, <[stat := read stat]> captured) c l !! stat =
    if decide (stat ∈ l) then Some (read stat) else c !! stat) as Hl.
  { induction l as [|s l IH]; intros c; [by rewrite decide_False by set_solver|].
    cbn [foldl]. rewrite IH. repeat case_decide; try set_solver.
    - assert (stat = s) as -> by set_solver. by rewrite lookup_insert_eq.
    - rewrite lookup_insert_ne; [done|set_solver]. }
  by rewrite Hl, lookup_empty.
Qed.

Lemma assoc_elem {V} k (v : V) l : assoc k l = Some v → v ∈ l.*2.
Proof.
  induction l as [|[k' v'] l IH]; simpl; [done|]. case_decide; [intros [= ->]; by left|right; auto].
Qed.

(** Whatever the session answers after the termination, a statistic reads what it was then, if
    it is one of those captured, and 0 otherwise. *)
Lemma getRXStat_captured session session' order_tx order stat m :
  capturedRxMetrics m = None → order ≡ₚ rxMetrics →
  getRXStat session' stat (terminate session order_tx order m) =
    if decide (stat ∈ rxMetrics.*2) then getRXStat session stat m else 0.
Proof.
  intros Hm Ho. unfold terminate, captureRXStats.
  assert (capturedRxMetrics (captureTXStats session order_tx m) = None) as ->
    by (unfold captureTXStats; by case_match).
  unfold getRXStat. rewrite Hm. simpl. rewrite capture_lookup.
  assert (stat ∈ order.*2 ↔ stat ∈ rxMetrics.*2) as Hin by by rewrite Ho.
  repeat case_decide; by try tauto.
Qed.

Lemma getTXStat_captured session session' order order_rx stat m :
  capturedTxMetrics m = None → order ≡ₚ txMetrics →
  getTXStat session' stat (terminate session order order_rx m) =
    if decide (stat ∈ txMetrics.*2) then getTXStat session stat m else 0.
Proof.
  intros Hm Ho. unfold terminate, getTXStat.
  assert (capturedTxMetrics (captureRXStats session order_rx (captureTXStats session order m)) =
    Some (capture (tx_value session) order)) as ->
    by (unfold captureRXStats, captureTXStats; rewrite Hm; by case_match).
  assert (stat ∈ order.*2 ↔ stat ∈ txMetrics.*2) as Hin by by rewrite Ho.
  rewrite Hm, capture_lookup. repeat case_decide; by try tauto.
Qed.

Lemma terminate_counters session tx rx m :
  metrics (terminate session tx rx m) = metrics m ∧
  duplicateAcks (terminate session tx rx m) = duplicateAcks m.
Proof. unfold terminate, captureRXStats, captureTXStats. repeat case_match; done. Qed.

(** The value a reading gives. *)
Definition read_value (session : session_stats) (metric : metric) (m : ccsmpBackedMetrics) : Z :=
  match assoc metric rxMetrics, assoc metric txMetrics, assoc metric clientMetrics,
        assoc metric aggregatedMetrics with
  | Some s, _, _, _ =>
      if decide (0 < duplicateAcks m ∧ metric = PersistentMessagesAccepted)
      then wrapU 64 (getRXStat session s m - duplicateAcks m) else getRXStat session s m
  | _, Some s, _, _ => getTXStat session s m
  | _, _, Some i, _ => metrics m !!! Z.to_nat i
  | _, _, _, Some l => getAggregateStat session l m
  | _, _, _, _ => 0
  end.

Lemma client_index metric i : assoc metric clientMetrics = Some i → 0 ≤ i < Z.of_nat metricCount.
Proof.
  intros Hi%assoc_elem. revert i Hi. apply Forall_forall. vm_compute.
  repeat constructor; discriminate.
Qed.

Lemma index_of_ok i : 0 ≤ i → index_of i = Some (Z.to_nat i).
Proof. intros Hi. unfold index_of. by destruct (Z.ltb_spec i 0); [lia|]. Qed.

Lemma GetStat_value session metric m :
  metrics_ok m → GetStat session metric m = Done (read_value session metric m) m.
Proof.
  intros Hm. unfold GetStat, read_value, bind, get, gets, ret.
  destruct (assoc metric rxMetrics); [by case_decide|].
  destruct (assoc metric txMetrics); [done|].
  destruct (assoc metric clientMetrics) as [i|] eqn:Hi; [|by case_match].
  apply client_index in Hi. unfold getNextGenStat, bind, get, ret. rewrite index_of_ok by lia. simpl.
  destruct (metrics m !! Z.to_nat i) as [v|] eqn:Hv; [by rewrite (list_lookup_total_correct _ _ _ Hv)|].
  apply lookup_ge_None in Hv. unfold metrics_ok in Hm. lia.
Qed.

(** Once the service is terminated, every metric but one keeps the value it had then,
    whatever the dead session would answer and whatever order the statistics were captured in.
    The exception is the number of successful cache requests, whose two statistics are not
    among those captured: it reads 0. *)
Theorem metrics_survive_termination session session' tx_order rx_order metric m :
  metrics_ok m → capturedTxMetrics m = None → capturedRxMetrics m = None →
  tx_order ≡ₚ txMetrics → rx_order ≡ₚ rxMetrics →
  let m' := terminate session tx_order rx_order m in
  ∃ v, GetStat session metric m = Done v m ∧
    GetStat session' metric m' =
      Done (if decide (metric = CacheRequestsSucceeded) then 0 else v) m' ∧
    terminate session' tx_order rx_order m' = m'.
Proof.
  intros Hok Htx Hrx Hto Hro m'.
  destruct (terminate_counters session tx_order rx_order m) as [Hc Hd]. fold m' in Hc, Hd.
  exists (read_value session metric m). split_and!; [by apply GetStat_value|..].
  - rewrite GetStat_value by (unfold metrics_ok; by rewrite Hc). f_equal.
    unfold read_value. rewrite Hd, Hc.
    destruct (assoc metric rxMetrics) as [s|] eqn:H1.
    { unfold m'. rewrite getRXStat_captured by done.
      rewrite (decide_True (P := s ∈ rxMetrics.*2)) by (by eapply assoc_elem).
      rewrite (decide_False (P := metric = CacheRequestsSucceeded)) by (by intros ->). done. }
    destruct (assoc metric txMetrics) as [s|] eqn:H2.
    { unfold m'. rewrite getTXStat_captured by done.
      rewrite (decide_True (P := s ∈ txMetrics.*2)) by (by eapply assoc_elem).
      by rewrite decide_False by (by intros ->). }
    destruct (assoc metric clientMetrics) as [i|] eqn:H3; [by rewrite decide_False by (by intros ->)|].
    destruct (assoc metric aggregatedMetrics) as [l|] eqn:H4; [|by case_decide].
    revert H4. unfold aggregatedMetrics. cbn [assoc]. case_decide; [|done]. intros [= <-].
    unfold getAggregateStat, m'. cbn [foldl]. rewrite !getRXStat_captured by done. by vm_compute.
  - unfold m', terminate, captureRXStats, captureTXStats. rewrite Htx. simpl. rewrite Hrx. done.
Qed.

(** ** Counting and resetting *)

Lemma reset_counters_lookup n l i :
  (i < n)%nat → (n ≤ length l)%nat → reset_counters n l !! i = Some 0.
Proof.
  intros Hi Hl. assert (∀ k, length (reset_counters k l) = length l) as Hlen.
  { induction k; simpl; [done|]. by rewrite length_insert. }
  induction n as [|n IH]; [lia|]. simpl. destruct (decide (i = n)) as [->|Hne].
  - apply list_lookup_insert_eq. rewrite Hlen. lia.
  - rewrite list_lookup_insert_ne by done. apply IH; lia.
Qed.

Lemma reset_counters_length n l : length (reset_counters n l) = length l.
Proof. induction n; simpl; [done|]. by rewrite length_insert. Qed.

Lemma zeroed_lookup {K} `{Countable K} (c : gmap K Z) k : default 0 (zeroed c !! k) = 0.
Proof. unfold zeroed. rewrite lookup_fmap. by destruct (c !! k). Qed.

Lemma ResetStats_metrics m :
  metrics (ResetStats m).1 = reset_counters metricCount (metrics m).
Proof. unfold ResetStats, resetNativeStats. by case_match. Qed.

(** A reset reads 0 everywhere, as soon as what is read natively is 0. *)
Lemma reset_reads_zero session m metric :
  metrics_ok m →
  (∀ s, getRXStat session s (ResetStats m).1 = 0) →
  (∀ s, getTXStat session s (ResetStats m).1 = 0) →
  read_value session metric (ResetStats m).1 = 0.
Proof.
  intros Hok Hrx Htx. unfold read_value.
  assert (duplicateAcks (ResetStats m).1 = 0) as Hd
    by (unfold ResetStats, resetNativeStats; by case_match).
  destruct (assoc metric rxMetrics) as [s|]; [rewrite Hd, decide_False by lia; apply Hrx|].
  destruct (assoc metric txMetrics) as [s|]; [apply Htx|].
  destruct (assoc metric clientMetrics) as [i|] eqn:Hi.
  - apply client_index in Hi. rewrite ResetStats_metrics. apply list_lookup_total_correct.
    apply reset_counters_lookup; [lia|by rewrite Hok].
  - destruct (assoc metric aggregatedMetrics) as [l|]; [|done]. unfold getAggregateStat.
    induction l as [|[s|s|] l IH]; simpl; rewrite ?Hrx, ?Htx; done.
Qed.

Lemma assoc_inj metric metric' i :
  assoc metric clientMetrics = Some i → assoc metric' clientMetrics = Some i → metric = metric'.
Proof.
  unfold clientMetrics. cbn [assoc]. repeat case_decide; intros; simplify_eq; done.
Qed.

(** Counting adds to the metric counted, modulo 2^64, and to no other; duplicate
    acknowledgements come off the accepted settlements; a reset asks the session to clear its
    statistics exactly when none were captured, and then, or when they were captured, every
    metric reads 0. *)
Theorem counters_and_reset session m :
  metrics_ok m →
  (∀ metric i amount, assoc metric clientMetrics = Some i →
     ∃ m', IncrementMetric i amount m = Done tt m' ∧ metrics_ok m' ∧
       ∀ metric', read_value session metric' m' =
         if decide (metric' = metric) then wrapU 64 (read_value session metric m + amount)
         else read_value session metric' m) ∧
  (0 ≤ duplicateAcks m ≤ getRXStat session RXSettleAccepted m →
   getRXStat session RXSettleAccepted m < 2 ^ 64 →
   GetStat session PersistentMessagesAccepted m =
     Done (getRXStat session RXSettleAccepted m - duplicateAcks m) m) ∧
  ((ResetStats m).2 = true ↔ capturedRxMetrics m = None) ∧
  (capturedRxMetrics m = None ∧ capturedTxMetrics m = None ∧
     (∀ s, rx_value session s = 0) ∧ (∀ s, tx_value session s = 0) ∨
   is_Some (capturedRxMetrics m) ∧ is_Some (capturedTxMetrics m) →
   ∀ metric, GetStat session metric (ResetStats m).1 = Done 0 (ResetStats m).1).
Proof.
  intros Hok. split_and!.
  - intros metric i amount Hi. pose proof (client_index _ _ Hi) as Hr.
    destruct (lookup_lt_is_Some_2 (metrics m) (Z.to_nat i)) as [v Hv]; [unfold metrics_ok in Hok; lia|].
    eexists. split; [unfold IncrementMetric, bind, get; rewrite index_of_ok, Hv by lia; reflexivity|].
    split; [unfold metrics_ok, set_metrics; simpl; by rewrite length_insert|].
    intros metric'. case_decide as Heq; [subst metric'|].
    + assert (assoc metric rxMetrics = None ∧ assoc metric txMetrics = None) as [H1 H2]
        by (revert Hi; unfold clientMetrics; cbn [assoc]; repeat case_decide; intros;
          simplify_eq; by vm_compute).
      unfold read_value. rewrite H1, H2, Hi, (list_lookup_total_correct _ _ _ Hv).
      apply list_lookup_total_correct, list_lookup_insert_eq. unfold metrics_ok in Hok. lia.
    + unfold read_value. destruct (assoc metric' rxMetrics); [done|].
      destruct (assoc metric' txMetrics); [done|].
      destruct (assoc metric' clientMetrics) as [j|] eqn:Hj; [|done].
      cbn [set_metrics metrics]. rewrite list_lookup_total_insert_ne; [done|]. intros Hij.
      pose proof (client_index _ _ Hj). assert (i = j) as -> by lia. by apply Heq, (assoc_inj _ _ j).
  - intros Hd Hr. rewrite GetStat_value by done. f_equal. unfold read_value. cbn [assoc rxMetrics].
    rewrite !decide_False, decide_True by done. case_decide; [apply wrapU_id; unfold inU; lia|].
    destruct (decide (duplicateAcks m = 0)) as [->|]; [lia|]. exfalso. naive_solver lia.
  - unfold ResetStats, resetNativeStats. simpl. case_match; simpl; naive_solver.
  - intros Hn metric. rewrite GetStat_value.
    + f_equal. apply reset_reads_zero; [done|..]; intros s.
      all: destruct Hn as [(Hrx & Htx & H1 & H2)|[[rx Hrx] [tx Htx]]];
        unfold ResetStats, resetNativeStats; simpl; rewrite Hrx; unfold getRXStat, getTXStat; simpl;
        rewrite ?Hrx, ?Htx; simpl; auto using zeroed_lookup.
    + unfold metrics_ok. by rewrite ResetStats_metrics, reset_counters_length.
Qed.

(** * Examples *)

(** A session with three accepted settlements, two of them duplicates, and four successful
    cache requests, on its way to the termination. *)
Definition example_session : session_stats :=
  mkStats (λ s, match s with
                | RXSettleAccepted => 3 | RXCacherequestOkResponse => 4 | _ => 0
                end) (λ s, match s with TXDirectMsgs => 7 | _ => 0 end).
Definition dead_session : session_stats := mkStats (λ _, 0) (λ _, 0).
Definition example_metrics : ccsmpBackedMetrics :=
  incrementDuplicateAckCount (incrementDuplicateAckCount newCcsmpMetrics).

Lemma metrics_survive_termination_witness :
  let m' := terminate example_session txMetrics rxMetrics example_metrics in
  GetStat dead_session PersistentMessagesAccepted m' = Done 1 m' ∧
  GetStat dead_session CacheRequestsSucceeded m' = Done 0 m' ∧
  GetStat example_session CacheRequestsSucceeded example_metrics = Done 4 example_metrics.
Proof.
  intros m'.
  destruct (metrics_survive_termination example_session dead_session txMetrics rxMetrics
    PersistentMessagesAccepted example_metrics eq_refl eq_refl eq_refl (reflexivity _) (reflexivity _))
    as (v & Hv & Hv' & _).
  destruct (metrics_survive_termination example_session dead_session txMetrics rxMetrics
    CacheRequestsSucceeded example_metrics eq_refl eq_refl eq_refl (reflexivity _) (reflexivity _))
    as (w & _ & Hw & _).
  vm_compute in Hv. injection Hv as <-. split_and!; [exact Hv'|exact Hw|vm_compute; reflexivity].
Defined.

Lemma counters_and_reset_witness :
  ∃ m', IncrementMetric MetricInternalDiscardNotifications 5 example_metrics = Done tt m' ∧
    read_value example_session InternalDiscardNotifications m' = 5 ∧
    GetStat example_session PersistentMessagesAccepted example_metrics = Done 1 example_metrics ∧
    (ResetStats example_metrics).2 = true.
Proof.
  destruct (counters_and_reset example_session example_metrics eq_refl) as (Hinc & Hdup & Hlive & _).
  destruct (Hinc InternalDiscardNotifications MetricInternalDiscardNotifications 5 eq_refl)
    as (m' & Hm & _ & Hv).
  exists m'. split_and!; [exact Hm|rewrite Hv; vm_compute; reflexivity| |by apply Hlive].
  apply Hdup; vm_compute; [split|]; discriminate || reflexivity.
Defined.
