(* ===== verification/Callbacks.v ===== *)
(** The callbacks of the C library: the tables of internal/ccsmp/ccsmp_core.go and ccsmp_flow.go by
    which a message or an event finds the session or the flow it is for, and the flows of
    internal/impl/core/receiver.go, which are made with them.

    A session is found by its pointer, a flow by a number that the library hands back with every
    message; what the library answers is an argument. *)

From Stdlib Require Import ZArith Lia.
From stdpp Require Import base list gmap strings.
From S2P Require Import Prelude GoStrconv GoEffects Errors SdtContainer.

#[local] Open Scope Z_scope.

(** * The callbacks of the sessions *)

Section callbacks.
(** The callbacks of messages, of replies and of events. *)
Context {C R E : Type}.

(** [sessionToRXCallbackMap], [sessionToReplyRXCallbackMap] and [sessionToEventCallbackMap]: maps from
    the pointer of a session. *)
Record callback_maps : Type := mkCallbacks {
  sessionToRXCallbackMap : gmap Z C;
  sessionToReplyRXCallbackMap : gmap Z R;
  sessionToEventCallbackMap : gmap Z E;
}.

(** A session is nil, or has a pointer, which 0 is none. *)
Definition valid_session (session : option Z) : option Z :=
  match session with Some p => if decide (p = 0) then None else Some p | None => None end.

(** A nil callback takes the session out of the map. *)
Definition store_callback {A} (p : Z) (callback : option A) (m : gmap Z A) : gmap Z A :=
  match callback with None => delete p m | Some f => <[p := f]> m end.

Definition nil_session_error (kind : string) : go_error :=
  PlainError ("could not set " +:+ kind +:+ " callback for nil session").

Definition SetMessageCallback (session : option Z) (callback : option C) (s : callback_maps)
    : option go_error * callback_maps :=
  match valid_session session with
  | None => (Some (nil_session_error "message receive"), s)
  | Some p => (None, mkCallbacks (store_callback p callback (sessionToRXCallbackMap s))
                       (sessionToReplyRXCallbackMap s) (sessionToEventCallbackMap s))
  end.
Definition SetReplyMessageCallback (session : option Z) (callback : option R) (s : callback_maps)
    : option go_error * callback_maps :=
  match valid_session session with
  | None => (Some (nil_session_error "message receive"), s)
  | Some p => (None, mkCallbacks (sessionToRXCallbackMap s)
                       (store_callback p callback (sessionToReplyRXCallbackMap s))
                       (sessionToEventCallbackMap s))
  end.
Definition SetEventCallback (session : option Z) (callback : option E) (s : callback_maps)
    : option go_error * callback_maps :=
  match valid_session session with
  | None => (Some (nil_session_error "event"), s)
  | Some p => (None, mkCallbacks (sessionToRXCallbackMap s) (sessionToReplyRXCallbackMap s)
                       (store_callback p callback (sessionToEventCallbackMap s)))
  end.

(** The part of [SolClientSessionDestroy] before the call of the library. *)
Definition forget_session (p : Z) (s : callback_maps) : callback_maps :=
  mkCallbacks (delete p (sessionToRXCallbackMap s)) (delete p (sessionToReplyRXCallbackMap s))
    (delete p (sessionToEventCallbackMap s)).

(** Whether the library gives the message away: it is the callback of the session that tells. *)
Definition goMessageReceiveCallback (call : C → bool) (sessionP : Z) (s : callback_maps) : bool :=
  match sessionToRXCallbackMap s !! sessionP with Some callback => call callback | None => false end.
Definition goReplyMessageReceiveCallback (call : R → string → bool) (sessionP : Z)
    (correlationID : string) (s : callback_maps) : bool :=
  match sessionToReplyRXCallbackMap s !! sessionP with
  | Some callback => call callback correlationID
  | None => false
  end.
(** The callback that is called, if any. *)
Definition goEventCallback (sessionP : Z) (s : callback_maps) : option E :=
  sessionToEventCallbackMap s !! sessionP.

End callbacks.

(** * The callbacks of the flows *)

(** [SolClientFlow]: the pointer of the library and the number of the flow. *)
Record SolClientFlow : Type := mkSolClientFlow { pointer : Z; userP : Z }.

(** [flowEventInfo]. *)
Record flowEventInfo : Type := mkFlowEventInfo { flow_err : option go_error; flow_infoString : string }.

Section flows.
Context {C E : Type}.

Record flow_maps : Type := mkFlowMaps {
  flowID : Z;
  flowToRXCallbackMap : gmap Z C;
  flowToEventCallbackMap : gmap Z E;
}.

(** Both callbacks are stored before the library is asked, whose answer is [created]. *)
Definition SolClientSessionCreateFlow (msgCallback : C) (eventCallback : E) (created : res ErrorInfo Z)
    (s : flow_maps) : res ErrorInfo SolClientFlow * flow_maps :=
  let id := wrapU 64 (flowID s + 1) in
  let s := mkFlowMaps id (<[id := msgCallback]> (flowToRXCallbackMap s))
             (<[id := eventCallback]> (flowToEventCallbackMap s)) in
  (match created with Ok p => Ok (mkSolClientFlow p id) | Err err => Err err end, s).

Definition SolClientFlowRemoveCallbacks (flow : SolClientFlow) (s : flow_maps) : flow_maps :=
  mkFlowMaps (flowID s) (delete (userP flow) (flowToRXCallbackMap s))
    (delete (userP flow) (flowToEventCallbackMap s)).

Definition goFlowMessageReceiveCallback (call : C → bool) (userP : Z) (s : flow_maps) : bool :=
  match flowToRXCallbackMap s !! userP with Some callback => call callback | None => false end.
Definition goFlowEventCallback (userP : Z) (s : flow_maps) : option E :=
  flowToEventCallbackMap s !! userP.

(** The answer of the library is a name, which C ends with a NUL, and the type of the destination. *)
Definition SolClientFlowGetDestination (answer : res ErrorInfo (string * destinationType))
    : string * bool * option ErrorInfo :=
  match answer with
  | Err errorInfo => (""%string, false, Some errorInfo)
  | Ok (dest, destType) =>
      (cstring dest, match destType with QueueTempDestination => false | _ => true end, None)
  end.

(** ** The persistent receivers of core/receiver.go *)

(** [NewPersistentReceiver]; a nil callback gives neither a receiver nor an error. *)
Definition NewPersistentReceiver (rxCallback : option C) (eventCallback : option E)
    (created : res ErrorInfo Z) (s : flow_maps) : option (res ErrorInfo SolClientFlow) * flow_maps :=
  match rxCallback, eventCallback with
  | Some rxCallback, Some eventCallback =>
      let (r, s) := SolClientSessionCreateFlow rxCallback eventCallback created s in (Some r, s)
  | _, _ => (None, s)
  end.

(** What an event callback is given; [lastErrorInfo] is the error information of the thread. *)
Definition flowEventCallback (lastErrorInfo : ErrorInfo) (info : string) : flowEventInfo :=
  mkFlowEventInfo
    (if SubCode lastErrorInfo =? 0 then None else Some (ToNativeError lastErrorInfo "")) info.

(** [Destroy]: the library is only called, with the answer [destroyed], to free the memory. *)
Definition Destroy (freeMemory : bool) (destroyed : option ErrorInfo) (flow : SolClientFlow) (s : flow_maps)
    : option ErrorInfo * flow_maps :=
  (if freeMemory then destroyed else None, SolClientFlowRemoveCallbacks flow s).
End flows.
Arguments flow_maps C E : clear implicits.

(** * Properties *)

Section properties.
Context {C R E : Type}.

(** Calls on one process, of any sessions. *)
Inductive flow_call : Type :=
| CallCreate (rxCallback : option C) (eventCallback : option E) (created : res ErrorInfo Z)
| CallDestroy (flow : SolClientFlow) (freeMemory : bool) (destroyed : option ErrorInfo).

Definition flow_step (s : flow_maps C E) (c : flow_call) : flow_maps C E :=
  match c with
  | CallCreate rx ev created => snd (NewPersistentReceiver rx ev created s)
  | CallDestroy flow free destroyed => snd (Destroy free destroyed flow s)
  end.
Definition flow_run : flow_maps C E → list flow_call → flow_maps C E := foldl flow_step.
Definition no_flows : flow_maps C E := mkFlowMaps 0 ∅ ∅.

Definition destroys (id : Z) (c : flow_call) : bool :=
  match c with CallDestroy flow _ _ => bool_decide (userP flow = id) | _ => false end.

(** The counter only goes up, by at most one for a call. *)
Lemma flow_run_counter calls s :
  0 ≤ flowID s → flowID s + Z.of_nat (length calls) < 2 ^ 64 →
  flowID s ≤ flowID (flow_run s calls) ≤ flowID s + Z.of_nat (length calls).
Proof using Type.
  revert s. induction calls as [|c calls IH]; intros s H0 Hn; simpl in *; [lia|].
  assert (flowID s ≤ flowID (flow_step s c) ≤ flowID s + 1) as Hc.
  { destruct c as [[] [] ?|]; simpl; try lia. rewrite wrapU_id by (unfold inU; lia). lia. }
  specialize (IH (flow_step s c)). lia.
Qed.

(** Later calls leave the entries of a number alone, or remove both. *)
Lemma flow_run_entry id calls s :
  0 ≤ flowID s → id ≤ flowID s → flowID s + Z.of_nat (length calls) < 2 ^ 64 →
  flowToRXCallbackMap (flow_run s calls) !! id =
    (if existsb (destroys id) calls then None else flowToRXCallbackMap s !! id) ∧
  flowToEventCallbackMap (flow_run s calls) !! id =
    (if existsb (destroys id) calls then None else flowToEventCallbackMap s !! id).
Proof using Type.
  revert s. induction calls as [|c calls IH]; intros s H0 Hid Hn; [done|]. simpl in *.
  destruct (flow_run_counter [c] s) as [H1 H2]; [done|simpl; lia|]. simpl in *.
  destruct (IH (flow_step s c)) as [IH1 IH2]; [lia..|]. unfold flow_run in *. rewrite IH1, IH2.
  destruct c as [[rx|] [ev|] created|flow free ans]; simpl; try done.
  - rewrite wrapU_id by (unfold inU; lia). rewrite !lookup_insert_ne by lia. done.
  - case_bool_decide as Hf; simpl; [|by rewrite !lookup_delete_ne].
    rewrite Hf, !lookup_delete_eq. by destruct (existsb _ _).
Qed.

(** No number is in the tables before the counter has given it out. *)
Lemma flow_run_fresh calls s :
  0 ≤ flowID s → flowID s + Z.of_nat (length calls) < 2 ^ 64 →
  (∀ id, flowID s < id → flowToRXCallbackMap s !! id = None ∧ flowToEventCallbackMap s !! id = None) →
  ∀ id, flowID (flow_run s calls) < id →
    flowToRXCallbackMap (flow_run s calls) !! id = None ∧
    flowToEventCallbackMap (flow_run s calls) !! id = None.
Proof using Type.
  revert s. induction calls as [|c calls IH]; intros s H0 Hn Hs; [done|]. simpl in *.
  destruct (flow_run_counter [c] s) as [H1 H2]; [done|simpl; lia|]. simpl in *.
  apply (IH (flow_step s c)); [lia..|]. clear IH. intros id Hid. destruct (Hs id) as [Ha Hb]; [lia|].
  destruct c as [[rx|] [ev|] created|flow free ans]; simpl in *; try done.
  - rewrite !lookup_insert_ne by lia. done.
  - by rewrite !lookup_delete_None; auto.
Qed.

Lemma existsb_none {A} (f : A → bool) l : Forall (λ x, f x = false) l → existsb f l = false.
Proof using Type. induction 1 as [|x l Hx _ IH]; simpl; [done|]. by rewrite Hx. Qed.
Lemma existsb_some {A} (f : A → bool) l : Exists (λ x, f x = true) l → existsb f l = true.
Proof using Type. induction 1 as [x l Hx|x l _ IH]; simpl; [by rewrite Hx|rewrite IH; apply orb_true_r]. Qed.

Lemma sessions_routed p q callback (call : C → bool) (s : @callback_maps C R E) :
  0 < p → p ≠ q →
  goMessageReceiveCallback call p (snd (SetMessageCallback (Some p) (Some callback) s)) = call callback ∧
  (∀ other, goMessageReceiveCallback call q (snd (SetMessageCallback (Some p) other s))
            = goMessageReceiveCallback call q s) ∧
  goMessageReceiveCallback call p (snd (SetMessageCallback (Some p) None s)) = false ∧
  goMessageReceiveCallback call p (forget_session p s) = false ∧
  goMessageReceiveCallback call q (forget_session p s) = goMessageReceiveCallback call q s.
Proof using Type.
  intros Hp Hq. unfold SetMessageCallback, valid_session, goMessageReceiveCallback.
  rewrite decide_False by lia. simpl.
  rewrite lookup_insert_eq, !lookup_delete_eq, lookup_delete_ne by done. split_and!; try done.
  intros [other|]; simpl; [by rewrite lookup_insert_ne|by rewrite lookup_delete_ne].
Qed.

(** C16: whatever other calls precede and follow, a flow gets a number that no flow of before has; its
    messages and events reach its own callbacks, which decide about the message, until its receiver is
    destroyed, and nobody afterwards; and the two callbacks of a flow that the library refuses to make
    stay in the tables for ever, since no receiver is there to be destroyed.  In the same way the last
    message callback a session set is called until it is unset or the session destroyed, whatever the
    other sessions do. *)
Theorem callbacks_routed (call : C → bool) before after rx ev created session other callback
    (m : @callback_maps C R E) :
  Z.of_nat (length before + length after) + 1 < 2 ^ 64 → 0 < session → session ≠ other →
  let s1 := flow_run no_flows before in
  let (r, s2) := NewPersistentReceiver (Some rx) (Some ev) created s1 in
  let s3 := flow_run s2 after in
  let id := flowID s1 + 1 in
  (flowToRXCallbackMap s1 !! id = None ∧ flowToEventCallbackMap s1 !! id = None) ∧
  r = Some (match created with Ok p => Ok (mkSolClientFlow p id) | Err err => Err err end) ∧
  (Forall (λ c, destroys id c = false) after →
     goFlowMessageReceiveCallback call id s3 = call rx ∧ goFlowEventCallback id s3 = Some ev) ∧
  (Exists (λ c, destroys id c = true) after →
     goFlowMessageReceiveCallback call id s3 = false ∧ goFlowEventCallback id s3 = None) ∧
  goMessageReceiveCallback call session (snd (SetMessageCallback (Some session) (Some callback) m)) = call callback ∧
  (∀ f, goMessageReceiveCallback call other (snd (SetMessageCallback (Some session) f m))
        = goMessageReceiveCallback call other m) ∧
  goMessageReceiveCallback call session (snd (SetMessageCallback (Some session) None m)) = false ∧
  goMessageReceiveCallback call session (forget_session session m) = false ∧
  goMessageReceiveCallback call other (forget_session session m) = goMessageReceiveCallback call other m.
Proof using Type.
  intros Hn Hp Hq. set (s1 := flow_run no_flows before).
  destruct (flow_run_counter before no_flows) as [H1 H2]; [done|simpl; lia|]. fold s1 in H1, H2. simpl in H1, H2.
  destruct (flow_run_fresh before no_flows) with (id := flowID s1 + 1) as [Hf1 Hf2];
    [done|simpl; lia|by intros id _; split; apply lookup_empty|fold s1; lia|].
  simpl. rewrite wrapU_id by (unfold inU; lia).
  set (s2 := mkFlowMaps _ _ _).
  destruct (flow_run_entry (flowID s1 + 1) after s2) as [He1 He2]; [subst s2; simpl; lia..|].
  simpl in He1, He2. rewrite lookup_insert_eq in He1; rewrite lookup_insert_eq in He2.
  unfold goFlowMessageReceiveCallback, goFlowEventCallback. rewrite He1, He2.
  destruct (sessions_routed session other callback call m Hp Hq) as (? & ? & ? & ? & ?).
  split_and!; try done.
  - intros Ha. by rewrite existsb_none.
  - intros Ha. by rewrite existsb_some.
Qed.
End properties.

(** * Examples *)

(** Two flows, of which the library makes the second only, between others. *)
Definition other_calls : list (@flow_call Z Z) :=
  [CallCreate (Some 1) (Some 10) (Ok 100); CallCreate (Some 2) (Some 20) (Err (mkErrorInfo ReturnCodeFail None));
   CallCreate None (Some 5) (Ok 7)].
Definition later_calls : list (@flow_call Z Z) :=
  [CallDestroy (mkSolClientFlow 100 1) true None].

Lemma callbacks_routed_witness :
  let s := flow_run (snd (NewPersistentReceiver (Some 3) (Some 30) (Ok 300) (flow_run no_flows other_calls)))
             later_calls in
  goFlowMessageReceiveCallback (Z.eqb 3) 3 s = true ∧ goFlowEventCallback 3 s = Some 30 ∧
  goFlowMessageReceiveCallback (λ _, true) 1 s = false ∧ goFlowEventCallback 2 s = Some 20.
Proof.
  assert (let s := flow_run (snd (NewPersistentReceiver (Some 3) (Some 30) (Ok 300) (flow_run no_flows other_calls)))
             later_calls in
    goFlowMessageReceiveCallback (Z.eqb 3) 3 s = Z.eqb 3 3 ∧ goFlowEventCallback 3 s = Some 30) as Hs.
  { destruct (callbacks_routed (R := Z) (Z.eqb 3) other_calls later_calls 3 30 (Ok 300) 1 2 4
      (mkCallbacks ∅ ∅ ∅)) as (_ & _ & Hrun & _); [reflexivity|reflexivity|discriminate|].
    apply Hrun. repeat constructor. }
  destruct Hs as [H1 H2]. split_and!; [exact H1|exact H2|vm_compute; reflexivity|vm_compute; reflexivity].
Defined.
