(* ===== verification/Transport.v ===== *)
(** The transport of a messaging service, internal/impl/core/transport.go: the services of a session
    together, from its creation to its end.

    The services are those of Events, CorePublisher, CoreReceiver and Metrics, over one event
    service; what the calls of the session answer is an argument. *)

From Stdlib Require Import ZArith Lia.
From stdpp Require Import base list gmap strings.
From S2P Require Import Prelude GoEffects Errors Events Correlation CorePublisher CoreReceiver.
From S2P Require Metrics.

#[local] Open Scope Z_scope.

(** * The transport *)

(** The handlers the services register with the event service, and those of others. *)
Inductive service_handler : Type :=
| PublisherHandler (h : publisher_handler)
| ReceiverHandler (h : result_handler)
| ProvisionerHandler (h : result_handler)
| OtherHandler (n : Z).

Definition connect_prefix : string := "an error occurred while connecting: ".
Definition disconnect_prefix : string := "an error occurred while disconnecting: ".
Definition modify_prefix : string := "an error occurred while modifying session properties.".
Definition TerminatedOnMessagingServiceShutdown : string :=
  "terminated due to MessagingService disconnect".
Definition shutdown_error : go_error :=
  NewError ServiceUnreachableError TerminatedOnMessagingServiceShutdown None.

Section transport.
(** The handlers of acknowledgements and of replies, and the receive callbacks. *)
Context {A R C : Type}.

Abbreviation service_events := (@ccsmpBackedEvents service_handler).
Abbreviation service_publisher := (@ccsmpBackedPublisher A R).

Record ccsmpTransport : Type := mkTransport {
  events : service_events;
  publisher : service_publisher;
  receiver : ccsmpBackedReceiver C;
  metrics : Metrics.ccsmpBackedMetrics;
  endpointProvisioner : Provisioner.ccsmpBackedEndpointProvisioner;
  host : string;
  id : string;
  (* the finalizers that destroy a session that was never connected *)
  finalizers : bool;
  (* the session and its context have been destroyed *)
  destroyed : bool;
}.

(** [newCcsmpTransport]: the errors of creating the context and the session, and the client name. *)
Definition newCcsmpTransport (host : string) (contextErr sessionErr : option ErrorInfo)
    (clientName : res ErrorInfo string) : res go_error ccsmpTransport :=
  match contextErr, sessionErr, clientName with
  | Some err, _, _ => Err (ToNativeError err "")
  | None, Some err, _ => Err (ToNativeError err "")
  | None, None, Err err => Err (ToNativeError err "")
  | None, None, Ok id =>
      Ok (mkTransport newCcsmpEvents newCcsmpPublisher newCcsmpReceiver Metrics.newCcsmpMetrics
            Provisioner.newCcsmpEndpointProvisioner host id true false)
  end.
Definition NewTransport := newCcsmpTransport.

Definition ModifySessionProperties (err : option ErrorInfo) : option go_error :=
  (λ e, ToNativeError e modify_prefix) <$> err.

(** [Connect]: the error of the session, and its inbox. *)
Definition Connect (err : option ErrorInfo) (p2pTopicInUse : res ErrorInfo string) (t : ccsmpTransport)
    : outcome ccsmpTransport (option go_error) :=
  let t := mkTransport (events t) (publisher t) (receiver t) (metrics t) (endpointProvisioner t)
             (host t) (id t) false (destroyed t) in
  match err with
  | Some err => Done (Some (ToNativeError err connect_prefix)) t
  | None =>
      let es := Events.start (events t) in
      let '(o, es) := CorePublisher.start PublisherHandler p2pTopicInUse (publisher t) es in
      let finish (p : service_publisher) (es : service_events) :=
        let (r, es) := CoreReceiver.start ReceiverHandler (receiver t) es in
        let (v, es) := Provisioner.start_provisioner ProvisionerHandler (endpointProvisioner t) es in
        mkTransport es p r (metrics t) v (host t) (id t) (finalizers t) (destroyed t) in
      match o with
      | Done _ p => Done None (finish p es)
      | Panicked x p => Panicked x (mkTransport es p (receiver t) (metrics t) (endpointProvisioner t)
                                      (host t) (id t) (finalizers t) (destroyed t))
      | Blocked p => Blocked (mkTransport es p (receiver t) (metrics t) (endpointProvisioner t)
                                (host t) (id t) (finalizers t) (destroyed t))
      end
  end.

(** [Disconnect]: the handlers of the down event are called, in the order of their table, once the
    session is disconnected. *)
Definition Disconnect (err : option ErrorInfo) (order : list (Z * service_handler))
    : option go_error * list (service_handler * sessionEventInfo) :=
  match err with
  | Some err => (Some (ToNativeError err disconnect_prefix), [])
  | None => (None, emitEvent order (mkEventInfo (Some shutdown_error) TerminatedOnMessagingServiceShutdown 0 0))
  end.

(** The termination of the publisher service, if it is running. *)
Inductive publisher_terminates (p : service_publisher) (es : service_events)
    : service_publisher → service_events → Prop :=
| publisher_stopped p1 : terminate_begin p = Done false p1 → publisher_terminates p es p1 es
| publisher_ends p1 p2 es2 : terminate_begin p = Done true p1 → terminate_end p1 es (Done tt p2) es2 →
    publisher_terminates p es p2 es2.

(** [Close], whatever the orders of the maps: metrics, events, publisher, receiver and provisioner, and
    then the session and its context. *)
Inductive Close (stats : Metrics.session_stats) (t t' : ccsmpTransport) : Prop :=
| close_intro tx_order rx_order es1 es2 es3 p2 r2 v2 :
    tx_order ≡ₚ Metrics.txMetrics → rx_order ≡ₚ Metrics.rxMetrics →
    publisher_terminates (publisher t) (Events.terminate (events t)) p2 es1 →
    CoreReceiver.terminate (receiver t) es1 (Done tt r2) es2 →
    Provisioner.terminate_provisioner (endpointProvisioner t) es2 (Done tt v2) es3 →
    t' = mkTransport es3 p2 r2 (Metrics.terminate stats tx_order rx_order (metrics t)) v2
           (host t) (id t) (finalizers t) true →
    Close stats t t'.

Definition Publisher (t : ccsmpTransport) : service_publisher := publisher t.
Definition Receiver (t : ccsmpTransport) : ccsmpBackedReceiver C := receiver t.
Definition Metrics_ (t : ccsmpTransport) : Metrics.ccsmpBackedMetrics := metrics t.
Definition Events_ (t : ccsmpTransport) : service_events := events t.
Definition EndpointProvisioner (t : ccsmpTransport) : Provisioner.ccsmpBackedEndpointProvisioner :=
  endpointProvisioner t.
Definition ID (t : ccsmpTransport) : string := id t.
Definition Host (t : ccsmpTransport) : string := host t.
End transport.

(** * Properties *)

(** What the services register. *)
Definition service_registrations : list (event * service_handler) :=
  [(SolClientEventCanSend, PublisherHandler OnCanSend);
   (SolClientEventAcknowledgement, PublisherHandler (OnAck true));
   (SolClientEventRejected, PublisherHandler (OnAck false));
   (SolClientSubscriptionOk, ReceiverHandler HandleSubscriptionOK);
   (SolClientSubscriptionError, ReceiverHandler HandleSubscriptionErr);
   (SolClientProvisionOk, ProvisionerHandler HandleProvisionOK);
   (SolClientProvisionError, ProvisionerHandler HandleProvisionErr)].

Section properties.
Context {A R C : Type}.
Abbreviation transport := (@ccsmpTransport A R C).
Abbreviation service_events := (@ccsmpBackedEvents service_handler).

(** A handler is registered for an event, under some identifier. *)
Definition has_handler (es : service_events) (ev : event) (h : service_handler) : Prop :=
  ∃ i, registered es i ev h.

Lemma add_service n ev h (es : service_events) i es' :
  registry_ok (S n) es → add_handler ev h es = (i, es') →
  registry_ok n es' ∧ callbackSet es' = callbackSet es ∧
  ∀ ev' h', has_handler es' ev' h' ↔ has_handler es ev' h' ∨ (ev', h') = (ev, h).
Proof using Type.
  intros Hok Ha. destruct (add_handler_ok _ _ _ _ _ _ Hok Ha) as (Hok' & _ & Hr). split_and!; [done|..].
  - by injection Ha as _ <-.
  - intros ev' h'. unfold has_handler. setoid_rewrite Hr. naive_solver.
Qed.

Lemma new_events_ok : registry_ok 7 (Events.start newCcsmpEvents : service_events).
Proof using Type.
  split; [simpl; lia|]. split; intros i ev h; unfold events_registered, handlers_of; simpl;
    rewrite lookup_empty; simpl; by rewrite lookup_empty.
Qed.

(** A service that has registered the handlers [l] in [es], which may have [n] more. *)
Definition registers (n : nat) (l : list (event * service_handler)) (es es' : service_events) : Prop :=
  registry_ok n es' ∧ callbackSet es' = callbackSet es ∧
  ∀ ev h, has_handler es' ev h ↔ has_handler es ev h ∨ (ev, h) ∈ l.

Lemma registers_add n ev h l es1 es2 i es3 :
  registers (S n) l es1 es2 → add_handler ev h es2 = (i, es3) → registers n (l ++ [(ev, h)]) es1 es3.
Proof using Type.
  intros (Hok & Hcb & Hr) Ha. destruct (add_service _ _ _ _ _ _ Hok Ha) as (Hok' & Hcb' & Hr').
  split_and!; [done|congruence|]. intros ev' h'. rewrite Hr', Hr, elem_of_app, list_elem_of_singleton.
  naive_solver.
Qed.

Lemma registers_nil n es : registry_ok n es → registers n [] es es.
Proof using Type. intros Hok. split_and!; [done..|]. set_solver. Qed.

Lemma registers_trans n m l k es1 es2 es3 :
  registers m l es1 es2 → registers n k es2 es3 → registers n (l ++ k) es1 es3.
Proof using Type.
  intros (_ & Hc1 & H1) (Hok & Hc2 & H2). split_and!; [done|congruence|]. intros ev h.
  rewrite H2, H1, elem_of_app. naive_solver.
Qed.

Lemma publisher_starts n inbox (p : ccsmpBackedPublisher A R) (es : service_events) :
  isRunning p = 0 → registry_ok (3 + n) es →
  ∃ p' es', CorePublisher.start PublisherHandler inbox p es = (Done tt p', es') ∧
    registers n (take 3 service_registrations) es es' ∧
    isRunning p' = 1 ∧ rxLock p' = rxLock p ∧ termination p' = termination p ∧
    canSend p' = canSend p.
Proof using Type.
  intros Hr Hok%registers_nil. unfold CorePublisher.start. rewrite decide_True by done.
  destruct (add_handler SolClientEventCanSend _ es) as [c esa] eqn:Ha.
  destruct (add_handler SolClientEventAcknowledgement _ esa) as [a esb] eqn:Hb.
  destruct (add_handler SolClientEventRejected _ esb) as [r esc] eqn:Hc.
  eapply registers_add in Ha; [|exact Hok]. eapply registers_add in Hb; [|exact Ha].
  eapply registers_add in Hc; [|exact Hb].
  destruct inbox; eexists _, _; (split; [reflexivity|done]).
Qed.

Lemma core_receiver_starts n (r : ccsmpBackedReceiver C) (es : service_events) :
  running r = 0 → registry_ok (2 + n) es →
  ∃ r' es', CoreReceiver.start ReceiverHandler r es = (r', es') ∧
    registers n (take 2 (drop 3 service_registrations)) es es' ∧
    running r' = 1 ∧ subscriptions r' = subscriptions r.
Proof using Type.
  intros Hr Hok%registers_nil. unfold CoreReceiver.start. rewrite decide_True by done.
  destruct (add_handler SolClientSubscriptionOk _ es) as [c esa] eqn:Ha.
  destruct (add_handler SolClientSubscriptionError _ esa) as [a esb] eqn:Hb.
  eapply registers_add in Ha; [|exact Hok]. eapply registers_add in Hb; [|exact Ha].
  eexists _, _. split; [reflexivity|done].
Qed.

Lemma provisioner_starts n v (es : service_events) :
  Provisioner.isRunning v = 0 → registry_ok (2 + n) es →
  ∃ v' es', Provisioner.start_provisioner ProvisionerHandler v es = (v', es') ∧
    registers n (drop 5 service_registrations) es es' ∧
    Provisioner.isRunning v' = 1 ∧ Provisioner.provisions v' = Provisioner.provisions v.
Proof using Type.
  intros Hr Hok%registers_nil. unfold Provisioner.start_provisioner. rewrite decide_True by done.
  destruct (add_handler SolClientProvisionOk _ es) as [c esa] eqn:Ha.
  destruct (add_handler SolClientProvisionError _ esa) as [a esb] eqn:Hb.
  eapply registers_add in Ha; [|exact Hok]. eapply registers_add in Hb; [|exact Ha].
  eexists _, _. split; [reflexivity|done].
Qed.

(** The services are not yet started, or all run. *)
Definition services_stopped (t : transport) : Prop :=
  callbackSet (events t) = false ∧ isRunning (publisher t) = 0 ∧ running (receiver t) = 0 ∧
  Provisioner.isRunning (endpointProvisioner t) = 0 ∧ ∀ ev h, ¬ has_handler (events t) ev h.
Definition services_running (t : transport) : Prop :=
  callbackSet (events t) = true ∧ isRunning (publisher t) = 1 ∧ running (receiver t) = 1 ∧
  Provisioner.isRunning (endpointProvisioner t) = 1 ∧
  ∀ ev h, has_handler (events t) ev h ↔ (ev, h) ∈ service_registrations.

(** What a termination relies on: only a publisher that has been terminated is so, nobody
    holds its lock, and the tables of results are in order. *)
Record services_ok (n : nat) (t : transport) : Prop := {
  ok_publisher : isRunning (publisher t) ≠ 2 →
    termination (publisher t) = false ∧ chan_closed (canSend (publisher t)) = false;
  ok_lock : rxLock (publisher t) = rw_free;
  ok_results : table_ok n (subscriptions (receiver t));
  ok_provisions : table_ok n (Provisioner.provisions (endpointProvisioner t));
}.

Lemma connect_starts inbox (t : transport) :
  services_stopped t → registry_ok 7 (Events.start (events t)) → services_ok 2 t →
  ∃ t', Connect None inbox t = Done None t' ∧ services_running t' ∧ services_ok 2 t' ∧
    metrics t' = metrics t ∧ id t' = id t ∧ host t' = host t ∧ destroyed t' = destroyed t ∧
    finalizers t' = false.
Proof using Type.
  intros (_ & Hp & Hr & Hv & Hno) Hes [Hpt Hl Ht Hv']. destruct t as [es p r m v ho na fin de]. simpl in *.
  unfold Connect. simpl.
  destruct (publisher_starts 4 inbox p _ Hp Hes) as (p1 & es1 & -> & Hreg1 & Hp1 & Hl1 & Ht1 & Hc1).
  destruct (core_receiver_starts 2 r es1 Hr (proj1 Hreg1)) as (r1 & es2 & -> & Hreg2 & Hr1 & Hs1).
  destruct (provisioner_starts 0 v es2 Hv (proj1 Hreg2)) as (v1 & es3 & -> & Hreg3 & Hv1 & Hs2).
  pose proof (registers_trans _ _ _ _ _ _ _ (registers_trans _ _ _ _ _ _ _ Hreg1 Hreg2) Hreg3)
    as (_ & Hcb & Hall).
  eexists. split; [reflexivity|]. unfold services_running. split_and!; simpl; try done.
  - intros ev h. rewrite Hall. split; [|by right]. intros [Hx|Hx]; [by destruct (Hno ev h)|done].
  - split; simpl; [|by rewrite Hl1|by rewrite Hs1|by rewrite Hs2].
    intros _. rewrite Ht1, Hc1. apply Hpt. by rewrite Hp.
Qed.

(** After the events have been terminated no removal changes anything. *)
Lemma removes_none i (es : service_events) : eventHandlers es = ∅ → remove_handler i es es.
Proof using Type.
  intros He. simpl. exists []. split; [by unfold range_order; rewrite He, map_to_list_empty|]. by destruct es.
Qed.
Lemma removes_from_empty i (es es' : service_events) :
  eventHandlers es = ∅ → remove_handler i es es' → es' = es.
Proof using Type.
  intros He (order & Ho & ->). unfold range_order in Ho. rewrite He, map_to_list_empty in Ho.
  apply Permutation_nil_r in Ho as ->. by destruct es.
Qed.

(** What the termination of each service leaves. *)
Definition publisher_down (p p' : ccsmpBackedPublisher A R) : Prop :=
  isRunning p' ≠ 1 ∧
  (isRunning p = 1 → isRunning p' = 2 ∧ termination p' = true ∧ publisherRxReplyMap p' = ∅) ∧
  (isRunning p ≠ 1 → p' = p).
Definition receiver_down (r r' : ccsmpBackedReceiver C) : Prop :=
  running r' ≠ 1 ∧
  (running r = 1 → running r' = 0 ∧
     woken (subscriptions r) (subscriptions r') subscription_termination_error).
Definition provisioner_down (v v' : Provisioner.ccsmpBackedEndpointProvisioner) : Prop :=
  Provisioner.isRunning v' ≠ 1 ∧
  (Provisioner.isRunning v = 1 → Provisioner.isRunning v' = 0 ∧
     woken (Provisioner.provisions v) (Provisioner.provisions v') Provisioner.provision_termination_error).

Lemma terminateRequestor_state order (p p' : ccsmpBackedPublisher A R) :
  rxLock p = rw_free → terminateRequestor order p = Done tt p' →
  isRunning p' = isRunning p ∧ termination p' = termination p.
Proof using Type.
  intros Hl. unfold terminateRequestor, bind, modify, on_rxLock.
  rewrite (zoom_done Lock _ tt (mkRW 0 true)) by (simpl; by rewrite Hl).
  rewrite (zoom_done Unlock _ tt rw_free) by done.
  set (q := set_rxLock rw_free _). assert (isRunning q = isRunning p ∧ termination q = termination p) as Hq by done.
  clearbody q. revert q Hq. induction order as [|e order IH]; intros q Hq Hd.
  - unfold ret in Hd. simpl in Hd. by injection Hd as <-.
  - exact (IH (CorePublisher.log_call _ q) Hq Hd).
Qed.

Lemma publisher_closes n t (es : service_events) : services_ok n t → eventHandlers es = ∅ →
  (∃ p' es', publisher_terminates (publisher t) es p' es') ∧
  ∀ p' es', publisher_terminates (publisher t) es p' es' → es' = es ∧ publisher_down (publisher t) p'.
Proof using Type.
  intros [Hp Hl _ _] He. set (p := publisher t) in *. clearbody p.
  destruct (decide (isRunning p = 1)) as [Hr|Hr].
  - assert (∃ p1, terminate_begin p = Done true p1 ∧ isRunning p1 = 2 ∧ termination p1 = true ∧
      rxLock p1 = rw_free) as (p1 & Hb & Hr1 & Ht1 & Hl1).
    { destruct Hp as [Ht Hc]; [by rewrite Hr|]. unfold terminate_begin, bind, get, modify, gets.
      rewrite decide_True by done. unfold zoom, chan_try_send. simpl. rewrite Hc. 
      case_decide; simpl; rewrite Ht; eexists; split; reflexivity || done. }
    split.
    + destruct (terminateRequestor_ok p1 _ Hl1 (range_order_exists _)) as (p2 & H2 & _).
      exists p2, es. eapply publisher_ends; [done|]. rewrite <-H2.
      econstructor; [by apply removes_none..|apply range_order_exists].
    + intros p' es' [q Hq|q1 q2 es2 Hq Hend]; rewrite Hb in Hq; simplify_eq.
      inversion Hend as [e1 e2 e3 order Ha Hb' Hc' Ho Hx]; subst.
      apply removes_from_empty in Ha as ->; [|done]. apply removes_from_empty in Hb' as ->; [|done].
      apply removes_from_empty in Hc' as ->; [|done].
      destruct (terminateRequestor_ok q1 _ Hl1 Ho) as (p2 & H2 & Hm & _). rewrite H2 in Hx. simplify_eq.
      destruct (terminateRequestor_state _ _ _ Hl1 H2) as [Hs1 Hs2].
      split; [done|]. split; [by rewrite Hs1, Hr1|]. split; [|done]. intros _. split_and!; congruence.
  - assert (terminate_begin p = Done false p) as Hb.
    { unfold terminate_begin, bind, get. by rewrite decide_False. }
    split; [exists p, es; by apply publisher_stopped|].
    intros p' es' [q Hq|q1 q2 es2 Hq Hend]; rewrite Hb in Hq; simplify_eq. done.
Qed.

Lemma receiver_closes n t (es : service_events) : services_ok n t → eventHandlers es = ∅ →
  (∃ r', CoreReceiver.terminate (receiver t) es (Done tt r') es) ∧
  ∀ r' es', CoreReceiver.terminate (receiver t) es (Done tt r') es' →
    es' = es ∧ receiver_down (receiver t) r'.
Proof using Type.
  intros [_ _ Ht _] He. set (r := receiver t) in *. clearbody r.
  destruct (decide (running r = 1)) as [Hr|Hr].
  - split.
    + destruct (drain_wakes _ subscription_termination_error _ _ Ht (range_order_exists _)) as (t' & Hd & _).
      eexists. pose proof (terminate_running r es es es _ Hr (removes_none _ _ He) (removes_none _ _ He)
        (range_order_exists _)) as Hx.
      erewrite on_table_done in Hx by exact Hd. exact Hx.
    + intros r' es' Hx. inversion Hx as [Hne|e1 e2 order _ Ha Hb Ho Hd]; subst; [done|].
      apply removes_from_empty in Ha as ->; [|done]. apply removes_from_empty in Hb as ->; [|done].
      destruct (drain_wakes _ subscription_termination_error _ _ Ht Ho) as (t' & Hd' & Hw).
      erewrite on_table_done in Hd by exact Hd'. simplify_eq. done.
  - split; [exists r; by constructor|]. intros r' es' Hx. inversion Hx; subst; [|done]. done.
Qed.

Lemma provisioner_closes n t (es : service_events) : services_ok n t → eventHandlers es = ∅ →
  (∃ v', Provisioner.terminate_provisioner (endpointProvisioner t) es (Done tt v') es) ∧
  ∀ v' es', Provisioner.terminate_provisioner (endpointProvisioner t) es (Done tt v') es' →
    es' = es ∧ provisioner_down (endpointProvisioner t) v'.
Proof using Type.
  intros [_ _ _ Ht] He. set (v := endpointProvisioner t) in *. clearbody v.
  assert (∀ order t' w, drain order Provisioner.provision_termination_error (Provisioner.provisions w)
      = Done tt t' →
    Provisioner.on_provisions (drain order Provisioner.provision_termination_error) w
      = Done tt (Provisioner.set_provisions t' w)) as Hon.
  { intros order t' w Hm. unfold Provisioner.on_provisions, zoom. by rewrite Hm. }
  destruct (decide (Provisioner.isRunning v = 1)) as [Hr|Hr].
  - split.
    + destruct (drain_wakes _ Provisioner.provision_termination_error _ _ Ht (range_order_exists _))
        as (t' & Hd & _).
      eexists. pose proof (Provisioner.provisioner_running v es es es _ Hr (removes_none _ _ He)
        (removes_none _ _ He) (range_order_exists _)) as Hx.
      erewrite Hon in Hx by exact Hd. exact Hx.
    + intros v' es' Hx. inversion Hx as [Hne|e1 e2 order _ Ha Hb Ho Hd]; subst; [done|].
      apply removes_from_empty in Ha as ->; [|done]. apply removes_from_empty in Hb as ->; [|done].
      destruct (drain_wakes _ Provisioner.provision_termination_error _ _ Ht Ho) as (t' & Hd' & Hw).
      erewrite Hon in Hd by exact Hd'. simplify_eq. done.
  - split; [exists v; by constructor|]. intros v' es' Hx. inversion Hx; subst; [|done]. done.
Qed.


(** The transport after [Close]. *)
Record closed_from (t t' : transport) : Prop := {
  closed_callback : callbackSet (events t') = false;
  closed_handlers : eventHandlers (events t') = ∅;
  closed_publisher : publisher_down (publisher t) (publisher t');
  closed_receiver : receiver_down (receiver t) (receiver t');
  closed_provisioner : provisioner_down (endpointProvisioner t) (endpointProvisioner t');
  closed_destroyed : destroyed t' = true;
  closed_name : id t' = id t ∧ host t' = host t;
}.

Lemma close_closes n stats (t : transport) : services_ok n t →
  (∃ t', Close stats t t') ∧ ∀ t', Close stats t t' → closed_from t t'.
Proof using Type.
  intros Hok. set (es := Events.terminate (events t)).
  assert (eventHandlers es = ∅) as He by apply terminate_empty.
  destruct (publisher_closes n t es Hok He) as ((p2 & es1 & Hp) & Hpall).
  destruct (receiver_closes n t es Hok He) as ((r2 & Hr) & Hrall).
  destruct (provisioner_closes n t es Hok He) as ((v2 & Hv) & Hvall).
  destruct (Hpall _ _ Hp) as [-> _]. split.
  - eexists. by eapply (close_intro stats t _ Metrics.txMetrics Metrics.rxMetrics).
  - intros t' [tx rx e1 e2 e3 q r v _ _ Hq Hr' Hv' ->].
    apply Hpall in Hq as [-> Hq]. apply Hrall in Hr' as [-> Hr']. apply Hvall in Hv' as [-> Hv'].
    by split.
Qed.

End properties.

(** * Examples *)

Definition example_transport : @ccsmpTransport Z Z Z :=
  mkTransport newCcsmpEvents newCcsmpPublisher newCcsmpReceiver Metrics.newCcsmpMetrics
    Provisioner.newCcsmpEndpointProvisioner "tcp://broker" "client" true false.
Definition example_connected : @ccsmpTransport Z Z Z :=
  match Connect None (Ok "#P2P/inbox/#") example_transport with Done _ t => t | _ => example_transport end.

