(* ===== verification/CoreCache.v ===== *)
(** Cache requests in core: internal/impl/core/cache_requestor.go, cache_request.go,
    cache_response.go and message_filter.go, over the cache sessions of
    internal/ccsmp/ccsmp_cache.go.

    A call into the C library is logged with its arguments, its result is an argument.
    Pointers of the C library are numbers, 0 the nil pointer. *)

From Stdlib Require Import ZArith Lia.
From stdpp Require Import base list gmap strings.
From S2P Require Import Prelude GoStrconv GoEffects Errors Resource.

#[local] Open Scope Z_scope.

(** * The C interface *)

(** Flags of solClient.h and solCache.h. *)
Definition SUBSCRIBE_FLAGS_LOCAL_DISPATCH_ONLY : Z := 0x08.
Definition SUBSCRIBE_FLAGS_REQUEST_CONFIRM : Z := 0x10.
Definition CACHEREQUEST_FLAGS_LIVEDATA_FULFILL : Z := 0x02.
Definition CACHEREQUEST_FLAGS_LIVEDATA_QUEUE : Z := 0x04.
Definition CACHEREQUEST_FLAGS_LIVEDATA_FLOWTHRU : Z := 0x08.
Definition CACHEREQUEST_FLAGS_NOWAIT_REPLY : Z := 0x10.

Definition SubCodeCacheNoData : Z := 51.
Definition SubCodeCacheSuspectData : Z := 52.
Definition SubCodeCacheTimeout : Z := 55.
Definition SubCodeCacheRequestCancelled : Z := 107.

(** The maps from strategies to flags; a key that is absent reads 0. *)
Definition cache_request_flags (strategy : Z) : Z :=
  if strategy =? CacheRequestStrategyAsAvailable
  then Z.lor CACHEREQUEST_FLAGS_LIVEDATA_FLOWTHRU CACHEREQUEST_FLAGS_NOWAIT_REPLY
  else if strategy =? CacheRequestStrategyLiveCancelsCached
  then Z.lor CACHEREQUEST_FLAGS_LIVEDATA_FULFILL CACHEREQUEST_FLAGS_NOWAIT_REPLY
  else if strategy =? CacheRequestStrategyCachedFirst
  then Z.lor CACHEREQUEST_FLAGS_LIVEDATA_QUEUE CACHEREQUEST_FLAGS_NOWAIT_REPLY
  else if strategy =? CacheRequestStrategyCachedOnly
  then Z.lor CACHEREQUEST_FLAGS_LIVEDATA_FLOWTHRU CACHEREQUEST_FLAGS_NOWAIT_REPLY
  else 0.

Definition subscribe_flags (strategy : Z) : Z :=
  if strategy =? CacheRequestStrategyAsAvailable then SUBSCRIBE_FLAGS_REQUEST_CONFIRM
  else if strategy =? CacheRequestStrategyLiveCancelsCached then SUBSCRIBE_FLAGS_REQUEST_CONFIRM
  else if strategy =? CacheRequestStrategyCachedFirst then SUBSCRIBE_FLAGS_REQUEST_CONFIRM
  else if strategy =? CacheRequestStrategyCachedOnly then SUBSCRIBE_FLAGS_LOCAL_DISPATCH_ONLY
  else 0.

Definition LocalDispatchFlags : Z := SUBSCRIBE_FLAGS_LOCAL_DISPATCH_ONLY.

Definition ConvertCachedMessageSubscriptionRequestToCcsmpPropsList
    (request : cachedMessageSubscriptionRequest) : list string :=
  ["CACHESESSION_CACHE_NAME"%string; cacheName request;
   "CACHESESSION_MAX_AGE"%string; sprint_int (cachedMessageAge request);
   "CACHESESSION_MAX_MSGS"%string; sprint_int (maxCachedMessages request);
   "CACHESESSION_RR_TIMEOUT_MS"%string; sprint_int (cacheAccessTimeout request)].

(** What the C library says at the end of a cache request. *)
Record CacheEventInfo : Type := mkCacheEvent {
  cacheSessionP : Z;
  cacheEvent : Z;
  topic : string;
  returnCode : SolClientReturnCode;
  event_subCode : Z;
  event_cacheRequestID : Z;
  event_err : option go_error;
}.

(** The zero value. *)
Definition zero_event : CacheEventInfo := mkCacheEvent 0 0 "" ReturnCodeOk 0 0 None.

Definition NewCacheEventInfoForCancellation (cacheSession cacheRequestID : Z) (topic : string)
    (err : go_error) : CacheEventInfo :=
  mkCacheEvent cacheSession 1 topic ReturnCodeFail SubCodeCacheRequestCancelled cacheRequestID
    (Some err).

Inductive cache_call : Type :=
| CallCreateCacheSession (properties : list string)
| CallAllocFilter (dispatchID cacheRequestID : Z)
| CallFreeFilter (filter : Z)
| CallSendCacheRequest (dispatchID cacheSession : Z) (topic : string) (cacheRequestID : Z)
    (cacheRequestFlags subscribeFlags : Z) (filter : Z)
| CallCancelRequests (cacheSession : Z)
| CallUnsubscribeCacheTopic (topic : string) (flags : Z) (userP correlationID : Z)
| CallDestroyCacheSession (cacheSession : Z).

(** * Requests and responses *)

(** [cacheRequestMessageFilter]; [Filter] is its pointer. *)
Record cacheRequestMessageFilter : Type := mkFilter {
  pointer : Z;
  filter_cacheRequestID : Z;
  filter_dispatchID : Z;
}.

Inductive CacheRequestOutcome : Type :=
| CacheRequestOutcomeOk | CacheRequestOutcomeNoData
| CacheRequestOutcomeSuspectData | CacheRequestOutcomeFailed.

Record cacheResponse : Type := mkCacheResponse {
  cacheRequestOutcome : CacheRequestOutcome;
  response_cacheRequestID : Z;
  response_err : option go_error;
}.

(** [fmt.Sprintf("%x", p)] of a pointer. *)
Definition lower (c : Ascii.ascii) : Ascii.ascii :=
  if (65 <=? code c) && (code c <=? 90) then Ascii.ascii_of_N (Z.to_N (code c + 32)) else c.
Definition sprintf_x (n : Z) : string :=
  String.string_of_list_ascii (lower <$> String.list_ascii_of_string (format_uint 16 n)).
Definition cacheSession_String (cacheSession : Z) : string :=
  "SolClientCacheSession::cache session pointer 0x" +:+ sprintf_x cacheSession.

Definition FailedToSendCacheRequest : string := "Failed to send cache request".
Definition WithCacheRequestID : string := "with cache request ID:".
Definition WithCacheSessionPointer : string := "with cache session pointer:".
Definition FailedToDestroyCacheSession : string := "Failed to destroy cache session".

Section cache.
(** Response processors, and the callbacks of the receivers for events of the C library. *)
Context {P K : Type}.

Record CacheRequest : Type := mkCacheRequest {
  RequestConfig : cachedMessageSubscriptionRequest;
  ID : Z;
  Processor : P;
  CacheSession : Z;
  Index : Z;
  dispatchID : Z;
  MessageFilter : option cacheRequestMessageFilter;
}.

(** The global callback map, the calls into C, and the responses handed to processors with the
    index of their request; the last two are history. *)
Record core_cache : Type := mkCore {
  cacheToEventCallbackMap : gmap Z K;
  cache_calls : list cache_call;
  responses : list (Z * (P * cacheResponse));
}.

Definition new_core : core_cache := mkCore ∅ [] [].

Definition set_callbacks (m : gmap Z K) (s : core_cache) : core_cache :=
  mkCore m (cache_calls s) (responses s).
Definition log_cache_call (c : cache_call) (s : core_cache) : core_cache :=
  mkCore (cacheToEventCallbackMap s) (cache_calls s ++ [c]) (responses s).

Abbreviation CM := (M core_cache).
Definition c_call (c : cache_call) : CM unit := modify (log_cache_call c).

Definition ProcessCacheResponse (index : Z) (processor : P) (r : cacheResponse) : CM unit :=
  modify (λ s, mkCore (cacheToEventCallbackMap s) (cache_calls s)
                 (responses s ++ [(index, (processor, r))])).

(** [*strategy]. *)
Definition strategy_of (config : cachedMessageSubscriptionRequest) : CM Z :=
  match cachedMessageSubscriptionStrategy config with
  | Some strategy => ret strategy
  | None => panic NilDereference
  end.

Definition UsesLocalDispatch (config : cachedMessageSubscriptionRequest) : CM bool :=
  let* strategy := strategy_of config in
  ret (subscribe_flags strategy =? LocalDispatchFlags).

(** [CleanupFiltering] of the filter of a request, when it has one. *)
Definition cleanup_filtering (request : CacheRequest) : CM unit :=
  match MessageFilter request with
  | Some messageFilter => c_call (CallFreeFilter (pointer messageFilter))
  | None => ret tt
  end.

(** [filter] is the pointer that C allocates when it is asked to. *)
Definition NewCacheRequest (config : cachedMessageSubscriptionRequest) (cacheRequestID : Z)
    (cacheResponseHandler : P) (cacheSession dispatch : Z) (filter : Z) : CM CacheRequest :=
  let* uses := UsesLocalDispatch config in
  if uses : bool
  then c_call (CallAllocFilter dispatch cacheRequestID) ;;;
       ret (mkCacheRequest config cacheRequestID cacheResponseHandler cacheSession cacheSession
              dispatch (Some (mkFilter filter cacheRequestID dispatch)))
  else ret (mkCacheRequest config cacheRequestID cacheResponseHandler cacheSession cacheSession
              dispatch None).

Definition CreateCacheRequest (config : cachedMessageSubscriptionRequest) (cacheRequestID : Z)
    (cacheResponseHandler : P) (dispatch : Z) (created : res ErrorInfo Z) (filter : Z)
    : CM (res go_error CacheRequest) :=
  c_call (CallCreateCacheSession
            (ConvertCachedMessageSubscriptionRequestToCcsmpPropsList config)) ;;;
  match created with
  | Err errInfo =>
      ret (Err (ToNativeError errInfo
        ("Failed to create cache session " +:+ WithCacheRequestID +:+ " " +:+
         sprint_int cacheRequestID)))
  | Ok cacheSession =>
      let* cacheRequest :=
        NewCacheRequest config cacheRequestID cacheResponseHandler cacheSession dispatch filter in
      ret (Ok cacheRequest)
  end.

(** [DestroyCacheSession] of the C session. *)
Definition DestroyCacheSession (cacheSession : Z) : CM unit :=
  modify (λ s, set_callbacks (delete cacheSession (cacheToEventCallbackMap s)) s) ;;;
  c_call (CallDestroyCacheSession cacheSession).

Definition DestroyCacheRequest (request : CacheRequest) (destroyed : option ErrorInfo)
    : CM (option go_error) :=
  cleanup_filtering request ;;;
  DestroyCacheSession (CacheSession request) ;;;
  ret (match destroyed with
       | Some errorInfo =>
           Some (ToNativeError errorInfo
             (FailedToDestroyCacheSession +:+ " " +:+ WithCacheSessionPointer +:+ " and " +:+
              WithCacheRequestID +:+ ". ErrorInfo is: [" +:+ GetMessageAsString errorInfo +:+ "]"))
       | None => None
       end).

Definition no_filter_error : go_error :=
  NewError InvalidConfigurationError
    ("API tried to clean up subscription for cache request that was configured for local " +:+
     "dispatch but that did not have a configured message filter. Unable to cleanup " +:+
     "subscription so exiting.") None.

Definition CleanupCacheRequestSubscriptions (request : CacheRequest)
    (unsubscribed : option ErrorInfo) : CM (option go_error) :=
  let* uses := UsesLocalDispatch (RequestConfig request) in
  if uses : bool
  then
    match MessageFilter request with
    | None => ret (Some no_filter_error)
    | Some filter =>
        let* strategy := strategy_of (RequestConfig request) in
        c_call (CallUnsubscribeCacheTopic (cacheName (RequestConfig request))
                  (subscribe_flags strategy) (pointer filter) 0) ;;;
        ret (match unsubscribed with
             | Some errInfo => Some (ToNativeError errInfo "")
             | None => None
             end)
    end
  else ret None.

Definition invalid_strategy_message (request : CacheRequest) : string :=
  FailedToSendCacheRequest +:+ " " +:+ WithCacheRequestID +:+ " " +:+ sprint_int (ID request) +:+
  " and " +:+ WithCacheSessionPointer +:+ " " +:+ cacheSession_String (CacheSession request) +:+
  " because an invalid CachedMessageSubscriptionStrategy was passed".

Definition send_failed_message (request : CacheRequest) (errInfo : ErrorInfo) : string :=
  FailedToSendCacheRequest +:+ " " +:+ WithCacheRequestID +:+ " " +:+ sprint_int (ID request) +:+
  " and " +:+ WithCacheSessionPointer +:+ " " +:+ cacheSession_String (CacheSession request) +:+
  ". Related errInfo was " +:+ ErrorInfo_String errInfo.

(** The send of a cache session: it registers the callback first. *)
Definition session_send (cacheSession : Z) (dispatch : Z) (name : string) (id cflags sflags : Z)
    (eventCallback : K) (filter : Z) : CM unit :=
  modify (λ s, set_callbacks (<[cacheSession := eventCallback]> (cacheToEventCallbackMap s)) s) ;;;
  c_call (CallSendCacheRequest dispatch cacheSession name id cflags sflags filter).

Definition SendCacheRequest (request : CacheRequest) (cacheEventCallback : K) (dispatch : Z)
    (sent : option ErrorInfo) : CM (option go_error) :=
  match cachedMessageSubscriptionStrategy (RequestConfig request) with
  | None => ret (Some (NewError IllegalArgumentError (invalid_strategy_message request) None))
  | Some cacheStrategy =>
      let filterConfig := match MessageFilter request with Some f => pointer f | None => 0 end in
      session_send (CacheSession request) dispatch (CachedRequest_GetName (RequestConfig request))
        (ID request) (cache_request_flags cacheStrategy) (subscribe_flags cacheStrategy)
        cacheEventCallback filterConfig ;;;
      ret (match sent with
           | Some errInfo => Some (ToNativeError errInfo (send_failed_message request errInfo))
           | None => None
           end)
  end.

(** [goCacheEventCallback] calls the callback registered for a cache session with the event
    [CacheEventInfoFromCoreCacheEventInfo] makes, then forgets the callback. *)
Definition lookup_callback (userP : Z) : CM (option K) :=
  gets (λ s, cacheToEventCallbackMap s !! userP).
Definition forget_callback (userP : Z) : CM unit :=
  modify (λ s, set_callbacks (delete userP (cacheToEventCallbackMap s)) s).

Definition CacheEventInfoFromCoreCacheEventInfo (userP event : Z) (name : string)
    (rc : SolClientReturnCode) (sub id : Z) : CacheEventInfo :=
  mkCacheEvent userP event name rc sub id None.

(** The address of a variable, so never nil: the event it points to. *)
Definition CancelPendingCacheRequests (cacheRequestIndex : Z) (request : CacheRequest)
    (cancelled : option ErrorInfo) : CM CacheEventInfo :=
  c_call (CallCancelRequests cacheRequestIndex) ;;;
  ret (match cancelled with
       | Some errorInfo =>
           if decide (ReturnCode errorInfo = ReturnCodeOk) then zero_event
           else NewCacheEventInfoForCancellation cacheRequestIndex (ID request)
                  (CachedRequest_GetName (RequestConfig request))
                  (ToNativeError errorInfo "Failed to cancel cache request.")
       | None => zero_event
       end).

(** The outcome and the error of a response. *)
Definition response_outcome (rc : SolClientReturnCode) (sub : Z)
    : CacheRequestOutcome * option go_error :=
  if decide (rc = ReturnCodeOk) then (CacheRequestOutcomeOk, None)
  else if decide (rc = ReturnCodeIncomplete) then
    if sub =? SubCodeCacheSuspectData then (CacheRequestOutcomeSuspectData, None)
    else if sub =? SubCodeCacheNoData then (CacheRequestOutcomeNoData, None)
    else if sub =? SubCodeCacheTimeout then
      (CacheRequestOutcomeFailed,
       Some (NewError TimeoutError "the cache request timed out" None))
    else (CacheRequestOutcomeFailed, None)
  else
    (CacheRequestOutcomeFailed,
     if negb (sub =? SubCodeCacheSuspectData) && negb (sub =? SubCodeCacheNoData)
     then Some (NewNativeError "the cache request failed" sub) else None).

(** The cache requests of a receiver are [cacheRequestMap]; the result is the map afterwards. *)
Definition ProcessCacheEvent (cacheRequestMap : gmap Z CacheRequest) (ev : CacheEventInfo)
    (unsubscribed : option ErrorInfo) : CM (gmap Z CacheRequest) :=
  let cacheRequestIndex := cacheSessionP ev in
  match cacheRequestMap !! cacheRequestIndex with
  | None => ret tt
  | Some cacheRequest =>
      let outcome := response_outcome (returnCode ev) (event_subCode ev) in
      ProcessCacheResponse cacheRequestIndex (Processor cacheRequest)
        (mkCacheResponse (fst outcome) (ID cacheRequest) (snd outcome)) ;;;
      CleanupCacheRequestSubscriptions cacheRequest unsubscribed ;;;
      cleanup_filtering cacheRequest
  end ;;;
  DestroyCacheSession cacheRequestIndex ;;;
  ret (delete cacheRequestIndex cacheRequestMap).

(** The events of a receiver are processed one after the other. *)
Fixpoint process_all (cacheRequestMap : gmap Z CacheRequest)
    (evs : list (CacheEventInfo * option ErrorInfo)) : CM (gmap Z CacheRequest) :=
  match evs with
  | [] => ret cacheRequestMap
  | (ev, unsubscribed) :: evs =>
      let* cacheRequestMap := ProcessCacheEvent cacheRequestMap ev unsubscribed in
      process_all cacheRequestMap evs
  end.

(** * Properties *)

(** A request as [NewCacheRequest] makes it. *)
Record request_ok (i : Z) (request : CacheRequest) : Prop := {
  ok_index : Index request = i;
  ok_session : CacheSession request = i;
  ok_strategy : is_Some (cachedMessageSubscriptionStrategy (RequestConfig request));
}.

Definition requests_ok (m : gmap Z CacheRequest) : Prop :=
  ∀ i request, m !! i = Some request → request_ok i request.

Lemma cleanup_subscriptions_done request unsubscribed s :
  is_Some (cachedMessageSubscriptionStrategy (RequestConfig request)) →
  ∃ e s', CleanupCacheRequestSubscriptions request unsubscribed s = Done e s' ∧
    responses s' = responses s.
Proof.
  intros [strategy Hs].
  unfold CleanupCacheRequestSubscriptions, UsesLocalDispatch, strategy_of, bind. rewrite Hs. simpl.
  destruct (_ =? _); [destruct (MessageFilter request)|]; by eexists _, _.
Qed.

Lemma cleanup_filtering_done request s :
  ∃ s', cleanup_filtering request s = Done tt s' ∧ responses s' = responses s.
Proof. unfold cleanup_filtering. destruct (MessageFilter request); by eexists. Qed.

(** The response to the request [i] in a map when its first event is [ev]. *)
Definition response_to (m : gmap Z CacheRequest) (i : Z) (ev : CacheEventInfo)
    : list (Z * (P * cacheResponse)) :=
  match m !! i with
  | Some request =>
      [(i, (Processor request,
            mkCacheResponse (response_outcome (returnCode ev) (event_subCode ev)).1 (ID request)
              (response_outcome (returnCode ev) (event_subCode ev)).2))]
  | None => []
  end.

Lemma ProcessCacheEvent_done m ev unsubscribed s :
  requests_ok m →
  ∃ s', ProcessCacheEvent m ev unsubscribed s = Done (delete (cacheSessionP ev) m) s' ∧
    responses s' = responses s ++ response_to m (cacheSessionP ev) ev.
Proof.
  intros Hm. unfold ProcessCacheEvent, response_to.
  destruct (m !! cacheSessionP ev) as [request|] eqn:Hr.
  - destruct (Hm _ _ Hr) as [_ _ Hstrategy]. unfold ProcessCacheResponse, modify.
    match goal with |- context [responses s ++ ?l] => set (r := l) end.
    set (s1 := mkCore (cacheToEventCallbackMap s) (cache_calls s) (responses s ++ r)).
    destruct (cleanup_subscriptions_done request unsubscribed s1 Hstrategy) as (e & s2 & H2 & R2).
    destruct (cleanup_filtering_done request s2) as (s3 & H3 & R3).
    eexists. split.
    + unfold bind at 1. unfold bind at 1. fold s1. unfold bind at 1. rewrite H2, H3. reflexivity.
    + simpl. by rewrite R3, R2.
  - eexists. split; [reflexivity|]. simpl. by rewrite app_nil_r.
Qed.
Lemma requests_ok_delete m i : requests_ok m → requests_ok (delete i m).
Proof. intros Hm j request. rewrite lookup_delete_Some. intros [_ H]. by apply Hm. Qed.

(** C22: however many events the C library and the API produce for the requests of a receiver, in
    whatever order, each request is answered exactly once when it has an event, by the first
    one, and not at all when it has none; nothing panics, and the requests answered leave the
    map. *)
Theorem responses_once m evs s :
  requests_ok m →
  ∃ m' s', process_all m evs s = Done m' s' ∧
    (∀ i, m' !! i = if decide (i ∈ (λ p, cacheSessionP p.1) <$> evs) then None else m !! i) ∧
    ∀ i, filter (λ r, r.1 = i) (responses s') = filter (λ r, r.1 = i) (responses s) ++
      match list_find (λ p, cacheSessionP p.1 = i) evs with
      | Some (_, (ev, _)) => response_to m i ev
      | None => []
      end.
Proof.
  revert m s. induction evs as [|[ev u] evs IH]; intros m s Hm.
  - exists m, s. split_and!; [done|done|]. intros i. by rewrite app_nil_r.
  - destruct (ProcessCacheEvent_done m ev u s Hm) as (s1 & H1 & R1).
    destruct (IH (delete (cacheSessionP ev) m) s1 (requests_ok_delete _ _ Hm))
      as (m' & s' & H2 & Hm' & R2).
    exists m', s'. split_and!.
    + cbn [process_all]. unfold bind at 1. rewrite H1. exact H2.
    + intros i. rewrite Hm', fmap_cons. cbn [fst].
      destruct (decide (i = cacheSessionP ev)) as [->|Hne].
      * rewrite lookup_delete_eq, (decide_True (P := _ ∈ _ :: _)) by (by left). by case_decide.
      * rewrite lookup_delete_ne by done. apply decide_ext. rewrite elem_of_cons. tauto.
    + intros i. rewrite R2, R1, filter_app, <-app_assoc. f_equal. simpl.
      unfold response_to. destruct (decide (cacheSessionP ev = i)) as [<-|Hne].
      * rewrite lookup_delete_eq.
        assert (∀ o : option (nat * (CacheEventInfo * option ErrorInfo)),
          match o with Some (_, (_, _)) => [] | None => [] end =
          ([] : list (Z * (P * cacheResponse)))) as -> by (by intros [[? []]|]).
        rewrite app_nil_r. destruct (m !! cacheSessionP ev); [|done].
        rewrite filter_cons_True by done. by rewrite filter_nil.
      * rewrite lookup_delete_ne by done.
        assert (filter (λ r : Z * (P * cacheResponse), r.1 = i) (response_to m (cacheSessionP ev) ev)
          = []) as Hf.
        { unfold response_to. destruct (m !! cacheSessionP ev); [|done].
          by rewrite filter_cons_False. }
        unfold response_to in Hf. rewrite Hf. simpl.
        destruct (list_find _ evs) as [[? []]|]; done.
Qed.

(** What an event says becomes one of four outcomes.  The three outcomes of a request that
    succeeded never come with an error; a failed one comes without an error exactly on a
    subcode of incomplete requests that has no case of its own, or when the request failed
    outright with the subcode for suspect or missing data. *)
Theorem response_outcome_spec rc sub :
  let (outcome, err) := response_outcome rc sub in
  (outcome = CacheRequestOutcomeOk ↔ rc = ReturnCodeOk) ∧
  (outcome = CacheRequestOutcomeNoData ↔
     rc = ReturnCodeIncomplete ∧ sub = SubCodeCacheNoData) ∧
  (outcome = CacheRequestOutcomeSuspectData ↔
     rc = ReturnCodeIncomplete ∧ sub = SubCodeCacheSuspectData) ∧
  (outcome ≠ CacheRequestOutcomeFailed → err = None) ∧
  (outcome = CacheRequestOutcomeFailed ∧ err = None ↔
     rc = ReturnCodeIncomplete ∧
       sub ∉ [SubCodeCacheNoData; SubCodeCacheSuspectData; SubCodeCacheTimeout] ∨
     rc ≠ ReturnCodeOk ∧ rc ≠ ReturnCodeIncomplete ∧
       sub ∈ [SubCodeCacheNoData; SubCodeCacheSuspectData]).
Proof.
  unfold response_outcome, SubCodeCacheNoData, SubCodeCacheSuspectData, SubCodeCacheTimeout.
  repeat case_decide; repeat match goal with |- context [?a =? ?b] => destruct (Z.eqb_spec a b) end;
    simpl; rewrite !elem_of_cons, !elem_of_nil; (split_and!; [intuition congruence..|]);
    intuition (congruence || lia).
Qed.

(** The calls into C over the life of a request that is sent and answered.  A
    cached-only request subscribes its topic in the dispatch table with the filter made for it;
    at the end the API unsubscribes the name of the cache instead of that topic, and frees
    the filter.  The other requests neither filter nor unsubscribe. *)
Theorem request_trace config strategy id processor cs dispatch filter cb ev u s :
  cachedMessageSubscriptionStrategy config = Some strategy → 0 ≤ strategy < 4 →
  cacheSessionP ev = cs →
  let local := bool_decide (strategy = CacheRequestStrategyCachedOnly) in
  ∃ request s1 s2 s3,
    CreateCacheRequest config id processor dispatch (Ok cs) filter s = Done (Ok request) s1 ∧
    SendCacheRequest request cb dispatch None s1 = Done None s2 ∧
    cacheToEventCallbackMap s2 !! cs = Some cb ∧
    ProcessCacheEvent {[cs := request]} ev u s2 = Done ∅ s3 ∧
    cacheToEventCallbackMap s3 !! cs = None ∧
    cache_calls s3 = cache_calls s ++
      [CallCreateCacheSession (ConvertCachedMessageSubscriptionRequestToCcsmpPropsList config)] ++
      (if local then [CallAllocFilter dispatch id] else []) ++
      [CallSendCacheRequest dispatch cs (CachedRequest_GetName config) id
         (cache_request_flags strategy) (subscribe_flags strategy) (if local then filter else 0)] ++
      (if local then [CallUnsubscribeCacheTopic (cacheName config) LocalDispatchFlags filter 0;
                      CallFreeFilter filter] else []) ++
      [CallDestroyCacheSession cs].
Proof.
  intros Hs Hr Hev local.
  assert (subscribe_flags strategy =? LocalDispatchFlags = local) as Hf.
  { unfold local. assert (strategy = 0 ∨ strategy = 1 ∨ strategy = 2 ∨ strategy = 3)
      as [->|[->|[->| ->]]] by lia; by vm_compute. }
  clearbody local.
  destruct local; eexists _, _, _, _; split_and!;
    try (unfold CreateCacheRequest, NewCacheRequest, UsesLocalDispatch, strategy_of, bind;
         rewrite Hs; simpl; rewrite Hf; reflexivity);
    try (unfold SendCacheRequest; simpl; rewrite Hs; reflexivity);
    try (unfold ProcessCacheEvent; rewrite Hev, lookup_singleton_eq;
         unfold CleanupCacheRequestSubscriptions, UsesLocalDispatch, strategy_of, bind; simpl;
         rewrite Hs; simpl; rewrite Hf; simpl; rewrite delete_singleton_eq; reflexivity);
    simpl; rewrite ?lookup_insert_eq, ?lookup_delete_eq, <-?app_assoc; try done.
  simpl. apply Z.eqb_eq in Hf. by rewrite Hf.
Qed.
End cache.
Arguments CacheRequest P : clear implicits.
Arguments core_cache P K : clear implicits.

(** * Examples *)

(** A cached-only request for [a/b] to the cache [c]. *)
Definition cached_only_config : cachedMessageSubscriptionRequest :=
  NewCachedMessageSubscriptionRequest CacheRequestStrategyCachedOnly "c"
    (Some (TopicSubscriptionOf "a/b")) 3000 10 0.

Definition example_request : CacheRequest Z :=
  mkCacheRequest cached_only_config 5 77 1000 1000 1 (Some (mkFilter 2000 5 1)).

(** The cache has no data; the event comes twice. *)
Definition no_data_event : CacheEventInfo :=
  CacheEventInfoFromCoreCacheEventInfo 1000 1 "a/b" ReturnCodeIncomplete SubCodeCacheNoData 5.

Lemma responses_once_witness :
  ∃ s', process_all (K := Z) {[1000 := example_request]}
      [(no_data_event, None); (no_data_event, None)] new_core = Done ∅ s' ∧
    filter (λ r, r.1 = 1000) (responses s') =
      [(1000, (77, mkCacheResponse CacheRequestOutcomeNoData 5 None))].
Proof.
  assert (requests_ok {[1000 := example_request]}) as Hm.
  { intros i r. rewrite lookup_singleton_Some. intros [<- <-]. split; [done..|by eexists]. }
  destruct (responses_once (K := Z) {[1000 := example_request]}
    [(no_data_event, None); (no_data_event, None)] new_core Hm) as (m' & s' & H & Hm' & Hr).
  assert (m' = ∅) as ->.
  { apply map_eq. intros i. rewrite Hm', lookup_empty. case_decide as Hi; [done|].
    apply lookup_singleton_ne. intros <-. apply Hi. by left. }
  exists s'. split; [exact H|]. rewrite Hr. vm_compute. reflexivity.
Defined.

Lemma request_trace_witness :
  ∃ request s1 s2 s3,
    CreateCacheRequest cached_only_config 5 77 1 (Ok 1000) 2000 new_core =
      Done (Ok request) s1 ∧
    SendCacheRequest request 9 1 None s1 = Done None s2 ∧
    ProcessCacheEvent {[1000 := request]} no_data_event None s2 = Done ∅ s3 ∧
    CallUnsubscribeCacheTopic "c" 8 2000 0 ∈ cache_calls s3.
Proof.
  destruct (request_trace cached_only_config 3 5 77 1000 1 2000 9 no_data_event None new_core
    eq_refl ltac:(lia) eq_refl) as (request & s1 & s2 & s3 & H1 & H2 & _ & H3 & _ & Hc).
  exists request, s1, s2, s3. split_and!; [exact H1|exact H2|exact H3|].
  rewrite Hc. vm_compute. do 3 right. left.
Defined.
