(* ===== verification/ReceiverCache.v ===== *)
(** Cache requests of a direct receiver: the cache part of
    internal/impl/receiver/direct_message_receiver_impl.go, over CoreCache.

    The operations run one after the other on the state of the receiver; the goroutine that
    polls the responses is the function [poll], a callback of the C library the function
    [goCacheEventCallback].  Responses to an application are recorded in the history of
    CoreCache: a channel made for one request has one place, and a request is answered at most
    once. *)

From Stdlib Require Import ZArith Lia.
From stdpp Require Import base list gmap strings.
From S2P Require Import Prelude GoStrconv GoEffects Errors Resource CoreCache.

#[local] Open Scope Z_scope.

Definition MaxOutstandingCacheRequests : Z := 1024.

Definition not_started_error : go_error :=
  NewError IllegalStateError
    ("Could not perform cache operations because more the receiver was not in the " +:+
     "'Started' state.") None.
Definition not_running_error : go_error :=
  NewError IllegalStateError
    "Could not perform cache operations because the receiver was not running." None.
Definition too_many_error : go_error :=
  NewError IllegalStateError
    ("Could not perform cache operations because more than " +:+
     sprint_int MaxOutstandingCacheRequests +:+
     " cache responses are still waiting to be processed by the application.") None.

Section receiver_cache.
(** Response processors. *)
Context {P : Type}.

(** The callback of this receiver, which sends on [cacheResponseChan], is the only one here. *)
Record receiver_cache : Type := mkReceiverCache {
  core : core_cache P unit;
  cacheRequestMap : gmap Z (CacheRequest P);
  cacheResponseChan : option (chan CacheEventInfo);
  cachePollingRunningChan : option (chan bool);
  cachePollingRunning : bool;
  numOutstandingCacheRequests : Z;
}.

Definition new_receiver_cache : receiver_cache := mkReceiverCache new_core ∅ None None false 0.

Definition set_core (c : core_cache P unit) (s : receiver_cache) : receiver_cache :=
  mkReceiverCache c (cacheRequestMap s) (cacheResponseChan s) (cachePollingRunningChan s)
    (cachePollingRunning s) (numOutstandingCacheRequests s).
Definition set_requests (m : gmap Z (CacheRequest P)) (s : receiver_cache) : receiver_cache :=
  mkReceiverCache (core s) m (cacheResponseChan s) (cachePollingRunningChan s)
    (cachePollingRunning s) (numOutstandingCacheRequests s).
Definition set_responses (c : option (chan CacheEventInfo)) (s : receiver_cache)
    : receiver_cache :=
  mkReceiverCache (core s) (cacheRequestMap s) c (cachePollingRunningChan s)
    (cachePollingRunning s) (numOutstandingCacheRequests s).
Definition set_polling (c : option (chan bool)) (b : bool) (s : receiver_cache)
    : receiver_cache :=
  mkReceiverCache (core s) (cacheRequestMap s) (cacheResponseChan s) c b
    (numOutstandingCacheRequests s).
Definition add_outstanding (delta : Z) (s : receiver_cache) : receiver_cache :=
  mkReceiverCache (core s) (cacheRequestMap s) (cacheResponseChan s)
    (cachePollingRunningChan s) (cachePollingRunning s)
    (wrapS 64 (numOutstandingCacheRequests s + delta)).

Abbreviation RC := (M receiver_cache).
Definition on_core {A} (m : M (core_cache P unit) A) : RC A := zoom core set_core m.

(** A send on [cacheResponseChan]; on the nil channel it blocks for ever. *)
Definition send_response (ev : CacheEventInfo) : RC unit := λ s,
  match cacheResponseChan s with
  | None => Blocked s
  | Some c =>
      match chan_send ev c with
      | Done _ c => Done tt (set_responses (Some c) s)
      | Panicked p _ => Panicked p s
      | Blocked _ => Blocked s
      end
  end.

(** ** Requests *)

Definition checkStateForCacheRequest (started running : bool) (s : receiver_cache)
    : option go_error :=
  if negb started then Some not_started_error
  else if negb running then Some not_running_error
  else if MaxOutstandingCacheRequests <=? numOutstandingCacheRequests s
  then Some too_many_error
  else None.

(** The goroutine announces itself on [cachePollingRunningChan], which the caller awaits. *)
Definition StartAndInitCacheRequestorIfNotDoneAlready : RC unit :=
  modify (λ s, match cacheResponseChan s with
               | None => set_responses (Some (make_chan (Z.to_nat MaxOutstandingCacheRequests))) s
               | Some _ => s
               end) ;;;
  modify (λ s, match cachePollingRunningChan s with
               | None => set_polling (Some (make_chan 0)) (cachePollingRunning s) s
               | Some _ => s
               end) ;;;
  let* s := get in
  if cachePollingRunning s then ret tt
  else match cachePollingRunningChan s with
       | Some c => if chan_closed c then panic SendOnClosedChannel
                   else modify (set_polling (Some c) true)
       | None => block
       end.

Definition addCacheSessionToMapIfNotPresent (request : CacheRequest P) : RC (option go_error) :=
  let* s := get in
  match cacheRequestMap s !! Index request with
  | Some _ =>
      ret (Some (NewError IllegalStateError
        ("The application API to create a new cache request using cache session pointer [0x" +:+
         sprintf_x (Index request) +:+ "] but another cache request's cache session under that " +:+
         "pointer already exists.") None))
  | None =>
      modify (set_requests (<[Index request := request]> (cacheRequestMap s))) ;;; ret None
  end.

(** [RequestCachedAsync] and [RequestCachedAsyncWithCallback], which differ in the processor:
    [created], [filter], [sent] and [destroyed] are what the C library answers. *)
Definition RequestCached (started running : bool) (config : cachedMessageSubscriptionRequest)
    (cacheRequestID : Z) (processor : P) (dispatch : Z) (created : res ErrorInfo Z)
    (filter : Z) (sent destroyed : option ErrorInfo) : RC (option go_error) :=
  let* s := get in
  match checkStateForCacheRequest started running s with
  | Some err => ret (Some err)
  | None =>
  modify (add_outstanding 1) ;;;
  StartAndInitCacheRequestorIfNotDoneAlready ;;;
  let* r := on_core (CreateCacheRequest config cacheRequestID processor dispatch created filter) in
  match r with
  | Err err => modify (add_outstanding (-1)) ;;; ret (Some err)
  | Ok cacheRequest =>
  let* present := addCacheSessionToMapIfNotPresent cacheRequest in
  match present with
  | Some err => modify (add_outstanding (-1)) ;;; ret (Some err)
  | None =>
  let* err := on_core (SendCacheRequest cacheRequest tt dispatch sent) in
  match err with
  | Some err =>
      modify (add_outstanding (-1)) ;;;
      modify (λ s, set_requests (delete (Index cacheRequest) (cacheRequestMap s)) s) ;;;
      on_core (DestroyCacheRequest cacheRequest destroyed) ;;;
      ret (Some err)
  | None => ret None
  end end end end.

(** ** Events and polling *)

(** The C library reports the end of a request. *)
Definition goCacheEventCallback (userP event : Z) (name : string) (rc : SolClientReturnCode)
    (sub id : Z) : RC unit :=
  let* callback := on_core (lookup_callback userP) in
  match callback with
  | Some _ =>
      send_response (CacheEventInfoFromCoreCacheEventInfo userP event name rc sub id) ;;;
      on_core (forget_callback userP)
  | None => ret tt
  end.

(** One turn of [PollAndProcessCacheResponseChannel]; the result tells whether it goes on.
    [unsubscribed] is what C answers when a subscription of a cache session is removed. *)
Definition poll_turn (unsubscribed : Z → option ErrorInfo) : RC bool :=
  let* s := get in
  match cacheResponseChan s with
  | None => block
  | Some c =>
      match chan_recv c with
      | Done (Some ev) c =>
          modify (set_responses (Some c)) ;;;
          modify (add_outstanding (-1)) ;;;
          let* m := on_core (ProcessCacheEvent (cacheRequestMap s) ev
                               (unsubscribed (cacheSessionP ev))) in
          modify (set_requests m) ;;; ret true
      | Done None _ =>
          modify (add_outstanding (-1)) ;;;
          match cachePollingRunningChan s with
          | Some r =>
              match chan_close r with
              | Done _ r => modify (set_polling (Some r) false) ;;; ret false
              | _ => panic CloseOfClosedChannel
              end
          | None => panic CloseOfNilChannel
          end
      | Panicked p _ => panic p
      | Blocked _ => block
      end
  end.

Fixpoint poll (fuel : nat) (unsubscribed : Z → option ErrorInfo) : RC unit :=
  match fuel with
  | O => block
  | S fuel =>
      let* continue := poll_turn unsubscribed in
      if continue : bool then poll fuel unsubscribed else ret tt
  end.

(** ** Termination *)

(** How C answers a cancellation: it fails, or C reports the end of the request itself. *)
Inductive cancel_result : Type :=
| CancelFailed (errorInfo : ErrorInfo)
| Cancelled (rc : SolClientReturnCode) (sub : Z).

(** The loop of [teardownCache] over the requests in the order [order]. *)
Fixpoint cancel_all (result : Z → cancel_result) (order : list (Z * CacheRequest P)) : RC unit :=
  match order with
  | [] => ret tt
  | (key, value) :: order =>
      let* generatedEvent :=
        match result key with
        | CancelFailed e => on_core (CancelPendingCacheRequests key value (Some e))
        | Cancelled rc sub =>
            goCacheEventCallback key 1 (CachedRequest_GetName (RequestConfig value)) rc sub
              (ID value) ;;;
            on_core (CancelPendingCacheRequests key value None)
        end in
      send_response generatedEvent ;;;
      cancel_all result order
  end.

Definition teardownCache (result : Z → cancel_result) (order : list (Z * CacheRequest P))
    : RC unit :=
  let* s := get in
  if cachePollingRunning s
  then
    cancel_all result order ;;;
    let* s := get in
    match cacheResponseChan s with
    | None => panic CloseOfNilChannel
    | Some c =>
        match chan_close c with
        | Done _ c => modify (set_responses (Some c))
        | _ => panic CloseOfClosedChannel
        end
    end
  else ret tt.

(** * Properties *)

(** The receiver has not torn its cache down: what exists of its channels is open. *)
Record channels_open (s : receiver_cache) : Prop := {
  open_responses : ∀ c, cacheResponseChan s = Some c → chan_closed c = false;
  open_polling : ∀ c, cachePollingRunningChan s = Some c → chan_closed c = false;
}.

(** Nothing is left of a request in the receiver. *)
Definition same_requests (s s' : receiver_cache) : Prop :=
  cacheRequestMap s' = cacheRequestMap s ∧
  numOutstandingCacheRequests s' = numOutstandingCacheRequests s.

Lemma bind_run {S A B} (m : M S A) (f : A → M S B) s a s1 :
  m s = Done a s1 → bind m f s = f a s1.
Proof. unfold bind. by intros ->. Qed.

Lemma on_core_done {A} (m : M (core_cache P unit) A) s a c :
  m (core s) = Done a c → on_core m s = Done a (set_core c s).
Proof. unfold on_core, zoom. by intros ->. Qed.

Lemma start_ready s :
  channels_open s →
  ∃ s1, StartAndInitCacheRequestorIfNotDoneAlready s = Done tt s1 ∧
    core s1 = core s ∧ same_requests s s1 ∧ cachePollingRunning s1 = true ∧
    is_Some (cacheResponseChan s1).
Proof.
  intros [H1 H2]. destruct s as [co m c r b n].
  unfold StartAndInitCacheRequestorIfNotDoneAlready, bind, modify, get, ret. simpl in *.
  destruct c as [c|]; destruct r as [r|]; destruct b; simpl;
    rewrite ?(H2 r) by done; simpl; (eexists; split; [reflexivity|]);
    split_and!; simpl; try done; by eexists.
Qed.

(** The request is counted before it is created, and taken off again when it fails. *)
Lemma count_twice n : 0 ≤ n < MaxOutstandingCacheRequests →
  wrapS 64 (n + 1) = n + 1 ∧ wrapS 64 (wrapS 64 (n + 1) + -1) = n.
Proof.
  unfold MaxOutstandingCacheRequests. intros Hn.
  assert (wrapS 64 (n + 1) = n + 1) as -> by (apply wrapS_id; unfold inS; lia).
  split; [done|]. rewrite wrapS_id; unfold inS; lia.
Qed.

(** C23: the life of a cache request up to its send.  When the receiver is not in the state to
    send one, or when C refuses to create or to send it, the application gets the error and
    the receiver counts and keeps nothing, the cache session is destroyed again; when it is
    sent the receiver counts it, knows it by its cache session and has the callback
    registered.  A request without a strategy, which the send would refuse as an illegal
    argument, never gets there: its creation dereferences the nil strategy, after the cache
    session was created and the request counted. *)
Theorem request_lifecycle started running config id processor dispatch created filter sent
    destroyed s :
  channels_open s → 0 ≤ numOutstandingCacheRequests s →
  let o := RequestCached started running config id processor dispatch created filter sent
             destroyed s in
  match checkStateForCacheRequest started running s with
  | Some err => kind_of err = Some IllegalStateError ∧ o = Done (Some err) s
  | None =>
      (∀ e, created = Err e → ∃ err s', o = Done (Some err) s' ∧ same_requests s s') ∧
      (∀ cs, created = Ok cs → cacheRequestMap s !! cs = None →
         is_Some (cachedMessageSubscriptionStrategy config) →
         match sent with
         | Some _ => ∃ err s', o = Done (Some err) s' ∧ same_requests s s' ∧
             cacheToEventCallbackMap (core s') = delete cs (cacheToEventCallbackMap (core s)) ∧
             last (cache_calls (core s')) = Some (CallDestroyCacheSession cs)
         | None => ∃ s' request, o = Done None s' ∧
             cacheRequestMap s' = <[cs := request]> (cacheRequestMap s) ∧
             request_ok cs request ∧ ID request = id ∧ Processor request = processor ∧
             numOutstandingCacheRequests s' = numOutstandingCacheRequests s + 1 ∧
             cacheToEventCallbackMap (core s') !! cs = Some tt ∧ cachePollingRunning s' = true
         end) ∧
      (∀ cs, created = Ok cs → cachedMessageSubscriptionStrategy config = None →
         ∃ s', o = Panicked NilDereference s' ∧
           numOutstandingCacheRequests s' = numOutstandingCacheRequests s + 1 ∧
           cache_calls (core s') = cache_calls (core s) ++ [CallCreateCacheSession
             (ConvertCachedMessageSubscriptionRequestToCcsmpPropsList config)])
  end.
Proof.
  intros Ho Hn o. unfold o, RequestCached. rewrite (bind_run get _ s s s) by done.
  destruct (checkStateForCacheRequest started running s) as [err|] eqn:Hcheck.
  { revert Hcheck. unfold checkStateForCacheRequest. repeat case_match; intros; by simplify_eq. }
  assert (0 ≤ numOutstandingCacheRequests s < MaxOutstandingCacheRequests) as Hmax.
  { revert Hcheck. unfold checkStateForCacheRequest. destruct started, running; simpl; try done.
    destruct (Z.leb_spec MaxOutstandingCacheRequests (numOutstandingCacheRequests s)); [done|lia]. }
  destruct (count_twice _ Hmax) as [Hc1 Hc2].
  destruct (start_ready (add_outstanding 1 s)) as (s1 & H1 & Hcore & [Hm1 Hn1] & Hp1 & _).
  { destruct Ho. by split. }
  rewrite (bind_run _ _ s tt (add_outstanding 1 s)) by done. rewrite (bind_run _ _ _ _ _ H1).
  simpl in Hn1, Hm1, Hcore. rewrite Hc1 in Hn1, Hc2. destruct s1 as [co m c r b n]. simpl in *.
  subst co m b n. unfold CreateCacheRequest, NewCacheRequest, UsesLocalDispatch, strategy_of.
  split_and!.
  - intros e ->. eexists _, _. split; [reflexivity|]. by split.
  - intros cs -> Hnone [strategy Hs]. rewrite Hs. unfold on_core, zoom, bind. simpl.
    destruct (subscribe_flags strategy =? LocalDispatchFlags); simpl;
      unfold addCacheSessionToMapIfNotPresent, bind, get; simpl; rewrite Hnone; simpl;
      unfold SendCacheRequest; simpl; rewrite Hs; (destruct sent as [e|]; simpl;
      [eexists _, _; (split; [reflexivity|]); unfold same_requests; simpl;
         split_and!; simpl; rewrite ?delete_insert_eq, ?(delete_id _ _ Hnone), ?last_snoc; done
      |eexists _, _; (split; [reflexivity|]); simpl; split_and!; try done;
         first [apply lookup_insert_eq|split; simpl; done || by eexists]]).
  - intros cs -> Hs. rewrite Hs. eexists. by split_and!.
Qed.

(** ** Termination *)

Lemma send_response_done ev s c :
  cacheResponseChan s = Some c → chan_closed c = false →
  (length (chan_buf c) < chan_cap c)%nat →
  send_response ev s =
    Done tt (set_responses (Some (mkChan (chan_cap c) (chan_buf c ++ [ev]) false)) s).
Proof.
  intros Hc Hopen Hroom. unfold send_response, chan_send. rewrite Hc, Hopen.
  by rewrite decide_True.
Qed.

(** The events a cancellation puts on the channel. *)
Definition cancel_events (result : Z → cancel_result) (p : Z * CacheRequest P)
    : list CacheEventInfo :=
  let (key, value) := p in
  match result key with
  | CancelFailed e =>
      [if decide (ReturnCode e = ReturnCodeOk) then zero_event
       else NewCacheEventInfoForCancellation key (ID value)
              (CachedRequest_GetName (RequestConfig value))
              (ToNativeError e "Failed to cancel cache request.")]
  | Cancelled rc sub =>
      [CacheEventInfoFromCoreCacheEventInfo key 1 (CachedRequest_GetName (RequestConfig value))
         rc sub (ID value); zero_event]
  end.

Lemma length_cancel_events result p : (length (cancel_events result p) ≤ 2)%nat.
Proof. destruct p as [key value]. simpl. destruct (result key); simpl; lia. Qed.

(** What a cancellation leaves alone. *)
Record cancels (order : list Z) (s s' : receiver_cache) : Prop := {
  cancels_requests : same_requests s s';
  cancels_polling : cachePollingRunningChan s' = cachePollingRunningChan s ∧
    cachePollingRunning s' = cachePollingRunning s;
  cancels_responses : responses (core s') = responses (core s);
  cancels_callbacks : ∀ i, i ∉ order →
    cacheToEventCallbackMap (core s') !! i = cacheToEventCallbackMap (core s) !! i;
}.

(** One turn of the loop. *)
Lemma cancel_one result key value order s c :
  cacheResponseChan s = Some c → chan_closed c = false →
  (length (chan_buf c) + 2 ≤ chan_cap c)%nat →
  cacheToEventCallbackMap (core s) !! key = Some tt →
  ∃ s', cancel_all result ((key, value) :: order) s = cancel_all result order s' ∧
    cacheResponseChan s' =
      Some (mkChan (chan_cap c) (chan_buf c ++ cancel_events result (key, value)) false) ∧
    cancels [key] s s'.
Proof.
  intros Hc Hopen Hroom Hcb. destruct s as [co m rs pc b n]. simpl in *. subst rs.
  cbn [cancel_all]. destruct (result key) as [e|rc sub] eqn:Hr.
  - erewrite bind_run; [|apply on_core_done; reflexivity].
    erewrite bind_run; [|eapply send_response_done; [reflexivity|exact Hopen|simpl; lia]].
    eexists. split; [reflexivity|]. split; [done|]. split; simpl; done.
  - erewrite bind_run.
    2:{ erewrite bind_run.
        2:{ unfold goCacheEventCallback. erewrite bind_run; [|apply on_core_done; reflexivity].
            simpl. rewrite Hcb.
            erewrite bind_run; [|eapply send_response_done; [reflexivity|exact Hopen|simpl; lia]].
            apply on_core_done. reflexivity. }
        apply on_core_done. reflexivity. }
    erewrite bind_run;
      [|eapply send_response_done; [reflexivity|done|simpl; rewrite length_app; simpl; lia]].
    eexists. split; [reflexivity|]. split; [simpl; by rewrite <-app_assoc|].
    split; simpl; try done. intros i Hi. rewrite lookup_delete_ne; [done|set_solver].
Qed.

Lemma cancel_all_done result order s c :
  cacheResponseChan s = Some c → chan_closed c = false →
  (length (chan_buf c) + 2 * length order ≤ chan_cap c)%nat →
  NoDup order.*1 →
  (∀ i, i ∈ order.*1 → cacheToEventCallbackMap (core s) !! i = Some tt) →
  ∃ s', cancel_all result order s = Done tt s' ∧
    cacheResponseChan s' =
      Some (mkChan (chan_cap c) (chan_buf c ++ (order ≫= cancel_events result)) false) ∧
    cancels order.*1 s s'.
Proof.
  revert s c. induction order as [|[key value] order IH]; intros s c Hc Hopen Hroom Hnd Hcb.
  - exists s. rewrite app_nil_r, Hc. destruct c as [? ? cl]. simpl in *. subst cl.
    split_and!; [done|done|]. by split.
  - rewrite fmap_cons in Hnd, Hcb. apply NoDup_cons in Hnd as [Hkey Hnd]. simpl in Hroom, Hkey.
    destruct (cancel_one result key value order s c) as (s1 & H1 & Hc1 & [H2 [H3 H3'] H4 H5]);
      [done|done|lia|apply Hcb; by left|].
    pose proof (length_cancel_events result (key, value)).
    destruct (IH s1 _ Hc1 eq_refl) as (s2 & Hs2 & Hc2 & [K2 [K3 K3'] K4 K5]).
    + cbn [chan_buf chan_cap]. rewrite length_app. lia.
    + done.
    + intros i Hi. rewrite H5; [apply Hcb; by right|]. intros ->%list_elem_of_singleton. done.
    + exists s2. split; [by rewrite H1|]. split; [rewrite Hc2; simpl; by rewrite <-app_assoc|].
      destruct H2, K2. split; [split; congruence|split; congruence|congruence|].
      intros i Hi. rewrite fmap_cons in Hi. rewrite K5, H5; [done|set_solver|set_solver].
Qed.

Lemma wrapS_add a b : wrapS 64 (wrapS 64 a + b) = wrapS 64 (a + b).
Proof.
  unfold wrapS. f_equal.
  replace ((a + 2 ^ (64 - 1)) mod 2 ^ 64 - 2 ^ (64 - 1) + b + 2 ^ (64 - 1))
    with ((a + 2 ^ (64 - 1)) mod 2 ^ 64 + b) by lia.
  rewrite Zplus_mod_idemp_l. f_equal. lia.
Qed.

(** The goroutine ends on a closed channel, after as many turns as there are events and one. *)
Lemma poll_done u evs s cap r m' co' :
  cacheResponseChan s = Some (mkChan cap evs true) →
  cachePollingRunningChan s = Some r → chan_closed r = false →
  process_all (cacheRequestMap s) ((λ ev, (ev, u (cacheSessionP ev))) <$> evs) (core s) =
    Done m' co' →
  ∃ s', poll (S (length evs)) u s = Done tt s' ∧ core s' = co' ∧ cacheRequestMap s' = m' ∧
    cachePollingRunning s' = false ∧
    numOutstandingCacheRequests s' =
      wrapS 64 (numOutstandingCacheRequests s - Z.of_nat (S (length evs))).
Proof.
  revert s. induction evs as [|ev evs IH]; intros s Hc Hr Hopen Hp;
    destruct s as [co m rs pc b n]; simpl in Hc, Hr; subst rs pc.
  - simpl in Hp. injection Hp as <- <-. eexists. split.
    + cbn [poll length]. unfold poll_turn, bind, get, modify, chan_recv, chan_close. simpl.
      rewrite Hopen. reflexivity.
    + simpl. by split_and!.
  - cbn [process_all fmap list_fmap] in Hp. apply bind_done in Hp as (m1 & co1 & H1 & H2).
    edestruct (IH (mkReceiverCache co1 m1 (Some (mkChan cap evs true)) (Some r) b
      (wrapS 64 (n + -1)))) as (s' & Hs' & ? & ? & ? & Hn); [done|done|done|exact H2|].
    exists s'. split_and!; try done.
    + rewrite <-Hs'. cbn [length]. cbn [poll].
      assert (poll_turn u {| core := co; cacheRequestMap := m;
          cacheResponseChan := Some (mkChan cap (ev :: evs) true);
          cachePollingRunningChan := Some r; cachePollingRunning := b;
          numOutstandingCacheRequests := n |} =
        Done true (mkReceiverCache co1 m1 (Some (mkChan cap evs true)) (Some r) b
          (wrapS 64 (n + -1)))) as Ht.
      { unfold poll_turn. rewrite (bind_run get _ _ _ _ eq_refl). cbn [cacheResponseChan chan_recv chan_buf].
        erewrite bind_run by reflexivity. erewrite bind_run by reflexivity.
        erewrite bind_run; [|by apply on_core_done]. reflexivity. }
      by rewrite (bind_run _ _ _ _ _ Ht).
    + rewrite Hn. simpl. unfold Z.sub at 1. rewrite wrapS_add. f_equal. lia.
Qed.

(** The event that answers a request at the termination. *)
Definition final_event (result : Z → cancel_result) (i : Z) (request : CacheRequest P)
    : CacheEventInfo :=
  match result i with
  | CancelFailed e =>
      NewCacheEventInfoForCancellation i (ID request)
        (CachedRequest_GetName (RequestConfig request))
        (ToNativeError e "Failed to cancel cache request.")
  | Cancelled rc sub =>
      CacheEventInfoFromCoreCacheEventInfo i 1 (CachedRequest_GetName (RequestConfig request))
        rc sub (ID request)
  end.

(** A cancellation that fails comes with a return code that says so. *)
Definition cancels_properly (result : Z → cancel_result) : Prop :=
  ∀ i e, result i = CancelFailed e → ReturnCode e ≠ ReturnCodeOk.

Lemma find_final_event result u order i request :
  cancels_properly result → NoDup order.*1 → (i, request) ∈ order → i ≠ 0 →
  ∃ n x, list_find (λ p : CacheEventInfo * option ErrorInfo, cacheSessionP p.1 = i)
    ((λ ev, (ev, u (cacheSessionP ev))) <$> (order ≫= cancel_events result)) =
    Some (n, (final_event result i request, x)).
Proof.
  intros Hres Hnd Hin Hi. induction order as [|[key value] order IH]; [by apply elem_of_nil in Hin|].
  rewrite fmap_cons in Hnd. apply NoDup_cons in Hnd as [Hkey Hnd]. simpl in Hkey.
  rewrite bind_cons, fmap_app. apply elem_of_cons in Hin as [[= <- <-]|Hin].
  - unfold final_event. eexists _, _. apply list_find_app_l.
    unfold cancel_events. destruct (result i) as [e|rc sub] eqn:Hr; simpl.
    + rewrite (decide_False (P := ReturnCode e = ReturnCodeOk)) by (by eapply Hres). simpl.
      by rewrite decide_True.
    + by rewrite decide_True.
  - destruct (IH Hnd Hin) as (n & x & Hf).
    assert (key ≠ i) as Hne.
    { intros ->. apply Hkey, list_elem_of_fmap. by exists (i, request). }
    rewrite list_find_app_r, Hf; [by eexists _, _|].
    unfold cancel_events. destruct (result key) as [e|rc sub] eqn:Hr; simpl.
    + rewrite (decide_False (P := ReturnCode e = ReturnCodeOk)) by (by eapply Hres). simpl.
      by rewrite decide_False.
    + by rewrite !decide_False.
Qed.

(** The requests that C cancels itself. *)
Definition cancelled_by_c (result : Z → cancel_result) (p : Z * CacheRequest P) : bool :=
  match result p.1 with Cancelled _ _ => true | CancelFailed _ => false end.

Lemma length_events result order :
  length (order ≫= cancel_events result) =
    (length order + length (filter (cancelled_by_c result) order))%nat.
Proof.
  induction order as [|[key value] order IH]; [done|].
  rewrite bind_cons, length_app, IH.
  assert (cancelled_by_c result (key, value) =
    match result key with Cancelled _ _ => true | CancelFailed _ => false end) as Hkey by done.
  unfold cancel_events at 1. destruct (result key).
  - rewrite filter_cons_False by (rewrite Hkey; by intros []). simpl. lia.
  - rewrite filter_cons_True by (by rewrite Hkey). simpl. lia.
Qed.

End receiver_cache.
Arguments receiver_cache P : clear implicits.

(** * Examples *)

Definition idle_cache : receiver_cache Z := new_receiver_cache.

(** A strategy that is none of the four. *)
Definition no_strategy_config : cachedMessageSubscriptionRequest :=
  NewCachedMessageSubscriptionRequest 9 "c" (Some (TopicSubscriptionOf "a/b")) 3000 10 0.

Lemma idle_open : channels_open idle_cache.
Proof. by split. Qed.

Lemma request_lifecycle_witness :
  (∃ s', RequestCached true true no_strategy_config 5 77 1 (Ok 1000) 2000 None None idle_cache =
     Panicked NilDereference s' ∧ numOutstandingCacheRequests s' = 1) ∧
  ∃ s' request,
    RequestCached true true cached_only_config 5 77 1 (Ok 1000) 2000 None None idle_cache =
      Done None s' ∧ cacheRequestMap s' = {[1000 := request]}.
Proof.
  destruct (request_lifecycle true true no_strategy_config 5 77 1 (Ok 1000) 2000 None None
    idle_cache idle_open ltac:(vm_compute; discriminate)) as (_ & _ & Hp).
  destruct (request_lifecycle true true cached_only_config 5 77 1 (Ok 1000) 2000 None None
    idle_cache idle_open ltac:(vm_compute; discriminate)) as (_ & Hs & _).
  split.
  - destruct (Hp 1000 eq_refl eq_refl) as (s' & H1 & H2 & _). exists s'. split; [exact H1|exact H2].
  - destruct (Hs 1000 eq_refl eq_refl (ex_intro _ 3 eq_refl)) as (s' & r & H1 & H2 & _).
    exists s', r. split; [exact H1|exact H2].
Defined.

(** A receiver with one request outstanding. *)
Definition busy_cache : receiver_cache Z :=
  final_state (RequestCached true true cached_only_config 5 77 1 (Ok 1000) 2000 None None
    idle_cache).

Lemma busy_requests i r : cacheRequestMap busy_cache !! i = Some r → i = 1000.
Proof.
  change (cacheRequestMap busy_cache) with
    (<[1000 := mkCacheRequest cached_only_config 5 77 1000 1000 1 (Some (mkFilter 2000 5 1))]>
       (∅ : gmap Z (CacheRequest Z))).
  by intros [[<- _]|[_ []%lookup_empty_Some]]%lookup_insert_Some.
Qed.

