(* ===== verification/NestedMaps.v ===== *)
(** Maps of properties and their nested form: pkg/solace/config/format_utils.go.

    A Go map with string keys is here the list of its entries in the order in which a [range]
    visits them, the keys being distinct; the values that are maps themselves are nodes, all
    others leaves.  Since the lists are arbitrary, so is the order of every iteration. *)

From Stdlib Require Import Ascii.
From stdpp Require Import base list gmap strings.
From S2P Require Import Prelude GoStrconv.

(** * Paths *)

Definition dot : Ascii.ascii := "."%char.

(** [strings.Split(k, ".")], and its inverse. *)
Definition path_of (k : string) : list string := split dot k.
Fixpoint key_of (p : list string) : string :=
  match p with
  | [] => ""
  | [k] => k
  | k :: p => k +:+ String dot (key_of p)
  end.
Definition dotless (k : string) : Prop := has_char dot k = false.

Lemma path_dotless k : Forall dotless (path_of k).
Proof.
  unfold path_of, dotless. induction k as [|c k IH]; [by repeat constructor|].
  cbn [split]. destruct (Ascii.eqb c dot) eqn:Hc; [by constructor|].
  destruct (split dot k) as [|x xs]; simpl; [by repeat constructor; simpl; rewrite Hc|].
  inversion IH; subst. constructor; [|done]. simpl. by rewrite Hc.
Qed.

Lemma key_of_path k : key_of (path_of k) = k.
Proof.
  unfold path_of. induction k as [|c k IH]; [done|]. cbn [split].
  pose proof (split_nonempty dot k) as Hne.
  destruct (Ascii.eqb_spec c dot) as [->|Hc].
  - destruct (split dot k) eqn:Hs; [done|]. rewrite <-Hs in *. cbn [key_of].
    rewrite Hs in *. by rewrite IH.
  - destruct (split dot k) as [|x xs]; [done|]. destruct xs as [|y ys]; simpl in IH; simpl; by rewrite <-IH.
Qed.

Lemma path_of_app k s : dotless k → path_of (k +:+ String dot s) = k :: path_of s.
Proof.
  unfold path_of, dotless. induction k as [|c k IH]; intros Hk; [done|].
  simpl in Hk. apply orb_false_iff in Hk as [Hc Hk].
  change (String c k +:+ String dot s) with (String c (k +:+ String dot s)).
  cbn [split]. rewrite Hc. by rewrite IH.
Qed.

Lemma path_of_dotless k : dotless k → path_of k = [k].
Proof. apply split_no_sep. Qed.

Lemma path_of_key p : p ≠ [] → Forall dotless p → path_of (key_of p) = p.
Proof.
  induction p as [|k p IH]; [done|]. intros _ [Hk Hp]%Forall_cons.
  destruct p as [|k' p]; [by apply path_of_dotless|].
  change (key_of (k :: k' :: p)) with (k +:+ String dot (key_of (k' :: p))).
  rewrite path_of_app by done. by rewrite IH.
Qed.

#[export] Instance path_of_inj : Inj eq eq path_of.
Proof. intros k k' H. by rewrite <-(key_of_path k), H, key_of_path. Qed.

Lemma path_nonempty k : path_of k ≠ [].
Proof. apply split_nonempty. Qed.

Section nested.
Context {A : Type}.

(** * Nested maps *)

Inductive tree : Type :=
| Leaf (a : A)
| Node (m : list (string * tree)).

Abbreviation entries := (list (string * tree)).

(** Induction with a hypothesis for every entry. *)
Lemma tree_entries_ind (P : tree → Prop) :
  (∀ a, P (Leaf a)) → (∀ m, Forall (λ e, P e.2) m → P (Node m)) → ∀ t, P t.
Proof.
  intros HL HN. fix F 1. intros [a|m]; [apply HL|apply HN].
  induction m as [|[k t] m IH]; constructor; [apply F|apply IH].
Qed.

(** [nested[key]]. *)
Fixpoint entry (key : string) (m : entries) : option tree :=
  match m with
  | [] => None
  | (k, t) :: m => if decide (k = key) then Some t else entry key m
  end.

(** [nested[key] = t]. *)
Fixpoint set_entry (key : string) (t : tree) (m : entries) : entries :=
  match m with
  | [] => [(key, t)]
  | (k, t') :: m => if decide (k = key) then (k, t) :: m else (k, t') :: set_entry key t m
  end.

(** ** [flattenMap] *)

Definition prefix_all (key : string) (nested : gmap string A) (result : gmap string A) : gmap string A :=
  map_fold (λ nestedKey nestedVal result, <[key +:+ String dot nestedKey := nestedVal]> result)
    result nested.

Fixpoint flatten (t : tree) : gmap string A :=
  match t with
  | Leaf _ => ∅
  | Node m =>
      foldl (λ result '(key, val),
               match val with
               | Node _ => prefix_all key (flatten val) result
               | Leaf a => <[key := a]> result
               end) ∅ m
  end.
Definition flattenMap (m : entries) : gmap string A := flatten (Node m).

(** ** [nestMap] *)

Inductive nest_error : Type := errIllegalKey.

(** The inner loop: the keys of one path. *)
Fixpoint nest_at (keys : list string) (v : A) (nested : entries) : res nest_error entries :=
  match keys with
  | [] => Ok nested
  | [key] =>
      match entry key nested with
      | Some _ => Err errIllegalKey
      | None => Ok (set_entry key (Leaf v) nested)
      end
  | key :: keys =>
      match default (Node []) (entry key nested) with
      | Leaf _ => Err errIllegalKey
      | Node sub => let? sub := nest_at keys v sub in Ok (set_entry key (Node sub) nested)
      end
  end.

Fixpoint nest_all (m : list (string * A)) (result : entries) : res nest_error entries :=
  match m with
  | [] => Ok result
  | (k, v) :: m => let? result := nest_at (path_of k) v result in nest_all m result
  end.
Definition nestMap (m : list (string * A)) : res nest_error entries := nest_all m [].

(** * What a nested map means *)

(** The value at a path. *)
Fixpoint lookup_path (p : list string) (m : entries) : option A :=
  match p with
  | [] => None
  | key :: p =>
      match entry key m with
      | Some (Leaf a) => match p with [] => Some a | _ => None end
      | Some (Node sub) => lookup_path p sub
      | None => None
      end
  end.

(** The keys of a Go map are distinct.  Here they are also without dots, and only the outermost
    map may be empty. *)
Fixpoint wf (t : tree) : Prop :=
  match t with
  | Leaf _ => True
  | Node m => m ≠ [] ∧ NoDup m.*1 ∧ Forall dotless m.*1 ∧ foldr (λ e P, wf e.2 ∧ P) True m
  end.
Definition wf_entries (m : entries) : Prop :=
  NoDup m.*1 ∧ Forall dotless m.*1 ∧ Forall (λ e, wf e.2) m.

Lemma wf_node m : wf (Node m) ↔ m ≠ [] ∧ wf_entries m.
Proof.
  unfold wf_entries. simpl. assert (foldr (λ e P, wf e.2 ∧ P) True m ↔ Forall (λ e, wf e.2) m) as H.
  { induction m as [|e m IH]; simpl; [by split|]. rewrite Forall_cons. by rewrite IH. }
  by rewrite H.
Qed.

Lemma wf_cons k t m : wf_entries ((k, t) :: m) ↔ dotless k ∧ k ∉ m.*1 ∧ wf t ∧ wf_entries m.
Proof. unfold wf_entries. rewrite fmap_cons, NoDup_cons, !Forall_cons. simpl. naive_solver. Qed.

Lemma wf_nil : wf_entries [].
Proof. split_and!; constructor. Qed.

Lemma entry_none k m : k ∉ m.*1 → entry k m = None.
Proof.
  induction m as [|[k' t] m IH]; simpl; [done|]. intros [??]%not_elem_of_cons.
  rewrite decide_False by done. by apply IH.
Qed.

Lemma entry_wf k m t : wf_entries m → entry k m = Some t → dotless k ∧ wf t.
Proof.
  induction m as [|[k' t'] m IH]; [done|]. intros (? & ? & ? & Hm)%wf_cons. simpl.
  case_decide as Hk; [|by apply IH]. intros [= <-]. by subst.
Qed.

Lemma entry_set k key t m :
  entry k (set_entry key t m) = if decide (k = key) then Some t else entry k m.
Proof.
  induction m as [|[k' t'] m IH]; simpl.
  - repeat case_decide; congruence.
  - destruct (decide (k' = key)); simpl; [|rewrite IH]; repeat case_decide; congruence.
Qed.

Lemma keys_set k key t m : k ∈ (set_entry key t m).*1 ↔ k = key ∨ k ∈ m.*1.
Proof.
  induction m as [|[k' t'] m IH]; simpl; [set_solver|]. case_decide; simpl; set_solver.
Qed.

Lemma wf_set key t m : dotless key → wf t → wf_entries m → wf_entries (set_entry key t m).
Proof.
  intros Hd Ht. induction m as [|[k t'] m IH]; intros Hm; simpl.
  - apply wf_cons. split_and!; [done|set_solver|done|apply wf_nil].
  - apply wf_cons in Hm as (? & ? & ? & Hm). case_decide as Hk; apply wf_cons; [done|].
    split_and!; [done| |done|by apply IH]. rewrite keys_set. naive_solver.
Qed.

Lemma set_nonempty key t m : set_entry key t m ≠ [].
Proof. destruct m as [|[k t'] m]; simpl; [done|]. by case_decide. Qed.

(** Every inner map has a value. *)
Lemma node_has_value m : wf (Node m) → ∃ q a, q ≠ [] ∧ lookup_path q m = Some a.
Proof.
  remember (Node m) as t eqn:Ht. revert m Ht. induction t as [a|m' IH] using tree_entries_ind; [done|].
  intros m [= ->] [Hne Hm]%wf_node. destruct m as [|[k t] m]; [done|].
  apply Forall_cons in IH as [IH _]. apply wf_cons in Hm as (_ & _ & Ht & _).
  destruct t as [a|sub]; [exists [k], a; simpl; by rewrite decide_True|].
  destruct (IH sub eq_refl Ht) as (q & a & Hq & Hl). exists (k :: q), a. simpl. by rewrite decide_True.
Qed.

(** Two paths of which neither leads through the other. *)
Definition apart (p q : list string) : Prop := ¬ p `prefix_of` q ∧ ¬ q `prefix_of` p.

Lemma apart_cons k p q : apart (k :: p) (k :: q) ↔ apart p q.
Proof.
  unfold apart. split; intros [H1 H2]; split; intros H.
  - by apply H1, prefix_cons.
  - by apply H2, prefix_cons.
  - by apply H1, (prefix_cons_inv_2 k k).
  - by apply H2, (prefix_cons_inv_2 k k).
Qed.

Lemma apart_heads k k' p q : k ≠ k' → apart (k :: p) (k' :: q).
Proof. intros Hk. split; intros H%prefix_cons_inv_1; congruence. Qed.

Lemma lookup_path_nil m : lookup_path [] m = None.
Proof. by destruct m. Qed.

Lemma nest_at_cons key p v m : p ≠ [] →
  nest_at (key :: p) v m =
  match default (Node []) (entry key m) with
  | Leaf _ => Err errIllegalKey
  | Node sub => let? sub := nest_at p v sub in Ok (set_entry key (Node sub) m)
  end.
Proof. by destruct p. Qed.

(** One insertion. *)
Lemma nest_at_spec p v m : p ≠ [] → Forall dotless p → wf_entries m →
  match nest_at p v m with
  | Ok m' => wf_entries m' ∧ m' ≠ [] ∧
      (∀ q, is_Some (lookup_path q m) → apart p q) ∧
      ∀ q, lookup_path q m' = if decide (q = p) then Some v else lookup_path q m
  | Err _ => ∃ q, is_Some (lookup_path q m) ∧ ¬ apart p q
  end.
Proof.
  revert m. induction p as [|key p IH]; intros m; [done|]. intros _ [Hk Hp]%Forall_cons Hm.
  destruct (decide (p = [])) as [->|Hne0].
  - simpl. destruct (entry key m) as [t|] eqn:He.
    + destruct t as [a|sub].
      * exists [key]. simpl. rewrite He. split; [done|]. intros [H _]. by apply H.
      * destruct (entry_wf _ _ _ Hm He) as [_ Ht]. destruct (node_has_value _ Ht) as (q & a & Hq & Hl).
        exists (key :: q). simpl. rewrite He, Hl. split; [done|]. intros [H _]. apply H. by exists q.
    + split_and!; [by apply wf_set|apply set_nonempty| |].
      * intros [|k q]; [by rewrite lookup_path_nil; intros []|]. simpl.
        destruct (decide (k = key)) as [->|Hne]; [rewrite He; by intros []|].
        intros _. by apply apart_heads.
      * intros [|k q]; [by rewrite !lookup_path_nil|]. simpl. rewrite entry_set.
        destruct (decide (k = key)) as [->|Hne].
        -- rewrite He. destruct q; simpl; [by rewrite decide_True|by rewrite decide_False].
        -- by rewrite decide_False by congruence.
  - rewrite nest_at_cons by done.
    destruct (default (Node []) (entry key m)) as [a|sub] eqn:He; [|].
    + destruct (entry key m) as [t|] eqn:Hk'; simpl in He; [subst|done].
      exists [key]. simpl. rewrite Hk'. split; [done|]. intros [_ H]. apply H. by exists p.
    + assert (wf_entries sub ∧ ∀ q, lookup_path (key :: q) m = lookup_path q sub) as [Hsub Hlook].
      { destruct (entry key m) as [t|] eqn:Hk'; simpl in He; subst.
        - destruct (entry_wf _ _ _ Hm Hk') as [_ [_ Ht]%wf_node]. split; [done|]. intros q. simpl. by rewrite Hk'.
        - injection He as <-. split; [apply wf_nil|]. intros q. simpl. rewrite Hk'. by destruct q. }
      specialize (IH sub ltac:(done) Hp Hsub). destruct (nest_at p v sub) as [sub'|e]; simpl.
      * destruct IH as (Hw & Hne & Hap & Hl). split_and!.
        -- apply wf_set; [done|by apply wf_node|done].
        -- apply set_nonempty.
        -- intros [|k q]; [by rewrite lookup_path_nil; intros []|].
           destruct (decide (k = key)) as [->|Hkk]; [|intros _; by apply apart_heads].
           rewrite Hlook. intros Hq. apply apart_cons. by apply Hap.
        -- intros [|k q]; [by rewrite !lookup_path_nil|].
           destruct (decide (k = key)) as [->|Hkk].
           ++ rewrite Hlook. simpl. rewrite entry_set, decide_True by done. rewrite Hl.
              repeat case_decide; congruence.
           ++ simpl. rewrite entry_set, !decide_False by congruence. done.
      * destruct IH as (q & Hq & Hap). exists (key :: q). by rewrite Hlook, apart_cons.
Qed.

(** No path of the list leads through another one. *)
Definition prefix_free (l : list string) : Prop := ∀ k k', k ∈ l → k' ∈ l → k ≠ k' →
  apart (path_of k) (path_of k').

(** The whole loop: it fails exactly when a path leads through another, or through a value
    that was there before, and otherwise adds the values at their paths. *)
Lemma nest_all_spec l m : NoDup l.*1 → wf_entries m →
  match nest_all l m with
  | Ok m' => wf_entries m' ∧ prefix_free l.*1 ∧
      (∀ k q, k ∈ l.*1 → is_Some (lookup_path q m) → apart (path_of k) q) ∧
      ∀ q, lookup_path q m' =
        match (list_to_map l : gmap string A) !! key_of q with
        | Some v => if decide (path_of (key_of q) = q) then Some v else lookup_path q m
        | None => lookup_path q m
        end
  | Err _ => ¬ (prefix_free l.*1 ∧ ∀ k q, k ∈ l.*1 → is_Some (lookup_path q m) → apart (path_of k) q)
  end.
Proof.
  revert m. induction l as [|[k v] l IH]; intros m Hnd Hm; simpl.
  - split_and!; [done|by intros ??[]%elem_of_nil|by intros ??[]%elem_of_nil|]. intros q.
    by rewrite lookup_empty.
  - apply NoDup_cons in Hnd as [Hk Hnd].
    pose proof (nest_at_spec (path_of k) v m (path_nonempty k) (path_dotless k) Hm) as Hat.
    destruct (nest_at (path_of k) v m) as [m1|e]; simpl.
    + destruct Hat as (Hm1 & _ & Hap & Hl1). specialize (IH m1 Hnd Hm1).
      destruct (nest_all l m1) as [m2|e2].
      * destruct IH as (Hm2 & Hpf & Hap2 & Hl2). split_and!; [done| | |].
        -- intros k1 k2 [->|H1]%elem_of_cons [->|H2]%elem_of_cons Hne; [done| | |by apply Hpf].
           ++ assert (apart (path_of k2) (path_of k)) as [??]; [|by split].
              apply Hap2; [done|]. rewrite Hl1, decide_True by done. done.
           ++ apply Hap2; [done|]. rewrite Hl1, decide_True by done. done.
        -- intros k' q [->|Hk']%elem_of_cons Hq; [by apply Hap|].
           apply Hap2; [done|]. rewrite Hl1. by case_decide.
        -- intros q. rewrite Hl2, Hl1. destruct (decide (k = key_of q)) as [->|Hkq].
           ++ rewrite lookup_insert_eq. rewrite not_elem_of_list_to_map_1 by done.
              repeat case_decide; congruence.
           ++ rewrite lookup_insert_ne by done. rewrite (decide_False (P := q = path_of k)); [done|].
              intros ->. by rewrite key_of_path in Hkq.
      * intros [Hpf Hout]. apply IH. split.
        -- intros k1 k2 H1 H2. apply Hpf; by right.
        -- intros k' q Hk' Hq. rewrite Hl1 in Hq. case_decide as Hqk; [subst|].
           ++ apply Hpf; [by right|by left|]. intros ->. done.
           ++ apply Hout; [by right|done].
    + destruct Hat as (q & Hq & Hnap). intros [_ Hout]. apply Hnap, Hout; [by left|done].
Qed.

(** ** Flattening *)

(** What follows the first part of a key, when that is [key]. *)
Definition strip (key k : string) : option string :=
  match path_of k with
  | h :: ((_ :: _) as p) => if decide (h = key) then Some (key_of p) else None
  | _ => None
  end.

Lemma strip_spec key k n : dotless key → strip key k = Some n ↔ k = key +:+ String dot n.
Proof.
  intros Hd. unfold strip. split.
  - destruct (path_of k) as [|h [|x p]] eqn:Hp; [done..|]. case_decide; [|done].
    intros [= <-]. subst. rewrite <-(key_of_path k), Hp. done.
  - intros ->. rewrite path_of_app by done. pose proof (path_nonempty n).
    destruct (path_of n) as [|x p] eqn:Hn; [done|]. rewrite decide_True by done. f_equal.
    by rewrite <-Hn, key_of_path.
Qed.

Lemma prefix_all_spec key nested result k : dotless key →
  prefix_all key nested result !! k =
  match strip key k with
  | Some n => match nested !! n with Some v => Some v | None => result !! k end
  | None => result !! k
  end.
Proof.
  intros Hd. unfold prefix_all. revert k.
  apply (map_fold_weak_ind (λ r nested, ∀ k, r !! k =
    match strip key k with
    | Some n => match nested !! n with Some v => Some v | None => result !! k end
    | None => result !! k
    end)).
  - intros k. destruct (strip key k) as [n|]; [by rewrite lookup_empty|done].
  - intros n v nested' r Hn IH k. destruct (decide (k = key +:+ String dot n)) as [->|Hk].
    + rewrite lookup_insert_eq. rewrite (proj2 (strip_spec key _ n Hd)) by done.
      by rewrite lookup_insert_eq.
    + rewrite lookup_insert_ne by done. rewrite IH.
      destruct (strip key k) as [n'|] eqn:Hs; [|done]. apply strip_spec in Hs; [|done].
      rewrite lookup_insert_ne; [done|]. intros ->. done.
Qed.

(** One entry more in the outermost map. *)
Lemma lookup_path_cons k t m p : k ∉ m.*1 →
  lookup_path p ((k, t) :: m) =
  match p with
  | h :: p' => if decide (k = h) then lookup_path p [(k, t)] else lookup_path p m
  | [] => None
  end.
Proof.
  intros Hk. destruct p as [|h p']; [done|]. simpl. by repeat case_decide.
Qed.

Lemma lookup_path_single h t p :
  lookup_path (h :: p) [(h, t)] =
  match t with
  | Leaf a => match p with [] => Some a | _ => None end
  | Node sub => lookup_path p sub
  end.
Proof. simpl. by rewrite decide_True. Qed.

(** The flat map has the value of every path under its key. *)
Lemma flatten_lookup m k : wf_entries m → flattenMap m !! k = lookup_path (path_of k) m.
Proof.
  unfold flattenMap. remember (Node m) as t eqn:Ht. revert m Ht k.
  induction t as [a|m' IH] using tree_entries_ind; [done|]. intros m [= ->] k Hm. simpl.
  match goal with |- foldl ?f ∅ m !! k = _ => set (step := f) end.
  assert (∀ result, foldl step result m !! k =
            match lookup_path (path_of k) m with Some a => Some a | None => result !! k end) as ->.
  2: { rewrite lookup_empty. by destruct (lookup_path _ _). }
  induction m as [|[key val] m IHm]; intros result; simpl.
  { by destruct (path_of k). }
  apply Forall_cons in IH as [IH1 IH]. apply wf_cons in Hm as (Hd & Hk & Ht & Hm).
  fold step. rewrite (IHm IH Hm). rewrite lookup_path_cons by done.
  pose proof (path_nonempty k) as Hne.
  destruct (path_of k) as [|h p] eqn:Hp; [done|].
  assert (key = h → lookup_path (h :: p) m = None) as Hnone.
  { intros <-. simpl. by rewrite entry_none. }
  assert (k = key ↔ h = key ∧ p = []) as Hkey.
  { split.
    - intros ->. rewrite path_of_dotless in Hp by done. naive_solver.
    - intros [-> ->]. by rewrite <-(key_of_path k), Hp. }
  destruct val as [a|sub]; cbn [step].
  - destruct (decide (key = h)) as [->|Hh].
    + rewrite Hnone, lookup_path_single by done. destruct p as [|x p].
      * destruct Hkey as [_ ->]; [|done]. by rewrite lookup_insert_eq.
      * rewrite lookup_insert_ne; [done|]. intros ->. destruct Hkey as [[_ ?] _]; done.
    + rewrite lookup_insert_ne; [done|]. intros ->. destruct Hkey as [[-> _] _]; done.
  - rewrite prefix_all_spec by done. unfold strip. rewrite Hp. apply wf_node in Ht as [_ Hsub].
    destruct (decide (key = h)) as [->|Hh].
    + rewrite Hnone, lookup_path_single by done. destruct p as [|x p]; [by rewrite lookup_path_nil|].
      rewrite decide_True by done. rewrite (IH1 sub eq_refl _ Hsub).
      rewrite path_of_key; [|done|]; [done|].
      pose proof (path_dotless k) as Hdk. rewrite Hp in Hdk. by inversion Hdk.
    + destruct p; [done|]. by rewrite decide_False by done.
Qed.

(** * The round trips *)

Lemma lookup_dotless p m a : wf_entries m → lookup_path p m = Some a → p ≠ [] ∧ Forall dotless p.
Proof.
  revert m. induction p as [|key p IH]; intros m Hm; [done|]. simpl.
  destruct (entry key m) as [t|] eqn:He; [|done]. destruct (entry_wf _ _ _ Hm He) as [Hd Ht].
  destruct t as [b|sub].
  - destruct p; [|done]. intros _. split; [done|]. by constructor.
  - intros Hl. apply wf_node in Ht as [_ Hsub]. destruct (IH _ Hsub Hl). split; [done|]. by constructor.
Qed.

(** The paths of a nested map lead through no other. *)
Lemma lookup_apart p q m a b : wf_entries m →
  lookup_path p m = Some a → lookup_path q m = Some b → p ≠ q → apart p q.
Proof.
  revert q m. induction p as [|key p IH]; intros [|key' q] m Hm; [done..|].
  destruct (decide (key = key')) as [<-|Hk]; [|intros; by apply apart_heads].
  rewrite apart_cons. simpl. destruct (entry key m) as [[c|sub]|] eqn:He; [|  |done].
  - destruct p, q; done.
  - intros Hp Hq Hne. apply (IH q sub); [|done..|congruence].
    by destruct (entry_wf _ _ _ Hm He) as [_ [_ ?]%wf_node].
Qed.

Lemma lookup_list_to_map (l : list (string * A)) (m : gmap string A) : l ≡ₚ map_to_list m →
  list_to_map l = m.
Proof.
  intros Hl. rewrite <-(list_to_map_to_list m). apply list_to_map_proper; [|done].
  rewrite Hl. apply NoDup_fst_map_to_list.
Qed.

(** Nesting the entries of a flat map. *)
Lemma nest_entries (m : gmap string A) l : l ≡ₚ map_to_list m →
  match nestMap l with
  | Ok nested => prefix_free l.*1 ∧ wf_entries nested ∧ ∀ k, lookup_path (path_of k) nested = m !! k
  | Err _ => ¬ prefix_free l.*1
  end.
Proof.
  intros Hl. assert (NoDup l.*1) as Hnd by (rewrite Hl; apply NoDup_fst_map_to_list).
  pose proof (nest_all_spec l [] Hnd wf_nil) as H. unfold nestMap.
  destruct (nest_all l []) as [nested|e].
  - destruct H as (Hw & Hpf & _ & Hl2). split_and!; [done..|].
    intros k. rewrite Hl2, key_of_path, (lookup_list_to_map l m) by done.
    destruct (m !! k); [by rewrite decide_True|]. by destruct (path_of k).
  - intros Hpf. apply H. split; [done|]. intros k [|??] _ []; done.
Qed.

(** C31: flat maps through nested ones.  Nesting a flat map of values that are no maps fails exactly when the
    path of one key leads through that of another, whatever the order in which the entries are
    visited; when it succeeds, flattening the result, in whatever order, gives the flat map back. *)
Theorem nest_then_flatten (m : gmap string A) l : l ≡ₚ map_to_list m →
  (is_ok (nestMap l) = true ↔ prefix_free l.*1) ∧
  ∀ nested, nestMap l = Ok nested →
    wf_entries nested ∧ ∀ nested', wf_entries nested' →
      (∀ p, lookup_path p nested' = lookup_path p nested) → flattenMap nested' = m.
Proof.
  intros Hl. pose proof (nest_entries m l Hl) as H. destruct (nestMap l) as [nested|e]; simpl.
  - destruct H as (Hpf & Hw & Hl2). split; [done|]. intros ? [= <-]. split; [done|].
    intros nested' Hw' Heq. apply map_eq. intros k. by rewrite flatten_lookup, Heq.
  - done.
Qed.

(** Nested maps through flat ones.  Flattening a nested map whose keys have no dots and whose
    inner maps are not empty, and nesting the entries of the result in whatever order, succeeds and gives a
    nested map with the same values at the same paths. *)
Theorem flatten_then_nest m l : wf_entries m → l ≡ₚ map_to_list (flattenMap m) →
  ∃ nested, nestMap l = Ok nested ∧ wf_entries nested ∧ ∀ p, lookup_path p nested = lookup_path p m.
Proof.
  intros Hm Hl. pose proof (nest_entries _ l Hl) as H.
  assert (prefix_free l.*1) as Hpf.
  { intros k k' Hk Hk' Hne. rewrite Hl in Hk, Hk'.
    apply list_elem_of_fmap in Hk as ([? a] & -> & Hk). apply list_elem_of_fmap in Hk' as ([? b] & -> & Hk').
    apply elem_of_map_to_list in Hk, Hk'. rewrite flatten_lookup in Hk, Hk' by done. simpl in *.
    apply (lookup_apart _ _ m a b); [done..|]. by intros ?%(inj path_of). }
  destruct (nestMap l) as [nested|e]; [|done]. destruct H as (_ & Hw & Hl2).
  exists nested. split_and!; [done..|]. intros p.
  destruct (decide (p ≠ [] ∧ Forall dotless p)) as [[Hne Hd]|Hno].
  - rewrite <-(path_of_key p) by done. by rewrite Hl2, flatten_lookup.
  - destruct (lookup_path p nested) eqn:H1; [by destruct Hno; apply (lookup_dotless _ _ _ Hw H1)|].
    destruct (lookup_path p m) eqn:H2; [by destruct Hno; apply (lookup_dotless _ _ _ Hm H2)|done].
Qed.
End nested.
Arguments Leaf {A} a.
Arguments Node {A} m.

(** * Examples *)

Definition flat_example : gmap string nat :=
  {[ "a.b" := 1; "a.c.d" := 2; "e" := 3 ]}.
Definition nested_example : list (string * tree) :=
  [("a", Node [("b", Leaf 1); ("c", Node [("d", Leaf 2)])]); ("e", Leaf 3)].

Lemma nest_then_flatten_witness :
  map_to_list flat_example ≡ₚ map_to_list flat_example ∧
  (is_ok (nestMap (map_to_list flat_example)) = true ↔ prefix_free (map_to_list flat_example).*1).
Proof.
  split; [reflexivity|].
  exact (proj1 (nest_then_flatten flat_example (map_to_list flat_example) (reflexivity _))).
Defined.

Lemma flatten_then_nest_witness :
  ∃ nested, nestMap [("e", 3); ("a.c.d", 2); ("a.b", 1)] = Ok nested ∧ wf_entries nested ∧
    ∀ p, lookup_path p nested = lookup_path p nested_example.
Proof.
  apply (flatten_then_nest nested_example).
  - split_and!; [by apply (bool_decide_unpack _)|by apply (bool_decide_unpack _)|].
    repeat constructor; simpl; try apply (bool_decide_unpack _); vm_compute; reflexivity.
  - vm_compute. solve_Permutation.
Defined.

(** In one map a path may lead through another only in the order of the visit: the value that
    comes last wins. *)
Example flatten_depends_on_order :
  flattenMap [("a.b", Leaf 1); ("a", Node [("b", Leaf 2)])] = {[ "a.b" := 2 ]} ∧
  flattenMap [("a", Node [("b", Leaf 2)]); ("a.b", Leaf 1)] = {[ "a.b" := 1 ]}.
Proof. split; reflexivity. Qed.
