(* ===== verification/ServiceBuilder.v ===== *)
(** The builder of a messaging service: internal/impl/messaging_service_builder_impl.go, the
    mapping of its properties to those of the C library in
    internal/impl/messaging_service_property_mapping.go, and the strategies of
    pkg/solace/config/messaging_service_strategies.go.

    A [ServicePropertyMap] is a [gmap] from the keys to the dynamic values of the interfaces.
    The iteration over a map takes its order from an argument.  The values of the constants of
    the C library are those of its header. *)

From Stdlib Require Import ZArith Lia Ascii.
From stdpp Require Import base list gmap strings.
From S2P Require Import Prelude GoStrconv Errors.

#[local] Open Scope Z_scope.

(** * Values *)

(** What the interface of a property holds; [VOther] is a value of any other type, with what
    the verb [%v] prints for it. *)
Inductive value : Type :=
| VNil
| VBool (b : bool)
| VInt (z : Z)
| VFloat64 (bits : Z)
| VString (s : string)
| VDuration (nanoseconds : Z)
| VOther (printed : string).

#[export] Instance value_eq_dec : EqDecision value.
Proof. solve_decision. Defined.

(** The printing of floating point numbers and of durations with [%v]. *)
Class GoFmt : Type := {
  sprint_float64 : Z → string;
  sprint_duration : Z → string;
}.

Abbreviation ServicePropertyMap := (gmap string value).

(** ** The keys of the configuration *)

Definition AuthenticationPropertySchemeBasicUserName : string :=
  "solace.messaging.authentication.basic.username".
Definition AuthenticationPropertySchemeClientCertUserName : string :=
  "solace.messaging.authentication.client-cert.username".
Definition AuthenticationPropertySchemeKerberosUserName : string :=
  "solace.messaging.authentication.kerberos.username".
Definition AuthenticationPropertyScheme : string :=
  "solace.messaging.authentication.scheme".
Definition AuthenticationPropertySchemeBasicPassword : string :=
  "solace.messaging.authentication.basic.password".
Definition AuthenticationPropertySchemeSSLClientCertFile : string :=
  "solace.messaging.authentication.client-cert.file".
Definition AuthenticationPropertySchemeSSLClientPrivateKeyFile : string :=
  "solace.messaging.authentication.client-cert.private-key-file".
Definition AuthenticationPropertySchemeClientCertPrivateKeyFilePassword : string :=
  "solace.messaging.authentication.client-cert.private-key-password".
Definition AuthenticationPropertySchemeKerberosInstanceName : string :=
  "solace.messaging.authentication.kerberos.instance-name".
Definition AuthenticationPropertySchemeOAuth2AccessToken : string :=
  "solace.messaging.authentication.oauth2.access-token".
Definition AuthenticationPropertySchemeOAuth2IssuerIdentifier : string :=
  "solace.messaging.authentication.oauth2.issuer-identifier".
Definition AuthenticationPropertySchemeOAuth2OIDCIDToken : string :=
  "solace.messaging.authentication.oauth2.oidc-id-token".
Definition ClientPropertyName : string :=
  "solace.messaging.client.name".
Definition ClientPropertyApplicationDescription : string :=
  "solace.messaging.client.application-description".
Definition ServicePropertyVPNName : string :=
  "solace.messaging.service.vpn-name".
Definition ServicePropertyGenerateSenderID : string :=
  "solace.messaging.service.generate-sender-id".
Definition ServicePropertyGenerateSendTimestamps : string :=
  "solace.messaging.service.generate-send-timestamps".
Definition ServicePropertyGenerateReceiveTimestamps : string :=
  "solace.messaging.service.generate-receive-timestamps".
Definition ServicePropertyReceiverDirectSubscriptionReapply : string :=
  "solace.messaging.service.receivers.direct.subscription.reapply".
Definition ServicePropertyProvisionTimeoutMs : string :=
  "solace.messaging.management.endpoint.provision-timeout".
Definition ServicePropertyPayloadCompressionLevel : string :=
  "solace.messaging.service.payload-compression-level".
Definition TransportLayerPropertyHost : string :=
  "solace.messaging.transport.host".
Definition TransportLayerPropertyConnectionAttemptsTimeout : string :=
  "solace.messaging.transport.connection-attempts-timeout".
Definition TransportLayerPropertyConnectionRetries : string :=
  "solace.messaging.transport.connection-retries".
Definition TransportLayerPropertyConnectionRetriesPerHost : string :=
  "solace.messaging.transport.connection.retries-per-host".
Definition TransportLayerPropertyReconnectionAttempts : string :=
  "solace.messaging.transport.reconnection-attempts".
Definition TransportLayerPropertyReconnectionAttemptsWaitInterval : string :=
  "solace.messaging.transport.reconnection-attempts-wait-interval".
Definition TransportLayerPropertyKeepAliveInterval : string :=
  "solace.messaging.transport.keep-alive-interval".
Definition TransportLayerPropertyKeepAliveWithoutResponseLimit : string :=
  "solace.messaging.transport.keep-alive-without-response-limit".
Definition TransportLayerPropertySocketOutputBufferSize : string :=
  "solace.messaging.transport.socket.output-buffer-size".
Definition TransportLayerPropertySocketInputBufferSize : string :=
  "solace.messaging.transport.socket.input-buffer-size".
Definition TransportLayerPropertySocketTCPOptionNoDelay : string :=
  "solace.messaging.transport.socket.tcp-option-no-delay".
Definition TransportLayerPropertyCompressionLevel : string :=
  "solace.messaging.transport.compression-level".
Definition TransportLayerSecurityPropertyCertValidated : string :=
  "solace.messaging.tls.cert-validated".
Definition TransportLayerSecurityPropertyCertRejectExpired : string :=
  "solace.messaging.tls.cert-reject-expired".
Definition TransportLayerSecurityPropertyCertValidateServername : string :=
  "solace.messaging.tls.cert-validate-servername".
Definition TransportLayerSecurityPropertyExcludedProtocols : string :=
  "solace.messaging.tls.excluded-protocols".
Definition TransportLayerSecurityPropertyProtocolDowngradeTo : string :=
  "solace.messaging.tls.protocol-downgrade-to".
Definition TransportLayerSecurityPropertyCipherSuites : string :=
  "solace.messaging.tls.cipher-suites".
Definition TransportLayerSecurityPropertyTrustStorePath : string :=
  "solace.messaging.tls.trust-store-path".
Definition TransportLayerSecurityPropertyTrustedCommonNameList : string :=
  "solace.messaging.tls.trusted-common-name-list".
Definition TransportLayerSecurityPropertyMinimumProtocol : string :=
  "solace.messaging.tls.minimum-protocol".
Definition TransportLayerSecurityPropertyMaximumProtocol : string :=
  "solace.messaging.tls.maximum-protocol".

(** ** The properties of a session of the C library *)

Definition SolClientSessionPropTopicDispatch : string := "SESSION_TOPIC_DISPATCH".
Definition SolClientSessionPropSendBlocking : string := "SESSION_SEND_BLOCKING".
Definition SolClientSessionPropIgnoreDupSubscriptionError : string := "SESSION_IGNORE_DUP_SUBSCRIPTION_ERROR".
Definition SolClientSessionPropGuaranteedWithWebTransport : string := "SESSION_GUARANTEED_WITH_WEB_TRANSPORT".
Definition SolClientSessionPropPubWindowSize : string := "SESSION_PUB_WINDOW_SIZE".
Definition SolClientSessionPropUsername : string := "SESSION_USERNAME".
Definition SolClientSessionPropAuthenticationScheme : string := "SESSION_AUTHENTICATION_SCHEME".
Definition SolClientSessionPropPassword : string := "SESSION_PASSWORD".
Definition SolClientSessionPropSslClientCertificateFile : string := "SESSION_SSL_CLIENT_CERTIFICATE_FILE".
Definition SolClientSessionPropSslClientPrivateKeyFile : string := "SESSION_SSL_CLIENT_PRIVATE_KEY_FILE".
Definition SolClientSessionPropSslClientPrivateKeyFilePassword : string := "SESSION_SSL_CLIENT_PRIVATE_KEY_FILE_PASSWORD".
Definition SolClientSessionPropKrbServiceName : string := "SESSION_KRB_SERVICE_NAME".
Definition SolClientSessionPropOauth2AccessToken : string := "SESSION_OAUTH2_ACCESS_TOKEN".
Definition SolClientSessionPropOauth2IssuerIdentifier : string := "SESSION_OAUTH2_ISSUER_IDENTIFIER".
Definition SolClientSessionPropOidcIDToken : string := "SESSION_OIDC_ID_TOKEN".
Definition SolClientSessionPropClientName : string := "SESSION_CLIENT_NAME".
Definition SolClientSessionPropApplicationDescription : string := "SESSION_APPLICATION_DESCRIPTION".
Definition SolClientSessionPropVpnName : string := "SESSION_VPN_NAME".
Definition SolClientSessionPropGenerateSenderID : string := "SESSION_SEND_SENDER_ID".
Definition SolClientSessionPropGenerateSendTimestamps : string := "SESSION_SEND_TIMESTAMP".
Definition SolClientSessionPropGenerateRcvTimestamps : string := "SESSION_RCV_TIMESTAMP".
Definition SolClientSessionPropReapplySubscriptions : string := "SESSION_REAPPLY_SUBSCRIPTIONS".
Definition SolClientSessionPropProvisionTimeoutMs : string := "SESSION_PROVISION_TIMEOUT_MS".
Definition SolClientSessionPropPayloadCompressionLevel : string := "SESSION_PAYLOAD_COMPRESSION_LEVEL".
Definition SolClientSessionPropHost : string := "SESSION_HOST".
Definition SolClientSessionPropConnectTimeoutMs : string := "SESSION_CONNECT_TIMEOUT_MS".
Definition SolClientSessionPropConnectRetries : string := "SESSION_CONNECT_RETRIES".
Definition SolClientSessionPropConnectRetriesPerHost : string := "SESSION_CONNECT_RETRIES_PER_HOST".
Definition SolClientSessionPropReconnectRetries : string := "SESSION_RECONNECT_RETRIES".
Definition SolClientSessionPropReconnectRetryWaitMs : string := "SESSION_RECONNECT_RETRY_WAIT_MS".
Definition SolClientSessionPropKeepAliveIntMs : string := "SESSION_KEEP_ALIVE_INTERVAL_MS".
Definition SolClientSessionPropKeepAliveLimit : string := "SESSION_KEEP_ALIVE_LIMIT".
Definition SolClientSessionPropSocketRcvBufSize : string := "SESSION_SOCKET_RCV_BUF_SIZE".
Definition SolClientSessionPropSocketSendBufSize : string := "SESSION_SOCKET_SEND_BUF_SIZE".
Definition SolClientSessionPropTCPNodelay : string := "SESSION_TCP_NODELAY".
Definition SolClientSessionPropCompressionLevel : string := "SESSION_COMPRESSION_LEVEL".
Definition SolClientSessionPropSslValidateCertificate : string := "SESSION_SSL_VALIDATE_CERTIFICATE".
Definition SolClientSessionPropSslValidateCertificateDate : string := "SESSION_SSL_VALIDATE_CERTIFICATE_DATE".
Definition SolClientSessionPropSslValidateCertificateHost : string := "SESSION_SSL_VALIDATE_CERTIFICATE_HOST".
Definition SolClientSessionPropSslExcludedProtocols : string := "SESSION_SSL_EXCLUDED_PROTOCOLS".
Definition SolClientSessionPropSslConnectionDowngradeTo : string := "SESSION_SSL_CONNECTION_DOWNGRADE_TO".
Definition SolClientSessionPropSslCipherSuites : string := "SESSION_SSL_CIPHER_SUITES".
Definition SolClientSessionPropSslTrustStoreDir : string := "SESSION_SSL_TRUST_STORE_DIR".
Definition SolClientSessionPropSslTrustedCommonNameList : string := "SESSION_SSL_TRUSTED_COMMON_NAME_LIST".
Definition SolClientSessionPropMinimumTlsProtocolVersion : string := "SESSION_MINIMUM_TLS_PROTOCOL_VERSION".
Definition SolClientSessionPropMaximumTlsProtocolVersion : string := "SESSION_MAXIMUM_TLS_PROTOCOL_VERSION".

(** * Converters *)

Definition AuthenticationSchemeBasic : string := "AUTHENTICATION_SCHEME_BASIC".
Definition AuthenticationSchemeClientCertificate : string := "AUTHENTICATION_SCHEME_CLIENT_CERTIFICATE".
Definition AuthenticationSchemeKerberos : string := "AUTHENTICATION_SCHEME_GSS_KRB".
Definition AuthenticationSchemeOAuth2 : string := "AUTHENTICATION_SCHEME_OAUTH2".
Definition DefaultAuthenticationScheme : string := AuthenticationSchemeBasic.
Definition SolClientPropEnableVal : string := "1".
Definition SolClientPropDisableVal : string := "0".

(** [time.Millisecond], in nanoseconds. *)
Definition Millisecond : Z := 1000000.

(** Both zeros of a float64. *)
Definition float64_is_zero (bits : Z) : bool := (bits =? 0) || (bits =? 2 ^ 63).

Section service_builder.
Context {go_fmt : GoFmt}.

(** [fmt.Sprintf] with the verb [%v]. *)
Definition defaultConverter (v : value) : string :=
  match v with
  | VNil => "<nil>"
  | VBool b => if b then "true" else "false"
  | VInt z => sprint_int z
  | VFloat64 bits => sprint_float64 bits
  | VString s => s
  | VDuration ns => sprint_duration ns
  | VOther printed => printed
  end.

Definition booleanConverter (v : value) : string :=
  match v with
  | VBool converted => if converted then SolClientPropEnableVal else SolClientPropDisableVal
  | VString converted =>
      if String.eqb converted "true" then SolClientPropEnableVal else SolClientPropDisableVal
  | VInt converted => if converted =? 0 then SolClientPropDisableVal else SolClientPropEnableVal
  | VFloat64 bits =>
      if float64_is_zero bits then SolClientPropDisableVal else SolClientPropEnableVal
  | _ => SolClientPropDisableVal
  end.

Definition durationConverter (v : value) : string :=
  match v with
  | VDuration converted => sprint_int (Z.quot converted Millisecond)
  | _ => defaultConverter v
  end.

(** * The tables *)

Record property : Type := mkProperty {
  solClientPropertyName : string;
  converter : value → string;
}.

Definition service_property_table : list (string * (string * (value → string))) :=
  [(AuthenticationPropertyScheme, (SolClientSessionPropAuthenticationScheme, defaultConverter));
   (AuthenticationPropertySchemeBasicPassword, (SolClientSessionPropPassword, defaultConverter));
   (AuthenticationPropertySchemeSSLClientCertFile, (SolClientSessionPropSslClientCertificateFile, defaultConverter));
   (AuthenticationPropertySchemeSSLClientPrivateKeyFile, (SolClientSessionPropSslClientPrivateKeyFile, defaultConverter));
   (AuthenticationPropertySchemeClientCertPrivateKeyFilePassword, (SolClientSessionPropSslClientPrivateKeyFilePassword, defaultConverter));
   (AuthenticationPropertySchemeKerberosInstanceName, (SolClientSessionPropKrbServiceName, defaultConverter));
   (AuthenticationPropertySchemeOAuth2AccessToken, (SolClientSessionPropOauth2AccessToken, defaultConverter));
   (AuthenticationPropertySchemeOAuth2IssuerIdentifier, (SolClientSessionPropOauth2IssuerIdentifier, defaultConverter));
   (AuthenticationPropertySchemeOAuth2OIDCIDToken, (SolClientSessionPropOidcIDToken, defaultConverter));
   (ClientPropertyName, (SolClientSessionPropClientName, defaultConverter));
   (ClientPropertyApplicationDescription, (SolClientSessionPropApplicationDescription, defaultConverter));
   (ServicePropertyVPNName, (SolClientSessionPropVpnName, defaultConverter));
   (ServicePropertyGenerateSenderID, (SolClientSessionPropGenerateSenderID, booleanConverter));
   (ServicePropertyGenerateSendTimestamps, (SolClientSessionPropGenerateSendTimestamps, booleanConverter));
   (ServicePropertyGenerateReceiveTimestamps, (SolClientSessionPropGenerateRcvTimestamps, booleanConverter));
   (ServicePropertyReceiverDirectSubscriptionReapply, (SolClientSessionPropReapplySubscriptions, booleanConverter));
   (ServicePropertyProvisionTimeoutMs, (SolClientSessionPropProvisionTimeoutMs, durationConverter));
   (ServicePropertyPayloadCompressionLevel, (SolClientSessionPropPayloadCompressionLevel, defaultConverter));
   (TransportLayerPropertyHost, (SolClientSessionPropHost, defaultConverter));
   (TransportLayerPropertyConnectionAttemptsTimeout, (SolClientSessionPropConnectTimeoutMs, durationConverter));
   (TransportLayerPropertyConnectionRetries, (SolClientSessionPropConnectRetries, defaultConverter));
   (TransportLayerPropertyConnectionRetriesPerHost, (SolClientSessionPropConnectRetriesPerHost, defaultConverter));
   (TransportLayerPropertyReconnectionAttempts, (SolClientSessionPropReconnectRetries, defaultConverter));
   (TransportLayerPropertyReconnectionAttemptsWaitInterval, (SolClientSessionPropReconnectRetryWaitMs, durationConverter));
   (TransportLayerPropertyKeepAliveInterval, (SolClientSessionPropKeepAliveIntMs, durationConverter));
   (TransportLayerPropertyKeepAliveWithoutResponseLimit, (SolClientSessionPropKeepAliveLimit, defaultConverter));
   (TransportLayerPropertySocketOutputBufferSize, (SolClientSessionPropSocketRcvBufSize, defaultConverter));
   (TransportLayerPropertySocketInputBufferSize, (SolClientSessionPropSocketSendBufSize, defaultConverter));
   (TransportLayerPropertySocketTCPOptionNoDelay, (SolClientSessionPropTCPNodelay, booleanConverter));
   (TransportLayerPropertyCompressionLevel, (SolClientSessionPropCompressionLevel, defaultConverter));
   (TransportLayerSecurityPropertyCertValidated, (SolClientSessionPropSslValidateCertificate, booleanConverter));
   (TransportLayerSecurityPropertyCertRejectExpired, (SolClientSessionPropSslValidateCertificateDate, booleanConverter));
   (TransportLayerSecurityPropertyCertValidateServername, (SolClientSessionPropSslValidateCertificateHost, booleanConverter));
   (TransportLayerSecurityPropertyExcludedProtocols, (SolClientSessionPropSslExcludedProtocols, defaultConverter));
   (TransportLayerSecurityPropertyProtocolDowngradeTo, (SolClientSessionPropSslConnectionDowngradeTo, defaultConverter));
   (TransportLayerSecurityPropertyCipherSuites, (SolClientSessionPropSslCipherSuites, defaultConverter));
   (TransportLayerSecurityPropertyTrustStorePath, (SolClientSessionPropSslTrustStoreDir, defaultConverter));
   (TransportLayerSecurityPropertyTrustedCommonNameList, (SolClientSessionPropSslTrustedCommonNameList, defaultConverter));
   (TransportLayerSecurityPropertyMinimumProtocol, (SolClientSessionPropMinimumTlsProtocolVersion, defaultConverter));
   (TransportLayerSecurityPropertyMaximumProtocol, (SolClientSessionPropMaximumTlsProtocolVersion, defaultConverter))].

Definition servicePropertyToCCSMPMap : gmap string property :=
  (λ '(name, conv), mkProperty name conv) <$> list_to_map service_property_table.

Definition authenticationStrategyToUsernamePropertyMapping : gmap string string :=
  {[ AuthenticationSchemeBasic := AuthenticationPropertySchemeBasicUserName;
     AuthenticationSchemeClientCertificate := AuthenticationPropertySchemeClientCertUserName;
     AuthenticationSchemeKerberos := AuthenticationPropertySchemeKerberosUserName ]}.

Definition authenticationSchemeRequiredPropertyMap : gmap string (list (list string)) :=
  {[ AuthenticationSchemeBasic :=
       [[AuthenticationPropertySchemeBasicUserName]; [AuthenticationPropertySchemeBasicPassword]];
     AuthenticationSchemeClientCertificate :=
       [[AuthenticationPropertySchemeSSLClientCertFile]; [AuthenticationPropertySchemeSSLClientPrivateKeyFile]];
     AuthenticationSchemeOAuth2 :=
       [[AuthenticationPropertySchemeOAuth2AccessToken; AuthenticationPropertySchemeOAuth2OIDCIDToken]] ]}.

Definition requiredServiceProperties : list string :=
  [TransportLayerPropertyHost; ServicePropertyVPNName].

Definition DefaultConfiguration : ServicePropertyMap := ∅.
Definition DefaultCcsmpProperties : gmap string string :=
  {[ SolClientSessionPropTopicDispatch := SolClientPropEnableVal;
     SolClientSessionPropSendBlocking := SolClientPropDisableVal;
     SolClientSessionPropReapplySubscriptions := SolClientPropEnableVal;
     SolClientSessionPropIgnoreDupSubscriptionError := SolClientPropEnableVal;
     SolClientSessionPropReconnectRetries := "3";
     SolClientSessionPropGuaranteedWithWebTransport := SolClientPropEnableVal;
     SolClientSessionPropPubWindowSize := "255" ]}.

(** * Building *)

(** The printing of a slice of keys with [%s]. *)
Fixpoint join_spaces (l : list string) : string :=
  match l with [] => "" | [s] => s | s :: l => s +:+ " " +:+ join_spaces l end.
Definition print_slice (l : list string) : string := "[" +:+ join_spaces l +:+ "]".

Definition MissingServiceProperty (requiredProp : string) : go_error :=
  NewError InvalidConfigurationError
    ("property " +:+ requiredProp +:+ " is required to build a messaging service") None.
Definition MissingServicePropertyGivenScheme (props : list string) (scheme : string) : go_error :=
  NewError InvalidConfigurationError
    ("property " +:+ print_slice props +:+ " is required when using authentication scheme " +:+ scheme) None.
Definition MissingServicePropertiesGivenScheme (props : list string) (scheme : string) : go_error :=
  NewError InvalidConfigurationError
    ("one of properties " +:+ print_slice props +:+ " is required when using authentication scheme " +:+ scheme) None.

Definition has (m : ServicePropertyMap) (key : string) : bool := bool_decide (is_Some (m !! key)).

(** The scheme of a configuration, printed. *)
Definition scheme_of (m : ServicePropertyMap) : string :=
  defaultConverter (default (VString DefaultAuthenticationScheme) (m !! AuthenticationPropertyScheme)).

Fixpoint check_required (props : list string) (m : ServicePropertyMap) : option go_error :=
  match props with
  | [] => None
  | requiredProp :: props =>
      if has m requiredProp then check_required props m else Some (MissingServiceProperty requiredProp)
  end.

Fixpoint check_scheme (requiredProps : list (list string)) (scheme : string) (m : ServicePropertyMap)
    : option go_error :=
  match requiredProps with
  | [] => None
  | requiredPropsForScheme :: requiredProps =>
      if existsb (has m) requiredPropsForScheme then check_scheme requiredProps scheme m
      else Some (if 1 <? Z.of_nat (length requiredPropsForScheme)
                 then MissingServicePropertiesGivenScheme requiredPropsForScheme scheme
                 else MissingServicePropertyGivenScheme requiredPropsForScheme scheme)
  end.

Definition validateRequiredProperties (m : ServicePropertyMap) : option go_error :=
  match check_required requiredServiceProperties m with
  | Some err => Some err
  | None =>
      match authenticationSchemeRequiredPropertyMap !! scheme_of m with
      | None => None
      | Some requiredProps => check_scheme requiredProps (scheme_of m) m
      end
  end.

(** The name, whether there is one, and the configuration without it. *)
Definition getUsername (m : ServicePropertyMap) : string * bool * ServicePropertyMap :=
  match authenticationStrategyToUsernamePropertyMapping !! scheme_of m with
  | Some configuredUsernameKey =>
      match m !! configuredUsernameKey with
      | Some username => (defaultConverter username, true, delete configuredUsernameKey m)
      | None => ("", false, m)
      end
  | None => ("", false, m)
  end.

(** [defaults] and [order]: the order of the two iterations. *)
Definition toPropertyList (defaults : list (string * string))
    (order : ServicePropertyMap → list (string * value)) (m : ServicePropertyMap) : list string :=
  let propertyList := foldl (λ l '(key, value), (l ++ [key]) ++ [value]) [] defaults in
  let '(username, ok, m) := getUsername m in
  let propertyList := if (ok : bool)
    then (propertyList ++ [SolClientSessionPropUsername]) ++ [username] else propertyList in
  foldl (λ l '(key, value),
    match servicePropertyToCCSMPMap !! key with
    | None => l
    | Some ccsmpProperty =>
        match value with
        | VNil => l
        | _ => (l ++ [solClientPropertyName ccsmpProperty]) ++ [converter ccsmpProperty value]
        end
    end) propertyList (order m).

(** The host and the properties that the transport is made with. *)
Definition Build (defaults : list (string * string))
    (order : ServicePropertyMap → list (string * value)) (configuration : ServicePropertyMap)
    : res go_error (string * list string) :=
  match validateRequiredProperties configuration with
  | Some err => Err err
  | None =>
      let host := default VNil (configuration !! TransportLayerPropertyHost) in
      Ok (defaultConverter host, toPropertyList defaults order configuration)
  end.

(** ** The operations of the builder *)

Definition NewMessagingServiceBuilder : ServicePropertyMap := DefaultConfiguration.

(** [properties] in the order of their visit. *)
Definition mergeProperties (properties : list (string * value)) (configuration : ServicePropertyMap)
    : ServicePropertyMap :=
  foldl (λ m '(key, v), <[key := v]> m) configuration properties.
(** [None]: a nil provider, or one of a nil map. *)
Definition FromConfigurationProvider (provider : option (list (string * value))) (m : ServicePropertyMap)
    : ServicePropertyMap :=
  match provider with None => m | Some properties => mergeProperties properties m end.
Definition BuildWithApplicationID defaults order (applicationID : string) (m : ServicePropertyMap) :=
  Build defaults order (<[ClientPropertyName := VString applicationID]> m).
Definition WithMessageCompression (compressionFactor : Z) (m : ServicePropertyMap) : ServicePropertyMap :=
  <[TransportLayerPropertyCompressionLevel := VInt compressionFactor]> m.
Definition WithProvisionTimeoutMs (timeout : Z) (m : ServicePropertyMap) : ServicePropertyMap :=
  <[ServicePropertyProvisionTimeoutMs := VDuration timeout]> m.

(** ** Retry strategies *)

Record RetryStrategy : Type := mkRetryStrategy { retries : Z; retryInterval : Z }.
Definition RetryStrategyForeverRetry : RetryStrategy := mkRetryStrategy (-1) (3000 * Millisecond).
Definition RetryStrategyForeverRetryWithInterval (interval : Z) : RetryStrategy := mkRetryStrategy (-1) interval.
Definition RetryStrategyNeverRetry : RetryStrategy := mkRetryStrategy 0 (3000 * Millisecond).
(** [int(retries)], of 64 bits. *)
Definition RetryStrategyParameterizedRetry (n interval : Z) : RetryStrategy := mkRetryStrategy (wrapS 64 n) interval.

Definition WithConnectionRetryStrategy (s : RetryStrategy) (m : ServicePropertyMap) : ServicePropertyMap :=
  mergeProperties [(TransportLayerPropertyConnectionRetries, VInt (retries s));
                   (TransportLayerPropertyReconnectionAttemptsWaitInterval, VDuration (retryInterval s))] m.
Definition WithReconnectionRetryStrategy (s : RetryStrategy) (m : ServicePropertyMap) : ServicePropertyMap :=
  mergeProperties [(TransportLayerPropertyReconnectionAttempts, VInt (retries s));
                   (TransportLayerPropertyReconnectionAttemptsWaitInterval, VDuration (retryInterval s))] m.

(** ** Authentication strategies *)

Definition AuthenticationStrategy : Type := ServicePropertyMap.

(** [s], where it is not empty. *)
Definition set_nonempty_string (key s : string) (m : ServicePropertyMap) : ServicePropertyMap :=
  if String.eqb s "" then m else <[key := VString s]> m.

Definition BasicUserNamePasswordAuthentication (username password : string) : AuthenticationStrategy :=
  <[AuthenticationPropertyScheme := VString AuthenticationSchemeBasic]>
    (<[AuthenticationPropertySchemeBasicPassword := VString password]>
      (<[AuthenticationPropertySchemeBasicUserName := VString username]> ∅)).
Definition ClientCertificateAuthentication (certificateFile keyFile keyPassword : string) : AuthenticationStrategy :=
  set_nonempty_string AuthenticationPropertySchemeClientCertPrivateKeyFilePassword keyPassword
    (set_nonempty_string AuthenticationPropertySchemeSSLClientPrivateKeyFile keyFile
      (<[AuthenticationPropertySchemeSSLClientCertFile := VString certificateFile]>
        (<[AuthenticationPropertyScheme := VString AuthenticationSchemeClientCertificate]> ∅))).
Definition OAuth2Authentication (accessToken oidcIDToken issuerIdentifier : string) : AuthenticationStrategy :=
  set_nonempty_string AuthenticationPropertySchemeOAuth2IssuerIdentifier issuerIdentifier
    (set_nonempty_string AuthenticationPropertySchemeOAuth2OIDCIDToken oidcIDToken
      (set_nonempty_string AuthenticationPropertySchemeOAuth2AccessToken accessToken
        (<[AuthenticationPropertyScheme := VString AuthenticationSchemeOAuth2]> ∅))).
Definition KerberosAuthentication (serviceName : string) : AuthenticationStrategy :=
  set_nonempty_string AuthenticationPropertySchemeKerberosInstanceName serviceName
    (<[AuthenticationPropertyScheme := VString AuthenticationSchemeKerberos]> ∅).

(** The loop over the properties of a strategy, in the order [order]. *)
Definition WithAuthenticationStrategy (order : ServicePropertyMap → list (string * value))
    (strategy : AuthenticationStrategy) (m : ServicePropertyMap) : ServicePropertyMap :=
  mergeProperties (order strategy) m.

(** ** Transport security *)

(** The map of the strategy, which its methods share and change. *)
Definition TransportSecurityStrategy : Type := ServicePropertyMap.
Definition DowngradeToPlaintext : string := "PLAIN_TEXT".
Definition NewTransportSecurityStrategy : TransportSecurityStrategy := ∅.
Definition Downgradable (tss : TransportSecurityStrategy) : TransportSecurityStrategy :=
  <[TransportLayerSecurityPropertyProtocolDowngradeTo := VString DowngradeToPlaintext]> tss.
Definition WithExcludedProtocols (protocols : list string) (tss : TransportSecurityStrategy) : TransportSecurityStrategy :=
  let protocolsCS := foldl (λ protocolsCS protocol,
    (if String.eqb protocolsCS "" then protocolsCS else protocolsCS +:+ ",") +:+ protocol) "" protocols in
  <[TransportLayerSecurityPropertyExcludedProtocols := VString protocolsCS]> tss.
Definition WithMinimumProtocol (protocol : string) (tss : TransportSecurityStrategy) : TransportSecurityStrategy :=
  <[TransportLayerSecurityPropertyMinimumProtocol := VString protocol]> tss.
Definition WithMaximumProtocol (protocol : string) (tss : TransportSecurityStrategy) : TransportSecurityStrategy :=
  <[TransportLayerSecurityPropertyMaximumProtocol := VString protocol]> tss.
Definition WithoutCertificateValidation (tss : TransportSecurityStrategy) : TransportSecurityStrategy :=
  <[TransportLayerSecurityPropertyCertValidated := VBool false]> tss.
Definition WithCertificateValidation (ignoreExpiration validateServerName : bool)
    (trustStoreFilePath trustedCommonNameList : string) (tss : TransportSecurityStrategy) : TransportSecurityStrategy :=
  set_nonempty_string TransportLayerSecurityPropertyTrustedCommonNameList trustedCommonNameList
    (set_nonempty_string TransportLayerSecurityPropertyTrustStorePath trustStoreFilePath
      (<[TransportLayerSecurityPropertyCertValidateServername := VBool validateServerName]>
        (<[TransportLayerSecurityPropertyCertRejectExpired := VBool (negb ignoreExpiration)]>
          (<[TransportLayerSecurityPropertyCertValidated := VBool true]> tss)))).
Definition WithCipherSuites (cipherSuiteList : string) (tss : TransportSecurityStrategy) : TransportSecurityStrategy :=
  <[TransportLayerSecurityPropertyCipherSuites := VString cipherSuiteList]> tss.
Definition WithTransportSecurityStrategy (order : ServicePropertyMap → list (string * value))
    (strategy : TransportSecurityStrategy) (m : ServicePropertyMap) : ServicePropertyMap :=
  mergeProperties (order strategy) m.

(** * The properties of the session *)

Lemma append_defaults defaults l :
  foldl (λ l '(key, value), (l ++ [key]) ++ [value]) l defaults = l ++ flat_pairs defaults.
Proof using Type.
  revert l. induction defaults as [|[k v] ds IH]; intros l; simpl; [by rewrite app_nil_r|].
  by rewrite IH, <-!(assoc_L (++)).
Qed.

(** ** The last loop, over any table of properties *)

Section loop.
Context (table : gmap string property).
Hypothesis same_name : ∀ key key' p p', table !! key = Some p → table !! key' = Some p' →
  solClientPropertyName p = solClientPropertyName p' → key = key'.

(** The pairs that the loop appends. *)
Definition session_pair (e : string * value) : option (string * string) :=
  match table !! e.1, e.2 with
  | Some p, VNil => None
  | Some p, v => Some (solClientPropertyName p, converter p v)
  | None, _ => None
  end.

Lemma append_properties es l :
  foldl (λ l '(key, value),
    match table !! key with
    | None => l
    | Some ccsmpProperty =>
        match value with
        | VNil => l
        | _ => (l ++ [solClientPropertyName ccsmpProperty]) ++ [converter ccsmpProperty value]
        end
    end) l es = l ++ flat_pairs (omap session_pair es).
Proof using Type.
  revert l. induction es as [|[key v] es IH]; intros l; [by rewrite app_nil_r|].
  cbn [foldl omap list_omap]. rewrite IH. unfold session_pair at 2. cbn [fst snd].
  destruct (table !! key) as [p|]; [|done].
  destruct v; [done|..]; cbn [flat_pairs flat_map fst snd app]; by rewrite <-!(assoc_L (++)).
Qed.

Lemma elem_pairs (es : list (string * value)) c v : (c, v) ∈ (omap session_pair es : list _) ↔
  ∃ key x p, (key, x) ∈ es ∧ table !! key = Some p ∧ x ≠ VNil ∧
    c = solClientPropertyName p ∧ v = converter p x.
Proof using Type.
  rewrite list_elem_of_omap. unfold session_pair. split.
  - intros ([key x] & Hin & Hp). cbn [fst snd] in Hp.
    destruct (table !! key) as [p|] eqn:Hk; [|done].
    exists key, x, p. destruct x; naive_solver.
  - intros (key & x & p & Hin & Hk & Hx & -> & ->). exists (key, x). split; [done|].
    cbn [fst snd]. rewrite Hk. by destruct x.
Qed.

Lemma pairs_distinct (es : list (string * value)) : NoDup es.*1 → NoDup (omap session_pair es : list _).*1.
Proof using same_name.
  induction es as [|[key x] es IH]; [by constructor|]. rewrite fmap_cons.
  intros [Hk Hes]%NoDup_cons. cbn [omap list_omap]. specialize (IH Hes).
  destruct (session_pair (key, x)) as [[c v]|] eqn:Hp; [|done]. rewrite fmap_cons. apply NoDup_cons.
  split; [|done]. intros ([c' v'] & Hc & Hin)%list_elem_of_fmap. simpl in Hc. subst c'.
  apply elem_pairs in Hin as (key' & x' & p' & Hin & Hk' & _ & Hc & _).
  assert ((c, v) ∈ (omap session_pair [(key, x)] : list _)) as Hp'.
  { apply list_elem_of_omap. exists (key, x). split; [by apply list_elem_of_singleton|done]. }
  apply elem_pairs in Hp' as (? & ? & p & [= -> ->]%list_elem_of_singleton & Hkp & _ & -> & _).
  rewrite (same_name key key' p p') in Hk by done. apply Hk. by apply (list_elem_of_fmap_2 fst) in Hin.
Qed.

(** What the loop gives to a name. *)
Lemma effective_properties (m : ServicePropertyMap) l : l ≡ₚ map_to_list m →
  (∀ key p, table !! key = Some p →
    effective (flat_pairs (omap session_pair l)) (solClientPropertyName p) =
      match default VNil (m !! key) with VNil => None | v => Some (converter p v) end) ∧
  (∀ c, (∀ key p, table !! key = Some p → c ≠ solClientPropertyName p) →
    effective (flat_pairs (omap session_pair l)) c = None).
Proof using same_name.
  intros Ho. assert (NoDup l.*1) as Hnd by (rewrite Ho; apply NoDup_fst_map_to_list).
  assert (∀ key x, (key, x) ∈ l ↔ m !! key = Some x) as Hin.
  { intros key x. rewrite Ho. apply elem_of_map_to_list. }
  split.
  - intros key p Hk.
    assert (∀ x, x ≠ VNil → m !! key = Some x →
      effective (flat_pairs (omap session_pair l)) (solClientPropertyName p) = Some (converter p x)) as Hsome.
    { intros x Hx Hm. apply effective_unique; [by apply pairs_distinct|]. apply elem_pairs.
      exists key, x, p. by rewrite Hin. }
    assert (default VNil (m !! key) = VNil →
      effective (flat_pairs (omap session_pair l)) (solClientPropertyName p) = None) as Hnone.
    { intros Hd. apply effective_none. intros ([c v] & Hc & Hp)%list_elem_of_fmap. simpl in Hc. subst c.
      apply elem_pairs in Hp as (key' & x & p' & Hx & Hk' & Hne & Hn & _). apply Hin in Hx.
      rewrite (same_name key key' p p') in Hd by done. rewrite Hx in Hd. done. }
    destruct (m !! key) as [x|]; simpl in *; [|by apply Hnone].
    destruct x; [by apply Hnone|..]; by apply Hsome.
  - intros c Hc. apply effective_none. intros ([c' v] & -> & Hp)%list_elem_of_fmap.
    apply elem_pairs in Hp as (key & x & p & _ & Hk & _ & Hn & _). by apply (Hc key p).
Qed.

(** The whole list: the defaults, the user name if there is one, the loop. *)
Lemma effective_list (defaults : list (string * string)) (username : option string)
    (m : ServicePropertyMap) l :
  l ≡ₚ map_to_list m → NoDup defaults.*1 →
  (∀ key p, table !! key = Some p → solClientPropertyName p ≠ SolClientSessionPropUsername) →
  SolClientSessionPropUsername ∉ defaults.*1 →
  let ps := flat_pairs defaults ++
    flat_pairs (match username with Some u => [(SolClientSessionPropUsername, u)] | None => [] end) ++
    flat_pairs (omap session_pair l) in
  effective ps SolClientSessionPropUsername = username ∧
  (∀ key p, table !! key = Some p → effective ps (solClientPropertyName p) =
    match default VNil (m !! key) with
    | VNil => (list_to_map defaults : gmap string string) !! solClientPropertyName p
    | v => Some (converter p v)
    end) ∧
  (∀ c, (∀ key p, table !! key = Some p → c ≠ solClientPropertyName p) → c ≠ SolClientSessionPropUsername →
    effective ps c = (list_to_map defaults : gmap string string) !! c).
Proof using same_name.
  intros Hl Hd Hu Hdu ps. destruct (effective_properties m l Hl) as [Hin Hout].
  assert (∀ c, effective (flat_pairs defaults) c = (list_to_map defaults : gmap string string) !! c) as Hdef.
  { intros c'. destruct (list_to_map defaults !! c') as [v|] eqn:Hv.
    - apply effective_unique; [done|]. by apply elem_of_list_to_map_2.
    - apply effective_none. by apply not_elem_of_list_to_map_2. }
  assert (∀ c, effective ps c =
    match effective (flat_pairs (omap session_pair l)) c with
    | Some v => Some v
    | None => if decide (c = SolClientSessionPropUsername) then username
              else (list_to_map defaults : gmap string string) !! c
    end) as Hps.
  { intros c'. unfold ps. rewrite <-flat_pairs_app, effective_app, flat_pairs_app, effective_app, Hdef.
    destruct (effective (flat_pairs (omap session_pair l)) c') as [v|]; [done|].
    assert (c' = SolClientSessionPropUsername → (list_to_map defaults : gmap string string) !! c' = None) as Hno.
    { intros ->. by apply not_elem_of_list_to_map_1. }
    destruct username as [u|]; cbn [flat_pairs flat_map fst snd app effective].
    - repeat case_decide; congruence.
    - case_decide; [by rewrite Hno|done]. }
  split_and!.
  - rewrite Hps, Hout, decide_True; [done|done|]. intros key p Hk Hn. by apply (Hu key p).
  - intros key p Hk. rewrite Hps, (Hin key p Hk).
    destruct (default VNil (m !! key)); [|done..]. rewrite decide_False; [done|]. by apply (Hu key).
  - intros c Hc Hcu. by rewrite Hps, Hout, decide_False.
Qed.
End loop.

(** ** The table of the client *)

(** No two properties go to the same property of the session, and none to the user name. *)
Lemma names_distinct : NoDup (SolClientSessionPropUsername :: service_property_table.*2.*1).
Proof using Type. apply (bool_decide_unpack _). vm_compute. done. Qed.

Lemma keys_distinct : NoDup service_property_table.*1.
Proof using Type. apply (bool_decide_unpack _). vm_compute. done. Qed.

(** An element of a list is known by what the list has no duplicates of. *)
Lemma NoDup_fmap_same {X Y} (f : X → Y) (l : list X) x y :
  NoDup (f <$> l) → x ∈ l → y ∈ l → f x = f y → x = y.
Proof using Type.
  induction l as [|z l IH]; [by intros _ []%elem_of_nil|]. rewrite fmap_cons.
  intros [Hz Hl]%NoDup_cons [->|Hx]%elem_of_cons [->|Hy]%elem_of_cons Hf; [done| | |by apply IH].
  - destruct Hz. rewrite Hf. by apply list_elem_of_fmap_2.
  - destruct Hz. rewrite <-Hf. by apply list_elem_of_fmap_2.
Qed.

(** The map of a table without duplicates. *)
Lemma lookup_table (l : list (string * (string * (value → string)))) key p : NoDup l.*1 →
  ((λ '(name, conv), mkProperty name conv) <$> (list_to_map l : gmap string _)) !! key = Some p ↔
  (key, (solClientPropertyName p, converter p)) ∈ l.
Proof using Type.
  intros Hl. rewrite lookup_fmap_Some. split.
  - intros ([name conv] & <- & Hk). by apply elem_of_list_to_map_2.
  - intros Hin. exists (solClientPropertyName p, converter p). split; [by destruct p|].
    by apply elem_of_list_to_map_1.
Qed.

Lemma same_name_table (l : list (string * (string * (value → string)))) key key' p p' :
  NoDup l.*2.*1 → (key, (solClientPropertyName p, converter p)) ∈ l →
  (key', (solClientPropertyName p', converter p')) ∈ l →
  solClientPropertyName p = solClientPropertyName p' → key = key'.
Proof using Type.
  rewrite <-list_fmap_compose. intros Hd H1 H2 Hn.
  pose proof (NoDup_fmap_same _ _ _ _ Hd H1 H2 Hn). congruence.
Qed.

Lemma username_keys_unmapped scheme key : authenticationStrategyToUsernamePropertyMapping !! scheme = Some key →
  key ∉ service_property_table.*1.
Proof using Type.
  unfold authenticationStrategyToUsernamePropertyMapping. intros Hk.
  rewrite !lookup_insert_Some, lookup_singleton_Some in Hk.
  assert (key = AuthenticationPropertySchemeBasicUserName ∨ key = AuthenticationPropertySchemeClientCertUserName ∨
          key = AuthenticationPropertySchemeKerberosUserName) as [-> | [-> | ->]]
    by intuition congruence.
  all: apply (bool_decide_unpack _); vm_compute; done.
Qed.

(** The user name that a configuration has under its scheme. *)
Definition username_of (m : ServicePropertyMap) : option string :=
  match authenticationStrategyToUsernamePropertyMapping !! scheme_of m with
  | Some key => defaultConverter <$> m !! key
  | None => None
  end.

Lemma getUsername_spec m : ∃ m',
  getUsername m = (default "" (username_of m), bool_decide (is_Some (username_of m)), m') ∧
  ∀ key, key ∈ service_property_table.*1 → m' !! key = m !! key.
Proof using Type.
  unfold getUsername, username_of.
  destruct (authenticationStrategyToUsernamePropertyMapping !! scheme_of m) as [key|] eqn:Hk; [|by exists m].
  apply username_keys_unmapped in Hk.
  destruct (m !! key) as [u|] eqn:Hu; [|by exists m]. exists (delete key m). split; [done|].
  intros key' Hkey'. apply lookup_delete_ne. congruence.
Qed.

Lemma toPropertyList_flat defaults order m : ∃ m',
  toPropertyList defaults order m =
    flat_pairs defaults ++
    flat_pairs (match username_of m with Some u => [(SolClientSessionPropUsername, u)] | None => [] end) ++
    flat_pairs (omap (session_pair servicePropertyToCCSMPMap) (order m')) ∧
  ∀ key, key ∈ service_property_table.*1 → m' !! key = m !! key.
Proof using Type.
  destruct (getUsername_spec m) as (m' & Hu & Hm'). exists m'. split; [|done].
  unfold toPropertyList. rewrite Hu, append_defaults, append_properties.
  destruct (username_of m) as [u|]; [rewrite bool_decide_true by done|rewrite bool_decide_false by by intros []];
    cbn [default flat_pairs flat_map fst snd app]; [by rewrite <-!(assoc_L (++))|done].
Qed.

(** C32: what the session is created with.  The property list of a service that is built gives each property
    of the session, whatever the order of the iterations, the converted value of the one
    configured property that is mapped to it, unless that is nil or absent, and else its default; the user name is that of the configured
    authentication scheme, and every other property has its default.  The transport gets the
    configured host. *)
Theorem session_properties order defaults (m : ServicePropertyMap) host props :
  (∀ m, order m ≡ₚ map_to_list m) → defaults ≡ₚ map_to_list DefaultCcsmpProperties →
  Build defaults order m = Ok (host, props) →
  (∀ key name conv, (key, (name, conv)) ∈ service_property_table →
     effective props name = match default VNil (m !! key) with
                            | VNil => DefaultCcsmpProperties !! name
                            | v => Some (conv v)
                            end) ∧
  effective props SolClientSessionPropUsername = username_of m ∧
  (∀ c, c ∉ SolClientSessionPropUsername :: service_property_table.*2.*1 →
     effective props c = DefaultCcsmpProperties !! c) ∧
  ∃ v, m !! TransportLayerPropertyHost = Some v ∧ host = defaultConverter v.
Proof using Type.
  intros Ho Hd Hb. unfold Build in Hb.
  destruct (validateRequiredProperties m) as [err|] eqn:Hv; [done|]. injection Hb as <- <-.
  destruct (toPropertyList_flat defaults order m) as (m' & -> & Hm').
  pose proof names_distinct as [Hnu Hnd]%NoDup_cons.
  assert (list_to_map defaults = DefaultCcsmpProperties) as Hdm.
  { rewrite <-(list_to_map_to_list DefaultCcsmpProperties). apply list_to_map_proper; [|done].
    rewrite Hd. apply NoDup_fst_map_to_list. }
  assert (∀ key p, servicePropertyToCCSMPMap !! key = Some p ↔
    (key, (solClientPropertyName p, converter p)) ∈ service_property_table) as Htab.
  { intros key p. apply lookup_table, keys_distinct. }
  assert (∀ key p, servicePropertyToCCSMPMap !! key = Some p →
    solClientPropertyName p ∈ service_property_table.*2.*1) as Hname.
  { intros key p H%Htab. by apply (list_elem_of_fmap_2 (fst ∘ snd)) in H; rewrite list_fmap_compose in H. }
  destruct (effective_list servicePropertyToCCSMPMap ltac:(intros ????; rewrite !Htab; apply same_name_table, Hnd)
    defaults (username_of m) m' (order m') (Ho m')) as (H1 & H2 & H3).
  { rewrite Hd. apply NoDup_fst_map_to_list. }
  { intros key p Hk Hn. apply Hnu. rewrite <-Hn. by apply (Hname key). }
  { rewrite Hd. apply (bool_decide_unpack _). vm_compute. done. }
  split_and!.
  - intros key name conv Hin.
    pose proof (H2 key (mkProperty name conv) ltac:(by apply Htab)) as Hk.
    cbn [solClientPropertyName converter] in Hk. rewrite Hk, Hm', Hdm; [done|].
    by apply (list_elem_of_fmap_2 fst) in Hin.
  - done.
  - intros c [Hc Hct]%not_elem_of_cons.
    rewrite <-Hdm. apply H3; [|done]. intros key p Hk ->. apply Hct. by apply (Hname key).
  - unfold validateRequiredProperties, requiredServiceProperties in Hv. simpl in Hv. unfold has in Hv at 1.
    case_bool_decide as Hh; [|done]. destruct Hh as [v Hh]. exists v. rewrite Hh. done.
Qed.

(** ** What a service needs *)

Definition lacks (m : ServicePropertyMap) (key : string) : Prop := m !! key = None.

Lemma check_required_none props m : check_required props m = None ↔ ∀ key, key ∈ props → has m key = true.
Proof using Type.
  induction props as [|key props IH]; simpl; [set_solver|].
  destruct (has m key) eqn:Hk.
  - rewrite IH. split; [|set_solver]. intros H key' [->|]%elem_of_cons; auto.
  - split; [done|]. intros H. rewrite (H key) in Hk; [done|by left].
Qed.

Lemma check_scheme_none reqs scheme m :
  check_scheme reqs scheme m = None ↔ Forall (λ props, existsb (has m) props = true) reqs.
Proof using Type.
  induction reqs as [|props reqs IH]; simpl; [by split|]. rewrite Forall_cons.
  destruct (existsb (has m) props); [rewrite IH; naive_solver|]. naive_solver.
Qed.

Lemma has_spec m key : has m key = true ↔ is_Some (m !! key).
Proof using Type. unfold has. apply bool_decide_eq_true. Qed.

(** The requirements of the schemes. *)
Definition scheme_requirement (scheme : string) (m : ServicePropertyMap) : Prop :=
  (scheme = AuthenticationSchemeBasic →
     is_Some (m !! AuthenticationPropertySchemeBasicUserName) ∧
     is_Some (m !! AuthenticationPropertySchemeBasicPassword)) ∧
  (scheme = AuthenticationSchemeClientCertificate →
     is_Some (m !! AuthenticationPropertySchemeSSLClientCertFile) ∧
     is_Some (m !! AuthenticationPropertySchemeSSLClientPrivateKeyFile)) ∧
  (scheme = AuthenticationSchemeOAuth2 →
     is_Some (m !! AuthenticationPropertySchemeOAuth2AccessToken) ∨
     is_Some (m !! AuthenticationPropertySchemeOAuth2OIDCIDToken)).

Lemma validate_none m : validateRequiredProperties m = None ↔
  is_Some (m !! TransportLayerPropertyHost) ∧ is_Some (m !! ServicePropertyVPNName) ∧
  scheme_requirement (scheme_of m) m.
Proof using Type.
  unfold validateRequiredProperties.
  destruct (check_required requiredServiceProperties m) as [err|] eqn:Hr.
  { split; [done|]. intros (Hh & Hv & _).
    assert (check_required requiredServiceProperties m = None) as ?; [|congruence].
    apply check_required_none. unfold requiredServiceProperties.
    intros key [->|[->|[]%elem_of_nil]%elem_of_cons]%elem_of_cons; by apply has_spec. }
  rewrite check_required_none in Hr.
  assert (is_Some (m !! TransportLayerPropertyHost)) as Hh by (apply has_spec, Hr; by left).
  assert (is_Some (m !! ServicePropertyVPNName)) as Hv by (apply has_spec, Hr; right; by left).
  transitivity (scheme_requirement (scheme_of m) m); [|tauto]. clear Hr.
  unfold authenticationSchemeRequiredPropertyMap, scheme_requirement.
  generalize (scheme_of m) as scheme. intros scheme.
  destruct (decide (scheme = AuthenticationSchemeBasic)) as [->|H1].
  { rewrite lookup_insert_eq, check_scheme_none, !Forall_cons, Forall_nil. cbn [existsb].
    rewrite !orb_false_r, !has_spec. naive_solver discriminate. }
  rewrite lookup_insert_ne by done.
  destruct (decide (scheme = AuthenticationSchemeClientCertificate)) as [->|H2].
  { rewrite lookup_insert_eq, check_scheme_none, !Forall_cons, Forall_nil. cbn [existsb].
    rewrite !orb_false_r, !has_spec. naive_solver discriminate. }
  rewrite lookup_insert_ne by done.
  destruct (decide (scheme = AuthenticationSchemeOAuth2)) as [->|H3].
  { rewrite lookup_singleton_eq, check_scheme_none, !Forall_cons, Forall_nil. cbn [existsb].
    rewrite !orb_false_r, orb_true_iff, !has_spec. naive_solver discriminate. }
  rewrite lookup_singleton_ne by done. naive_solver.
Qed.

Lemma validate_kind m err : validateRequiredProperties m = Some err →
  ∃ message, err = NewError InvalidConfigurationError message None.
Proof using Type.
  unfold validateRequiredProperties.
  assert (∀ props err, check_required props m = Some err →
    ∃ message, err = NewError InvalidConfigurationError message None) as H1.
  { induction props as [|key props IH]; simpl; [done|]. intros e. destruct (has m key); [apply IH|].
    intros [= <-]. by eexists. }
  assert (∀ reqs scheme err, check_scheme reqs scheme m = Some err →
    ∃ message, err = NewError InvalidConfigurationError message None) as H2.
  { induction reqs as [|props reqs IH]; simpl; [done|]. intros scheme e.
    destruct (existsb (has m) props); [apply IH|]. intros [= <-].
    destruct (1 <? _); by eexists. }
  destruct (check_required _ m) eqn:Hr; [intros [= <-]; by eapply H1|].
  destruct (authenticationSchemeRequiredPropertyMap !! scheme_of m); [|done]. apply H2.
Qed.

Lemma merge_union l (s m : ServicePropertyMap) : l ≡ₚ map_to_list s → mergeProperties l m = s ∪ m.
Proof using Type.
  intros Hl. assert (NoDup l.*1) as Hnd by (rewrite Hl; apply NoDup_fst_map_to_list).
  replace s with (list_to_map l : ServicePropertyMap).
  2: { rewrite <-(list_to_map_to_list s). by apply list_to_map_proper. }
  clear Hl s. revert m. induction l as [|[k v] l IH]; intros m; simpl.
  - by rewrite (left_id_L ∅ (∪)).
  - apply NoDup_cons in Hnd as [Hk Hnd]. rewrite IH by done.
    rewrite <-insert_union_l. rewrite insert_union_r; [done|]. by apply not_elem_of_list_to_map_1.
Qed.

Lemma lookup_set_string key s m k :
  set_nonempty_string key s m !! k =
  if decide (key = k ∧ s ≠ "") then Some (VString s) else m !! k.
Proof using Type.
  unfold set_nonempty_string. destruct (String.eqb_spec s "") as [->|Hs].
  - by rewrite decide_False by naive_solver.
  - case_decide as Hk; [destruct Hk as [-> _]; by rewrite lookup_insert_eq|].
    apply lookup_insert_ne. naive_solver.
Qed.

Lemma build_ok defaults order m :
  is_ok (Build defaults order m) = true ↔
  is_Some (m !! TransportLayerPropertyHost) ∧ is_Some (m !! ServicePropertyVPNName) ∧
  scheme_requirement (scheme_of m) m.
Proof using Type.
  rewrite <-validate_none. unfold Build. by destruct (validateRequiredProperties m).
Qed.

(** With a strategy that sets the scheme. *)
Lemma build_with_strategy defaults order (s m : ServicePropertyMap) scheme :
  (∀ m, order m ≡ₚ map_to_list m) →
  is_Some (m !! TransportLayerPropertyHost) → is_Some (m !! ServicePropertyVPNName) →
  s !! AuthenticationPropertyScheme = Some (VString scheme) →
  scheme_of (WithAuthenticationStrategy order s m) = scheme ∧
  (∀ key, is_Some (WithAuthenticationStrategy order s m !! key) ↔ is_Some (s !! key) ∨ is_Some (m !! key)) ∧
  (∀ key v, s !! key = Some v → WithAuthenticationStrategy order s m !! key = Some v) ∧
  (is_ok (Build defaults order (WithAuthenticationStrategy order s m)) = true ↔
   scheme_requirement scheme (WithAuthenticationStrategy order s m)).
Proof using Type.
  intros Ho Hh Hv Hs. unfold WithAuthenticationStrategy. rewrite (merge_union _ s m (Ho s)).
  assert (scheme_of (s ∪ m) = scheme) as Hsc.
  { unfold scheme_of. by rewrite (lookup_union_Some_l _ _ _ _ Hs). }
  split_and!; [done|apply lookup_union_is_Some|apply lookup_union_Some_l|].
  rewrite build_ok, Hsc, !lookup_union_is_Some. tauto.
Qed.

Section strategies.
Context (defaults : list (string * string)) (order : ServicePropertyMap → list (string * value)).
Context (m : ServicePropertyMap).
Hypothesis Ho : ∀ m, order m ≡ₚ map_to_list m.
Hypothesis Hh : is_Some (m !! TransportLayerPropertyHost).
Hypothesis Hv : is_Some (m !! ServicePropertyVPNName).
Definition built_with (s : ServicePropertyMap) : Prop :=
  is_ok (Build defaults order (WithAuthenticationStrategy order s m)) = true.

Lemma basic_builds username password :
  built_with (BasicUserNamePasswordAuthentication username password) ∧
  username_of (WithAuthenticationStrategy order
    (BasicUserNamePasswordAuthentication username password) m) = Some username.
Proof using Ho Hh Hv.
  unfold built_with. set (s := BasicUserNamePasswordAuthentication username password).
  destruct (build_with_strategy defaults order s m AuthenticationSchemeBasic Ho Hh Hv eq_refl)
    as (Hsc & Hk & Hl & ->). unfold scheme_requirement. rewrite !Hk. split.
  + split_and!; [|done..]. intros _. split; left; by eexists.
  + unfold username_of. rewrite Hsc.
    replace (authenticationStrategyToUsernamePropertyMapping !! AuthenticationSchemeBasic)
      with (Some AuthenticationPropertySchemeBasicUserName) by (vm_compute; done).
    rewrite (Hl AuthenticationPropertySchemeBasicUserName (VString username) eq_refl).
    done.
Qed.

Lemma kerberos_builds serviceName :
  built_with (KerberosAuthentication serviceName).
Proof using Ho Hh Hv.
  unfold built_with. set (s := KerberosAuthentication serviceName).
  destruct (build_with_strategy defaults order s m AuthenticationSchemeKerberos Ho Hh Hv) as (_ & _ & _ & ->).
  { unfold s, KerberosAuthentication. rewrite lookup_set_string, decide_False; [done|]. by intros [??]. }
  by split_and!.
Qed.

Lemma oauth_builds a i iss :
  built_with (OAuth2Authentication a i iss) ↔
  a ≠ "" ∨ i ≠ "" ∨ is_Some (m !! AuthenticationPropertySchemeOAuth2AccessToken) ∨
  is_Some (m !! AuthenticationPropertySchemeOAuth2OIDCIDToken).
Proof using Ho Hh Hv.
  unfold built_with. set (s := OAuth2Authentication a i iss).
  destruct (build_with_strategy defaults order s m AuthenticationSchemeOAuth2 Ho Hh Hv) as (_ & Hk & _ & ->).
  { unfold s, OAuth2Authentication. rewrite !lookup_set_string, !decide_False by by intros [??]. done. }
  transitivity (is_Some (s !! AuthenticationPropertySchemeOAuth2AccessToken) ∨
                is_Some (s !! AuthenticationPropertySchemeOAuth2OIDCIDToken) ∨
                is_Some (m !! AuthenticationPropertySchemeOAuth2AccessToken) ∨
                is_Some (m !! AuthenticationPropertySchemeOAuth2OIDCIDToken)).
  { unfold scheme_requirement. rewrite !Hk. split; [intros (_ & _ & H); specialize (H eq_refl); tauto|].
    intros H. split_and!; [done..|]. intros _. tauto. }
  unfold s, OAuth2Authentication. rewrite !lookup_set_string.
  repeat first [rewrite (decide_False (P := _ = AuthenticationPropertySchemeOAuth2AccessToken ∧ _)) by by intros [??]
               |rewrite (decide_False (P := _ = AuthenticationPropertySchemeOAuth2OIDCIDToken ∧ _)) by by intros [??]].
  rewrite !lookup_insert_ne by done. rewrite !lookup_empty.
  repeat case_decide; unfold is_Some; naive_solver.
Qed.

Lemma certificate_builds c k pw :
  built_with (ClientCertificateAuthentication c k pw) ↔
  k ≠ "" ∨ is_Some (m !! AuthenticationPropertySchemeSSLClientPrivateKeyFile).
Proof using Ho Hh Hv.
  unfold built_with. set (s := ClientCertificateAuthentication c k pw).
  destruct (build_with_strategy defaults order s m AuthenticationSchemeClientCertificate Ho Hh Hv) as (_ & Hk & _ & ->).
  { unfold s, ClientCertificateAuthentication. rewrite !lookup_set_string, !decide_False by by intros [??]. done. }
  transitivity (is_Some (s !! AuthenticationPropertySchemeSSLClientPrivateKeyFile) ∨
                is_Some (m !! AuthenticationPropertySchemeSSLClientPrivateKeyFile)).
  { unfold scheme_requirement. rewrite !Hk. split; [intros (_ & H & _); by apply H|].
    intros H. split_and!; [done| |done]. intros _. split; [left|done].
    unfold s, ClientCertificateAuthentication. rewrite !lookup_set_string, !decide_False by by intros [??].
    by eexists. }
  unfold s, ClientCertificateAuthentication. rewrite lookup_set_string, decide_False by by intros [??].
  rewrite lookup_set_string. rewrite !lookup_insert_ne by done. rewrite !lookup_empty.
  repeat case_decide; unfold is_Some; naive_solver.
Qed.

End strategies.

End service_builder.

(** * Examples *)

#[export] Instance example_fmt : GoFmt := {| sprint_float64 _ := "0"; sprint_duration _ := "0s" |}.

Definition example_configuration : ServicePropertyMap :=
  {[ TransportLayerPropertyHost := VString "tcp://localhost:55555";
     ServicePropertyVPNName := VString "default";
     AuthenticationPropertySchemeBasicUserName := VString "user";
     AuthenticationPropertySchemeBasicPassword := VString "secret";
     TransportLayerPropertyReconnectionAttempts := VInt 7;
     TransportLayerPropertyKeepAliveInterval := VDuration 3000000000;
     TransportLayerPropertySocketOutputBufferSize := VInt 2048 ]}.
Definition in_order {V} (m : gmap string V) : list (string * V) := map_to_list m.
Definition example_properties : list string :=
  toPropertyList (in_order DefaultCcsmpProperties) in_order example_configuration.

(** The size of the output buffer goes to the receive buffer of the session. *)
Lemma session_properties_witness :
  effective example_properties SolClientSessionPropUsername = Some "user" ∧
  effective example_properties SolClientSessionPropReconnectRetries = Some "7" ∧
  effective example_properties SolClientSessionPropKeepAliveIntMs = Some "3000" ∧
  effective example_properties SolClientSessionPropSocketRcvBufSize = Some "2048" ∧
  effective example_properties SolClientSessionPropSocketSendBufSize = None.
Proof.
  destruct (session_properties in_order (in_order DefaultCcsmpProperties) example_configuration
    "tcp://localhost:55555" example_properties ltac:(reflexivity) ltac:(reflexivity) ltac:(vm_compute; reflexivity))
    as (Hin & Hu & _ & _).
  split_and!.
  - rewrite Hu. vm_compute. reflexivity.
  - rewrite (Hin TransportLayerPropertyReconnectionAttempts _ defaultConverter)
      by (apply (list_elem_of_lookup_2 _ 22); reflexivity).
    vm_compute. reflexivity.
  - rewrite (Hin TransportLayerPropertyKeepAliveInterval _ durationConverter)
      by (apply (list_elem_of_lookup_2 _ 24); reflexivity).
    vm_compute. reflexivity.
  - rewrite (Hin TransportLayerPropertySocketOutputBufferSize _ defaultConverter)
      by (apply (list_elem_of_lookup_2 _ 26); reflexivity).
    vm_compute. reflexivity.
  - rewrite (Hin TransportLayerPropertySocketInputBufferSize _ defaultConverter)
      by (apply (list_elem_of_lookup_2 _ 27); reflexivity).
    vm_compute. reflexivity.
Defined.

