(* ===== verification/MessagingService.v ===== *)
(** The messaging service: internal/impl/messaging_service_impl.go.

    Connecting, disconnecting, the end of the session and the listeners are programs of atomic
    actions over one shared state.  The transport (core/transport.go) is what its client sees of it:
    what its [Connect] and [Disconnect] answer is read from a list, which every theorem leaves
    arbitrary; an empty list answers success.  The executor takes tasks in their order until it
    is closed (Executor).  A [go] statement leaves its goroutine in a list, from which any worker
    takes it.  [acted], [connected] and [interrupted] record what happened and are read by no
    program. *)

From Stdlib Require Import ZArith Lia.
From stdpp Require Import base list gmap relations strings.
From S2P Require Import Prelude GoStrconv GoEffects GoConc Errors Lifecycle ServiceBuilder.

Inductive messagingServiceState : Type :=
| NotConnected | Connecting | Connected | Disconnecting | Disconnected.
#[export] Instance messagingServiceState_eq_dec : EqDecision messagingServiceState.
Proof. solve_decision. Defined.

Definition messagingServiceStateName (st : messagingServiceState) : string :=
  match st with
  | NotConnected => "Not Connected"
  | Connecting => "Connecting"
  | Connected => "Connected"
  | Disconnecting => "Disconnecting"
  | Disconnected => "Disconnected"
  end.

Inductive messagingServiceSubState : Type := SubStateUp | SubStateReconnecting | SubStateReconnected | SubStateDown.
#[export] Instance messagingServiceSubState_eq_dec : EqDecision messagingServiceSubState.
Proof. solve_decision. Defined.

Definition UnableToConnectAlreadyDisconnectedService (st : messagingServiceState) : go_error :=
  NewError IllegalStateError ("unable to connect messaging service in state " +:+ messagingServiceStateName st) None.
Definition UnableToDisconnectUnstartedService (st : messagingServiceState) : go_error :=
  NewError IllegalStateError ("unable to disconnect messaging service in state " +:+ messagingServiceStateName st) None.
Definition UnableToModifyPropertyOfDisconnectedService : go_error :=
  NewError IllegalStateError "unable to modify a property of a service that is disconnected" None.
Definition UnableToModifyNonModifiableGivenServiceProperty (property : string) : go_error :=
  NewError IllegalArgumentError ("unable to modify the non-modifiable given service property: " +:+ property) None.

Definition modifiableProperties : list string :=
  [AuthenticationPropertySchemeOAuth2AccessToken; AuthenticationPropertySchemeOAuth2OIDCIDToken].

(** The three kinds of events of the session that the service listens to, and something for each. *)
Inductive event_kind : Type := Down | Reconnect | ReconnectAttempt.
#[export] Instance event_kind_eq_dec : EqDecision event_kind.
Proof. solve_decision. Defined.

Record kinds (A : Type) : Type := mkKinds { for_down : A; for_reconnect : A; for_attempt : A }.
Arguments mkKinds {A} _ _ _.
Arguments for_down {A} _.
Arguments for_reconnect {A} _.
Arguments for_attempt {A} _.
Definition of_kind {A} (k : event_kind) (x : kinds A) : A :=
  match k with Down => for_down x | Reconnect => for_reconnect x | ReconnectAttempt => for_attempt x end.
Definition put_kind {A} (k : event_kind) (a : A) (x : kinds A) : kinds A :=
  match k with
  | Down => mkKinds a (for_reconnect x) (for_attempt x)
  | Reconnect => mkKinds (for_down x) a (for_attempt x)
  | ReconnectAttempt => mkKinds (for_down x) (for_reconnect x) a
  end.

(** What happens once in the life of a service, the last two being the ways in which its end begins. *)
Inductive once : Type :=
| TransportConnect | StoreConnected | CompleteConnect
| TransportDisconnect | TransportClose | ExecutorTerminate | StoreDisconnected | CompleteDisconnect
| NotifyInterruption
| BeginDisconnect | BeginDown.
#[export] Instance once_eq_dec : EqDecision once.
Proof. solve_decision. Defined.

Section messaging_service.
(** Listeners of the application, the events of the session, and the printing of properties. *)
Context {L E : Type} {go_fmt : GoFmt}.

(** The listeners of a kind, with their mutex. *)
Record registry : Type := mkRegistry {
  handlerID : Z;
  handlers : gmap Z L;
  mutex : bool;
}.

Inductive goroutine : Type :=
| GoConnect
| GoDisconnect
| GoClose
| GoNotify (event : E).

Record service : Type := mkService {
  state : messagingServiceState;
  activeSubState : messagingServiceSubState;
  connectFuture : futureError;
  disconnectFuture : futureError;
  registered : kinds bool;
  listeners : kinds registry;
  executorRunning : bool;
  executorClosed : bool;
  submitted : list (L * E);
  answers : list (option go_error);
  goroutines : list goroutine;
  session_properties : list (list string);
  acted : list once;
  connected : option (option go_error);
  interrupted : list (L * E);
}.

Definition set_state (v : messagingServiceState) (s : service) : service :=
  mkService
    v (activeSubState s) (connectFuture s) (disconnectFuture s) (registered s) (listeners s)
    (executorRunning s) (executorClosed s) (submitted s) (answers s) (goroutines s)
    (session_properties s) (acted s) (connected s) (interrupted s).

Definition set_activeSubState (v : messagingServiceSubState) (s : service) : service :=
  mkService
    (state s) v (connectFuture s) (disconnectFuture s) (registered s) (listeners s)
    (executorRunning s) (executorClosed s) (submitted s) (answers s) (goroutines s)
    (session_properties s) (acted s) (connected s) (interrupted s).

Definition set_connectFuture (v : futureError) (s : service) : service :=
  mkService
    (state s) (activeSubState s) v (disconnectFuture s) (registered s) (listeners s)
    (executorRunning s) (executorClosed s) (submitted s) (answers s) (goroutines s)
    (session_properties s) (acted s) (connected s) (interrupted s).

Definition set_disconnectFuture (v : futureError) (s : service) : service :=
  mkService
    (state s) (activeSubState s) (connectFuture s) v (registered s) (listeners s)
    (executorRunning s) (executorClosed s) (submitted s) (answers s) (goroutines s)
    (session_properties s) (acted s) (connected s) (interrupted s).

Definition set_registered (v : kinds bool) (s : service) : service :=
  mkService
    (state s) (activeSubState s) (connectFuture s) (disconnectFuture s) v (listeners s)
    (executorRunning s) (executorClosed s) (submitted s) (answers s) (goroutines s)
    (session_properties s) (acted s) (connected s) (interrupted s).

Definition set_listeners (v : kinds registry) (s : service) : service :=
  mkService
    (state s) (activeSubState s) (connectFuture s) (disconnectFuture s) (registered s) v
    (executorRunning s) (executorClosed s) (submitted s) (answers s) (goroutines s)
    (session_properties s) (acted s) (connected s) (interrupted s).

Definition set_executorRunning (v : bool) (s : service) : service :=
  mkService
    (state s) (activeSubState s) (connectFuture s) (disconnectFuture s) (registered s)
    (listeners s) v (executorClosed s) (submitted s) (answers s) (goroutines s)
    (session_properties s) (acted s) (connected s) (interrupted s).

Definition set_executorClosed (v : bool) (s : service) : service :=
  mkService
    (state s) (activeSubState s) (connectFuture s) (disconnectFuture s) (registered s)
    (listeners s) (executorRunning s) v (submitted s) (answers s) (goroutines s)
    (session_properties s) (acted s) (connected s) (interrupted s).

Definition set_submitted (v : list (L * E)) (s : service) : service :=
  mkService
    (state s) (activeSubState s) (connectFuture s) (disconnectFuture s) (registered s)
    (listeners s) (executorRunning s) (executorClosed s) v (answers s) (goroutines s)
    (session_properties s) (acted s) (connected s) (interrupted s).

Definition set_answers (v : list (option go_error)) (s : service) : service :=
  mkService
    (state s) (activeSubState s) (connectFuture s) (disconnectFuture s) (registered s)
    (listeners s) (executorRunning s) (executorClosed s) (submitted s) v (goroutines s)
    (session_properties s) (acted s) (connected s) (interrupted s).

Definition set_goroutines (v : list goroutine) (s : service) : service :=
  mkService
    (state s) (activeSubState s) (connectFuture s) (disconnectFuture s) (registered s)
    (listeners s) (executorRunning s) (executorClosed s) (submitted s) (answers s) v
    (session_properties s) (acted s) (connected s) (interrupted s).

Definition set_session_properties (v : list (list string)) (s : service) : service :=
  mkService
    (state s) (activeSubState s) (connectFuture s) (disconnectFuture s) (registered s)
    (listeners s) (executorRunning s) (executorClosed s) (submitted s) (answers s)
    (goroutines s) v (acted s) (connected s) (interrupted s).

Definition set_acted (v : list once) (s : service) : service :=
  mkService
    (state s) (activeSubState s) (connectFuture s) (disconnectFuture s) (registered s)
    (listeners s) (executorRunning s) (executorClosed s) (submitted s) (answers s)
    (goroutines s) (session_properties s) v (connected s) (interrupted s).

Definition set_connected (v : option (option go_error)) (s : service) : service :=
  mkService
    (state s) (activeSubState s) (connectFuture s) (disconnectFuture s) (registered s)
    (listeners s) (executorRunning s) (executorClosed s) (submitted s) (answers s)
    (goroutines s) (session_properties s) (acted s) v (interrupted s).

Definition set_interrupted (v : list (L * E)) (s : service) : service :=
  mkService
    (state s) (activeSubState s) (connectFuture s) (disconnectFuture s) (registered s)
    (listeners s) (executorRunning s) (executorClosed s) (submitted s) (answers s)
    (goroutines s) (session_properties s) (acted s) (connected s) v.

Definition newMessagingServiceImpl (answers : list (option go_error)) : service :=
  let r := mkRegistry 0 ∅ false in
  mkService NotConnected SubStateUp NewFutureError NewFutureError (mkKinds false false false)
    (mkKinds r r r) false false [] answers [] [] [] None [].

Abbreviation sp A := (prog service A).

Definition act_once (x : once) (s : service) : service := set_acted (acted s ++ [x]) s.

Definition getState : sp messagingServiceState := load state.
Definition getSubState : sp messagingServiceSubState := load activeSubState.
Definition go (g : goroutine) : sp unit := update (λ s, set_goroutines (goroutines s ++ [g]) s).

(** ** The transport *)

(** The next answer. *)
Definition next_answer (s : service) : option go_error * list (option go_error) :=
  match answers s with [] => (None, []) | a :: l => (a, l) end.

Definition transport_Connect : sp (option go_error) :=
  action (λ s, let (a, l) := next_answer s in
    AOk a (act_once TransportConnect (set_connected (Some a) (set_answers l s)))).
Definition transport_Disconnect : sp (option go_error) :=
  action (λ s, let (a, l) := next_answer s in AOk a (act_once TransportDisconnect (set_answers l s))).
Definition transport_Close : sp unit := update (act_once TransportClose).
Definition ModifySessionProperties (propertyList : list string) : sp (option go_error) :=
  action (λ s, let (a, l) := next_answer s in
    AOk a (set_session_properties (session_properties s ++ [propertyList]) (set_answers l s))).

Definition AddEventHandler (k : event_kind) : sp unit :=
  update (λ s, set_registered (put_kind k true (registered s)) s).
Definition RemoveEventHandler (k : event_kind) : sp unit :=
  update (λ s, set_registered (put_kind k false (registered s)) s).

(** ** The executor *)

Definition executor_Run : sp unit := store set_executorRunning true.
Definition executor_Terminate : sp unit := update (λ s, act_once ExecutorTerminate (set_executorClosed true s)).
Definition executor_Submit (task : L * E) : sp bool :=
  action (λ s, if executorClosed s then AOk false s
               else AOk true (set_submitted (submitted s ++ [task]) s)).

(** ** Listeners *)

Definition registry_of (k : event_kind) (s : service) : registry := of_kind k (listeners s).
Definition put_registry (k : event_kind) (r : registry) (s : service) : service :=
  set_listeners (put_kind k r (listeners s)) s.

Definition mutex_Lock (k : event_kind) : sp unit :=
  action (λ s, let r := registry_of k s in
    if mutex r then ABlock else AOk tt (put_registry k (mkRegistry (handlerID r) (handlers r) true) s)).
Definition mutex_Unlock (k : event_kind) : sp unit :=
  action (λ s, let r := registry_of k s in
    if mutex r then AOk tt (put_registry k (mkRegistry (handlerID r) (handlers r) false) s)
    else APanic UnlockOfUnlocked).
Definition change_handlers (k : event_kind) (f : gmap Z L → gmap Z L) : sp unit :=
  update (λ s, let r := registry_of k s in
    put_registry k (mkRegistry (handlerID r) (f (handlers r)) (mutex r)) s).

Definition AddListener (k : event_kind) (listener : L) : sp Z :=
  let! id := action (λ s, let r := registry_of k s in let id := wrapU 64 (handlerID r + 1)%Z in
    AOk id (put_registry k (mkRegistry id (handlers r) (mutex r)) s)) in
  mutex_Lock k ;;;; change_handlers k (<[id := listener]>) ;;;; mutex_Unlock k ;;;; PRet id.
Definition RemoveListener (k : event_kind) (listener : Z) : sp unit :=
  mutex_Lock k ;;;; change_handlers k (delete listener) ;;;; mutex_Unlock k.

Definition AddReconnectionListener : L → sp Z := AddListener Reconnect.
Definition RemoveReconnectionListener : Z → sp unit := RemoveListener Reconnect.
Definition AddReconnectionAttemptListener : L → sp Z := AddListener ReconnectAttempt.
Definition RemoveReconnectionAttemptListener : Z → sp unit := RemoveListener ReconnectAttempt.
Definition AddServiceInterruptionListener : L → sp Z := AddListener Down.
Definition RemoveServiceInterruptionListener : Z → sp unit := RemoveListener Down.

Definition clear_listeners (k : event_kind) : sp unit :=
  mutex_Lock k ;;;; change_handlers k (λ _, ∅) ;;;; mutex_Unlock k.
Definition cleanupListeners : sp unit :=
  clear_listeners Down ;;;; clear_listeners Reconnect ;;;; clear_listeners ReconnectAttempt.

Definition unregisterEventHandlers : sp unit :=
  RemoveEventHandler Down ;;;; RemoveEventHandler Reconnect ;;;; RemoveEventHandler ReconnectAttempt.

(** The listeners of a kind in an order [order] of their map. *)
Context (order : gmap Z L → list (Z * L)).

Fixpoint call_listeners (hs : list (Z * L)) (event : E) : sp unit :=
  match hs with
  | [] => PRet tt
  | (_, h) :: hs =>
      update (λ s, set_interrupted (interrupted s ++ [(h, event)]) s) ;;;; call_listeners hs event
  end.
Definition notifyInterruptionListeners (event : E) : sp unit :=
  mutex_Lock Down ;;;;
  let! hs := load (λ s, order (handlers (registry_of Down s))) in
  call_listeners hs event ;;;;
  mutex_Unlock Down ;;;;
  cleanupListeners.

Fixpoint submit_listeners (hs : list (Z * L)) (event : E) : sp unit :=
  match hs with
  | [] => PRet tt
  | (_, h) :: hs => executor_Submit (h, event) ;;;; submit_listeners hs event
  end.
(** [reconnectEventHandler] and [reconnectAttempEventHandler]. *)
Definition reconnection_handler (k : event_kind) (event : E) : sp unit :=
  mutex_Lock k ;;;;
  let! hs := load (λ s, order (handlers (registry_of k s))) in
  submit_listeners hs event ;;;;
  mutex_Unlock k.
Definition reconnectEventHandler : E → sp unit := reconnection_handler Reconnect.
Definition reconnectAttempEventHandler : E → sp unit := reconnection_handler ReconnectAttempt.

(** ** Connecting and disconnecting *)

Definition complete_connect (err : option go_error) : sp unit :=
  update (λ s, act_once CompleteConnect (set_connectFuture (mkFuture true err) s)).
Definition complete_disconnect (err : option go_error) : sp unit :=
  update (λ s, act_once CompleteDisconnect (set_disconnectFuture (mkFuture true err) s)).
Definition store_connected : sp unit := update (λ s, act_once StoreConnected (set_state Connected s)).
Definition store_disconnected : sp unit := update (λ s, act_once StoreDisconnected (set_state Disconnected s)).

Definition Connect : sp (option go_error) :=
  let! proceed := compare_and_swap state set_state NotConnected Connecting in
  if negb proceed then
    let! currentState := getState in
    if decide (currentState ≠ Disconnecting ∧ currentState ≠ Disconnected)
    then Get connectFuture
    else let! st := load state in PRet (Some (UnableToConnectAlreadyDisconnectedService st))
  else
    let! err := transport_Connect in
    match err with
    | Some _ =>
        store set_activeSubState SubStateDown ;;;;
        store_connected ;;;;
        complete_connect err ;;;;
        PRet err
    | None =>
        executor_Run ;;;;
        AddEventHandler Down ;;;; AddEventHandler Reconnect ;;;; AddEventHandler ReconnectAttempt ;;;;
        store_connected ;;;;
        complete_connect None ;;;;
        PRet None
    end.

Definition Disconnect : sp (option go_error) :=
  let! proceed := action (λ s,
    if decide (state s = Connected) then AOk true (act_once BeginDisconnect (set_state Disconnecting s))
    else AOk false s) in
  if negb proceed then
    let! currentState := getState in
    if decide (currentState ≠ NotConnected ∧ currentState ≠ Connecting)
    then Get disconnectFuture
    else let! st := load state in PRet (Some (UnableToDisconnectUnstartedService st))
  else
    unregisterEventHandlers ;;;;
    cleanupListeners ;;;;
    let! err := transport_Disconnect in
    transport_Close ;;;;
    executor_Terminate ;;;;
    store_disconnected ;;;;
    complete_disconnect err ;;;;
    PRet err.

Definition downEventHandler (event : E) : sp unit :=
  let! proceed := action (λ s,
    if decide (state s = Connected)
    then AOk true (act_once BeginDown (act_once StoreDisconnected (set_state Disconnected s)))
    else AOk false s) in
  if negb proceed then PRet tt
  else
    store set_activeSubState SubStateDown ;;;;
    executor_Terminate ;;;;
    go GoClose ;;;;
    go (GoNotify event).

(** The goroutine that closes the transport after the session went down. *)
Definition close_down : sp unit :=
  unregisterEventHandlers ;;;;
  transport_Close ;;;;
  complete_disconnect None.

(** [None]: the result is for nobody. *)
Definition goroutine_prog (g : goroutine) : sp (option go_error) :=
  match g with
  | GoConnect => Connect
  | GoDisconnect => Disconnect
  | GoClose => close_down ;;;; PRet None
  | GoNotify event => update (act_once NotifyInterruption) ;;;; notifyInterruptionListeners event ;;;; PRet None
  end.
Definition worker (i : nat) : sp (option go_error) :=
  let! g := action (λ s, match goroutines s !! i with
                         | Some g => AOk g (set_goroutines (delete i (goroutines s)) s)
                         | None => ABlock
                         end) in
  goroutine_prog g.

Definition ConnectAsync : sp unit := go GoConnect.
Definition ConnectAsyncWithCallback : sp unit := go GoConnect.
Definition DisconnectAsync : sp unit := go GoDisconnect.
Definition DisconnectAsyncWithCallback : sp unit := go GoDisconnect.

Definition IsConnected : sp bool :=
  let! st := getState in
  if decide (st = Connected) then let! sub := getSubState in PRet (bool_decide (sub = SubStateUp))
  else PRet false.

Definition UpdateProperty (property : string) (v : value) : sp (option go_error) :=
  let! st := getState in
  if decide (¬ (st = Connected ∨ st = NotConnected ∨ st = Connecting))
  then PRet (Some UnableToModifyPropertyOfDisconnectedService)
  else if negb (bool_decide (property ∈ modifiableProperties))
  then PRet (Some (UnableToModifyNonModifiableGivenServiceProperty property))
  else
    let ccsmpProperty := default (mkProperty "" defaultConverter) (servicePropertyToCCSMPMap !! property) in
    ModifySessionProperties [solClientPropertyName ccsmpProperty; converter ccsmpProperty v].

(** An event of the session reaches the service while its handler is registered. *)
Definition session_event (k : event_kind) (event : E) : sp unit :=
  let! registered := load (λ s, of_kind k (registered s)) in
  if negb registered then PRet tt
  else match k with
       | Down => downEventHandler event
       | Reconnect => reconnectEventHandler event
       | ReconnectAttempt => reconnectAttempEventHandler event
       end.

(** * Any number of goroutines *)

Inductive call : Type :=
| CallConnect | CallConnectAsync | CallDisconnect | CallDisconnectAsync
| CallIsConnected
| CallAddListener (k : event_kind) (listener : L)
| CallRemoveListener (k : event_kind) (listener : Z)
| CallUpdateProperty (property : string) (v : value)
| SessionEvent (k : event_kind) (event : E)
| Worker (i : nat).

Inductive answer : Type := Finished | Returned (err : option go_error) | Answered (b : bool) | Registered (id : Z).

Definition call_prog (c : call) : sp answer :=
  match c with
  | CallConnect => let! err := Connect in PRet (Returned err)
  | CallConnectAsync => ConnectAsync ;;;; PRet Finished
  | CallDisconnect => let! err := Disconnect in PRet (Returned err)
  | CallDisconnectAsync => DisconnectAsync ;;;; PRet Finished
  | CallIsConnected => let! b := IsConnected in PRet (Answered b)
  | CallAddListener k listener => let! id := AddListener k listener in PRet (Registered id)
  | CallRemoveListener k listener => RemoveListener k listener ;;;; PRet Finished
  | CallUpdateProperty property v => let! err := UpdateProperty property v in PRet (Returned err)
  | SessionEvent k event => session_event k event ;;;; PRet Finished
  | Worker i => let! err := worker i in PRet (Returned err)
  end.
Definition scene (answers : list (option go_error)) (calls : list call) : service * list (sp answer) :=
  (newMessagingServiceImpl answers, call_prog <$> calls).

(** * The protocol *)

Definition service_move (a b : messagingServiceState) : Prop :=
  a = b ∨ (a = NotConnected ∧ b = Connecting) ∨ (a = Connecting ∧ b = Connected) ∨
  (a = Connected ∧ b = Disconnecting) ∨ (a = Connected ∧ b = Disconnected) ∨
  (a = Disconnecting ∧ b = Disconnected).

(** Whether the state is past the entry of the section that an action belongs to. *)
Definition opened (st : messagingServiceState) (x : once) : bool :=
  match x with
  | TransportConnect | StoreConnected | CompleteConnect =>
      match st with NotConnected => false | _ => true end
  | _ => match st with Disconnecting | Disconnected => true | _ => false end
  end.

(** The actions that goroutines will do once they are started. *)
Definition carried (g : goroutine) : list once :=
  match g with
  | GoClose => [TransportClose; CompleteDisconnect]
  | GoNotify _ => [NotifyInterruption]
  | _ => []
  end.
Definition pending (s : service) : list once := goroutines s ≫= carried.

(** Permits: to do an action that is done once, and to unlock a mutex. *)
Inductive permit : Type := Once (x : once) | Hold (k : event_kind).
#[local] Instance permit_eq_dec : EqDecision permit.
Proof using Type. solve_decision. Defined.

Definition held (s : service) (p : permit) : nat :=
  match p with
  | Once x => (if opened (state s) x && negb (bool_decide (x ∈ acted s)) then 0 else 1) + own (pending s) x
  | Hold k => if mutex (registry_of k s) then 0 else 1
  end.
Definition total (p : permit) : nat := 1.

Record inv (s : service) : Prop := mkInv {
  inv_once : NoDup (acted s);
  inv_opened : ∀ x, x ∈ acted s → opened (state s) x = true;
  inv_connecting : StoreConnected ∈ acted s ↔ state s ≠ NotConnected ∧ state s ≠ Connecting;
  inv_disconnected : StoreDisconnected ∈ acted s ↔ state s = Disconnected;
  inv_connect_future : resolved (connectFuture s) = true → connected s = Some (fresult (connectFuture s));
  inv_disconnect_future : resolved (disconnectFuture s) = true → TransportClose ∈ acted s;
  inv_connected : is_Some (connected s) → TransportConnect ∈ acted s;
  inv_executor : executorClosed s = true → ExecutorTerminate ∈ acted s;
  inv_interrupted : interrupted s ≠ [] → NotifyInterruption ∈ acted s;
  inv_notify : NotifyInterruption ∈ acted s ++ pending s → BeginDown ∈ acted s;
  inv_transport : TransportDisconnect ∈ acted s → BeginDisconnect ∈ acted s;
  inv_begin : BeginDown ∈ acted s → BeginDisconnect ∉ acted s;
}.

Record move (s s' : service) : Prop := mkMove {
  move_state : service_move (state s) (state s');
  move_acted : ∀ x, x ∈ acted s → x ∈ acted s';
  move_connected : ∀ r, connected s = Some r → connected s' = Some r;
}.

Abbreviation kr K l p Q := (kproto inv move held total K (own l) p Q).
Abbreviation sstable := (stable inv move).

(** What a goroutine knows to have happened. *)
Definition done_ (x : once) (s : service) : Prop := x ∈ acted s.
Lemma stable_done x : sstable (done_ x).
Proof using Type. intros s s' _ Hm. apply (move_acted _ _ Hm). Qed.
Lemma stable_connected r : sstable (λ s, connected s = Some r).
Proof using Type. intros s s' _ Hm. apply (move_connected _ _ Hm). Qed.

(** The part of the state that the invariant looks at. *)
Definition core (s : service) :=
  (state s, acted s, (connectFuture s, disconnectFuture s, connected s, executorClosed s),
   interrupted s, goroutines s).

Lemma inv_core s s' : core s' = core s → inv s → inv s'.
Proof using Type.
  intros Hc Hs. unfold core in Hc. injection Hc as H1 H2 H3 H4 H5 H6 H7 H8.
  destruct Hs. split; unfold pending in *; rewrite ?H1, ?H2, ?H3, ?H4, ?H5, ?H6, ?H7, ?H8 in *; assumption.
Qed.

Lemma move_core s s' : core s' = core s → move s s'.
Proof using Type.
  intros Hc. unfold core in Hc. injection Hc as H1 H2 H3 H4 H5 H6 H7 H8.
  split; rewrite ?H1, ?H2, ?H5; [by left|done|done].
Qed.

Lemma held_core s s' : core s' = core s → (∀ k, mutex (registry_of k s') = mutex (registry_of k s)) →
  ∀ p, held s' p = held s p.
Proof using Type.
  intros Hc Hm [x|k]; simpl; [|by rewrite Hm].
  unfold core in Hc. injection Hc as H1 H2 H3 H4 H5 H6 H7 H8. unfold pending. by rewrite H1, H2, H8.
Qed.

(** ** Actions *)

Lemma ms_k_act {V B} (f : service → act service V) K l (k : V → sp B) Q :
  (∀ s, inv s → fits held total s (own l) → K s →
    match f s with
    | AOk v s' => inv s' ∧ move s s' ∧ ∃ l' K',
        conserves held s (own l) s' (own l') ∧ K' s' ∧ sstable K' ∧ kr K' l' (k v) Q
    | ABlock => True
    | APanic _ => False
    end) → kr K l (PAct f k) Q.
Proof using Type.
  intros Hk s Hs Hf HK. specialize (Hk s Hs Hf HK). destruct (f s); [|done..].
  destruct Hk as (? & ? & l' & K' & ? & ? & ? & ?). split_and!; [done..|]. by exists (own l'), K'.
Qed.

(** An action outside of the core. *)
Lemma k_frame {V B} (f : service → act service V) K l (k : V → sp B) Q :
  sstable K →
  (∀ s, match f s with
        | AOk v s' => core s' = core s ∧ (∀ k, mutex (registry_of k s') = mutex (registry_of k s))
        | ABlock => True
        | APanic _ => False
        end) →
  (∀ v, kr K l (k v) Q) → kr K l (PAct f k) Q.
Proof using Type.
  intros Hst Hf Hk. apply ms_k_act. intros s Hs _ HK. specialize (Hf s).
  destruct (f s) as [v s'| |]; [|done..]. destruct Hf as [Hc Hm].
  split; [by apply (inv_core s)|]. split; [by apply (move_core s)|]. exists l, K. split_and!; [|by apply (Hst s); [|apply move_core|]|done|done].
  intros p. rewrite (held_core _ _ Hc Hm). lia.
Qed.

(** A permit says that its action is not done. *)
Lemma ms_fits_tail s p l : fits held total s (own (p :: l)) → fits held total s (own l).
Proof using Type. intros Hf q. specialize (Hf q). simpl in Hf. case_decide; lia. Qed.
Lemma fits_undone s x l : fits held total s (own (Once x :: l)) →
  opened (state s) x = true ∧ x ∉ acted s.
Proof using Type.
  intros Hf. specialize (Hf (Once x)). unfold total in Hf. simpl in Hf. rewrite decide_True in Hf by done.
  destruct (opened (state s) x), (bool_decide_reflect (x ∈ acted s)); simpl in Hf; try lia. done.
Qed.
Lemma fits_hold s k l : fits held total s (own (Hold k :: l)) → mutex (registry_of k s) = true.
Proof using Type.
  intros Hf. specialize (Hf (Hold k)). unfold total in Hf. simpl in Hf. rewrite decide_True in Hf by done.
  destruct (mutex _); [done|lia].
Qed.

Lemma elem_snoc {A} (x y : A) l : y ∈ l ++ [x] ↔ y ∈ l ∨ y = x.
Proof using Type. by rewrite elem_of_app, list_elem_of_singleton. Qed.

Lemma NoDup_snoc {A} (x : A) l : NoDup l → x ∉ l → NoDup (l ++ [x]).
Proof using Type.
  intros Hl Hx. apply NoDup_app. split_and!; [done| |apply NoDup_singleton].
  intros y Hy Hy'. apply list_elem_of_singleton in Hy'. by subst.
Qed.

(** Doing an action uses its permit. *)
Lemma conserves_once x s g l : (∀ y, opened (state (g s)) y = opened (state s) y) → acted (g s) = acted s →
  goroutines (g s) = goroutines s → (∀ k, mutex (registry_of k (g s)) = mutex (registry_of k s)) →
  conserves held s (own (Once x :: l)) (act_once x (g s)) (own l).
Proof using Type.
  intros Ho Ha Hg Hm [y|k]; simpl.
  - unfold pending. simpl. rewrite Hg, Ho, Ha.
    destruct (decide (x = y)) as [->|Hxy].
    + rewrite (decide_True (P := Once y = Once y)) by done.
      rewrite (bool_decide_true (y ∈ acted s ++ [y])) by set_solver. rewrite andb_false_r.
      destruct (opened _ y && _); lia.
    + rewrite (decide_False (P := Once y = Once x)) by congruence.
      rewrite (bool_decide_ext (y ∈ acted s ++ [x]) (y ∈ acted s)) by set_solver. lia.
  - change (mutex (registry_of k (act_once x (g s)))) with (mutex (registry_of k (g s))).
    rewrite Hm. lia.
Qed.

Lemma k_once {V B} x (v : service → V) (g : service → service) (K' : V → service → Prop) f K l (k : V → sp B) Q :
  (∀ s, f s = AOk (v s) (act_once x (g s))) → sstable K → (∀ v, sstable (K' v)) →
  (∀ s, acted (g s) = acted s) → (∀ s, goroutines (g s) = goroutines s) →
  (∀ s k, mutex (registry_of k (g s)) = mutex (registry_of k s)) →
  (∀ s, inv s → K s → opened (state s) x = true → x ∉ acted s →
     (∀ y, opened (state (g s)) y = opened (state s) y) ∧
     inv (act_once x (g s)) ∧ move s (act_once x (g s)) ∧
     (K (act_once x (g s)) → done_ x (act_once x (g s)) → K' (v s) (act_once x (g s)))) →
  (∀ v, kr (K' v) l (k v) Q) →
  kr K (Once x :: l) (PAct f k) Q.
Proof using Type.
  intros Hfs HK HK' Ha Hg Hm Hi Hk. apply ms_k_act. intros s Hs Hf HKs. rewrite Hfs.
  destruct (fits_undone _ _ _ Hf) as [Ho Hx]. destruct (Hi s Hs HKs Ho Hx) as (Hop & Hi' & Hmv & HKs').
  split_and!; [done..|]. exists l, (K' (v s)).
  split; [by apply conserves_once|]. split; [|split; [done|apply Hk]].
  apply HKs'; [exact (HK s _ Hs Hmv HKs)|]. unfold done_, act_once. simpl. apply elem_snoc. by right.
Qed.

(** The mutexes. *)
Lemma registry_put k k' r s :
  registry_of k' (put_registry k r s) = if decide (k' = k) then r else registry_of k' s.
Proof using Type. by destruct k, k'. Qed.

Lemma conserves_mutex s k r l l' :
  (if mutex r then 0 else 1) + own l' (Hold k) ≤ held s (Hold k) + own l (Hold k) →
  (∀ p, p ≠ Hold k → own l' p = own l p) →
  conserves held s (own l) (put_registry k r s) (own l').
Proof using Type.
  intros Hk Hp p. destruct (decide (p = Hold k)) as [->|Hne].
  - simpl in *. rewrite registry_put, decide_True by done. done.
  - rewrite (Hp p Hne). destruct p as [x|k']; simpl; [done|].
    rewrite registry_put, decide_False by congruence. done.
Qed.

Lemma k_lock {B} k K l (c : unit → sp B) Q :
  sstable K → kr K (Hold k :: l) (c tt) Q → kr K l (pbind (mutex_Lock k) c) Q.
Proof using Type.
  intros HK Hc. apply ms_k_act. intros s Hs _ HKs. simpl.
  destruct (mutex (registry_of k s)) eqn:Hm; [done|].
  split; [by apply (inv_core s)|]. split; [by apply (move_core s)|]. exists (Hold k :: l), K.
  split_and!; [|by apply (HK s); [|apply move_core|]|done|done].
  apply (conserves_mutex s k _ l (Hold k :: l)); simpl; [rewrite Hm, decide_True by done; lia|].
  intros p Hp. by rewrite decide_False.
Qed.

Lemma k_unlock {B} k K l (c : unit → sp B) Q :
  sstable K → kr K l (c tt) Q → kr K (Hold k :: l) (pbind (mutex_Unlock k) c) Q.
Proof using Type.
  intros HK Hc. apply ms_k_act. intros s Hs Hf HKs. simpl. rewrite (fits_hold _ _ _ Hf).
  split; [by apply (inv_core s)|]. split; [by apply (move_core s)|]. exists l, K.
  split_and!; [|by apply (HK s); [|apply move_core|]|done|done].
  apply (conserves_mutex s k _ (Hold k :: l) l); simpl; [rewrite decide_True by done; lia|].
  intros p Hp. by rewrite decide_False.
Qed.

Lemma k_handlers {B} k f K l (c : unit → sp B) Q :
  sstable K → kr K l (c tt) Q → kr K l (pbind (change_handlers k f) c) Q.
Proof using Type.
  intros HK Hc. apply k_frame; [done| |by intros []]. intros s. split; [done|].
  intros k'. rewrite registry_put. by case_decide; subst.
Qed.

Lemma ms_k_load {V B} (view : service → V) K l (c : V → sp B) Q :
  sstable K → (∀ v, kr K l (c v) Q) → kr K l (pbind (load view) c) Q.
Proof using Type. intros HK Hc. by apply k_frame. Qed.

Lemma ms_k_update {B} (g : service → service) K l (c : unit → sp B) Q :
  sstable K → (∀ s, core (g s) = core s) → (∀ s k, mutex (registry_of k (g s)) = mutex (registry_of k s)) →
  kr K l (c tt) Q → kr K l (pbind (update g) c) Q.
Proof using Type. intros HK Hg Hm Hc. apply k_frame; [done|by split|by intros []]. Qed.

Lemma k_get {B} (view : service → futureError) K l (c : option go_error → sp B) Q :
  sstable K → (∀ v, kr K l (c v) Q) → kr K l (pbind (Get view) c) Q.
Proof using Type. intros HK Hc. apply k_frame; [done| |done]. intros s. by destruct (resolved (view s)). Qed.

(** ** The entry of the two sections *)

Definition grant (xs : list once) : list permit := Once <$> xs.

Lemma own_grant_once xs l x : NoDup xs →
  own (grant xs ++ l) (Once x) = (if decide (x ∈ xs) then 1 else 0) + own l (Once x).
Proof using Type.
  induction xs as [|y xs IH]; intros Hn; [by rewrite decide_False by set_solver|].
  apply NoDup_cons in Hn as [Hy Hn]. simpl. rewrite (IH Hn).
  destruct (decide (x = y)) as [->|Hxy].
  - rewrite decide_True by done. rewrite (decide_False (P := y ∈ xs)) by done.
    rewrite (decide_True (P := y ∈ y :: xs)) by set_solver. lia.
  - rewrite (decide_False (P := Once x = Once y)) by congruence.
    destruct (decide (x ∈ xs)); [rewrite decide_True by set_solver|rewrite decide_False by set_solver]; lia.
Qed.

Lemma own_grant_hold xs l k : own (grant xs ++ l) (Hold k) = own l (Hold k).
Proof using Type. induction xs as [|y xs IH]; simpl; [done|]. by rewrite IH. Qed.

(** An entry hands out permits of actions that become possible and are not done. *)
Lemma conserves_grant s s' xs l : NoDup xs →
  goroutines s' = goroutines s → (∀ k, mutex (registry_of k s') = mutex (registry_of k s)) →
  (∀ x, x ∈ xs → opened (state s) x = false) →
  (∀ x, opened (state s) x = true → opened (state s') x = true) →
  (∀ x, x ∈ acted s → x ∈ acted s') →
  (∀ x, x ∈ xs → opened (state s') x = true ∧ x ∉ acted s') →
  (∀ x, opened (state s) x = true → x ∉ acted s → x ∉ acted s') →
  conserves held s (own l) s' (own (grant xs ++ l)).
Proof using Type.
  intros Hn Hg Hm Hx Ho Ha Hx' Hna [x|k].
  2: { rewrite own_grant_hold. simpl. rewrite Hm. lia. }
  rewrite own_grant_once by done. simpl. unfold pending. rewrite Hg.
  destruct (decide (x ∈ xs)) as [Hin|Hin].
  - destruct (Hx' x Hin) as [-> Hna']. rewrite (Hx x Hin). rewrite (bool_decide_false _ Hna'). simpl. lia.
  - destruct (opened (state s) x) eqn:Hop; simpl.
    + rewrite (Ho x Hop). simpl. destruct (bool_decide_reflect (x ∈ acted s)) as [Hin'|Hnin]; simpl.
      * rewrite bool_decide_true by auto. done.
      * rewrite bool_decide_false by auto. done.
    + destruct (opened (state s') x && _); simpl; lia.
Qed.

Lemma k_begin_connect {B} K l (c : bool → sp B) Q : sstable K →
  kr K (grant [TransportConnect; StoreConnected; CompleteConnect] ++ l) (c true) Q →
  kr K l (c false) Q →
  kr K l (pbind (compare_and_swap state set_state NotConnected Connecting) c) Q.
Proof using Type.
  intros HK Ht Hf. apply ms_k_act. intros s Hs Hfit HKs. simpl. case_decide as Hst.
  - assert (∀ x, x ∈ acted s → False) as Hno.
    { intros x Hx. pose proof (inv_opened s Hs x Hx) as Ho. rewrite Hst in Ho. by destruct x. }
    assert (move s (set_state Connecting s)) as Hmv by (split; [right; left; by rewrite Hst|done|done]).
    assert (inv (set_state Connecting s)) as Hi.
    { destruct Hs. split; try assumption; simpl.
      - intros x Hx. by destruct (Hno x).
      - split; [intros Hx; by destruct (Hno _ Hx)|by intros [_ []]].
      - split; [intros Hx; by destruct (Hno _ Hx)|done]. }
    split_and!; [done|done|]. exists (grant [TransportConnect; StoreConnected; CompleteConnect] ++ l), K.
    split_and!; [|exact (HK s _ Hs Hmv HKs)|done|done].
    apply conserves_grant; simpl; [apply (bool_decide_unpack _); done|done|done| | |done| |done].
    + intros x Hx. rewrite Hst. set_unfold. by destruct Hx as [->|[->|[->|[]]]].
    + intros x. rewrite Hst. by destruct x.
    + intros x Hx. split; [set_unfold; by destruct Hx as [->|[->|[->|[]]]]|by intros ?%Hno].
  - split; [done|]. split; [by apply (move_core s)|]. exists l, K. split_and!; [by intros p|done..].
Qed.

(** What [Connected] excludes. *)
Lemma connected_unended s : inv s → state s = Connected → ∀ x, opened Disconnected x = true → opened Connected x = false → x ∉ acted s.
Proof using Type. intros Hs Hst x _ Hc Hx. apply (inv_opened s Hs) in Hx. rewrite Hst in Hx. congruence. Qed.

Definition ending (x : once) : bool := negb (opened Connected x).

Lemma conserves_end s s' new xs l : inv s → state s = Connected →
  state s' ∈ [Disconnecting; Disconnected] → acted s' = acted s ++ new →
  goroutines s' = goroutines s → (∀ k, mutex (registry_of k s') = mutex (registry_of k s)) →
  bool_decide (NoDup xs) && forallb ending (new ++ xs) && forallb (λ x, negb (bool_decide (x ∈ new))) xs = true →
  conserves held s (own l) s' (own (grant xs ++ l)).
Proof using Type.
  intros Hs Hst Hst' Ha Hg Hm [[Hn%bool_decide_eq_true He]%andb_true_iff Hd]%andb_true_iff.
  rewrite forallb_forall in He, Hd.
  assert (∀ x, x ∈ new ++ xs → opened Connected x = false ∧ x ∉ acted s) as Hend.
  { intros x Hx%list_elem_of_In%He%negb_true_iff. split; [done|].
    intros Hin. apply (inv_opened s Hs) in Hin. rewrite Hst in Hin. congruence. }
  assert (∀ x, opened (state s') x = true) as Ho.
  { intros x. apply elem_of_cons in Hst' as [->|Hst']; [|apply list_elem_of_singleton in Hst' as ->]; by destruct x. }
  apply conserves_grant; [done|done|done| | | | |].
  - intros x Hx. rewrite Hst. apply Hend. apply elem_of_app. by right.
  - intros x _. apply Ho.
  - intros x Hx. rewrite Ha. apply elem_of_app. by left.
  - intros x Hx. split; [apply Ho|]. rewrite Ha, elem_of_app. intros [Hin|Hin].
    + revert Hin. apply Hend, elem_of_app. by right.
    + apply list_elem_of_In, Hd, negb_true_iff, bool_decide_eq_false in Hx. done.
  - intros x Hx Hnin. rewrite Ha, elem_of_app. intros [Hin|Hin]; [done|].
    rewrite Hst in Hx. destruct (Hend x) as [Hc _]; [apply elem_of_app; by left|]. congruence.
Qed.

Lemma inv_begin_disconnect s : inv s → state s = Connected →
  inv (act_once BeginDisconnect (set_state Disconnecting s)).
Proof using Type.
  intros Hs Hst. pose proof (connected_unended s Hs Hst) as Hno.
  assert (BeginDisconnect ∉ acted s) as Hb1 by (by apply Hno).
  assert (BeginDown ∉ acted s) as Hb2 by (by apply Hno).
  assert (StoreDisconnected ∉ acted s) as Hb3 by (by apply Hno).
  clear Hno. destruct Hs as [I1 I2 I3 I4 I5 I6 I7 I8 I9 I10 I11 I12].
  split; unfold act_once, pending in *; simpl.
  - by apply NoDup_snoc.
  - intros x Hx. apply elem_snoc in Hx as [Hx|Hx]; [|by subst].
    apply I2 in Hx. rewrite Hst in Hx. by destruct x.
  - rewrite elem_snoc, I3, Hst. intuition congruence.
  - rewrite elem_snoc. intuition congruence.
  - done.
  - rewrite elem_snoc. auto.
  - rewrite elem_snoc. auto.
  - rewrite elem_snoc. auto.
  - rewrite elem_snoc. auto.
  - rewrite !elem_of_app in *. rewrite list_elem_of_singleton. intuition congruence.
  - rewrite !elem_snoc. intuition congruence.
  - rewrite !elem_snoc. intuition congruence.
Qed.
Lemma inv_begin_down s : inv s → state s = Connected →
  inv (act_once BeginDown (act_once StoreDisconnected (set_state Disconnected s))).
Proof using Type.
  intros Hs Hst. pose proof (connected_unended s Hs Hst) as Hno.
  assert (BeginDisconnect ∉ acted s) as Hb1 by (by apply Hno).
  assert (BeginDown ∉ acted s) as Hb2 by (by apply Hno).
  assert (StoreDisconnected ∉ acted s) as Hb3 by (by apply Hno).
  clear Hno. destruct Hs as [I1 I2 I3 I4 I5 I6 I7 I8 I9 I10 I11 I12].
  split; unfold act_once, pending in *; simpl.
  - apply NoDup_snoc; [by apply NoDup_snoc|]. rewrite elem_snoc. by intros [?|?].
  - intros x. rewrite !elem_snoc. intros [[Hx| ->]| ->]; [|done..].
    apply I2 in Hx. rewrite Hst in Hx. by destruct x.
  - rewrite !elem_snoc, I3, Hst. intuition congruence.
  - rewrite !elem_snoc. intuition congruence.
  - done.
  - rewrite !elem_snoc. auto.
  - rewrite !elem_snoc. auto.
  - rewrite !elem_snoc. auto.
  - rewrite !elem_snoc. auto.
  - rewrite !elem_of_app in *. rewrite !list_elem_of_singleton. intuition congruence.
  - rewrite !elem_snoc. intuition congruence.
  - rewrite !elem_snoc. intuition congruence.
Qed.

Lemma move_end s st new : inv s → state s = Connected → st ∈ [Disconnecting; Disconnected] →
  move s (set_acted (acted s ++ new) (set_state st s)).
Proof using Type.
  intros Hs Hst Hin. split; simpl; [|intros x Hx; apply elem_of_app; by left|done].
  unfold service_move. rewrite Hst. apply elem_of_cons in Hin as [->|Hin]; [|apply list_elem_of_singleton in Hin as ->]; auto 10.
Qed.

(** Either end begins with the permits of what it does. *)
Lemma k_begin_disconnect {B} K l (c : bool → sp B) Q : sstable K →
  kr (λ s, K s ∧ done_ BeginDisconnect s)
    (grant [TransportDisconnect; TransportClose; ExecutorTerminate; StoreDisconnected; CompleteDisconnect] ++ l)
    (c true) Q →
  kr K l (c false) Q →
  kr K l (pbind (action (λ s,
    if decide (state s = Connected) then AOk true (act_once BeginDisconnect (set_state Disconnecting s))
    else AOk false s)) c) Q.
Proof using Type.
  intros HK Ht Hf. apply ms_k_act. intros s Hs Hfit HKs. simpl. case_decide as Hst.
  - assert (move s (act_once BeginDisconnect (set_state Disconnecting s))) as Hmv
      by (apply (move_end s Disconnecting [BeginDisconnect]); [done|done|apply elem_of_cons; by left]).
    split; [by apply inv_begin_disconnect|]. split; [done|]. eexists _, _. split; [|split; [|split; [|exact Ht]]].
    + by apply (conserves_end _ _ [BeginDisconnect]); [| |apply elem_of_cons; left| | | |].
    + split; [exact (HK s _ Hs Hmv HKs)|]. apply elem_snoc. by right.
    + apply stable_and; [done|apply stable_done].
  - split; [done|]. split; [by apply (move_core s)|]. exists l, K. split_and!; [by intros p|done..].
Qed.

Lemma k_begin_down {B} K l (c : bool → sp B) Q : sstable K →
  kr (λ s, K s ∧ done_ BeginDown s)
    (grant [ExecutorTerminate; TransportClose; CompleteDisconnect; NotifyInterruption] ++ l)
    (c true) Q →
  kr K l (c false) Q →
  kr K l (pbind (action (λ s,
    if decide (state s = Connected)
    then AOk true (act_once BeginDown (act_once StoreDisconnected (set_state Disconnected s)))
    else AOk false s)) c) Q.
Proof using Type.
  intros HK Ht Hf. apply ms_k_act. intros s Hs Hfit HKs. simpl. case_decide as Hst.
  - assert (act_once BeginDown (act_once StoreDisconnected (set_state Disconnected s)) =
            set_acted (acted s ++ [StoreDisconnected; BeginDown]) (set_state Disconnected s)) as Heq.
    { unfold act_once. simpl. by rewrite <-app_assoc. }
    assert (move s (act_once BeginDown (act_once StoreDisconnected (set_state Disconnected s)))) as Hmv.
    { rewrite Heq. apply move_end; [done|done|]. apply elem_of_cons. right. by apply list_elem_of_singleton. }
    split; [by apply inv_begin_down|]. split; [done|]. eexists _, _. split; [|split; [|split; [|exact Ht]]].
    + rewrite Heq. apply (conserves_end _ _ [StoreDisconnected; BeginDown]); [done|done| |done..].
      apply elem_of_cons. right. by apply list_elem_of_singleton.
    + split; [exact (HK s _ Hs Hmv HKs)|]. apply elem_snoc. by right.
    + apply stable_and; [done|apply stable_done].
  - split; [done|]. split; [by apply (move_core s)|]. exists l, K. split_and!; [by intros p|done..].
Qed.
(** ** Each action that is done once *)

Ltac inv_act Hs :=
  destruct Hs; split; unfold act_once, pending in *; simpl in *;
  [ by apply NoDup_snoc
  | let y := fresh "y" in let Hy := fresh "Hy" in
    intros y Hy; apply elem_snoc in Hy as [Hy| ->]; auto
  | rewrite ?elem_of_app, ?list_elem_of_singleton in *; intuition congruence .. ].

Lemma move_act x s s' : state s' = state s → acted s' = acted s ++ [x] → connected s' = connected s → move s s'.
Proof using Type.
  intros H1 H2 H3. split; rewrite ?H1, ?H2, ?H3; [by left| |done].
  intros y Hy. apply elem_snoc. by left.
Qed.

Lemma k_transport_connect {B} K l (c : option go_error → sp B) Q : sstable K →
  (∀ err, kr (λ s, (K s ∧ done_ TransportConnect s) ∧ connected s = Some err) l (c err) Q) →
  kr K (Once TransportConnect :: l) (pbind transport_Connect c) Q.
Proof using Type.
  intros HK Hc.
  apply (k_once TransportConnect (λ s, (next_answer s).1)
    (λ s, set_connected (Some (next_answer s).1) (set_answers (next_answer s).2 s))
    (λ err s, (K s ∧ done_ TransportConnect s) ∧ connected s = Some err));
    [by intros s; destruct (next_answer s)|done| |done..| |exact Hc].
  { intros err. apply stable_and; [apply stable_and; [done|apply stable_done]|apply stable_connected]. }
  intros s Hs HKs Ho Hx. split; [done|].
  assert (connected s = None) as Hnone.
  { destruct (connected s) eqn:Hcn; [|done]. destruct Hx. apply (inv_connected s Hs). by rewrite Hcn. }
  split; [|split; [|done]].
  - assert (resolved (connectFuture s) = false) as Hcf.
    { destruct (resolved (connectFuture s)) eqn:Hr; [|done].
      pose proof (inv_connect_future s Hs Hr). congruence. }
    inv_act Hs.
  - split; simpl; [by left|intros y Hy; apply elem_snoc; by left|]. by rewrite Hnone.
Qed.

(** An action that answers nothing. *)
Lemma k_once_unit {B} x (g : service → service) K l (c : unit → sp B) Q :
  sstable K → (∀ s, acted (g s) = acted s) → (∀ s, goroutines (g s) = goroutines s) →
  (∀ s k, mutex (registry_of k (g s)) = mutex (registry_of k s)) →
  (∀ s, inv s → K s → opened (state s) x = true → x ∉ acted s →
     (∀ y, opened (state (g s)) y = opened (state s) y) ∧
     inv (act_once x (g s)) ∧ move s (act_once x (g s))) →
  kr (λ s, K s ∧ done_ x s) l (c tt) Q →
  kr K (Once x :: l) (pbind (update (λ s, act_once x (g s))) c) Q.
Proof using Type.
  intros HK Ha Hg Hm Hi Hc.
  apply (k_once x (λ _, tt) g (λ _ s, K s ∧ done_ x s)); [done|done| |done..| |by intros []].
  { intros _. apply stable_and; [done|apply stable_done]. }
  intros s Hs HKs Ho Hx. destruct (Hi s Hs HKs Ho Hx) as (? & ? & ?). by split_and!.
Qed.

Lemma k_store_connected {B} K l (c : unit → sp B) Q : sstable K →
  kr (λ s, K s ∧ done_ StoreConnected s) l (c tt) Q →
  kr K (Once StoreConnected :: l) (pbind store_connected c) Q.
Proof using Type.
  intros HK Hc. apply k_once_unit; [done..| |done]. intros s Hs HKs Ho Hx.
  assert (state s = Connecting) as Hst.
  { destruct (decide (state s = Connecting)) as [|Hn]; [done|]. destruct Hx.
    apply (inv_connecting s Hs). split; [|done]. intros Hst. by rewrite Hst in Ho. }
  split; [by intros []; simpl; rewrite Hst|]. split.
  - inv_act Hs. apply inv_opened0 in Hy. rewrite Hst in Hy. by destruct y.
  - split; simpl; [rewrite Hst; unfold service_move; auto|intros y Hy; apply elem_snoc; by left|done].
Qed.

Lemma k_store_disconnected {B} K l (c : unit → sp B) Q : sstable K →
  kr (λ s, K s ∧ done_ StoreDisconnected s) l (c tt) Q →
  kr K (Once StoreDisconnected :: l) (pbind store_disconnected c) Q.
Proof using Type.
  intros HK Hc. apply k_once_unit; [done..| |done]. intros s Hs HKs Ho Hx.
  assert (state s = Disconnecting) as Hst.
  { rewrite (inv_disconnected s Hs) in Hx. by destruct (state s). }
  assert (StoreConnected ∈ acted s) as Hsc by (apply (inv_connecting s Hs); by rewrite Hst).
  split; [by intros []; simpl; rewrite Hst|]. split.
  - inv_act Hs. by destruct y.
  - split; simpl; [rewrite Hst; unfold service_move; auto 10|intros y Hy; apply elem_snoc; by left|done].
Qed.

Lemma k_complete_connect {B} err K l (c : unit → sp B) Q : sstable K →
  (∀ s, K s → connected s = Some err) →
  kr (λ s, K s ∧ done_ CompleteConnect s) l (c tt) Q →
  kr K (Once CompleteConnect :: l) (pbind (complete_connect err) c) Q.
Proof using Type.
  intros HK Herr Hc. apply k_once_unit; [done..| |done]. intros s Hs HKs Ho Hx.
  pose proof (Herr s HKs). split; [done|]. split; [inv_act Hs|by apply (move_act CompleteConnect)].
Qed.

Lemma k_complete_disconnect {B} err K l (c : unit → sp B) Q : sstable K →
  (∀ s, K s → TransportClose ∈ acted s) →
  kr (λ s, K s ∧ done_ CompleteDisconnect s) l (c tt) Q →
  kr K (Once CompleteDisconnect :: l) (pbind (complete_disconnect err) c) Q.
Proof using Type.
  intros HK Hcl Hc. apply k_once_unit; [done..| |done]. intros s Hs HKs Ho Hx.
  pose proof (Hcl s HKs). split; [done|]. split; [inv_act Hs|by apply (move_act CompleteDisconnect)].
Qed.

Lemma k_transport_close {B} K l (c : unit → sp B) Q : sstable K →
  kr (λ s, K s ∧ done_ TransportClose s) l (c tt) Q →
  kr K (Once TransportClose :: l) (pbind transport_Close c) Q.
Proof using Type.
  intros HK Hc. apply (k_once_unit TransportClose (λ s, s)); [done..| |done]. intros s Hs HKs Ho Hx.
  split; [done|]. split; [inv_act Hs|by apply (move_act TransportClose)].
Qed.

Lemma k_executor_terminate {B} K l (c : unit → sp B) Q : sstable K →
  kr (λ s, K s ∧ done_ ExecutorTerminate s) l (c tt) Q →
  kr K (Once ExecutorTerminate :: l) (pbind executor_Terminate c) Q.
Proof using Type.
  intros HK Hc. apply k_once_unit; [done..| |done]. intros s Hs HKs Ho Hx.
  split; [done|]. split; [inv_act Hs|by apply (move_act ExecutorTerminate)].
Qed.

Lemma ms_k_notify {B} K l (c : unit → sp B) Q : sstable K →
  (∀ s, K s → BeginDown ∈ acted s) →
  kr (λ s, K s ∧ done_ NotifyInterruption s) l (c tt) Q →
  kr K (Once NotifyInterruption :: l) (pbind (update (act_once NotifyInterruption)) c) Q.
Proof using Type.
  intros HK Hcl Hc. apply (k_once_unit NotifyInterruption (λ s, s)); [done..| |done]. intros s Hs HKs Ho Hx.
  pose proof (Hcl s HKs). split; [done|]. split; [inv_act Hs|by apply (move_act NotifyInterruption)].
Qed.

Lemma k_transport_disconnect {B} K l (c : option go_error → sp B) Q : sstable K →
  (∀ s, K s → BeginDisconnect ∈ acted s) →
  (∀ err, kr (λ s, K s ∧ done_ TransportDisconnect s) l (c err) Q) →
  kr K (Once TransportDisconnect :: l) (pbind transport_Disconnect c) Q.
Proof using Type.
  intros HK Hcl Hc.
  apply (k_once TransportDisconnect (λ s, (next_answer s).1) (λ s, set_answers (next_answer s).2 s)
    (λ _ s, K s ∧ done_ TransportDisconnect s));
    [by intros s; destruct (next_answer s)|done| |done..| |exact Hc].
  { intros _. apply stable_and; [done|apply stable_done]. }
  intros s Hs HKs Ho Hx. pose proof (Hcl s HKs).
  split; [done|]. split; [inv_act Hs|]. split; [by apply (move_act TransportDisconnect)|done].
Qed.
(** ** Goroutines *)

Lemma own_app {P} `{!EqDecision P} (l l' : list P) p : own (l ++ l') p = own l p + own l' p.
Proof using Type. induction l as [|q l IH]; simpl; [done|]. rewrite IH. lia. Qed.

Lemma own_grant xs x : own (grant xs) (Once x) = own xs x.
Proof using Type.
  induction xs as [|y xs IH]; simpl; [done|]. rewrite IH. destruct (decide (x = y)) as [->|Hn].
  - by rewrite decide_True.
  - rewrite decide_False by congruence. done.
Qed.

(** A [go] statement puts the permits of its goroutine where a worker finds them. *)
Lemma ms_k_go {B} g K l (c : unit → sp B) Q : sstable K →
  (∀ s, K s → NotifyInterruption ∈ carried g → BeginDown ∈ acted s) →
  kr K l (c tt) Q → kr K (grant (carried g) ++ l) (pbind (go g) c) Q.
Proof using Type.
  intros HK Hg Hc. apply ms_k_act. intros s Hs _ HKs. specialize (Hg s HKs).
  set (s' := set_goroutines (goroutines s ++ [g]) s).
  assert (pending s' = pending s ++ carried g) as Hp.
  { unfold pending, s'. simpl. rewrite bind_app. simpl. by rewrite app_nil_r. }
  assert (move s s') as Hmv by (split; [by left|done|done]).
  split; [|split; [done|]].
  - destruct Hs. split; try assumption. rewrite Hp, app_assoc, elem_of_app. intros [Hin|Hin]; auto.
  - exists l, K. split_and!; [|exact (HK s _ Hs Hmv HKs)|done|done].
    intros [x|k]; rewrite own_app; simpl.
    + rewrite Hp, own_app, own_grant. lia.
    + change (mutex (registry_of k s')) with (mutex (registry_of k s)). lia.
Qed.

(** A worker takes the permits of the goroutine that it runs. *)
Lemma pending_take s i g : goroutines s !! i = Some g →
  ∀ x, own (pending s) x = own (carried g) x + own (delete i (goroutines s) ≫= carried) x.
Proof using Type.
  unfold pending. generalize (goroutines s). intros gs. revert i.
  induction gs as [|h gs IH]; intros [|i] Hi x; [done|done| |].
  - injection Hi as ->. apply own_app.
  - change (delete (S i) (h :: gs)) with (h :: delete i gs).
    rewrite !bind_cons, !own_app, (IH i Hi x). lia.
Qed.

Lemma pending_elem s i g : goroutines s !! i = Some g → ∀ x, x ∈ carried g → x ∈ pending s.
Proof using Type.
  intros Hi x Hx. apply list_elem_of_bind. exists g. split; [done|by eapply list_elem_of_lookup_2].
Qed.

Lemma pending_delete s i x : x ∈ delete i (goroutines s) ≫= carried → x ∈ pending s.
Proof using Type.
  intros (g & Hx & Hg)%list_elem_of_bind. apply list_elem_of_bind. exists g. split; [done|].
  by eapply list_elem_of_delete_inv.
Qed.

Lemma k_take {B} i K (c : goroutine → sp B) Q : sstable K →
  (∀ g, kr (λ s, K s ∧ (NotifyInterruption ∈ carried g → done_ BeginDown s)) (grant (carried g)) (c g) Q) →
  kr K [] (pbind (action (λ s, match goroutines s !! i with
                         | Some g => AOk g (set_goroutines (delete i (goroutines s)) s)
                         | None => ABlock
                         end)) c) Q.
Proof using Type.
  intros HK Hc. apply ms_k_act. intros s Hs _ HKs.
  destruct (goroutines s !! i) as [g|] eqn:Hi; [|done].
  set (s' := set_goroutines (delete i (goroutines s)) s).
  assert (move s s') as Hmv by (split; [by left|done|done]).
  split; [|split; [done|]].
  - destruct Hs. split; try assumption. intros [Hin|Hin]%elem_of_app; apply inv_notify0, elem_of_app; [by left|].
    right. exact (pending_delete s i _ Hin).
  - exists (grant (carried g)), (λ s, K s ∧ (NotifyInterruption ∈ carried g → done_ BeginDown s)).
    split; [|split; [|split; [|apply Hc]]].
    + intros [x|k].
      * simpl. rewrite own_grant, (pending_take s i g Hi). unfold pending, s'. simpl. lia.
      * change (held s' (Hold k)) with (held s (Hold k)).
        enough (own (grant (carried g)) (Hold k) = 0) by lia. by destruct g.
    + split; [exact (HK s _ Hs Hmv HKs)|]. intros Hx. apply (inv_notify s Hs), elem_of_app. right.
      by eapply pending_elem.
    + apply stable_and; [done|]. apply stable_impl, stable_done.
Qed.
(** ** The operations *)

Definition over {B} : B → (service → Prop) → (permit → nat) → Prop := λ _ _ _, True.

Lemma k_AddListener k listener K l Q : sstable K →
  (∀ id, Q id K (own l)) → kr K l (AddListener k listener) Q.
Proof using Type.
  intros HK HQ. apply k_frame; [done| |].
  { intros s. split; [done|]. intros k'. rewrite registry_put. by case_decide; subst. }
  intros id. apply k_lock; [done|]. apply k_handlers; [done|]. apply k_unlock; [done|]. apply HQ.
Qed.

Lemma k_RemoveListener k listener K l Q : sstable K →
  Q tt K (own l) → kr K l (RemoveListener k listener) Q.
Proof using Type.
  intros HK HQ. apply k_lock; [done|]. apply k_handlers; [done|]. apply kproto_unbind. by apply k_unlock.
Qed.

Lemma k_clear_listeners k K l Q : sstable K → Q tt K (own l) → kr K l (clear_listeners k) Q.
Proof using Type.
  intros HK HQ. apply k_lock; [done|]. apply k_handlers; [done|]. apply kproto_unbind. by apply k_unlock.
Qed.

Lemma k_cleanupListeners K l Q : sstable K → Q tt K (own l) → kr K l cleanupListeners Q.
Proof using Type. intros HK HQ. do 2 (apply kproto_bind, k_clear_listeners; [done|]). by apply k_clear_listeners. Qed.

Lemma k_AddEventHandler {B} k K l (c : unit → sp B) Q : sstable K →
  kr K l (c tt) Q → kr K l (pbind (AddEventHandler k) c) Q.
Proof using Type. intros HK Hc. by apply ms_k_update. Qed.
Lemma k_RemoveEventHandler {B} k K l (c : unit → sp B) Q : sstable K →
  kr K l (c tt) Q → kr K l (pbind (RemoveEventHandler k) c) Q.
Proof using Type. intros HK Hc. by apply ms_k_update. Qed.

Lemma k_unregisterEventHandlers K l Q : sstable K → Q tt K (own l) → kr K l unregisterEventHandlers Q.
Proof using Type. intros HK HQ. do 2 (apply k_RemoveEventHandler; [done|]). apply kproto_unbind. by apply k_RemoveEventHandler. Qed.

(** A listener of interruptions is called when the interruption is known. *)
Lemma k_call_listeners hs event K l Q : sstable K → (∀ s, K s → NotifyInterruption ∈ acted s) →
  Q tt K (own l) → kr K l (call_listeners hs event) Q.
Proof using Type.
  intros HK Hn HQ. induction hs as [|[i h] hs IH]; [done|]. apply ms_k_act. intros s Hs _ HKs.
  pose proof (Hn s HKs) as Hin.
  assert (move s (set_interrupted (interrupted s ++ [(h, event)]) s)) as Hmv by (split; [by left|done|done]).
  split; [by destruct Hs; split|]. split; [done|]. exists l, K.
  split_and!; [by intros [x|k]|exact (HK s _ Hs Hmv HKs)|done|done].
Qed.

Lemma k_notifyInterruptionListeners event K l Q : sstable K → (∀ s, K s → NotifyInterruption ∈ acted s) →
  Q tt K (own l) → kr K l (notifyInterruptionListeners event) Q.
Proof using Type.
  intros HK Hn HQ. apply k_lock; [done|]. apply ms_k_load; [done|]. intros hs.
  apply kproto_bind, k_call_listeners; [done..|]. apply k_unlock; [done|]. by apply k_cleanupListeners.
Qed.

Lemma k_submit_listeners hs event K l Q : sstable K → Q tt K (own l) → kr K l (submit_listeners hs event) Q.
Proof using Type.
  intros HK HQ. induction hs as [|[i h] hs IH]; [done|]. apply k_frame; [done| |done].
  intros s. by destruct (executorClosed s).
Qed.

Lemma k_reconnection_handler k event K l Q : sstable K → Q tt K (own l) → kr K l (reconnection_handler k event) Q.
Proof using Type.
  intros HK HQ. apply k_lock; [done|]. apply ms_k_load; [done|]. intros hs.
  apply kproto_bind, k_submit_listeners; [done|]. apply kproto_unbind. by apply k_unlock.
Qed.

Ltac stable_tac := repeat first [assumption | apply stable_True | apply stable_and | apply stable_done | apply stable_connected | done].

Lemma k_Connect K l Q : sstable K → (∀ err K' , Q err K' (own l)) → kr K l Connect Q.
Proof using Type.
  intros HK HQ. apply k_begin_connect; [done| |].
  - apply k_transport_connect; [done|]. intros [err|]; lazy beta iota.
    + apply ms_k_update; [stable_tac|done..|]. apply k_store_connected; [stable_tac|].
      apply k_complete_connect; [stable_tac|naive_solver|]. apply HQ.
    + apply ms_k_update; [stable_tac|done..|]. do 3 (apply k_AddEventHandler; [stable_tac|]).
      apply k_store_connected; [stable_tac|].
      apply k_complete_connect; [stable_tac|naive_solver|]. apply HQ.
  - apply ms_k_load; [done|]. intros st. case_decide.
    + apply kproto_unbind. apply k_get; [done|]. intros v. apply HQ.
    + apply ms_k_load; [done|]. intros v. apply HQ.
Qed.

Lemma k_Disconnect K l Q : sstable K → (∀ err K', Q err K' (own l)) → kr K l Disconnect Q.
Proof using Type.
  intros HK HQ. apply k_begin_disconnect; [done| |].
  - apply kproto_bind, k_unregisterEventHandlers; [stable_tac|].
    apply kproto_bind, k_cleanupListeners; [stable_tac|].
    apply k_transport_disconnect; [stable_tac|naive_solver|]. intros err.
    apply k_transport_close; [stable_tac|]. apply k_executor_terminate; [stable_tac|].
    apply k_store_disconnected; [stable_tac|].
    apply k_complete_disconnect; [stable_tac|naive_solver|]. apply HQ.
  - apply ms_k_load; [done|]. intros st. case_decide.
    + apply kproto_unbind. apply k_get; [done|]. intros v. apply HQ.
    + apply ms_k_load; [done|]. intros v. apply HQ.
Qed.

Lemma k_downEventHandler event K l Q : sstable K → (∀ K', Q tt K' (own l)) → kr K l (downEventHandler event) Q.
Proof using Type.
  intros HK HQ. apply k_begin_down; [done| |apply HQ].
  apply ms_k_update; [stable_tac|done..|]. apply k_executor_terminate; [stable_tac|].
  apply (ms_k_go GoClose); [stable_tac| |].
  { intros s _ Hin. clear -Hin. simpl in Hin. set_solver. }
  apply kproto_unbind. apply (ms_k_go (GoNotify event)); [stable_tac|naive_solver|]. apply HQ.
Qed.

Lemma k_close_down K Q : sstable K → (∀ K', Q tt K' (own [])) →
  kr K (grant (carried GoClose)) close_down Q.
Proof using Type.
  intros HK HQ. apply kproto_bind, k_unregisterEventHandlers; [done|].
  apply k_transport_close; [done|]. apply kproto_unbind.
  apply k_complete_disconnect; [stable_tac|naive_solver|]. apply HQ.
Qed.

Lemma ms_k_worker i K : sstable K → kr K [] (worker i) over.
Proof using Type.
  intros HK. apply k_take; [done|]. intros g. set (K' := λ s, _).
  assert (sstable K') as HK'.
  { apply stable_and; [done|]. apply stable_impl, stable_done. }
  unfold goroutine_prog. destruct g as [| | |event].
  - by apply k_Connect.
  - by apply k_Disconnect.
  - by apply kproto_bind, k_close_down.
  - apply ms_k_notify; [done| |].
    { intros s [_ Hd]. apply Hd. by apply list_elem_of_singleton. }
    apply kproto_bind, k_notifyInterruptionListeners; [stable_tac|naive_solver|done].
Qed.

Lemma k_UpdateProperty property v K l Q : sstable K → (∀ err, Q err K (own l)) →
  kr K l (UpdateProperty property v) Q.
Proof using Type.
  intros HK HQ. apply ms_k_load; [done|]. intros st. case_decide; [apply HQ|].
  destruct (negb _); [apply HQ|]. apply k_frame; [done| |apply HQ].
  intros s. by destruct (next_answer s).
Qed.

Lemma k_session_event k event K l Q : sstable K → (∀ K', Q tt K' (own l)) → kr K l (session_event k event) Q.
Proof using Type.
  intros HK HQ. apply ms_k_load; [done|]. intros r. destruct (negb r); [apply HQ|].
  destruct k; [by apply k_downEventHandler|by apply k_reconnection_handler..].
Qed.

Lemma k_call_prog c : kr (λ _, True) [] (call_prog c) over.
Proof using Type.
  assert (sstable (λ _, True)) as HT by apply stable_True.
  unfold call_prog. destruct c.
  - by apply kproto_bind, k_Connect.
  - by apply (ms_k_go GoConnect _ []); [|intros s _ Hin; apply elem_of_nil in Hin|].
  - by apply kproto_bind, k_Disconnect.
  - by apply (ms_k_go GoDisconnect _ []); [|intros s _ Hin; apply elem_of_nil in Hin|].
  - apply ms_k_load; [done|]. intros st. case_decide; [|done]. by apply ms_k_load.
  - by apply kproto_bind, k_AddListener.
  - by apply kproto_bind, k_RemoveListener.
  - by apply kproto_bind, k_UpdateProperty.
  - by apply kproto_bind, k_session_event.
  - by apply kproto_bind, (kproto_weaken _ _ _ _ _ _ _ over); [| |apply ms_k_worker].
Qed.

(** ** A new service *)

Lemma inv_new answers : inv (newMessagingServiceImpl answers).
Proof using Type.
  split; simpl; try done; try (by intros ?%elem_of_nil).
  - apply NoDup_nil_2.
  - by intros x ?%elem_of_nil.
  - split; [by intros ?%elem_of_nil|by intros [? _]].
  - split; [by intros ?%elem_of_nil|done].
Qed.

Lemma ms_scene_ok answers calls : kpool_ok inv move held total (scene answers calls).
Proof using Type.
  apply kpool_init; [apply inv_new| |].
  - intros [[]|[]]; unfold total; simpl; lia.
  - apply Forall_fmap, Forall_forall. intros c _. apply k_call_prog.
Qed.

Lemma rtc_state s s' : rtc move s s' → rtc service_move (state s) (state s').
Proof using Type. induction 1 as [|? ? ? H]; [apply rtc_refl|]. eapply rtc_l; [apply H|done]. Qed.
End messaging_service.

(** ** Properties *)


(** One goroutine connects, the session goes down and interrupts its listener, another disconnects. *)
Definition example_calls : list (call (L := nat) (E := nat)) :=
  [CallAddListener Down 5; CallConnect; SessionEvent Down 7; Worker 1; Worker 0; CallDisconnect].


(** Alone, with the transport answering [err1] to [Connect] and [err2] to [Disconnect]: [Connect]
    answers [err1], the service is then connected exactly if there was no error, [Disconnect] answers
    [err2], closes the transport and terminates the executor, a second [Disconnect] answers [err2]
    again, and a second [Connect] answers what the first did before the disconnect and an error of
    illegal state after it. *)
Theorem connect_disconnect_alone {L E} {go_fmt : GoFmt} (order : gmap Z L → list (Z * L)) err1 err2 rest :
  ∃ s, run
    (let! e1 := Connect in let! e2 := Connect in let! up := IsConnected in
     let! e3 := Disconnect in let! e4 := Disconnect in let! e5 := Connect in let! up' := IsConnected in
     PRet ([e1; e2; e3; e4; e5], up, up'))
    (newMessagingServiceImpl (L := L) (E := E) (err1 :: err2 :: rest)) =
    Done ([err1; err1; err2; err2; Some (UnableToConnectAlreadyDisconnectedService Disconnected)],
          bool_decide (err1 = None), false) s ∧
    state s = Disconnected ∧ executorRunning s = bool_decide (err1 = None) ∧ executorClosed s = true ∧
    registered s = mkKinds false false false ∧ answers s = rest ∧
    acted s = [TransportConnect; StoreConnected; CompleteConnect; BeginDisconnect; TransportDisconnect;
               TransportClose; ExecutorTerminate; StoreDisconnected; CompleteDisconnect].
Proof. destruct err1 as [err1|]; eexists; (split; [vm_compute; reflexivity|]); repeat split. Qed.

(** An end of the session is lost while [Connect] runs.  [Connect] registers the handler of the
    event before it stores the state connected, and the handler does nothing in any other state: an
    event that comes between the two leaves a service that says it is connected, of which nobody
    closes the transport, and no further event will come. *)
Theorem down_event_lost {L E} {go_fmt : GoFmt} (order : gmap Z L → list (Z * L)) (event : E) :
  ∃ s ts, pool_steps (scene order [] [CallConnect; SessionEvent Down event; CallIsConnected]) (s, ts) ∧
    returned <$> ts = [Some (Returned None); Some Finished; Some (Answered true)] ∧
    state s = Connected ∧ goroutines s = [] ∧ executorClosed s = false ∧
    acted s = [TransportConnect; StoreConnected; CompleteConnect] ∧
    ∀ c, ¬ pool_step (s, ts) c.
Proof.
  eexists _, _. split.
  { apply (play_steps [(0, 4); (1, 2); (0, 4); (2, 2)]). cbv. reflexivity. }
  repeat split. apply pool_stuck. repeat (apply Forall_cons; split; [right; by eexists|]). by apply Forall_nil.
Qed.
