(* ===== verification/EndpointProvisioner.v ===== *)
(** The endpoint provisioner of the application: internal/impl/provisioner/endpoint_provisioner_impl.go,
    over the provisioner of core (CoreReceiver.Provisioner) and the validators (Validation).

    A configuration is a Go map, which its provisioner shares with whoever was given it: maps are
    references into a store.  What the C library answers to a request is read from a list that every
    theorem leaves arbitrary; an empty list accepts. *)

From Stdlib Require Import ZArith Lia.
From stdpp Require Import base list gmap relations strings.
From S2P Require Import Prelude GoStrconv GoEffects GoConc Errors Resource Sdt Validation Events Correlation.
From S2P Require CoreReceiver.

#[local] Open Scope Z_scope.

(** * Properties of an endpoint *)

Definition EndpointPropertyDurable : string :=
  "solace.messaging.endpoint-property.durable".
Definition EndpointPropertyExclusive : string :=
  "solace.messaging.endpoint-property.exclusive".
Definition EndpointPropertyNotifySender : string :=
  "solace.messaging.endpoint-property.notify-sender".
Definition EndpointPropertyMaxMessageRedelivery : string :=
  "solace.messaging.endpoint-property.max-message-redelivery".
Definition EndpointPropertyMaxMessageSize : string :=
  "solace.messaging.endpoint-property.max-message-size".
Definition EndpointPropertyPermission : string :=
  "solace.messaging.endpoint-property.permission".
Definition EndpointPropertyQuotaMB : string :=
  "solace.messaging.endpoint-property.quota-mb".
Definition EndpointPropertyRespectsTTL : string :=
  "solace.messaging.endpoint-property.respects-ttl".

Definition EndpointPermissionNone : string := "solace.messaging.endpoint-permission.none".
Definition EndpointPermissionReadOnly : string := "solace.messaging.endpoint-permission.read-only".
Definition EndpointPermissionConsume : string := "solace.messaging.endpoint-permission.consume".
Definition EndpointPermissionModifyTopic : string := "solace.messaging.endpoint-permission.modify-topic".
Definition EndpointPermissionDelete : string := "solace.messaging.endpoint-permission.delete".

(** The names and values of the C library. *)
Definition SolClientEndpointPropID : string := "ENDPOINT_ID".
Definition SolClientEndpointPropQueue : string := "2".
Definition SolClientEndpointPropName : string := "ENDPOINT_NAME".
Definition SolClientEndpointPropDurable : string := "ENDPOINT_DURABLE".
Definition SolClientEndpointPropPermission : string := "ENDPOINT_PERMISSION".
Definition SolClientEndpointPropAccesstype : string := "ENDPOINT_ACCESSTYPE".
Definition SolClientEndpointPropAccesstypeExclusive : string := "1".
Definition SolClientEndpointPropAccesstypeNonexclusive : string := "0".
Definition SolClientEndpointPropQuotaMb : string := "ENDPOINT_QUOTA_MB".
Definition SolClientEndpointPropMaxmsgSize : string := "ENDPOINT_MAXMSG_SIZE".
Definition SolClientEndpointPropRespectsMsgTTL : string := "ENDPOINT_RESPECTS_MSG_TTL".
Definition SolClientEndpointPropDiscardBehavior : string := "ENDPOINT_DISCARD_BEHAVIOR".
Definition SolClientEndpointPropDiscardNotifySenderOn : string := "1".
Definition SolClientEndpointPropDiscardNotifySenderOff : string := "2".
Definition SolClientEndpointPropMaxmsgRedelivery : string := "ENDPOINT_MAXMSG_REDELIVERY".
Definition SolClientEndpointPermissionNone : string := "n".
Definition SolClientEndpointPermissionReadOnly : string := "r".
Definition SolClientEndpointPermissionConsume : string := "c".
Definition SolClientEndpointPermissionModifyTopic : string := "m".
Definition SolClientEndpointPermissionDelete : string := "d".
Definition PropEnableVal : string := "1".
Definition PropDisableVal : string := "0".

(** ** Values *)

(** What the interface of a property holds: a value, or one of the named type of permissions. *)
Inductive property_value : Type :=
| Value (d : data)
| Permission (p : string).

Abbreviation EndpointPropertyMap := (gmap string property_value).

(** A validator that wants another type finds a permission to be of its named type. *)
Definition as_data (v : property_value) : data :=
  match v with Value d => d | Permission _ => DOther "config.EndpointPermission" end.

Section endpoint_provisioner.
Context {arch : GoArch} {go_print : GoPrint}.

Definition sprint_v (v : property_value) : string :=
  match v with
  | Permission p => p
  | Value d => sprint_data d
  end.

Definition permissions : list string :=
  [EndpointPermissionNone; EndpointPermissionReadOnly; EndpointPermissionConsume;
   EndpointPermissionModifyTopic; EndpointPermissionDelete].

(** A missing key of the map reads as the empty string. *)
Definition mapEndpointPermissionToCcsmpProp (propValue : string) : string :=
  let ccsmpPermissionProperties : gmap string string := list_to_map
    [(EndpointPermissionNone, SolClientEndpointPermissionNone);
     (EndpointPermissionReadOnly, SolClientEndpointPermissionReadOnly);
     (EndpointPermissionConsume, SolClientEndpointPermissionConsume);
     (EndpointPermissionModifyTopic, SolClientEndpointPermissionModifyTopic);
     (EndpointPermissionDelete, SolClientEndpointPermissionDelete)] in
  default "" (ccsmpPermissionProperties !! propValue).

(** What a case appends: nothing where the property is not present, whatever the error. *)
Definition append_validated {A} (r : A * bool * option go_error) (f : A → list string) : res go_error (list string) :=
  match r with
  | (_, false, _) => Ok []
  | (_, true, Some err) => Err err
  | (a, true, None) => Ok (f a)
  end.

(** The cases of the switch; other keys are skipped. *)
Definition validate_property (property : string) (value : property_value) : res go_error (list string) :=
  if String.eqb property EndpointPropertyDurable then
    append_validated (BooleanPropertyValidation EndpointPropertyDurable (as_data value))
      (λ isDurable : bool, [SolClientEndpointPropDurable; if isDurable then PropEnableVal else PropDisableVal])
  else if String.eqb property EndpointPropertyExclusive then
    append_validated (BooleanPropertyValidation EndpointPropertyExclusive (as_data value))
      (λ isExclusive : bool, [SolClientEndpointPropAccesstype;
         if isExclusive then SolClientEndpointPropAccesstypeExclusive
         else SolClientEndpointPropAccesstypeNonexclusive])
  else if String.eqb property EndpointPropertyNotifySender then
    append_validated (BooleanPropertyValidation EndpointPropertyNotifySender (as_data value))
      (λ propValue : bool, [SolClientEndpointPropDiscardBehavior;
         if propValue then SolClientEndpointPropDiscardNotifySenderOn
         else SolClientEndpointPropDiscardNotifySenderOff])
  else if String.eqb property EndpointPropertyMaxMessageRedelivery then
    append_validated
      (IntegerPropertyValidationWithRange EndpointPropertyMaxMessageRedelivery (as_data value) 0 255)
      (λ propValue, [SolClientEndpointPropMaxmsgRedelivery; sprint_int propValue])
  else if String.eqb property EndpointPropertyMaxMessageSize then
    append_validated (Uint64PropertyValidation EndpointPropertyMaxMessageSize (as_data value))
      (λ propValue, [SolClientEndpointPropMaxmsgSize; sprint_int propValue])
  else if String.eqb property EndpointPropertyPermission then
    append_validated
      (StringPropertyValidation EndpointPropertyPermission (DString (sprint_v value)) permissions)
      (λ propValue, [SolClientEndpointPropPermission; mapEndpointPermissionToCcsmpProp propValue])
  else if String.eqb property EndpointPropertyQuotaMB then
    append_validated (Uint64PropertyValidation EndpointPropertyQuotaMB (as_data value))
      (λ propValue, [SolClientEndpointPropQuotaMb; sprint_int propValue])
  else if String.eqb property EndpointPropertyRespectsTTL then
    append_validated (BooleanPropertyValidation EndpointPropertyRespectsTTL (as_data value))
      (λ shouldRespectTTL : bool,
         if shouldRespectTTL then [SolClientEndpointPropRespectsMsgTTL; PropEnableVal] else [])
  else Ok [].

Fixpoint validate_all (properties : list (string * property_value)) (propertiesList : list string)
    : res go_error (list string) :=
  match properties with
  | [] => Ok propertiesList
  | (property, value) :: properties =>
      match validate_property property value with
      | Err err => Err err
      | Ok l => validate_all properties (propertiesList ++ l)
      end
  end.

(** [properties] in the order in which the loop visits the map. *)
Definition validateEndpointProperties (properties : list (string * property_value))
    : res go_error (list string) :=
  validate_all properties [SolClientEndpointPropID; SolClientEndpointPropQueue].
(** * Provisioners over one service *)

Definition UnableToProvisionParentServiceNotStarted : go_error :=
  NewError IllegalStateError "cannot provision endpoint unless parent MessagingService is connected" None.
Definition UnableToDeprovisionParentServiceNotStarted : go_error :=
  NewError IllegalStateError "cannot deprovision endpoint unless parent MessagingService is connected" None.
Definition FailedToProvisionEndpoint : string := "failed to provision endpoint: ".
Definition FailedToDeprovisionEndpoint : string := "failed to deprovision endpoint: ".

Record provisionOutcome : Type := mkOutcome {
  outcome_err : option go_error;
  outcome_ok : bool;
}.

Abbreviation core_provisioner := CoreReceiver.Provisioner.ccsmpBackedEndpointProvisioner.

(** What the application was told by a call. *)
Inductive told : Type :=
| Provisioned (queueName : string) (outcome : provisionOutcome)
| Deprovisioned (queueName : string) (err : option go_error).

(** The provisioner of core, what the library answers to the next requests, and the store of maps.
    [came] and [told_] record the results that came in and what calls answered. *)
Record world : Type := mkWorld {
  core : core_provisioner;
  refusals : list (option ErrorInfo);
  store : list EndpointPropertyMap;
  came : list (Z * option go_error);
  told_ : list told;
}.

Definition set_core (c : core_provisioner) (w : world) : world :=
  mkWorld c (refusals w) (store w) (came w) (told_ w).
Definition set_store (m : list EndpointPropertyMap) (w : world) : world :=
  mkWorld (core w) (refusals w) m (came w) (told_ w).
Definition set_told (l : list told) (w : world) : world :=
  mkWorld (core w) (refusals w) (store w) (came w) l.

Abbreviation wp A := (prog world A).

(** A provisioner is the reference of its map. *)
Definition properties_of (p : nat) (w : world) : EndpointPropertyMap := default ∅ (store w !! p).
Definition DefaultEndpointProperties : EndpointPropertyMap := {[ EndpointPropertyDurable := Value (DBool true) ]}.
Definition NewEndpointProvisionerImpl : wp nat :=
  action (λ w, AOk (length (store w)) (set_store (store w ++ [DefaultEndpointProperties]) w)).

(** The order in which a map is visited. *)
Context (order : EndpointPropertyMap → list (string * property_value)).
Context (table_order : gmap Z nat → list (Z * nat)).

(** ** Configuring *)

Definition WithProperty (p : nat) (propertyName : string) (propertyValue : property_value) : wp unit :=
  update (λ w, set_store (<[p := <[propertyName := propertyValue]> (properties_of p w)]> (store w)) w).
Definition WithDurability (p : nat) (durable : bool) : wp unit :=
  WithProperty p EndpointPropertyDurable (Value (DBool durable)).
Definition WithExclusiveAccess (p : nat) (exclusive : bool) : wp unit :=
  WithProperty p EndpointPropertyExclusive (Value (DBool exclusive)).
Definition WithDiscardNotification (p : nat) (notifySender : bool) : wp unit :=
  WithProperty p EndpointPropertyNotifySender (Value (DBool notifySender)).
Definition WithMaxMessageRedelivery (p : nat) (count : Z) : wp unit :=
  WithProperty p EndpointPropertyMaxMessageRedelivery (Value (DUint count)).
Definition WithMaxMessageSize (p : nat) (count : Z) : wp unit :=
  WithProperty p EndpointPropertyMaxMessageSize (Value (DUint count)).
Definition WithPermission (p : nat) (permission : string) : wp unit :=
  WithProperty p EndpointPropertyPermission (Permission permission).
Definition WithQuotaMB (p : nat) (quota : Z) : wp unit :=
  WithProperty p EndpointPropertyQuotaMB (Value (DUint quota)).
Definition WithTTLPolicy (p : nat) (respect : bool) : wp unit :=
  WithProperty p EndpointPropertyRespectsTTL (Value (DBool respect)).

(** The map itself. *)
Definition GetConfiguration (p : nat) : wp nat := PRet p.

(** The loop over the map of the provider, the reference of its map; [None] is a nil provider. *)
Fixpoint mergeEndpointPropertyMap (p : nat) (props : list (string * property_value)) : wp unit :=
  match props with
  | [] => PRet tt
  | (key, value) :: props => WithProperty p key value ;;;; mergeEndpointPropertyMap p props
  end.
Definition FromConfigurationProvider (p : nat) (provider : option nat) : wp unit :=
  match provider with
  | None => PRet tt
  | Some q => let! props := load (λ w, order (properties_of q w)) in mergeEndpointPropertyMap p props
  end.

(** ** Provisioning *)

Definition IsRunning (w : world) : bool := CoreReceiver.Provisioner.isRunning (core w) =? 1.

Definition next_refusal (w : world) : option ErrorInfo := default None (head (refusals w)).

(** A request of core, whose call of the library has the next answer. *)
Definition request_core (op : option ErrorInfo → M core_provisioner (res ErrorInfo (Z * nat)))
    : wp (res ErrorInfo (Z * nat)) :=
  action (λ w, match op (next_refusal w) (core w) with
    | Done r c => AOk r (mkWorld c (tail (refusals w)) (store w) (came w) (told_ w))
    | Panicked p _ => APanic p
    | Blocked _ => ABlock
    end).

(** [event := <-result]. *)
Definition await_result (c : nat) : wp corr_event :=
  action (λ w, match CoreReceiver.Provisioner.on_provisions (take_result c) (core w) with
    | Done (Some ev) core' => AOk ev (set_core core' w)
    | Panicked p _ => APanic p
    | _ => ABlock
    end).

(** Core answers a channel whenever it answers no error, so the test for a nil channel is not
    reached. *)
Definition Provision (p : nat) (queueName : string) (ignoreExists : bool) : wp provisionOutcome :=
  let! running := load IsRunning in
  if negb running then PRet (mkOutcome (Some UnableToProvisionParentServiceNotStarted) false) else
  let! properties := load (λ w, order (properties_of p w)) in
  match validateEndpointProperties properties with
  | Err err => PRet (mkOutcome (Some err) false)
  | Ok endpointProperties =>
      let! r := request_core (CoreReceiver.Provisioner.Provision
        (endpointProperties ++ [SolClientEndpointPropName; queueName]) ignoreExists) in
      match r with
      | Err errInfo => PRet (mkOutcome (Some (ToNativeError errInfo FailedToProvisionEndpoint)) false)
      | Ok (correlationID, result) =>
          let! event := await_result result in
          match ev_err event with
          | Some err => PRet (mkOutcome (Some err) false)
          | None => PRet (mkOutcome None true)
          end
      end
  end.

Definition Deprovision (p : nat) (queueName : string) (ignoreMissing : bool) : wp (option go_error) :=
  let! running := load IsRunning in
  if negb running then PRet (Some UnableToDeprovisionParentServiceNotStarted) else
  let! properties := load (λ w, order (properties_of p w)) in
  match validateEndpointProperties properties with
  | Err err => PRet (Some err)
  | Ok endpointProperties =>
      let! r := request_core (CoreReceiver.Provisioner.Deprovision
        (endpointProperties ++ [SolClientEndpointPropName; queueName]) ignoreMissing) in
      match r with
      | Err errInfo => PRet (Some (ToNativeError errInfo FailedToDeprovisionEndpoint))
      | Ok (correlationID, result) =>
          let! event := await_result result in
          match ev_err event with
          | Some err => PRet (Some err)
          | None => PRet None
          end
      end
  end.

(** What the goroutine of an asynchronous call tells: to its channel or to its callback. *)
Definition tell (t : told) : wp unit := update (λ w, set_told (told_ w ++ [t]) w).
Definition ProvisionAsync (p : nat) (queueName : string) (ignoreExists : bool) : wp unit :=
  let! outcome := Provision p queueName ignoreExists in tell (Provisioned queueName outcome).
Definition ProvisionAsyncWithCallback (p : nat) (queueName : string) (ignoreExists : bool) : wp unit :=
  let! outcome := Provision p queueName ignoreExists in tell (Provisioned queueName outcome).
Definition DeprovisionAsync (p : nat) (queueName : string) (ignoreMissing : bool) : wp unit :=
  let! err := Deprovision p queueName ignoreMissing in tell (Deprovisioned queueName err).
Definition DeprovisionAsyncWithCallback (p : nat) (queueName : string) (ignoreMissing : bool) : wp unit :=
  let! err := Deprovision p queueName ignoreMissing in tell (Deprovisioned queueName err).

(** ** The service around it *)

(** A result comes in, of a success or of a failure. *)
Definition result_event (ok : bool) (event : sessionEventInfo) : wp unit :=
  action (λ w,
    let handler := if ok then CoreReceiver.Provisioner.handleProvisionAndDeprovisionOK
                   else CoreReceiver.Provisioner.handleProvisionAndDeprovisionErr in
    let err := if ok then None else info_err event in
    match handler event (core w) with
    | Done _ c => AOk tt (mkWorld c (refusals w) (store w) (came w ++ [(correlationP event, err)]) (told_ w))
    | Panicked p _ => APanic p
    | Blocked _ => ABlock
    end).
(** The service starts, and it terminates, which ends every outstanding request; the handlers
    of its events are those of CoreReceiver. *)
Definition service_starts : wp unit :=
  update (λ w, if decide (CoreReceiver.Provisioner.isRunning (core w) = 0)
               then set_core (CoreReceiver.Provisioner.set_isRunning 1 (core w)) w else w).
Definition service_terminates : wp unit :=
  action (λ w,
    if decide (CoreReceiver.Provisioner.isRunning (core w) = 1) then
      match CoreReceiver.Provisioner.on_provisions
              (drain (table_order (correlation (CoreReceiver.Provisioner.provisions (core w))))
                 CoreReceiver.Provisioner.provision_termination_error)
              (CoreReceiver.Provisioner.set_isRunning 0 (core w)) with
      | Done _ c => AOk tt (set_core c w)
      | Panicked p _ => APanic p
      | Blocked _ => ABlock
      end
    else AOk tt w).

(** * What is asked of the broker *)

(** How values are read. *)
Definition reads_bool (v : property_value) : option bool :=
  match v with
  | Value (DInt z) => Some (z =? 1)
  | Value (DBool b) => Some b
  | Value (DString s) => Some (String.eqb s "true" || String.eqb s "True")
  | _ => None
  end.
Definition reads_uint64 (v : property_value) : option Z :=
  match v with
  | Value (DUint64 z | DUint32 z | DUint z) => Some z
  | Value (DInt z) => Some (wrapU 64 z)
  | _ => None
  end.
Definition reads_count (v : property_value) : option Z :=
  match capacity_of (as_data v) with
  | Some n => if bool_decide (0 ≤ n ≤ 255) then Some n else None
  | None => None
  end.
Definition reads_permission (v : property_value) : option string :=
  match list_find (λ p, p.1 = sprint_v v)
    [(EndpointPermissionNone, "n"); (EndpointPermissionReadOnly, "r"); (EndpointPermissionConsume, "c");
     (EndpointPermissionModifyTopic, "m"); (EndpointPermissionDelete, "d")] with
  | Some (_, (_, c)) => Some c
  | None => None
  end.

Definition on_off (on off : string) (b : bool) : string := if b then on else off.

(** The keys of the configuration, with the name of the C library that each sets and the value it
    gives to it. *)
Definition endpoint_table : list (string * (string * (property_value → option string))) :=
  [(EndpointPropertyDurable, ("ENDPOINT_DURABLE", λ v, on_off "1" "0" <$> reads_bool v));
   (EndpointPropertyExclusive, ("ENDPOINT_ACCESSTYPE", λ v, on_off "1" "0" <$> reads_bool v));
   (EndpointPropertyNotifySender, ("ENDPOINT_DISCARD_BEHAVIOR", λ v, on_off "1" "2" <$> reads_bool v));
   (EndpointPropertyMaxMessageRedelivery, ("ENDPOINT_MAXMSG_REDELIVERY", λ v, sprint_int <$> reads_count v));
   (EndpointPropertyMaxMessageSize, ("ENDPOINT_MAXMSG_SIZE", λ v, sprint_int <$> reads_uint64 v));
   (EndpointPropertyPermission, ("ENDPOINT_PERMISSION", reads_permission));
   (EndpointPropertyQuotaMB, ("ENDPOINT_QUOTA_MB", λ v, sprint_int <$> reads_uint64 v));
   (EndpointPropertyRespectsTTL, ("ENDPOINT_RESPECTS_MSG_TTL",
      λ v, if reads_bool v is Some true then Some "1" else None))].

Definition is_nil_value (v : property_value) : bool := match v with Value DNil => true | _ => false end.

(** Whether a property is an error. *)
Definition refuses (key : string) (v : property_value) : bool :=
  let wrong {A} (r : option A) := negb (is_nil_value v) && bool_decide (¬ is_Some r) in
  if bool_decide (key ∈ [EndpointPropertyDurable; EndpointPropertyExclusive; EndpointPropertyNotifySender;
                         EndpointPropertyRespectsTTL]) then wrong (reads_bool v)
  else if bool_decide (key ∈ [EndpointPropertyMaxMessageSize; EndpointPropertyQuotaMB]) then wrong (reads_uint64 v)
  else if bool_decide (key = EndpointPropertyMaxMessageRedelivery) then wrong (reads_count v)
  else if bool_decide (key = EndpointPropertyPermission) then bool_decide (¬ is_Some (reads_permission v))
  else false.

(** The name and the value that a property gives. *)
Definition endpoint_pair (key : string) (v : property_value) : list (string * string) :=
  match list_find (λ e, e.1 = key) endpoint_table with
  | Some (_, (_, (name, read))) => match read v with Some x => [(name, x)] | None => [] end
  | None => []
  end.

Lemma permission_read v x : 
  append_validated (StringPropertyValidation EndpointPropertyPermission (DString (sprint_v v)) permissions)
    (λ propValue, [SolClientEndpointPropPermission; mapEndpointPermissionToCcsmpProp propValue]) = x →
  match reads_permission v with
  | Some c => x = Ok ["ENDPOINT_PERMISSION"; c]
  | None => ∃ err, x = Err err ∧ kind_of err = Some IllegalArgumentError
  end.
Proof using Type.
  intros <-. unfold reads_permission. generalize (sprint_v v). intros p.
  unfold StringPropertyValidation, permissions. cbn -[String.append].
  repeat (case_decide as Hp; [subst p; vm_compute; reflexivity|clear Hp; cbn -[String.append]]).
  by eexists.
Qed.
Lemma append_bool key v f x : append_validated (BooleanPropertyValidation key (as_data v)) f = x →
  match reads_bool v with
  | Some b => x = Ok (f b)
  | None => if is_nil_value v then x = Ok [] else ∃ err, x = Err err ∧ kind_of err = Some IllegalArgumentError
  end.
Proof using Type.
  intros <-. destruct v as [d|p]; [destruct d|]; simpl; try done; by eexists.
Qed.

Lemma append_uint64 key v f x : append_validated (Uint64PropertyValidation key (as_data v)) f = x →
  match reads_uint64 v with
  | Some z => x = Ok (f z)
  | None => if is_nil_value v then x = Ok [] else ∃ err, x = Err err ∧ kind_of err = Some IllegalArgumentError
  end.
Proof using Type. intros <-. destruct v as [d|p]; [destruct d|]; simpl; try done; by eexists. Qed.

Lemma append_count key v f x :
  append_validated (IntegerPropertyValidationWithRange key (as_data v) 0 255) f = x →
  match reads_count v with
  | Some z => x = Ok (f z)
  | None => if is_nil_value v then x = Ok [] else ∃ err, x = Err err ∧ kind_of err = Some IllegalArgumentError
  end.
Proof using Type.
  intros <-. unfold reads_count, IntegerPropertyValidationWithRange.
  destruct (IntegerPropertyValidation key (as_data v)) as [[z present] [err|]] eqn:Hv.
  - pose proof (IntegerPropertyValidation_err _ _ _ _ _ Hv) as [-> Hk].
    assert (is_nil (as_data v) = is_nil_value v) as Hn by (by destruct v as [[]|]).
    rewrite orb_true_r. rewrite Hn in Hk. destruct (is_nil_value v) eqn:Hnil.
    + destruct v as [[]|]; try done. by injection Hv as <- <- <-.
    + destruct present; [by eexists|]. by destruct v as [[]|].
  - apply IntegerPropertyValidation_ok in Hv as [Hc ->]. rewrite Hc. simpl negb. simpl orb. cbv iota.
    case_bool_decide as Hr.
    + rewrite (proj2 (andb_true_iff _ _)); [done|]. by rewrite !Z.leb_le.
    + assert ((0 <=? z) && (z <=? 255) = false) as ->.
      { apply not_true_is_false. by rewrite andb_true_iff, !Z.leb_le. }
      destruct (is_nil_value v) eqn:Hnil; [by destruct v as [[]|]|by eexists].
Qed.

(** What a case does follows from how it reads its value. *)
Lemma validated_case {A} (r : option A) (f : A → list string) (g : A → list (string * string))
    (nil : bool) (x : res go_error (list string)) :
  (match r with
   | Some a => x = Ok (f a)
   | None => if nil then x = Ok [] else ∃ err, x = Err err ∧ kind_of err = Some IllegalArgumentError
   end) →
  (r ≠ None → nil = false) → (∀ a, f a = flat_pairs (g a)) →
  match x with
  | Ok l => negb nil && bool_decide (¬ is_Some r) = false ∧
            l = flat_pairs match r with Some a => g a | None => [] end
  | Err err => negb nil && bool_decide (¬ is_Some r) = true ∧ kind_of err = Some IllegalArgumentError
  end.
Proof using Type.
  intros Hx Hn Hf. destruct r as [a|].
  - rewrite Hx. rewrite bool_decide_false by (intros []; by eexists). rewrite andb_false_r. by split.
  - rewrite bool_decide_true by (by intros [? ?]). destruct nil; simpl.
    + by rewrite Hx.
    + destruct Hx as (err & -> & ?). by split.
Qed.

Ltac solve_case lem r v g :=
  match goal with
  | |- match append_validated ?d ?f with Ok _ => _ | Err _ => _ end =>
      let Hx := fresh "Hx" in
      pose proof (validated_case (r v) f g (is_nil_value v) (append_validated d f) (lem _ v f _ eq_refl)) as Hx;
      destruct (append_validated d f);
      (destruct Hx as [? Hl]; [by destruct v as [[]|]|by intros []|split; [assumption|]]);
      [rewrite Hl; unfold endpoint_pair; simpl; by destruct (r v) as [[]|]|assumption]
  end.

Lemma validate_property_spec key v :
  match validate_property key v with
  | Ok l => refuses key v = false ∧ l = flat_pairs (endpoint_pair key v)
  | Err err => refuses key v = true ∧ kind_of err = Some IllegalArgumentError
  end.
Proof using Type.
  unfold validate_property.
  destruct (String.eqb_spec key EndpointPropertyDurable) as [->|N1].
  { solve_case append_bool reads_bool v (λ b, [("ENDPOINT_DURABLE", on_off "1" "0" b)]). }
  destruct (String.eqb_spec key EndpointPropertyExclusive) as [->|N2].
  { solve_case append_bool reads_bool v (λ b, [("ENDPOINT_ACCESSTYPE", on_off "1" "0" b)]). }
  destruct (String.eqb_spec key EndpointPropertyNotifySender) as [->|N3].
  { solve_case append_bool reads_bool v (λ b, [("ENDPOINT_DISCARD_BEHAVIOR", on_off "1" "2" b)]). }
  destruct (String.eqb_spec key EndpointPropertyMaxMessageRedelivery) as [->|N4].
  { solve_case append_count reads_count v (λ z, [("ENDPOINT_MAXMSG_REDELIVERY", sprint_int z)]). }
  destruct (String.eqb_spec key EndpointPropertyMaxMessageSize) as [->|N5].
  { solve_case append_uint64 reads_uint64 v (λ z, [("ENDPOINT_MAXMSG_SIZE", sprint_int z)]). }
  destruct (String.eqb_spec key EndpointPropertyPermission) as [->|N6].
  { destruct (append_validated _ _) as [l|err] eqn:H; apply permission_read in H;
      destruct (reads_permission v) as [c|] eqn:Hc; unfold refuses, endpoint_pair; simpl; rewrite Hc.
    - injection H as ->. by split.
    - by destruct H as (? & [=] & _).
    - done.
    - destruct H as (? & [= ->] & ?). by split. }
  destruct (String.eqb_spec key EndpointPropertyQuotaMB) as [->|N7].
  { solve_case append_uint64 reads_uint64 v (λ z, [("ENDPOINT_QUOTA_MB", sprint_int z)]). }
  destruct (String.eqb_spec key EndpointPropertyRespectsTTL) as [->|N8].
  { solve_case append_bool reads_bool v (λ b : bool, if b then [("ENDPOINT_RESPECTS_MSG_TTL", "1")] else []). }
  unfold refuses, endpoint_pair.
  rewrite (bool_decide_false (key ∈ _)) by (rewrite !elem_of_cons, elem_of_nil; tauto).
  rewrite (bool_decide_false (key ∈ _)) by (rewrite !elem_of_cons, elem_of_nil; tauto).
  rewrite !bool_decide_false by done. split; [done|].
  unfold endpoint_table. simpl. by rewrite !decide_False by done.
Qed.

Lemma validate_all_spec l acc :
  match validate_all l acc with
  | Ok ps => (∀ key v, (key, v) ∈ l → refuses key v = false) ∧
             ps = acc ++ flat_pairs (l ≫= λ e, endpoint_pair e.1 e.2)
  | Err err => ∃ key v, (key, v) ∈ l ∧ refuses key v = true ∧ kind_of err = Some IllegalArgumentError
  end.
Proof using Type.
  revert acc. induction l as [|[key v] l IH]; intros acc; simpl.
  { split; [by intros ? ? []%elem_of_nil|by rewrite app_nil_r]. }
  pose proof (validate_property_spec key v) as Hv. destruct (validate_property key v) as [ps|err].
  - destruct Hv as [Hr ->]. specialize (IH (acc ++ flat_pairs (endpoint_pair key v))).
    destruct (validate_all l _) as [ps|err].
    + destruct IH as [Hl ->]. split.
      * intros key' v' [[= -> ->]|Hin]%elem_of_cons; [done|by apply Hl].
      * by rewrite flat_pairs_app, app_assoc.
    + destruct IH as (key' & v' & Hin & ?). exists key', v'. split; [by right|done].
  - destruct Hv as [Hr Hk]. exists key, v. split; [by left|done].
Qed.
(** Names determine keys. *)
Lemma endpoint_names i j e e' : endpoint_table !! i = Some e → endpoint_table !! j = Some e' →
  e.2.1 = e'.2.1 ∨ e.1 = e'.1 → i = j.
Proof using Type.
  intros Hi Hj H.
  assert (NoDup (endpoint_table.*2.*1) ∧ NoDup (endpoint_table.*1)) as [Hn Hk]
    by (split; apply (bool_decide_unpack _); vm_compute; exact I).
  rewrite NoDup_alt in Hn, Hk. destruct H as [H|H].
  - apply (Hn i j e.2.1); rewrite !list_lookup_fmap; [by rewrite Hi|by rewrite Hj, H].
  - apply (Hk i j e.1); rewrite !list_lookup_fmap; [by rewrite Hi|by rewrite Hj, H].
Qed.

Lemma endpoint_pair_entry key name read v : (key, (name, read)) ∈ endpoint_table →
  endpoint_pair key v = match read v with Some x => [(name, x)] | None => [] end.
Proof using Type.
  intros [i Hi]%list_elem_of_lookup. unfold endpoint_pair.
  destruct (list_find (λ e, e.1 = key) endpoint_table) as [[j [key' [name' read']]]|] eqn:Hf.
  - apply list_find_Some in Hf as (Hj & Hk & _). simpl in Hk. subst key'.
    pose proof (endpoint_names i j _ _ Hi Hj (or_intror eq_refl)) as ->. by simplify_eq.
  - apply list_find_None in Hf. rewrite Forall_forall in Hf. destruct (Hf _ (list_elem_of_lookup_2 _ _ _ Hi)). done.
Qed.

Lemma endpoint_pair_other key v name :
  (∀ read, (key, (name, read)) ∉ endpoint_table) → effective (flat_pairs (endpoint_pair key v)) name = None.
Proof using Type.
  intros Hn. unfold endpoint_pair.
  destruct (list_find _ endpoint_table) as [[j [key' [name' read']]]|] eqn:Hf; [|done].
  apply list_find_Some in Hf as (Hj & Hk & _). simpl in Hk. subst key'.
  destruct (read' v) as [x|]; [|done]. simpl. rewrite decide_False; [done|].
  intros ->. destruct (Hn read'). by eapply list_elem_of_lookup_2.
Qed.

Lemma effective_pairs l key name read : NoDup l.*1 → (key, (name, read)) ∈ endpoint_table →
  effective (flat_pairs (l ≫= λ e, endpoint_pair e.1 e.2)) name = (list_to_map l : gmap _ _) !! key ≫= read.
Proof using Type.
  intros Hl He. induction l as [|[k v] l IH]; [done|].
  rewrite fmap_cons in Hl. apply NoDup_cons in Hl as [Hk Hl].
  rewrite bind_cons, flat_pairs_app, effective_app, IH by done. simpl.
  destruct (decide (k = key)) as [->|Hne].
  - rewrite lookup_insert_eq, (not_elem_of_list_to_map_1 _ _ Hk). simpl.
    rewrite (endpoint_pair_entry _ _ _ v He). destruct (read v); simpl; [by rewrite decide_True|done].
  - rewrite lookup_insert_ne by done. rewrite endpoint_pair_other; [by case_match|].
    intros read' He'. apply list_elem_of_lookup in He as [i Hi]. apply list_elem_of_lookup in He' as [j Hj].
    pose proof (endpoint_names i j _ _ Hi Hj (or_introl eq_refl)) as ->. congruence.
Qed.

Lemma effective_no_pair l name : name ∉ endpoint_table.*2.*1 →
  effective (flat_pairs (l ≫= λ e, endpoint_pair e.1 e.2)) name = None.
Proof using Type.
  intros Hn. induction l as [|[k v] l IH]; [done|].
  rewrite bind_cons, flat_pairs_app, effective_app, IH. simpl. apply endpoint_pair_other.
  intros read He. apply Hn. apply list_elem_of_fmap. eexists. split; [|apply list_elem_of_fmap; by eexists].
  done.
Qed.

(** C35: the request to provision an endpoint carries the configured properties, in whatever order
    the map is visited: it is for a queue; every name of the C library has the value that the property
    of its key is read as, and no value where there is no such property; nothing else is set.  The
    configuration is refused exactly if it has a property that is refused, and then with an error of
    illegal argument that is about one of those. *)
Theorem endpoint_properties (m : EndpointPropertyMap) l : range_order m l →
  match validateEndpointProperties l with
  | Ok ps =>
      (∀ key v, m !! key = Some v → refuses key v = false) ∧
      effective ps "ENDPOINT_ID" = Some "2" ∧
      (∀ key name read, (key, (name, read)) ∈ endpoint_table → effective ps name = m !! key ≫= read) ∧
      (∀ name, name ∉ endpoint_table.*2.*1 → name ≠ "ENDPOINT_ID" → effective ps name = None)
  | Err err => ∃ key v, m !! key = Some v ∧ refuses key v = true ∧ kind_of err = Some IllegalArgumentError
  end.
Proof using Type.
  intros Hl. pose proof (validate_all_spec l [SolClientEndpointPropID; SolClientEndpointPropQueue]) as Hv.
  fold (validateEndpointProperties l) in Hv.
  assert (∀ key v, (key, v) ∈ l ↔ m !! key = Some v) as Hin by (intros key v; by apply range_order_elem).
  destruct (validateEndpointProperties l) as [ps|err].
  - destruct Hv as [Hr ->].
    assert (NoDup l.*1) as Hnd by (unfold range_order in Hl; rewrite Hl; apply NoDup_fst_map_to_list).
    assert (list_to_map l = m) as Hm.
    { rewrite <-(list_to_map_to_list m). by apply list_to_map_proper. }
    change [SolClientEndpointPropID; SolClientEndpointPropQueue] with (flat_pairs [("ENDPOINT_ID", "2")]).
    split_and!.
    + intros key v Hk. by apply Hr, Hin.
    + rewrite effective_app, effective_no_pair; [done|]. by apply (bool_decide_unpack _); vm_compute.
    + intros key name read He. rewrite effective_app, (effective_pairs l key name read Hnd He), Hm.
      destruct (m !! key ≫= read); [done|]. simpl. rewrite decide_False; [done|]. intros <-.
      assert ("ENDPOINT_ID" ∉ endpoint_table.*2.*1) as Hid by (by apply (bool_decide_unpack _); vm_compute).
      apply Hid. apply list_elem_of_fmap. eexists. split; [|apply list_elem_of_fmap; by eexists]. done.
    + intros name Hn Hid. rewrite effective_app, effective_no_pair by done. simpl. by rewrite decide_False.
  - destruct Hv as (key & v & Hk & ?). exists key, v. by rewrite <-Hin.
Qed.
End endpoint_provisioner.
