(* ===== verification/EndpointProvisionerRuns.v ===== *)
(** Endpoint provisioners in any interleaving: what a call answers is the result of its own request
    (EndpointProvisioner over CoreReceiver.Provisioner and Correlation). *)

From Stdlib Require Import ZArith Lia.
From stdpp Require Import base list gmap relations strings.
From S2P Require Import Prelude GoStrconv GoEffects GoConc Errors Resource Sdt Validation Events Correlation.
From S2P Require CoreReceiver.
From S2P Require Import EndpointProvisioner.

Import CoreReceiver.Provisioner.

(** * Channels of the correlation table *)

(** What a channel holds was sent on it. *)
Definition buffered_was_sent (t : table) : Prop := ∀ c ch ev,
  channels t !! c = Some ch → ev ∈ chan_buf ch → (c, ev) ∈ sent t.

(** An operation keeps the number of channels and the counter. *)
Definition keeps (t t' : table) : Prop :=
  buffered_was_sent t' ∧ length (channels t') = length (channels t) ∧ correlationID t' = correlationID t.

Lemma keeps_trans t1 t2 t3 : keeps t1 t2 → keeps t2 t3 → keeps t1 t3.
Proof. intros (_ & H1 & H2) (H3 & H4 & H5). split; [done|]. by rewrite H4, H5. Qed.

Lemma deliver_keeps c ev t t' : deliver c ev t = Done tt t' → buffered_was_sent t → keeps t t'.
Proof.
  unfold deliver. destruct (channels t !! c) as [ch|] eqn:Hch; [|done].
  unfold chan_send. destruct (chan_closed ch); [done|]. case_decide; [|done].
  intros [= <-] Hb. split; [|simpl; by rewrite length_insert].
  intros c' ch' ev'. simpl. rewrite list_lookup_insert_Some, elem_of_app, list_elem_of_singleton.
  intros [(-> & <- & Hlt)|[Hne Hc']] Hin.
  - simpl in Hin. apply elem_of_app in Hin as [Hin|Hin]; [left; by eapply Hb|right].
    apply list_elem_of_singleton in Hin. congruence.
  - left. by eapply Hb.
Qed.

Lemma resolve_keeps id c ev t t' : (ClearCorrelation id ;;; deliver c ev) t = Done tt t' →
  buffered_was_sent t → keeps t t'.
Proof.
  unfold bind, ClearCorrelation, modify. intros Hd Hb.
  apply deliver_keeps in Hd; [|exact Hb]. exact Hd.
Qed.

Lemma handleEvent_keeps id err t t' : handleEvent id err t = Done tt t' → buffered_was_sent t → keeps t t'.
Proof.
  unfold handleEvent, bind at 1, get. destruct (correlation t !! id) as [c|].
  - intros H Hb. by apply resolve_keeps in H.
  - by intros [= <-] Hb.
Qed.

Lemma drain_keeps err order t t' : drain order err t = Done tt t' → buffered_was_sent t → keeps t t'.
Proof.
  revert t. induction order as [|[id c] order IH]; intros t; [by intros [= <-] Hb|].
  cbn [drain]. unfold bind at 1. unfold ClearCorrelation at 1, modify. unfold bind at 1.
  destruct (deliver c _ _) as [[] t1| |] eqn:Hd; [|done..]. intros Hr Hb.
  apply deliver_keeps in Hd; [|exact Hb]. eapply keeps_trans; [exact Hd|]. apply IH; [done|apply Hd].
Qed.

Lemma take_keeps c t r t' : take_result c t = Done r t' → buffered_was_sent t → keeps t t' ∧
  (∀ ev, r = Some ev → (c, ev) ∈ sent t).
Proof.
  unfold take_result. destruct (channels t !! c) as [ch|] eqn:Hch; [|by intros [= <- <-]].
  unfold chan_try_recv. destruct (chan_buf ch) as [|ev buf] eqn:Hbuf.
  { destruct (chan_closed ch); by intros [= <- <-]. }
  intros [= <- <-] Hb. split; [split; [|simpl; by rewrite length_insert]|].
  - intros c' ch' ev'. simpl. rewrite list_lookup_insert_Some.
    intros [(-> & <- & Hlt)|[Hne Hc']] Hin; [|by eapply Hb].
    eapply Hb; [exact Hch|]. rewrite Hbuf. by right.
  - intros ? [= <-]. eapply Hb; [exact Hch|]. rewrite Hbuf. by left.
Qed.

(** * Any number of calls *)

Section runs.
Context {arch : GoArch} {go_print : GoPrint}.
Context (order : EndpointPropertyMap → list (string * property_value)).
Context (table_order : gmap Z nat → list (Z * nat)).
Hypothesis table_order_ok : ∀ m, range_order m (table_order m).

Abbreviation wp A := (prog world A).

Inductive call : Type :=
| CallNew
| CallWithProperty (p : nat) (name : string) (v : property_value)
| CallFrom (p : nat) (provider : option nat)
| CallProvision (p : nat) (queueName : string) (ignoreExists : bool)
| CallDeprovision (p : nat) (queueName : string) (ignoreMissing : bool)
| ResultEvent (ok : bool) (event : sessionEventInfo)
| ServiceStarts
| ServiceTerminates.

Definition call_prog (c : call) : wp unit :=
  match c with
  | CallNew => NewEndpointProvisionerImpl ;;;; PRet tt
  | CallWithProperty p name v => WithProperty p name v
  | CallFrom p provider => FromConfigurationProvider order p provider
  | CallProvision p queueName b => ProvisionAsync order p queueName b
  | CallDeprovision p queueName b => DeprovisionAsync order p queueName b
  | ResultEvent ok event => result_event ok event
  | ServiceStarts => service_starts
  | ServiceTerminates => service_terminates table_order
  end.

Definition new_world (refusals : list (option ErrorInfo)) : world :=
  mkWorld newCcsmpEndpointProvisioner refusals [] [] [].

(** The request that a call of core made. *)
Definition call_id (c : CoreReceiver.receiver_call) : Z :=
  match c with
  | CoreReceiver.EndpointProvisionAsync _ id _ | CoreReceiver.EndpointDeprovisionAsync _ id _ => id
  | _ => 0
  end.

Definition calls_of (w : world) : list CoreReceiver.receiver_call := provisioner_calls (core w).
Definition table_of (w : world) : table := provisions (core w).

(** The properties of a request for a queue, of a configuration that was validated. *)
Definition request_for (queueName : string) (ps : list string) : Prop :=
  ∃ m l, validateEndpointProperties (order m) = Ok l ∧ ps = l ++ [SolClientEndpointPropName; queueName].

(** An answer of success is the success of a request for that queue. *)
Definition truthful (w : world) (t : told) : Prop :=
  match t with
  | Provisioned queueName outcome =>
      (outcome_ok outcome = true ↔ outcome_err outcome = None) ∧
      (outcome_ok outcome = true → ∃ ps id b, request_for queueName ps ∧
         CoreReceiver.EndpointProvisionAsync ps id b ∈ calls_of w ∧ (id, None) ∈ came w)
  | Deprovisioned queueName err =>
      err = None → ∃ ps id b, request_for queueName ps ∧
        CoreReceiver.EndpointDeprovisionAsync ps id b ∈ calls_of w ∧ (id, None) ∈ came w
  end.

Section protocol.
Context (N : nat).

Definition used (w : world) : nat := Z.to_nat (correlationID (table_of w)).
Definition held (w : world) (_ : unit) : nat := used w.
Definition total (_ : unit) : nat := N.

Record inv (w : world) : Prop := mkInv {
  inv_table : table_ok (N - used w) (table_of w);
  inv_channels : Z.of_nat (length (channels (table_of w))) = correlationID (table_of w);
  inv_buffered : buffered_was_sent (table_of w);
  inv_ids : ∀ id c, correlation (table_of w) !! id = Some c → id = (Z.of_nat c + 1)%Z;
  inv_sent : ∀ c ev, (c, ev) ∈ sent (table_of w) → ev_id ev = (Z.of_nat c + 1)%Z ∧
    (ev_err ev = None → (ev_id ev, None) ∈ came w);
  inv_calls : call_id <$> calls_of w = Z.of_nat <$> seq 1 (used w);
  inv_told : ∀ t, t ∈ told_ w → truthful w t;
}.

Record move (w w' : world) : Prop := mkMove {
  move_calls : ∀ c, c ∈ calls_of w → c ∈ calls_of w';
  move_came : ∀ x, x ∈ came w → x ∈ came w';
}.

Abbreviation kr K n p Q := (kproto inv move held total K (λ _ : unit, n) p Q).
Abbreviation wstable := (stable inv move).

Lemma truthful_move w w' t : move w w' → truthful w t → truthful w' t.
Proof using Type.
  intros [Hc Hm]. destruct t as [q o|q err]; simpl.
  - intros [Ho H]. split; [done|]. intros Hok. destruct (H Hok) as (ps & id & b & ? & ? & ?). exists ps, id, b. auto.
  - intros H Hok. destruct (H Hok) as (ps & id & b & ? & ? & ?). exists ps, id, b. auto.
Qed.

Lemma stable_called c : wstable (λ w, c ∈ calls_of w).
Proof using Type. intros w w' _ Hm. apply (move_calls _ _ Hm). Qed.
Lemma stable_came x : wstable (λ w, x ∈ came w).
Proof using Type. intros w w' _ Hm. apply (move_came _ _ Hm). Qed.

(** An action outside of core and of the records. *)
Lemma k_outside {V B} (f : world → act world V) K n (k : V → wp B) Q : wstable K →
  (∀ w, match f w with
        | AOk _ w' => core w' = core w ∧ came w' = came w ∧ told_ w' = told_ w
        | ABlock => True
        | APanic _ => False
        end) →
  (∀ v, kr K n (k v) Q) → kr K n (PAct f k) Q.
Proof using Type.
  intros HK Hf Hk w Hw _ HKw. specialize (Hf w). destruct (f w) as [v w'| |]; [|done..].
  destruct Hf as (Hc & Hm & Ht).
  assert (move w w') as Hmv by (split; unfold calls_of; by rewrite ?Hc, ?Hm).
  split; [|split; [done|]].
  - assert (∀ t, truthful w t → truthful w' t) as Htr by (intros t; by apply truthful_move).
    destruct Hw. split; unfold used, table_of, calls_of in *; rewrite ?Hc, ?Hm; try done.
    rewrite Ht. auto.
  - exists (λ _, n), K. split; [|split; [exact (HK w w' Hw Hmv HKw)|by split]].
    intros []. unfold held, used, table_of. rewrite Hc. lia.
Qed.

Lemma ep_k_load {V B} (view : world → V) K n (k : V → wp B) Q : wstable K →
  (∀ w, kr K n (k (view w)) Q) → kr K n (pbind (load view) k) Q.
Proof using Type.
  intros HK Hk w Hw _ HKw. split; [done|]. split; [by split|]. exists (λ _, n), K.
  split; [intros []; reflexivity|]. split; [done|]. split; [done|apply Hk].
Qed.

(** ** A request *)

Lemma newCorrelation_table n t : table_ok (S n) t → buffered_was_sent t →
  ∃ t', newCorrelation t = Done ((correlationID t + 1)%Z, length (channels t)) t' ∧ table_ok n t' ∧
    buffered_was_sent t' ∧ channels t' = channels t ++ [make_chan 1] ∧
    correlationID t' = (correlationID t + 1)%Z ∧ sent t' = sent t ∧
    correlation t' = <[(correlationID t + 1)%Z := length (channels t)]> (correlation t).
Proof using Type.
  intros Ht Hb. destruct (newCorrelation_ok n t Ht) as (t' & Hr & Ht' & Hc & _ & Hs).
  exists t'. assert (channels t' = channels t ++ [make_chan 1] ∧ correlationID t' = (correlationID t + 1)%Z) as [Hch Hid].
  { unfold newCorrelation in Hr. injection Hr as Hw <-. done. }
  split_and!; try done. intros c ch ev Hl Hin. rewrite Hs. rewrite Hch in Hl.
  apply lookup_app_Some in Hl as [Hl|[_ Hl]]; [by eapply Hb|].
  apply list_lookup_singleton_Some in Hl as [_ <-]. by apply elem_of_nil in Hin.
Qed.

(** The two requests of core. *)
Definition asks (op : option ErrorInfo → M ccsmpBackedEndpointProvisioner (res ErrorInfo (Z * nat)))
    (call : Z → CoreReceiver.receiver_call) : Prop :=
  (∀ id, call_id (call id) = id) ∧
  ∀ e, op e = (let* r := getNewProvisionCorrelation in
               modify (log_provision (call (fst r))) ;;;
               match e with
               | Some e => ClearProvisionCorrelation (fst r) ;;; ret (Err e)
               | None => ret (Ok r)
               end).

Lemma asks_provision ps b : asks (Provision ps b) (λ id, CoreReceiver.EndpointProvisionAsync ps id b).
Proof using Type. by split. Qed.
Lemma asks_deprovision ps b : asks (Deprovision ps b) (λ id, CoreReceiver.EndpointDeprovisionAsync ps id b).
Proof using Type. by split. Qed.

Lemma core_request op call e (c : ccsmpBackedEndpointProvisioner) n : asks op call →
  table_ok (S n) (provisions c) → buffered_was_sent (provisions c) →
  ∃ c', op e c = Done (match e with
                       | Some e => Err e
                       | None => Ok ((correlationID (provisions c) + 1)%Z, length (channels (provisions c)))
                       end) c' ∧
    table_ok n (provisions c') ∧ buffered_was_sent (provisions c') ∧
    length (channels (provisions c')) = S (length (channels (provisions c))) ∧
    correlationID (provisions c') = (correlationID (provisions c) + 1)%Z ∧
    sent (provisions c') = sent (provisions c) ∧
    (∀ id ch, correlation (provisions c') !! id = Some ch →
       (id = (correlationID (provisions c) + 1)%Z ∧ ch = length (channels (provisions c))) ∨
       correlation (provisions c) !! id = Some ch) ∧
    provisioner_calls c' = provisioner_calls c ++ [call (correlationID (provisions c) + 1)%Z].
Proof using Type.
  intros [_ Hop] Ht Hb. rewrite Hop. clear Hop.
  destruct (newCorrelation_table n _ Ht Hb) as (t' & Hr & Ht' & Hb' & Hch & Hid & Hs & Hco).
  unfold bind at 1, getNewProvisionCorrelation, on_provisions, zoom. rewrite Hr.
  destruct e as [e|]; eexists; (split; [reflexivity|]); simpl.
  - split_and!; [by apply Clear_ok|exact Hb'|by rewrite Hch, length_app, Nat.add_comm|done|done| |done].
    intros id ch. rewrite Hco, delete_insert_eq, lookup_delete_Some. intros [_ ?]. by right.
  - split_and!; [done|done|by rewrite Hch, length_app, Nat.add_comm|done|done| |done].
    intros id ch. rewrite Hco, lookup_insert_Some. intros [[<- <-]|[_ ?]]; [by left|by right].
Qed.

Lemma ep_k_request {B} op call K (k : res ErrorInfo (Z * nat) → wp B) Q : asks op call → wstable K →
  (∀ e, kr K 0 (k (Err e)) Q) →
  (∀ id c, id = (Z.of_nat c + 1)%Z → kr (λ w, K w ∧ call id ∈ calls_of w) 0 (k (Ok (id, c))) Q) →
  kr K 1 (pbind (request_core op) k) Q.
Proof using Type.
  intros Hop HK Herr Hok w Hw Hf HKw.
  assert (used w + 1 ≤ N) as Hu by apply (Hf tt).
  assert (N - used w = S (N - used w - 1)) as Hn by lia.
  pose proof (inv_table w Hw) as Ht. rewrite Hn in Ht.
  destruct (core_request op call (next_refusal w) (core w) _ Hop Ht (inv_buffered w Hw))
    as (c' & Hr & Ht' & Hb' & Hlen & Hid & Hs & Hco & Hcalls).
  simpl. rewrite Hr.
  set (w' := mkWorld c' (tail (refusals w)) (store w) (came w) (told_ w)).
  assert (0 ≤ correlationID (table_of w))%Z as Hpos by apply (ok_counter _ _ (inv_table w Hw)).
  assert (used w' = S (used w)) as Hu'.
  { unfold used, table_of, w'. simpl. rewrite Hid. unfold table_of in Hpos. lia. }
  assert (move w w') as Hmv.
  { split; [|done]. intros x Hx. unfold calls_of, w'. simpl. rewrite Hcalls. apply elem_of_app. by left. }
  assert (inv w') as Hi.
  { split; unfold table_of, w'; simpl.
    - replace (N - used _) with (N - used w - 1) by (unfold w' in Hu'; lia). exact Ht'.
    - rewrite Hlen, Hid. pose proof (inv_channels w Hw). unfold table_of in *. lia.
    - exact Hb'.
    - intros id ch [[-> ->]|H]%Hco; [|by apply (inv_ids w Hw)].
      pose proof (inv_channels w Hw). unfold table_of in *. lia.
    - rewrite Hs. apply (inv_sent w Hw).
    - pose proof (inv_calls w Hw) as Hcs. unfold calls_of in *. simpl. rewrite Hcalls, fmap_app, Hcs.
      fold w'. rewrite Hu', seq_S, fmap_app. f_equal. simpl. rewrite (proj1 Hop). f_equal.
      unfold used, table_of in *. lia.
    - intros t Hin. eapply truthful_move; [exact Hmv|]. by apply (inv_told w Hw). }
  split; [exact Hi|]. split; [exact Hmv|].
  assert (K w') as HKw' by exact (HK w w' Hw Hmv HKw).
  assert (conserves held w (λ _, 1) w' (λ _, 0)) as Hcons by (intros []; unfold held; rewrite Hu'; lia).
  destruct (next_refusal w) as [e|].
  - exists (λ _, 0), K. split; [exact Hcons|]. split; [exact HKw'|]. split; [exact HK|]. apply Herr.
  - eexists (λ _, 0), _. split; [exact Hcons|].
    split; [|split; [|apply Hok; pose proof (inv_channels w Hw); unfold table_of in *; lia]].
    + split; [exact HKw'|]. unfold calls_of, w'. simpl. rewrite Hcalls. apply elem_of_app. right.
      by apply list_elem_of_singleton.
    + apply stable_and; [exact HK|apply stable_called].
Qed.

(** ** Results *)

(** An action that changes the channels and the outstanding requests. *)
Lemma inv_results w w' : inv w → keeps (table_of w) (table_of w') → calls_of w' = calls_of w →
  table_ok (N - used w) (table_of w') →
  (∀ x, x ∈ came w → x ∈ came w') →
  (∀ id c, correlation (table_of w') !! id = Some c → correlation (table_of w) !! id = Some c) →
  (∀ c ev, (c, ev) ∈ sent (table_of w') → (c, ev) ∈ sent (table_of w) ∨
     correlation (table_of w) !! ev_id ev = Some c ∧ (ev_err ev = None → (ev_id ev, None) ∈ came w')) →
  told_ w' = told_ w → inv w' ∧ move w w' ∧ used w' = used w.
Proof using Type.
  intros Hw (Hb & Hlen & Hid) Hcalls Ht Hcame Hco Hs Htold.
  assert (used w' = used w) as Hu by (unfold used; by rewrite Hid).
  assert (move w w') as Hmv by (split; [by rewrite Hcalls|done]).
  split; [|by split]. split.
  - by rewrite Hu.
  - by rewrite Hlen, Hid, (inv_channels w Hw).
  - done.
  - intros id c H. by apply (inv_ids w Hw), Hco.
  - intros c ev [Hin|[Hc Hev]]%Hs.
    + destruct (inv_sent w Hw c ev Hin) as [? Hn]. split; [done|]. auto.
    + split; [by apply (inv_ids w Hw)|done].
  - by rewrite Hcalls, (inv_calls w Hw), Hu.
  - rewrite Htold. intros t Hin. eapply truthful_move; [exact Hmv|]. by apply (inv_told w Hw).
Qed.

Lemma k_results {V B} (f : world → act world V) (φ : V → world → Prop) K n (k : V → wp B) Q : wstable K →
  (∀ v, wstable (φ v)) →
  (∀ w, inv w → K w → match f w with
        | AOk v w' => inv w' ∧ move w w' ∧ used w' = used w ∧ φ v w'
        | ABlock => True
        | APanic _ => False
        end) →
  (∀ v, kr (λ w, K w ∧ φ v w) n (k v) Q) → kr K n (PAct f k) Q.
Proof using Type.
  intros HK Hφ Hf Hk w Hw _ HKw. specialize (Hf w Hw HKw). destruct (f w) as [v w'| |]; [|done..].
  destruct Hf as (Hi & Hmv & Hu & Hv). split; [done|]. split; [done|].
  exists (λ _, n), (λ w, K w ∧ φ v w). split; [intros []; unfold held; by rewrite Hu|].
  split; [split; [exact (HK w w' Hw Hmv HKw)|done]|]. split; [by apply stable_and|apply Hk].
Qed.

Lemma ep_k_await {B} id c K n (k : corr_event → wp B) Q : wstable K → id = (Z.of_nat c + 1)%Z →
  (∀ ev, kr (λ w, K w ∧ (ev_err ev = None → (id, None) ∈ came w)) n (k ev) Q) →
  kr K n (pbind (await_result c) k) Q.
Proof using Type.
  intros HK Hid Hk. apply (k_results _ (λ ev w, ev_err ev = None → (id, None) ∈ came w)); [done| | |exact Hk].
  { intros ev. apply stable_impl, stable_came. }
  intros w Hw _. unfold on_provisions, zoom. fold (table_of w).
  destruct (take_result_ok _ c _ (inv_table w Hw)) as (r & t' & Hr & Ht' & Hc & Hs). rewrite Hr.
  destruct (take_keeps c _ _ _ Hr (inv_buffered w Hw)) as [Hk' Hin].
  destruct r as [ev|]; [|done]. specialize (Hin ev eq_refl).
  destruct (inv_results w (set_core (set_provisions t' (core w)) w) Hw) as (? & ? & ?); try done.
  - intros id' c'. change (correlation (table_of (set_core _ w))) with (correlation t'). by rewrite Hc.
  - intros c' ev'. change (sent (table_of (set_core _ w))) with (sent t'). rewrite Hs. by left.
  - split_and!; [done..|]. intros He. destruct (inv_sent w Hw c ev Hin) as [Hev Hcame].
    rewrite Hev, <-Hid in Hcame. by apply Hcame.
Qed.

(** An action from which nothing is learnt. *)
Lemma ep_k_change {V B} (f : world → act world V) K n (k : V → wp B) Q : wstable K →
  (∀ w, inv w → match f w with
        | AOk v w' => inv w' ∧ move w w' ∧ used w' = used w
        | ABlock => True
        | APanic _ => False
        end) →
  (∀ v, kr K n (k v) Q) → kr K n (PAct f k) Q.
Proof using Type.
  intros HK Hf Hk w Hw _ HKw. specialize (Hf w Hw). destruct (f w) as [v w'| |]; [|done..].
  destruct Hf as (Hi & Hmv & Hu). split; [done|]. split; [done|].
  exists (λ _, n), K. split; [intros []; unfold held; by rewrite Hu|].
  split; [exact (HK w w' Hw Hmv HKw)|]. split; [done|apply Hk].
Qed.

Lemma k_result_event ok event : kr (λ _, True) 1 (result_event ok event) (λ _ _ _, True).
Proof using Type.
  apply ep_k_change; [done| |done]. intros w Hw.
  assert (∀ err, ∃ t', handleEvent (correlationP event) err (table_of w) = Done tt t' ∧
    let w' := mkWorld (set_provisions t' (core w)) (refusals w) (store w) (came w ++ [(correlationP event, err)]) (told_ w) in
    inv w' ∧ move w w' ∧ used w' = used w) as Hr.
  { intros err. destruct (handleEvent_ok _ (correlationP event) err _ (inv_table w Hw)) as (t' & Hr & Ht' & Hc & Hs).
    exists t'. split; [done|]. apply handleEvent_keeps in Hr; [|apply (inv_buffered w Hw)].
    apply inv_results; [done|exact Hr|done|exact Ht'| | | |done].
    - intros x Hx. simpl. apply elem_of_app. by left.
    - intros id c Hin. change (correlation t' !! id = Some c) in Hin. rewrite Hc in Hin.
      by apply lookup_delete_Some in Hin as [_ ?].
    - intros c ev Hin. change ((c, ev) ∈ sent t') in Hin. rewrite Hs in Hin.
      apply elem_of_app in Hin as [Hin|Hin]; [by left|right].
      destruct (correlation (table_of w) !! correlationP event) as [c'|] eqn:Hc'; [|by apply elem_of_nil in Hin].
      apply list_elem_of_singleton in Hin as [= -> ->]. split; [done|]. simpl. intros ->. apply elem_of_app. right.
      by apply list_elem_of_singleton. }
  destruct ok; unfold handleProvisionAndDeprovisionOK, handleProvisionAndDeprovisionErr,
    handleProvisionAndDeprovisionEvent, on_provisions, zoom; fold (table_of w).
  - destruct (Hr None) as (t' & He & Hw'). rewrite He. exact Hw'.
  - destruct (Hr (info_err event)) as (t' & He & Hw'). rewrite He. exact Hw'.
Qed.

Lemma k_service_terminates : kr (λ _, True) 1 (service_terminates table_order) (λ _ _ _, True).
Proof using table_order_ok.
  apply ep_k_change; [done| |done]. intros w Hw. case_decide; [|by split_and!].
  unfold on_provisions, zoom. change (provisions (set_isRunning 0 (core w))) with (table_of w).
  destruct (drain_ok _ provision_termination_error (table_order (correlation (table_of w))) _ (inv_table w Hw)
    (table_order_ok _)) as (t' & Hr & Ht' & Hc & Hs).
  fold (table_of w). rewrite Hr. apply drain_keeps in Hr; [|apply (inv_buffered w Hw)].
  apply inv_results; [done|exact Hr|done|exact Ht'|done| | |done].
  - intros id c Hin. change (correlation t' !! id = Some c) in Hin. by rewrite Hc, lookup_empty in Hin.
  - intros c ev Hin. change ((c, ev) ∈ sent t') in Hin. rewrite Hs in Hin.
    apply elem_of_app in Hin as [Hin|([id c'] & Heq & Hin)%list_elem_of_fmap]; [by left|right].
    injection Heq as -> ->. split; [|done]. simpl. by apply (range_order_elem _ _ _ _ (table_order_ok _)).
Qed.

Lemma k_service_starts : kr (λ _, True) 1 service_starts (λ _ _ _, True).
Proof using Type.
  apply ep_k_change; [done| |done]. intros w Hw. case_decide; [|by split_and!].
  apply inv_results; try done; [by split; [apply (inv_buffered w Hw)|]|apply (inv_table w Hw)|by left].
Qed.

(** ** The calls *)

Lemma ep_k_tell t K : wstable K → (∀ w, K w → truthful w t) → kr K 0 (tell t) (λ _ _ _, True).
Proof using Type.
  intros HK Ht w Hw _ HKw. pose proof (Ht w HKw) as Htw.
  split; [|split; [by split|]].
  - destruct Hw. split; try done. intros t' Hin. simpl in Hin.
    apply elem_of_app in Hin as [Hin|Hin]; [by apply inv_told0|].
    apply list_elem_of_singleton in Hin. by subst.
  - exists (λ _, 0), (λ _, True). split; [intros []; reflexivity|]. by split.
Qed.

Lemma k_tells t K n : wstable K → (∀ w, K w → truthful w t) → kr K n (tell t) (λ _ _ _, True).
Proof using Type.
  intros HK Ht. eapply kproto_drop; [done| | |by apply ep_k_tell]; [|done]. intros x. simpl. lia.
Qed.

(** The validated properties of a configuration. *)
Lemma request_for_configuration w p l queueName :
  validateEndpointProperties (order (properties_of p w)) = Ok l →
  request_for queueName (l ++ [SolClientEndpointPropName; queueName]).
Proof using Type. intros Hl. by exists (properties_of p w), l. Qed.

Lemma k_Provision p queueName b : kr (λ _, True) 1 (ProvisionAsync order p queueName b) (λ _ _ _, True).
Proof using Type.
  apply kproto_bind. apply ep_k_load; [done|]. intros w0. destruct (negb (IsRunning w0)).
  { apply k_tells; [done|]. intros w _. by split. }
  apply ep_k_load; [done|]. intros w1.
  destruct (validateEndpointProperties (order (properties_of p w1))) as [l|err] eqn:Hv.
  2: { apply k_tells; [done|]. intros w _. by split. }
  eapply ep_k_request; [apply asks_provision|done| |].
  { intros e. apply k_tells; [done|]. intros w _. by split. }
  intros id c Hid. eapply ep_k_await; [apply stable_and; [done|apply stable_called]|exact Hid|].
  intros ev. destruct (ev_err ev) as [err|]; (apply k_tells;
    [apply stable_and; [apply stable_and; [done|apply stable_called]|apply stable_impl, stable_came]|]).
  - intros w _. by split.
  - intros w [[_ Hc] Hcame]. split; [done|]. intros _. eexists _, id, b.
    split; [by eapply request_for_configuration|]. split; [exact Hc|by apply Hcame].
Qed.

Lemma k_Deprovision p queueName b : kr (λ _, True) 1 (DeprovisionAsync order p queueName b) (λ _ _ _, True).
Proof using Type.
  apply kproto_bind. apply ep_k_load; [done|]. intros w0. destruct (negb (IsRunning w0)).
  { by apply k_tells. }
  apply ep_k_load; [done|]. intros w1.
  destruct (validateEndpointProperties (order (properties_of p w1))) as [l|err] eqn:Hv.
  2: { by apply k_tells. }
  eapply ep_k_request; [apply asks_deprovision|done| |].
  { intros e. by apply k_tells. }
  intros id c Hid. eapply ep_k_await; [apply stable_and; [done|apply stable_called]|exact Hid|].
  intros ev. destruct (ev_err ev) as [err|]; (apply k_tells;
    [apply stable_and; [apply stable_and; [done|apply stable_called]|apply stable_impl, stable_came]|done || idtac]).
  intros w [[_ Hc] Hcame] _. eexists _, id, b.
  split; [by eapply request_for_configuration|]. split; [exact Hc|by apply Hcame].
Qed.

Lemma k_WithProperty p name v n : kr (λ _, True) n (WithProperty p name v) (λ _ _ _, True).
Proof using Type. by apply k_outside. Qed.

Lemma k_merge p props n : kr (λ _, True) n (mergeEndpointPropertyMap p props) (λ _ _ _, True).
Proof using Type. induction props as [|[key v] props IH]; [done|]. by apply k_outside. Qed.

Lemma ep_k_call_prog c : kr (λ _, True) 1 (call_prog c) (λ _ _ _, True).
Proof using table_order_ok.
  destruct c.
  - by apply k_outside.
  - apply k_WithProperty.
  - destruct provider as [q|]; [|done]. apply ep_k_load; [done|]. intros w. apply k_merge.
  - apply k_Provision.
  - apply k_Deprovision.
  - apply k_result_event.
  - apply k_service_starts.
  - apply k_service_terminates.
Qed.

Lemma inv_new_world refusals : (Z.of_nat N < 2 ^ 64)%Z → inv (new_world refusals).
Proof using Type.
  intros HN. split; unfold used, table_of, calls_of; simpl.
  - rewrite Nat.sub_0_r. by apply new_table_ok.
  - done.
  - by intros c ch ev.
  - intros id c. by rewrite lookup_empty.
  - by intros c ev Hin%elem_of_nil.
  - done.
  - by intros t Hin%elem_of_nil.
Qed.

Lemma scene_ok_calls refusals calls : length calls = N → (Z.of_nat N < 2 ^ 64)%Z →
  kpool_ok inv move held total (new_world refusals, call_prog <$> calls).
Proof using table_order_ok.
  intros Hl HN. exists (replicate N (λ _ : unit, 1, λ _ : world, True)). split; [by apply inv_new_world|]. split.
  - rewrite <-Hl. clear Hl. simpl. induction calls as [|c calls IH]; [constructor|].
    constructor; [|exact IH]. split; [apply ep_k_call_prog|]. by split.
  - intros []. simpl. rewrite fmap_replicate. unfold held, used, total. simpl.
    enough (sum_list (replicate N 1) = N) by lia. clear. by induction N as [|m IH]; simpl; [|rewrite IH].
Qed.
End protocol.


(** A refused request leaves nothing in the table of outstanding requests. *)
Lemma refused_request op call e (c : ccsmpBackedEndpointProvisioner) n : asks op call →
  table_ok (S n) (provisions c) →
  ∃ c', op (Some e) c = Done (Err e) c' ∧ correlation (provisions c') = correlation (provisions c) ∧
    provisioner_calls c' = provisioner_calls c ++ [call (correlationID (provisions c) + 1)%Z].
Proof using Type.
  intros [_ Hop] Ht. rewrite Hop. clear Hop.
  destruct (newCorrelation_ok n _ Ht) as (t' & Hr & _ & Hc & Hnone & _).
  unfold bind at 1, getNewProvisionCorrelation, on_provisions, zoom. rewrite Hr.
  eexists. split; [reflexivity|]. split; [|done]. simpl. rewrite Hc. by apply delete_insert_id.
Qed.

(** The calls that fail before a result is awaited: without a running service, and with a
    configuration that is refused, both [Provision] and [Deprovision] answer the error and do nothing;
    where the C library refuses the request they answer its error and leave no request outstanding.
    [Deprovision] thus fails on the configuration that it does not need. *)
Theorem failed_requests p queueName b w n : table_ok (S n) (table_of w) →
  let properties := order (properties_of p w) in
  (IsRunning w = false →
     run (EndpointProvisioner.Provision order p queueName b) w =
       Done (mkOutcome (Some UnableToProvisionParentServiceNotStarted) false) w ∧
     run (EndpointProvisioner.Deprovision order p queueName b) w =
       Done (Some UnableToDeprovisionParentServiceNotStarted) w) ∧
  (∀ err, IsRunning w = true → validateEndpointProperties properties = Err err →
     run (EndpointProvisioner.Provision order p queueName b) w = Done (mkOutcome (Some err) false) w ∧
     run (EndpointProvisioner.Deprovision order p queueName b) w = Done (Some err) w) ∧
  (∀ l e rest, IsRunning w = true → validateEndpointProperties properties = Ok l →
     refusals w = Some e :: rest →
     ∃ w1 w2, let id := (correlationID (table_of w) + 1)%Z in
       let request := l ++ [SolClientEndpointPropName; queueName] in
       run (EndpointProvisioner.Provision order p queueName b) w =
         Done (mkOutcome (Some (ToNativeError e FailedToProvisionEndpoint)) false) w1 ∧
       run (EndpointProvisioner.Deprovision order p queueName b) w =
         Done (Some (ToNativeError e FailedToDeprovisionEndpoint)) w2 ∧
       correlation (table_of w1) = correlation (table_of w) ∧
       correlation (table_of w2) = correlation (table_of w) ∧
       calls_of w1 = calls_of w ++ [CoreReceiver.EndpointProvisionAsync request id b] ∧
       calls_of w2 = calls_of w ++ [CoreReceiver.EndpointDeprovisionAsync request id b]).
Proof using Type.
  intros Ht properties. split; [|split].
  - intros Hr. unfold EndpointProvisioner.Provision, EndpointProvisioner.Deprovision. simpl. by rewrite Hr.
  - intros err Hr Hv. unfold EndpointProvisioner.Provision, EndpointProvisioner.Deprovision.
    cbn -[validateEndpointProperties]. rewrite Hr. cbn -[validateEndpointProperties]. fold properties. by rewrite Hv.
  - intros l e rest Hr Hv Href.
    destruct (refused_request _ _ e (core w) n (asks_provision (l ++ [SolClientEndpointPropName; queueName]) b) Ht)
      as (c1 & H1 & Hc1 & Hl1).
    destruct (refused_request _ _ e (core w) n (asks_deprovision (l ++ [SolClientEndpointPropName; queueName]) b) Ht)
      as (c2 & H2 & Hc2 & Hl2).
    unfold EndpointProvisioner.Provision, EndpointProvisioner.Deprovision.
    cbn -[validateEndpointProperties CoreReceiver.Provisioner.Provision CoreReceiver.Provisioner.Deprovision].
    rewrite Hr. cbn -[validateEndpointProperties CoreReceiver.Provisioner.Provision CoreReceiver.Provisioner.Deprovision].
    fold properties. rewrite Hv.
    cbn -[CoreReceiver.Provisioner.Provision CoreReceiver.Provisioner.Deprovision ToNativeError].
    assert (next_refusal w = Some e) as -> by (unfold next_refusal; by rewrite Href).
    rewrite H1, H2. by eexists _, _.
Qed.
End runs.

(** * Examples *)

#[export] Instance example_print : GoPrint := {| sprint_other _ := "?" |}.

Definition example_properties : EndpointPropertyMap :=
  {[ EndpointPropertyExclusive := Value (DBool true); EndpointPropertyPermission := Permission EndpointPermissionConsume;
     EndpointPropertyQuotaMB := Value (DInt (-1)) ]}.

Lemma endpoint_properties_witness :
  ∃ ps, validateEndpointProperties (map_to_list example_properties) = Ok ps ∧
    effective ps "ENDPOINT_PERMISSION" = Some "c" ∧ effective ps "ENDPOINT_QUOTA_MB" = Some "18446744073709551615".
Proof.
  assert (range_order example_properties (map_to_list example_properties)) as Ho by (unfold range_order; reflexivity).
  pose proof (endpoint_properties example_properties _ Ho) as H.
  destruct (validateEndpointProperties (map_to_list example_properties)) as [ps|err] eqn:Hv.
  - exists ps. destruct H as (_ & _ & H & _). split; [reflexivity|]. split.
    + rewrite (H EndpointPropertyPermission "ENDPOINT_PERMISSION" reads_permission); [vm_compute; reflexivity|].
      unfold endpoint_table. do 5 right. left.
    + rewrite (H EndpointPropertyQuotaMB "ENDPOINT_QUOTA_MB" (λ v, sprint_int <$> reads_uint64 v));
        [vm_compute; reflexivity|]. unfold endpoint_table. do 6 right. left.
  - exfalso. revert Hv. vm_compute. discriminate.
Defined.

Lemma failed_requests_witness : ∃ err w,
  w = mkWorld (set_isRunning 1 newCcsmpEndpointProvisioner) []
        [ {[ EndpointPropertyDurable := Value (DFloat64 0) ]} : EndpointPropertyMap ] [] [] ∧
  run (EndpointProvisioner.Deprovision map_to_list 0 "q" true) w = Done (Some err) w.
Proof.
  eexists _, _. split; [reflexivity|].
  edestruct (failed_requests map_to_list 0 "q" true) as (_ & H & _);
    [|edestruct H as [_ Hd]; [| |exact Hd]; vm_compute; reflexivity].
  apply (new_table_ok 1). done.
Defined.

(** A service that starts; a queue is provisioned and the broker confirms it. *)
Definition example_event : sessionEventInfo := mkEventInfo None "" 1 0.
Definition example_calls : list call :=
  [ServiceStarts; CallNew; CallProvision 0 "q" true; ResultEvent true example_event].
