(* ===== verification/PersistentReceiverBuilder.v ===== *)
(** The builder of the persistent receiver: the second half of
    internal/impl/receiver/persistent_message_receiver_impl.go, with the replay strategies of
    pkg/solace/config/message_receiver_strategies.go.

    A property holds an interface value: one of the values of the Sdt file, or one of the named
    types that only these properties have.  What is built is the record that [construct] is given;
    the flow properties in it are names and values by turns, as the C library takes them. *)

From Stdlib Require Import ZArith Lia Ascii.
From stdpp Require Import base list gmap strings.
From S2P Require Import Prelude GoStrconv GoEffects Errors Resource Sdt Validation.

#[local] Open Scope Z_scope.

(** * Names *)

Definition ReceiverPropertyPersistentMissingResourceCreationStrategy : string :=
  "solace.messaging.receiver.persistent.missing-resource-creation-strategy".
Definition ReceiverPropertyPersistentMessageSelectorQuery : string :=
  "solace.messaging.receiver.persistent.selector-query".
Definition ReceiverPropertyPersistentStateChangeListener : string :=
  "solace.messaging.receiver.persistent.state-change-listener".
Definition ReceiverPropertyPersistentMessageAckStrategy : string :=
  "solace.messaging.receiver.persistent.ack.strategy".
Definition ReceiverPropertyPersistentMessageRequiredOutcomeSupport : string :=
  "solace.messaging.receiver.persistent.ack.required-message-outcome-support".
Definition ReceiverPropertyPersistentMessageReplayStrategy : string :=
  "solace.messaging.receiver.persistent.replay.strategy".
Definition ReceiverPropertyPersistentMessageReplayStrategyTimeBasedStartTime : string :=
  "solace.messaging.receiver.persistent.replay.timebased-start-time".
Definition ReceiverPropertyPersistentMessageReplayStrategyIDBasedReplicationGroupMessageID : string :=
  "solace.messaging.receiver.persistent.replay.replication-group-message-id".

Definition PersistentReplayAll : string := "REPLAY_ALL".
Definition PersistentReplayTimeBased : string := "REPLAY_TIME_BASED".
Definition PersistentReplayIDBased : string := "REPLAY_ID_BASED".
Definition PersistentReceiverDoNotCreateMissingResources : string := "DO_NOT_CREATE".
Definition PersistentReceiverCreateOnStartMissingResources : string := "CREATE_ON_START".
Definition PersistentReceiverAutoAck : string := "AUTO_ACK".
Definition PersistentReceiverClientAck : string := "CLIENT_ACK".
Definition PersistentReceiverAcceptedOutcome : string := "ACCEPTED".
Definition PersistentReceiverFailedOutcome : string := "FAILED".
Definition PersistentReceiverRejectedOutcome : string := "REJECTED".

(** The names and values of the C library. *)
Definition SolClientFlowPropBindEntityID : string := "FLOW_BIND_ENTITY_ID".
Definition SolClientFlowPropBindEntityQueue : string := "2".
Definition SolClientFlowPropAckmode : string := "FLOW_ACKMODE".
Definition SolClientFlowPropAckmodeClient : string := "2".
Definition SolClientFlowPropActiveFlowInd : string := "FLOW_ACTIVE_FLOW_IND".
Definition SolClientFlowPropStartState : string := "FLOW_START_STATE".
Definition SolClientFlowPropBindName : string := "FLOW_BIND_NAME".
Definition SolClientFlowPropBindEntityDurable : string := "FLOW_BIND_ENTITY_DURABLE".
Definition SolClientFlowPropSelector : string := "FLOW_SELECTOR".
Definition SolClientFlowPropReplayStartLocation : string := "FLOW_REPLAY_START_LOCATION".
Definition SolClientFlowPropReplayStartLocationBeginning : string := "BEGINNING".
Definition SolClientFlowPropRequiredOutcomeFailed : string := "FLOW_REQUIRED_OUTCOME_FAILED".
Definition SolClientFlowPropRequiredOutcomeRejected : string := "FLOW_REQUIRED_OUTCOME_REJECTED".
Definition SolClientPropEnableVal : string := "1".
Definition SolClientPropDisableVal : string := "0".

(** * Errors *)

Definition PersistentReceiverUnsupportedSubscriptionType (typeName : string) : go_error :=
  NewError IllegalArgumentError
    ("PersistentMessageReceiver does not support subscriptions of type " +:+ typeName) None.
Definition PersistentReceiverMissingQueue : go_error :=
  NewError IllegalArgumentError
    "queue must be provided when building a new PersistentMessageReceiver" None.
Definition PersistentReceiverMustSpecifyTime : go_error :=
  NewError IllegalArgumentError
    "must specify ReceiverPropertyPersistentMessageReplayStrategyTimeBasedStartTime when replay from time is selected"
    None.
Definition PersistentReceiverMustSpecifyRGMID : go_error :=
  NewError IllegalArgumentError
    "must specify ReceiverPropertyPersistentMessageReplayStrategyIDBasedReplicationGroupMessageID when replay from message ID is selected"
    None.
Definition empty_message_id : go_error :=
  NewError IllegalArgumentError "message ID must not be empty" None.
Definition invalid_listener (typeName : string) : go_error :=
  NewError IllegalArgumentError
    ("invalid type for receiver state change listener, expected solace.ReceiverStateChangeListener, got " +:+
     typeName) None.
(** The value that is printed with [%T] is a string. *)
Definition invalid_outcome : go_error :=
  NewError IllegalArgumentError
    "invalid value for receiver message settlement outcome, expected either 'ACCEPTED', 'FAILED' or 'REJECTED', got string"
    None.

(** * Subscriptions and properties *)

(** A subscription, or the name of a type that is no topic subscription. *)
Definition Subscription : Type := TopicSubscription + string.

Definition checkPersistentMessageReceiverSubscriptionType (subscription : Subscription)
    : option go_error :=
  match subscription with
  | inl _ => None
  | inr typeName => Some (PersistentReceiverUnsupportedSubscriptionType typeName)
  end.

(** [GetName]. *)
Definition subscription_name (subscription : Subscription) : string :=
  match subscription with inl t => subscription_topic t | inr name => name end.

Definition isSupportedMessageSettlementOutcome (messageSettlementOutcome : string) : bool :=
  String.eqb messageSettlementOutcome PersistentReceiverAcceptedOutcome
  || String.eqb messageSettlementOutcome PersistentReceiverFailedOutcome
  || String.eqb messageSettlementOutcome PersistentReceiverRejectedOutcome.

Section builder.
(** State change listeners, and how one is printed. *)
Context {go_print : GoPrint} {Listener : Type} (sprint_listener : Listener → string).

(** A value of the Sdt file; a [MissingResourcesCreationStrategy]; a [MessageSettlementOutcome]; a
    [time.Time] by its seconds since the epoch; a [ReplicationGroupMessageID] by its type and its
    [String]; a [ReceiverStateChangeListener], which may be nil. *)
Inductive property_value : Type :=
| Value (d : data)
| CreationStrategy (s : string)
| SettlementOutcome (s : string)
| Time (unix : Z)
| MessageID (typeName : string) (s : string)
| StateChangeListener (listener : option Listener).

Abbreviation ReceiverPropertyMap := (gmap string property_value).

(** A validator that wants another type finds a value to be of its named type. *)
Definition as_data (v : property_value) : data :=
  match v with
  | Value d => d
  | CreationStrategy _ => DOther "config.MissingResourcesCreationStrategy"
  | SettlementOutcome _ => DOther "config.MessageSettlementOutcome"
  | Time _ => DOther "time.Time"
  | MessageID typeName _ => DOther typeName
  | StateChangeListener _ => DOther "solace.ReceiverStateChangeListener"
  end.

(** The printing with [%v] of a value that is no time. *)
Definition sprint_v (v : property_value) : string :=
  match v with
  | CreationStrategy s | SettlementOutcome s | MessageID _ s => s
  | StateChangeListener (Some l) => sprint_listener l
  | StateChangeListener None => "<nil>"
  | v => sprint_data (as_data v)
  end.

(** ** Replay strategies *)

Record ReplayStrategy : Type := mkStrategy {
  GetStrategy : string;
  GetData : property_value;
}.

Definition ReplayStrategyAllMessages : ReplayStrategy := mkStrategy PersistentReplayAll (Value DNil).
Definition ReplayStrategyTimeBased (unix : Z) : ReplayStrategy :=
  mkStrategy PersistentReplayTimeBased (Time unix).
Definition ReplayStrategyReplicationGroupMessageID (replicationGroupMessageID : property_value)
    : ReplayStrategy :=
  mkStrategy PersistentReplayIDBased replicationGroupMessageID.

(** ** The builder and its setters *)

Record persistentMessageReceiverBuilderImpl : Type := mkBuilder {
  properties : ReceiverPropertyMap;
  subscriptions : list Subscription;
}.

Definition NewPersistentMessageReceiverBuilderImpl : persistentMessageReceiverBuilderImpl :=
  mkBuilder ∅ [].

Definition put (key : string) (value : property_value) (b : persistentMessageReceiverBuilderImpl)
    : persistentMessageReceiverBuilderImpl :=
  mkBuilder (<[key := value]> (properties b)) (subscriptions b).

Definition WithSubscriptions (topics : list Subscription) (b : persistentMessageReceiverBuilderImpl)
    : persistentMessageReceiverBuilderImpl :=
  mkBuilder (properties b) topics.

(** [None] is a nil provider; the pairs are in the order in which its map is visited. *)
Definition FromConfigurationProvider (provider : option (list (string * property_value)))
    (b : persistentMessageReceiverBuilderImpl) : persistentMessageReceiverBuilderImpl :=
  match provider with
  | None => b
  | Some l => foldl (λ b '(key, value), put key value b) b l
  end.

Definition WithActivationPassivationSupport (listener : option Listener)
    : persistentMessageReceiverBuilderImpl → persistentMessageReceiverBuilderImpl :=
  put ReceiverPropertyPersistentStateChangeListener (StateChangeListener listener).

Definition WithMessageAutoAcknowledgement
    : persistentMessageReceiverBuilderImpl → persistentMessageReceiverBuilderImpl :=
  put ReceiverPropertyPersistentMessageAckStrategy (Value (DString PersistentReceiverAutoAck)).

Definition WithMessageClientAcknowledgement
    : persistentMessageReceiverBuilderImpl → persistentMessageReceiverBuilderImpl :=
  put ReceiverPropertyPersistentMessageAckStrategy (Value (DString PersistentReceiverClientAck)).

Definition WithMessageSelector (filterSelectorExpression : string)
    (b : persistentMessageReceiverBuilderImpl) : persistentMessageReceiverBuilderImpl :=
  if String.eqb filterSelectorExpression "" then
    mkBuilder (delete ReceiverPropertyPersistentMessageSelectorQuery (properties b)) (subscriptions b)
  else put ReceiverPropertyPersistentMessageSelectorQuery (Value (DString filterSelectorExpression)) b.

Definition WithMissingResourcesCreationStrategy (strategy : string)
    : persistentMessageReceiverBuilderImpl → persistentMessageReceiverBuilderImpl :=
  put ReceiverPropertyPersistentMissingResourceCreationStrategy (CreationStrategy strategy).

(** A strategy of an unknown kind is logged and changes nothing. *)
Definition WithMessageReplay (strategy : ReplayStrategy) (b : persistentMessageReceiverBuilderImpl)
    : persistentMessageReceiverBuilderImpl :=
  let kind := GetStrategy strategy in
  let b' := put ReceiverPropertyPersistentMessageReplayStrategy (Value (DString kind)) b in
  if String.eqb kind PersistentReplayAll then b'
  else if String.eqb kind PersistentReplayTimeBased then
    put ReceiverPropertyPersistentMessageReplayStrategyTimeBasedStartTime (GetData strategy) b'
  else if String.eqb kind PersistentReplayIDBased then
    put ReceiverPropertyPersistentMessageReplayStrategyIDBasedReplicationGroupMessageID
      (GetData strategy) b'
  else b.

(** The outcomes in their order without repetitions; [addedOutcomes] are those before. *)
Fixpoint distinct_outcomes (settlementOutcomes addedOutcomes : list string) : list string :=
  match settlementOutcomes with
  | [] => []
  | settlementOutcome :: settlementOutcomes =>
      if bool_decide (settlementOutcome ∈ addedOutcomes)
      then distinct_outcomes settlementOutcomes addedOutcomes
      else settlementOutcome :: distinct_outcomes settlementOutcomes (settlementOutcome :: addedOutcomes)
  end.

(** Outcomes that are not supported are logged, and are kept so that Build fails. *)
Definition WithRequiredMessageOutcomeSupport (messageSettlementOutcomes : list string)
    : persistentMessageReceiverBuilderImpl → persistentMessageReceiverBuilderImpl :=
  put ReceiverPropertyPersistentMessageRequiredOutcomeSupport
    (Value (DString (join_commas (distinct_outcomes messageSettlementOutcomes [])))).

(** ** Build *)

(** What [construct] is given of the builder. *)
Record persistentMessageReceiverProps : Type := mkProps {
  flowProperties : list string;
  startupSubscriptions : list Subscription;
  endpoint : Queue;
  bufferHighwater : Z;
  bufferLowwater : Z;
  doCreateMissingResource : bool;
  doAutoAck : bool;
  stateChangeListener : option Listener;
}.

Definition bufferHighwaterDefault : Z := 50.
Definition bufferLowwaterDefault : Z := 40.

(** The first subscription of another type. *)
Fixpoint check_subscriptions (l : list Subscription) : option go_error :=
  match l with
  | [] => None
  | subscription :: l =>
      match checkPersistentMessageReceiverSubscriptionType subscription with
      | Some err => Some err
      | None => check_subscriptions l
      end
  end.

(** A string among the allowed ones; [None] where the property is not there or is nil. *)
Definition string_property (key : string) (value : option property_value) (allowed : list string)
    : res go_error (option string) :=
  match value with
  | None => Ok None
  | Some v =>
      match StringPropertyValidation key (as_data v) allowed with
      | (_, false, _) => Ok None
      | (_, true, Some err) => Err err
      | (prop, true, None) => Ok (Some prop)
      end
  end.

(** A strategy of its own type is validated as a string. *)
Definition strategy_as_string (v : property_value) : property_value :=
  match v with CreationStrategy s => Value (DString s) | v => v end.

Definition missing_resource_creation (m : ReceiverPropertyMap) : res go_error bool :=
  let? prop := string_property ReceiverPropertyPersistentMissingResourceCreationStrategy
      (strategy_as_string <$> m !! ReceiverPropertyPersistentMissingResourceCreationStrategy)
      [PersistentReceiverCreateOnStartMissingResources; PersistentReceiverDoNotCreateMissingResources] in
  Ok (bool_decide (prop = Some PersistentReceiverCreateOnStartMissingResources)).

Definition auto_ack (m : ReceiverPropertyMap) : res go_error bool :=
  let? ackStrategy := string_property ReceiverPropertyPersistentMessageAckStrategy
      (m !! ReceiverPropertyPersistentMessageAckStrategy)
      [PersistentReceiverAutoAck; PersistentReceiverClientAck] in
  Ok (bool_decide (ackStrategy = Some PersistentReceiverAutoAck)).

Definition state_change_listener (m : ReceiverPropertyMap) : res go_error (option Listener) :=
  match m !! ReceiverPropertyPersistentStateChangeListener with
  | None => Ok None
  | Some (StateChangeListener listener) => Ok listener
  | Some v => Err (invalid_listener (type_name (as_data v)))
  end.

Definition initial_properties : list string :=
  [SolClientFlowPropBindEntityID; SolClientFlowPropBindEntityQueue;
   SolClientFlowPropAckmode; SolClientFlowPropAckmodeClient;
   SolClientFlowPropActiveFlowInd; SolClientPropEnableVal;
   SolClientFlowPropStartState; SolClientPropDisableVal].

Definition queue_properties (queue : Queue) : list string :=
  (if negb (String.eqb (queue_name queue) "") || durable queue
   then [SolClientFlowPropBindName; queue_name queue] else []) ++
  [SolClientFlowPropBindEntityDurable;
   if durable queue then SolClientPropEnableVal else SolClientPropDisableVal].

Definition selector_properties (m : ReceiverPropertyMap) : res go_error (list string) :=
  let? prop := string_property ReceiverPropertyPersistentMessageSelectorQuery
      (m !! ReceiverPropertyPersistentMessageSelectorQuery) [] in
  Ok (match prop with Some prop => [SolClientFlowPropSelector; prop] | None => [] end).

(** An entry that is not there and one that holds the nil interface are the same here. *)
Definition present_property (m : ReceiverPropertyMap) (key : string) : option property_value :=
  match m !! key with Some (Value DNil) => None | r => r end.

Definition replay_start_time (m : ReceiverPropertyMap) : res go_error string :=
  match present_property m ReceiverPropertyPersistentMessageReplayStrategyTimeBasedStartTime with
  | None => Err PersistentReceiverMustSpecifyTime
  | Some (Time unix) => Ok ("DATE:" +:+ sprint_int unix)
  | Some v => Ok ("DATE:" +:+ sprint_v v)
  end.

Definition replay_message_id (m : ReceiverPropertyMap) : res go_error string :=
  match present_property m ReceiverPropertyPersistentMessageReplayStrategyIDBasedReplicationGroupMessageID with
  | None => Err PersistentReceiverMustSpecifyRGMID
  | Some v =>
      let v := match v with MessageID _ s => Value (DString s) | v => v end in
      match StringPropertyValidation
              ReceiverPropertyPersistentMessageReplayStrategyIDBasedReplicationGroupMessageID
              (as_data v) [] with
      | (_, _, Some err) => Err err
      | (rmid, _, None) => if String.eqb rmid "" then Err empty_message_id else Ok rmid
      end
  end.

(** The zero value of [replayStart] is not reached: the strategy is one of the three. *)
Definition replay_properties (m : ReceiverPropertyMap) : res go_error (list string) :=
  let? replayStrategy := string_property ReceiverPropertyPersistentMessageReplayStrategy
      (m !! ReceiverPropertyPersistentMessageReplayStrategy)
      [PersistentReplayAll; PersistentReplayTimeBased; PersistentReplayIDBased] in
  match replayStrategy with
  | None => Ok []
  | Some replayStrategy =>
      let? replayStart :=
        (if String.eqb replayStrategy PersistentReplayAll
         then Ok SolClientFlowPropReplayStartLocationBeginning
         else if String.eqb replayStrategy PersistentReplayTimeBased then replay_start_time m
         else if String.eqb replayStrategy PersistentReplayIDBased then replay_message_id m
         else Ok "") in
      Ok [SolClientFlowPropReplayStartLocation; replayStart]
  end.

(** The loop over the outcomes; [addedOutcomes] are those seen before. *)
Fixpoint outcome_loop (settlementOutcomes addedOutcomes : list string) : res go_error (list string) :=
  match settlementOutcomes with
  | [] => Ok []
  | settlementOutcome :: settlementOutcomes =>
      match StringPropertyValidation ReceiverPropertyPersistentMessageRequiredOutcomeSupport
              (DString settlementOutcome)
              [PersistentReceiverAcceptedOutcome; PersistentReceiverFailedOutcome;
               PersistentReceiverRejectedOutcome] with
      | (_, true, None) =>
          let added := bool_decide (settlementOutcome ∈ addedOutcomes) in
          let? properties := outcome_loop settlementOutcomes
              (if added then addedOutcomes else settlementOutcome :: addedOutcomes) in
          Ok ((if added then []
               else if String.eqb settlementOutcome PersistentReceiverFailedOutcome
               then [SolClientFlowPropRequiredOutcomeFailed; SolClientPropEnableVal]
               else if String.eqb settlementOutcome PersistentReceiverRejectedOutcome
               then [SolClientFlowPropRequiredOutcomeRejected; SolClientPropEnableVal]
               else []) ++ properties)
      | _ => Err invalid_outcome
      end
  end.

(** Only a plain string is looked at. *)
Definition outcome_properties (m : ReceiverPropertyMap) : res go_error (list string) :=
  match m !! ReceiverPropertyPersistentMessageRequiredOutcomeSupport with
  | Some (Value (DString settlementOutcomesStr)) => outcome_loop (split ","%char settlementOutcomesStr) []
  | _ => Ok []
  end.

(** [queue] is [None] for nil. *)
Definition Build (queue : option Queue) (builder : persistentMessageReceiverBuilderImpl)
    : res go_error persistentMessageReceiverProps :=
  match check_subscriptions (subscriptions builder) with
  | Some err => Err err
  | None =>
      let m := properties builder in
      let? doCreate := missing_resource_creation m in
      let? doAck := auto_ack m in
      let? listener := state_change_listener m in
      match queue with
      | None => Err PersistentReceiverMissingQueue
      | Some queue =>
          let? selector := selector_properties m in
          let? replay := replay_properties m in
          let? outcomes := outcome_properties m in
          Ok (mkProps (initial_properties ++ queue_properties queue ++ selector ++ replay ++ outcomes)
                (subscriptions builder) queue bufferHighwaterDefault bufferLowwaterDefault
                doCreate doAck listener)
      end
  end.

(** * Properties *)

Definition supported : list string :=
  [PersistentReceiverAcceptedOutcome; PersistentReceiverFailedOutcome; PersistentReceiverRejectedOutcome].

(** What the string of the outcomes asks for. *)
Definition required_outcomes (m : ReceiverPropertyMap) : list string :=
  match m !! ReceiverPropertyPersistentMessageRequiredOutcomeSupport with
  | Some (Value (DString s)) => split ","%char s
  | _ => []
  end.

(** A property that holds a plain string, or a strategy of its own type. *)
Definition plain_string (v : option property_value) : option string :=
  match v with Some (Value (DString s)) => Some s | _ => None end.

(** Where a replay starts, for the strategies that are known. *)
Definition replay_location (m : ReceiverPropertyMap) : option string :=
  match plain_string (m !! ReceiverPropertyPersistentMessageReplayStrategy) with
  | None => None
  | Some kind =>
      if String.eqb kind PersistentReplayAll then Some "BEGINNING"
      else if String.eqb kind PersistentReplayTimeBased then
        match m !! ReceiverPropertyPersistentMessageReplayStrategyTimeBasedStartTime with
        | Some (Time unix) => Some ("DATE:" +:+ sprint_int unix)
        | Some v => Some ("DATE:" +:+ sprint_v v)
        | None => None
        end
      else match m !! ReceiverPropertyPersistentMessageReplayStrategyIDBasedReplicationGroupMessageID with
           | Some (MessageID _ s) | Some (Value (DString s)) => Some s
           | _ => None
           end
  end.

(** One pair, if there is a value. *)
Definition opt_pair (name : string) (value : option string) : list (string * string) :=
  match value with Some v => [(name, v)] | None => [] end.

Lemma effective_pairs_app ps1 ps2 c :
  effective (flat_pairs (ps1 ++ ps2)) c =
  match effective (flat_pairs ps2) c with Some v => Some v | None => effective (flat_pairs ps1) c end.
Proof using Type. by rewrite flat_pairs_app, effective_app. Qed.

Lemma effective_opt_pair name value c :
  effective (flat_pairs (opt_pair name value)) c = if decide (c = name) then value else None.
Proof using Type. destruct value as [v|]; simpl; repeat case_decide; congruence. Qed.

Lemma string_property_ok key value allowed r : string_property key value allowed = Ok r →
  r = plain_string value ∧ (allowed ≠ [] → ∀ s, r = Some s → s ∈ allowed).
Proof using Type.
  destruct value as [v|]; simpl; [|by intros [= <-]].
  unfold StringPropertyValidation. destruct (as_data v) eqn:Hv; intros Hr; simplify_eq/=;
    destruct v; simplify_eq/=; try by split; [|intros ??[=]].
  destruct allowed as [|a allowed]; simplify_eq; [by split|].
  destruct (list_find _ _) as [[i str]|] eqn:Hf; simplify_eq.
  apply list_find_Some in Hf as (Hi & -> & _). split; [done|]. intros _ s' [= <-].
  by eapply list_elem_of_lookup_2.
Qed.

Lemma outcome_loop_spec l added :
  match outcome_loop l added with
  | Ok ps =>
      Forall (.∈ supported) l ∧ ∃ prs, ps = flat_pairs prs ∧ ∀ c,
        effective (flat_pairs prs) c =
        if decide (c = SolClientFlowPropRequiredOutcomeFailed ∧
                   PersistentReceiverFailedOutcome ∈ l ∧ PersistentReceiverFailedOutcome ∉ added)
        then Some "1"
        else if decide (c = SolClientFlowPropRequiredOutcomeRejected ∧
                   PersistentReceiverRejectedOutcome ∈ l ∧ PersistentReceiverRejectedOutcome ∉ added)
        then Some "1" else None
  | Err e => e = invalid_outcome ∧ ¬ Forall (.∈ supported) l
  end.
Proof using Type.
  revert added. induction l as [|o l IH]; intros added; cbn [outcome_loop].
  { split; [constructor|]. exists []. split; [done|]. intros c.
    rewrite !decide_False by set_solver. done. }
  destruct (StringPropertyValidation _ _ _) as [[s present] err] eqn:Hv.
  assert (o ∈ supported ∧ present = true ∧ err = None ∨ o ∉ supported ∧ present = true ∧ is_Some err) as Ho.
  { revert Hv. unfold StringPropertyValidation, supported.
    destruct (list_find _ _) as [[i str]|] eqn:Hf; intros [= <- <- <-].
    - apply list_find_Some in Hf as (Hi & -> & _). left. split; [|done]. by eapply list_elem_of_lookup_2.
    - right. split; [|split; [done|by eexists]]. intros Hin. apply list_find_None in Hf.
      rewrite Forall_forall in Hf. by apply (Hf o). }
  destruct Ho as [(Ho & -> & ->)|(Ho & -> & [e ->])]; [|split; [done|by intros [? _]%Forall_cons]].
  set (added' := if bool_decide (o ∈ added) then added else o :: added).
  specialize (IH added'). destruct (outcome_loop l added') as [ps|e].
  2:{ destruct IH as [-> Hl]. split; [done|]. by intros [_ ?]%Forall_cons. }
  destruct IH as (Hl & prs & -> & Hc). split; [by constructor|].
  exists ((if bool_decide (o ∈ added) then []
           else if String.eqb o PersistentReceiverFailedOutcome
           then [(SolClientFlowPropRequiredOutcomeFailed, SolClientPropEnableVal)]
           else if String.eqb o PersistentReceiverRejectedOutcome
           then [(SolClientFlowPropRequiredOutcomeRejected, SolClientPropEnableVal)] else []) ++ prs).
  split.
  { rewrite flat_pairs_app. by repeat case_match. }
  intros c. rewrite flat_pairs_app, effective_app, Hc. clear Hc. subst added'.
  assert (SolClientFlowPropRequiredOutcomeFailed ≠ SolClientFlowPropRequiredOutcomeRejected) by done.
  case_bool_decide as Ha; [simpl|destruct (String.eqb_spec o PersistentReceiverFailedOutcome) as [->|Hf];
    [|destruct (String.eqb_spec o PersistentReceiverRejectedOutcome) as [->|Hj]]; simpl];
    repeat case_decide; try done; set_solver.
Qed.

Definition topics_only (l : list Subscription) : Prop := Forall (λ sub, ∃ t, sub = inl t) l.

Lemma check_subscriptions_none l : check_subscriptions l = None ↔ topics_only l.
Proof using Type.
  unfold topics_only. induction l as [|[t|name] l IH]; simpl; [by split; [constructor|]|..].
  - rewrite Forall_cons, IH. naive_solver.
  - rewrite Forall_cons. naive_solver.
Qed.

Lemma selector_properties_ok m l : selector_properties m = Ok l →
  l = flat_pairs (opt_pair SolClientFlowPropSelector
                    (plain_string (m !! ReceiverPropertyPersistentMessageSelectorQuery))).
Proof using Type.
  intros (prop & [-> _]%string_property_ok & [= <-])%res_bind_ok.
  by destruct (plain_string _).
Qed.

Lemma replay_start_time_ok m s : replay_start_time m = Ok s →
  match m !! ReceiverPropertyPersistentMessageReplayStrategyTimeBasedStartTime with
  | Some (Time unix) => Some ("DATE:" +:+ sprint_int unix)
  | Some v => Some ("DATE:" +:+ sprint_v v)
  | None => None
  end = Some s.
Proof using Type.
  unfold replay_start_time, present_property.
  destruct (m !! _) as [[[]| | | | |]|]; intros; by simplify_eq.
Qed.

Lemma replay_message_id_ok m s : replay_message_id m = Ok s →
  match m !! ReceiverPropertyPersistentMessageReplayStrategyIDBasedReplicationGroupMessageID with
  | Some (MessageID _ s) | Some (Value (DString s)) => Some s
  | _ => None
  end = Some s.
Proof using Type.
  unfold replay_message_id, present_property.
  destruct (m !! _) as [[[]| | | | |]|]; simpl; intros; simplify_eq; repeat case_match; by simplify_eq.
Qed.

Lemma replay_properties_ok m l : replay_properties m = Ok l →
  l = flat_pairs (opt_pair SolClientFlowPropReplayStartLocation (replay_location m)).
Proof using Type.
  unfold replay_location. intros (kind & [-> Hin]%string_property_ok & Hk)%res_bind_ok.
  destruct (plain_string _) as [kind|]; [|by simplify_eq].
  apply res_bind_ok in Hk as (start & Hs & [= <-]).
  destruct (String.eqb_spec kind PersistentReplayAll) as [->|]; [by simplify_eq|].
  destruct (String.eqb_spec kind PersistentReplayTimeBased) as [->|].
  { apply replay_start_time_ok in Hs. by rewrite Hs. }
  destruct (String.eqb_spec kind PersistentReplayIDBased) as [->|].
  { apply replay_message_id_ok in Hs. by rewrite Hs. }
  exfalso. specialize (Hin ltac:(done) kind eq_refl). set_solver.
Qed.

Lemma outcome_properties_spec m :
  match outcome_properties m with
  | Ok ps =>
      Forall (.∈ supported) (required_outcomes m) ∧ ∃ prs, ps = flat_pairs prs ∧ ∀ c,
        effective (flat_pairs prs) c =
        if decide (c = SolClientFlowPropRequiredOutcomeFailed ∧
                   PersistentReceiverFailedOutcome ∈ required_outcomes m) then Some "1"
        else if decide (c = SolClientFlowPropRequiredOutcomeRejected ∧
                   PersistentReceiverRejectedOutcome ∈ required_outcomes m) then Some "1" else None
  | Err e => e = invalid_outcome ∧ ¬ Forall (.∈ supported) (required_outcomes m)
  end.
Proof using Type.
  unfold outcome_properties, required_outcomes.
  assert (∀ l, match outcome_loop l [] with
    | Ok ps => Forall (.∈ supported) l ∧ ∃ prs, ps = flat_pairs prs ∧ ∀ c,
        effective (flat_pairs prs) c =
        if decide (c = SolClientFlowPropRequiredOutcomeFailed ∧ PersistentReceiverFailedOutcome ∈ l) then Some "1"
        else if decide (c = SolClientFlowPropRequiredOutcomeRejected ∧ PersistentReceiverRejectedOutcome ∈ l)
        then Some "1" else None
    | Err e => e = invalid_outcome ∧ ¬ Forall (.∈ supported) l
    end) as Hl.
  { intros l. pose proof (outcome_loop_spec l []) as H. destruct (outcome_loop l []); [|done].
    destruct H as (? & prs & -> & Hc). split; [done|]. exists prs. split; [done|]. intros c. rewrite Hc.
    repeat case_decide; try done; set_solver. }
  destruct (m !! _) as [[[]| | | | |]|]; try apply Hl; apply (Hl []).
Qed.

(** The pairs of a successful build. *)
Definition queue_pairs (q : Queue) : list (string * string) :=
  opt_pair SolClientFlowPropBindName
    (if negb (String.eqb (queue_name q) "") || durable q then Some (queue_name q) else None) ++
  [(SolClientFlowPropBindEntityDurable, if durable q then "1" else "0")].

Definition initial_pairs : list (string * string) :=
  [("FLOW_BIND_ENTITY_ID", "2"); ("FLOW_ACKMODE", "2"); ("FLOW_ACTIVE_FLOW_IND", "1"); ("FLOW_START_STATE", "0")].

Lemma Build_ok queue b p : Build queue b = Ok p →
  ∃ q prs, queue = Some q ∧ topics_only (subscriptions b) ∧
    outcome_properties (properties b) = Ok (flat_pairs prs) ∧
    missing_resource_creation (properties b) = Ok (doCreateMissingResource p) ∧
    auto_ack (properties b) = Ok (doAutoAck p) ∧
    state_change_listener (properties b) = Ok (stateChangeListener p) ∧
    p = mkProps
      (flat_pairs (initial_pairs ++ queue_pairs q ++
         opt_pair SolClientFlowPropSelector
           (plain_string (properties b !! ReceiverPropertyPersistentMessageSelectorQuery)) ++
         opt_pair SolClientFlowPropReplayStartLocation (replay_location (properties b)) ++ prs))
      (subscriptions b) q 50 40 (doCreateMissingResource p) (doAutoAck p) (stateChangeListener p).
Proof using Type.
  unfold Build. destruct (check_subscriptions _) eqn:Hsubs; [done|].
  apply check_subscriptions_none in Hsubs.
  intros (doCreate & Hc & (doAck & Ha & (listener & Hl & Hp)%res_bind_ok)%res_bind_ok)%res_bind_ok.
  destruct queue as [q|]; [|done].
  apply res_bind_ok in Hp as (sel & ->%selector_properties_ok & Hp).
  apply res_bind_ok in Hp as (replay & ->%replay_properties_ok & Hp).
  apply res_bind_ok in Hp as (outs & Ho & [= <-]).
  pose proof (outcome_properties_spec (properties b)) as Hs. rewrite Ho in Hs.
  destruct Hs as (_ & prs & -> & _). exists q, prs. split_and!; try done. simpl. f_equal.
  rewrite !flat_pairs_app. f_equal. f_equal.
  unfold queue_properties, queue_pairs. rewrite flat_pairs_app. by destruct (negb _ || _), (durable q).
Qed.

Definition known_flow_properties : list string :=
  [SolClientFlowPropBindEntityID; SolClientFlowPropAckmode; SolClientFlowPropActiveFlowInd;
   SolClientFlowPropStartState; SolClientFlowPropBindName; SolClientFlowPropBindEntityDurable;
   SolClientFlowPropSelector; SolClientFlowPropReplayStartLocation;
   SolClientFlowPropRequiredOutcomeFailed; SolClientFlowPropRequiredOutcomeRejected].

(** What the C library is told of a name. *)
Definition flow_property (q : Queue) (m : ReceiverPropertyMap) (c : string) : option string :=
  if decide (c = SolClientFlowPropBindEntityID) then Some "2"
  else if decide (c = SolClientFlowPropAckmode) then Some "2"
  else if decide (c = SolClientFlowPropActiveFlowInd) then Some "1"
  else if decide (c = SolClientFlowPropStartState) then Some "0"
  else if decide (c = SolClientFlowPropBindName) then
    if negb (String.eqb (queue_name q) "") || durable q then Some (queue_name q) else None
  else if decide (c = SolClientFlowPropBindEntityDurable) then Some (if durable q then "1" else "0")
  else if decide (c = SolClientFlowPropSelector) then
    plain_string (m !! ReceiverPropertyPersistentMessageSelectorQuery)
  else if decide (c = SolClientFlowPropReplayStartLocation) then replay_location m
  else if decide (c = SolClientFlowPropRequiredOutcomeFailed) then
    if decide (PersistentReceiverFailedOutcome ∈ required_outcomes m) then Some "1" else None
  else if decide (c = SolClientFlowPropRequiredOutcomeRejected) then
    if decide (PersistentReceiverRejectedOutcome ∈ required_outcomes m) then Some "1" else None
  else None.

Lemma effective_flow q m prs c :
  outcome_properties m = Ok (flat_pairs prs) →
  effective (flat_pairs (initial_pairs ++ queue_pairs q ++
     opt_pair SolClientFlowPropSelector (plain_string (m !! ReceiverPropertyPersistentMessageSelectorQuery)) ++
     opt_pair SolClientFlowPropReplayStartLocation (replay_location m) ++ prs)) c =
  flow_property q m c.
Proof using Type.
  intros Ho. pose proof (outcome_properties_spec m) as Hs. rewrite Ho in Hs.
  destruct Hs as (_ & prs' & Heq & Hc). rewrite <-Heq in Hc.
  unfold queue_pairs. rewrite !effective_pairs_app, !effective_opt_pair, Hc.
  clear Heq Hc Ho. unfold flow_property.
  assert (effective (flat_pairs initial_pairs) c =
    if decide (c = SolClientFlowPropBindEntityID) then Some "2"
    else if decide (c = SolClientFlowPropAckmode) then Some "2"
    else if decide (c = SolClientFlowPropActiveFlowInd) then Some "1"
    else if decide (c = SolClientFlowPropStartState) then Some "0" else None) as ->.
  { cbn [effective flat_pairs initial_pairs]. simpl. repeat case_decide; subst; done. }
  assert (effective (flat_pairs [(SolClientFlowPropBindEntityDurable, if durable q then "1" else "0")]) c =
    if decide (c = SolClientFlowPropBindEntityDurable) then Some (if durable q then "1" else "0") else None) as ->.
  { simpl. repeat case_decide; subst; done. }
  generalize (replay_location m) as loc. generalize (plain_string (m !! ReceiverPropertyPersistentMessageSelectorQuery)) as sel.
  generalize (required_outcomes m) as outs. intros outs sel loc.
  destruct (decide (c ∈ known_flow_properties)) as [Hin|Hout].
  - unfold known_flow_properties in Hin. rewrite !elem_of_cons, elem_of_nil in Hin.
    destruct_or?; subst; repeat case_decide; try done; destruct_and?; try done; 
      first [by destruct sel, loc | by destruct (negb _ || _) | exfalso; tauto].
  - unfold known_flow_properties in Hout. rewrite !not_elem_of_cons in Hout. destruct_and?.
    by rewrite !decide_False by tauto.
Qed.

(** The truth values of the configuration. *)
Lemma missing_resource_creation_ok m b : missing_resource_creation m = Ok b →
  b = bool_decide (plain_string (strategy_as_string <$>
        m !! ReceiverPropertyPersistentMissingResourceCreationStrategy) = Some "CREATE_ON_START").
Proof using Type. by intros (prop & [-> _]%string_property_ok & [= <-])%res_bind_ok. Qed.

Lemma auto_ack_ok m b : auto_ack m = Ok b →
  b = bool_decide (plain_string (m !! ReceiverPropertyPersistentMessageAckStrategy) = Some "AUTO_ACK").
Proof using Type. by intros (prop & [-> _]%string_property_ok & [= <-])%res_bind_ok. Qed.

(** C37: what is built binds the queue it was given, and the C library is told of every flow
    property what the configuration says and nothing else: client acknowledgement, a stopped start
    and the active flow indication always, the name unless the queue is temporary and anonymous, the
    selector, the start of a replay and the outcomes where they are configured.  The receiver
    acknowledges by itself and creates its queue exactly where the strategies say so, and subscribes
    to topics only. *)
Theorem flow_properties queue b p :
  Build queue b = Ok p →
  let m := properties b in
  ∃ q, queue = Some q ∧ endpoint p = q ∧
    (∀ c, effective (flowProperties p) c = flow_property q m c) ∧
    startupSubscriptions p = subscriptions b ∧ topics_only (subscriptions b) ∧
    doAutoAck p = bool_decide
      (plain_string (m !! ReceiverPropertyPersistentMessageAckStrategy) = Some "AUTO_ACK") ∧
    doCreateMissingResource p = bool_decide
      (plain_string (strategy_as_string <$>
         m !! ReceiverPropertyPersistentMissingResourceCreationStrategy) = Some "CREATE_ON_START") ∧
    Forall (.∈ supported) (required_outcomes m) ∧
    bufferLowwater p < bufferHighwater p.
Proof using Type.
  intros (q & prs & -> & Hsubs & Ho & Hc & Ha & _ & Hp)%Build_ok m. subst m.
  pose proof (outcome_properties_spec (properties b)) as Hs. rewrite Ho in Hs.
  exists q. rewrite Hp. simpl. split_and!; try done.
  - intros c. by apply effective_flow.
  - by apply auto_ack_ok.
  - by apply missing_resource_creation_ok.
  - apply Hs.
Qed.

(** ** Outcomes *)

Lemma join_commas_cons s l : l ≠ [] → join_commas (s :: l) = s +:+ String ","%char (join_commas l).
Proof using Type. by destruct l. Qed.

Lemma split_app_char sep p s : split sep (p +:+ String sep s) = split sep p ++ split sep s.
Proof using Type.
  induction p as [|c p IH].
  - change ("" +:+ String sep s) with (String sep s). simpl. by rewrite Ascii.eqb_refl.
  - change (String c p +:+ String sep s) with (String c (p +:+ String sep s)).
    cbn [split]. rewrite IH. destruct (Ascii.eqb c sep); [done|].
    pose proof (split_nonempty sep p) as Hne. by destruct (split sep p).
Qed.

(** Splitting what was joined gives the parts of the members. *)
Lemma split_join_commas l : l ≠ [] → split ","%char (join_commas l) = l ≫= split ","%char.
Proof using Type.
  induction l as [|s l IH]; [done|]. intros _. destruct (decide (l = [])) as [->|Hl].
  { simpl. by rewrite (right_id_L [] (++)). }
  by rewrite join_commas_cons, split_app_char, IH.
Qed.

Lemma distinct_outcomes_elem l added o : o ∈ distinct_outcomes l added ↔ o ∈ l ∧ o ∉ added.
Proof using Type.
  revert added. induction l as [|x l IH]; intros added; simpl; [set_solver|].
  case_bool_decide as Hx; [rewrite IH; set_solver|].
  rewrite elem_of_cons, IH. destruct (decide (o = x)) as [->|]; set_solver.
Qed.

(** Where only the outcomes differ, only they can fail. *)
Lemma Build_same_but_outcomes q b b' p :
  (∀ key, key ≠ ReceiverPropertyPersistentMessageRequiredOutcomeSupport →
     properties b' !! key = properties b !! key) → Build (Some q) b = Ok p →
  subscriptions b' = subscriptions b →
  ∃ f, Build (Some q) b' = (let? outcomes := outcome_properties (properties b') in Ok (f outcomes)).
Proof using Type.
  intros Hm Hb Hsubs. unfold Build in *. rewrite Hsubs.
  destruct (check_subscriptions _); [done|].
  assert (missing_resource_creation (properties b') = missing_resource_creation (properties b)) as ->
    by (unfold missing_resource_creation; by rewrite Hm).
  assert (auto_ack (properties b') = auto_ack (properties b)) as -> by (unfold auto_ack; by rewrite Hm).
  assert (state_change_listener (properties b') = state_change_listener (properties b)) as ->
    by (unfold state_change_listener; by rewrite Hm).
  assert (selector_properties (properties b') = selector_properties (properties b)) as ->
    by (unfold selector_properties; by rewrite Hm).
  assert (replay_properties (properties b') = replay_properties (properties b)) as ->.
  { unfold replay_properties, replay_start_time, replay_message_id, present_property. by rewrite !Hm. }
  apply res_bind_ok in Hb as (doCreate & -> & Hb). apply res_bind_ok in Hb as (doAck & -> & Hb).
  apply res_bind_ok in Hb as (listener & -> & Hb). apply res_bind_ok in Hb as (selector & -> & Hb).
  apply res_bind_ok in Hb as (replay & -> & _). by eexists (λ outcomes, mkProps _ _ _ _ _ _ _ _).
Qed.

(** The outcomes given to WithRequiredMessageOutcomeSupport are the outcomes that the flow
    supports: with them, a builder that would build does build exactly if there is one and each is
    known (or is known outcomes joined by commas), and then FAILED and REJECTED are enabled exactly
    if they were named.  Otherwise, and also without any outcome, it reports an invalid outcome. *)
Theorem settlement_outcomes q b p outcomes :
  Build (Some q) b = Ok p →
  let named := outcomes ≫= split ","%char in
  match Build (Some q) (WithRequiredMessageOutcomeSupport outcomes b) with
  | Ok p' =>
      outcomes ≠ [] ∧ Forall (.∈ supported) named ∧
      (effective (flowProperties p') "FLOW_REQUIRED_OUTCOME_FAILED" = Some "1" ↔ "FAILED" ∈ named) ∧
      (effective (flowProperties p') "FLOW_REQUIRED_OUTCOME_REJECTED" = Some "1" ↔ "REJECTED" ∈ named)
  | Err e => e = invalid_outcome ∧ (outcomes = [] ∨ ¬ Forall (.∈ supported) named)
  end.
Proof using Type.
  intros Hb. cbv zeta. set (b' := WithRequiredMessageOutcomeSupport outcomes b).
  assert (∀ key, key ≠ ReceiverPropertyPersistentMessageRequiredOutcomeSupport →
            properties b' !! key = properties b !! key) as Hother.
  { intros key Hk. by apply lookup_insert_ne. }
  assert (required_outcomes (properties b') =
          if decide (outcomes = []) then [""] else distinct_outcomes outcomes [] ≫= split ","%char) as Hreq.
  { unfold required_outcomes, b', WithRequiredMessageOutcomeSupport, put. simpl.
    rewrite lookup_insert_eq. destruct outcomes as [|o l]; [done|].
    rewrite decide_False by done. by apply split_join_commas. }
  assert (∀ o, o ∈ distinct_outcomes outcomes [] ≫= split ","%char ↔ o ∈ outcomes ≫= split ","%char) as Hsame.
  { intros o. rewrite !list_elem_of_bind. setoid_rewrite distinct_outcomes_elem. set_solver. }
  assert (Forall (.∈ supported) (required_outcomes (properties b')) ↔
          outcomes ≠ [] ∧ Forall (.∈ supported) (outcomes ≫= split ","%char)) as Hfor.
  { rewrite Hreq, !Forall_forall. case_decide as Hnil.
    - split; [|by intros []]. intros H. specialize (H "" ltac:(set_solver)). by apply (bool_decide_pack _) in H.
    - setoid_rewrite Hsame. naive_solver. }
  pose proof (outcome_properties_spec (properties b')) as Hs.
  destruct (Build (Some q) b') as [p'|e] eqn:Hb'.
  - destruct (Build_ok _ _ _ Hb') as (q' & prs & [= <-] & _ & Ho & _ & _ & _ & Hp).
    rewrite Ho in Hs. destruct Hs as [Hsup _]. apply Hfor in Hsup as [Hne Hsup].
    rewrite decide_False in Hreq by done.
    split_and!; [done..| |]; rewrite Hp; cbn [flowProperties]; rewrite effective_flow by done;
      unfold flow_property; rewrite Hreq; repeat case_decide; set_solver.
  - destruct (Build_same_but_outcomes _ _ _ _ Hother Hb eq_refl) as [f Hf]. rewrite Hf in Hb'.
    destruct (outcome_properties (properties b')); [done|]. destruct Hs as [-> Hn].
    simplify_eq/=. split; [done|]. rewrite Hfor in Hn. destruct (decide (outcomes = [])); tauto.
Qed.
End builder.

(** * A concrete builder *)

Section example.
#[local] Instance example_print : GoPrint := {| sprint_other _ := "?" |}.

Definition example_queue : Queue := QueueDurableExclusive "orders".

Definition example_builder : @persistentMessageReceiverBuilderImpl nat :=
  WithMessageReplay (ReplayStrategyTimeBased 1700000000)
    (WithMessageAutoAcknowledgement
       (WithMissingResourcesCreationStrategy PersistentReceiverCreateOnStartMissingResources
          (WithMessageSelector "size > 3"
             (WithSubscriptions [inl (TopicSubscriptionOf "a/>")] NewPersistentMessageReceiverBuilderImpl)))).

Definition example_props : @persistentMessageReceiverProps nat :=
  mkProps
    ["FLOW_BIND_ENTITY_ID"; "2"; "FLOW_ACKMODE"; "2"; "FLOW_ACTIVE_FLOW_IND"; "1"; "FLOW_START_STATE"; "0";
     "FLOW_BIND_NAME"; "orders"; "FLOW_BIND_ENTITY_DURABLE"; "1"; "FLOW_SELECTOR"; "size > 3";
     "FLOW_REPLAY_START_LOCATION"; "DATE:1700000000"]
    [inl (TopicSubscriptionOf "a/>")] example_queue 50 40 true true None.

Lemma example_builds : Build (λ _, "f") (Some example_queue) example_builder = Ok example_props.
Proof. vm_compute. reflexivity. Qed.

Lemma flow_properties_witness :
  effective (flowProperties example_props) "FLOW_REPLAY_START_LOCATION" = Some "DATE:1700000000" ∧
  ∃ q, Some example_queue = Some q ∧
    (∀ c, effective (flowProperties example_props) c =
          flow_property (λ _ : nat, "f") q (properties example_builder) c).
Proof.
  split; [vm_compute; reflexivity|].
  destruct (flow_properties (λ _, "f") (Some example_queue) example_builder example_props example_builds)
    as (q & Hq & _ & Hf & _).
  exists q. split; [exact Hq|exact Hf].
Defined.

Lemma settlement_outcomes_witness :
  match Build (λ _, "f") (Some example_queue)
          (WithRequiredMessageOutcomeSupport ["REJECTED"; "REJECTED"] example_builder) with
  | Ok p' => (effective (flowProperties p') "FLOW_REQUIRED_OUTCOME_REJECTED" = Some "1" ↔
              "REJECTED" ∈ ["REJECTED"; "REJECTED"])
  | Err _ => False
  end.
Proof.
  pose proof (settlement_outcomes (λ _, "f") example_queue example_builder example_props
                ["REJECTED"; "REJECTED"] example_builds) as H.
  destruct (Build _ _ _) as [p'|e] eqn:Hp.
  - destruct H as (_ & _ & _ & H). exact H.
  - vm_compute in Hp. discriminate Hp.
Defined.
End example.
