(* ===== verification/PersistentReceiver.v ===== *)
(** The persistent receiver: internal/impl/receiver/persistent_message_receiver_impl.go, but for
    its builder, which is in PersistentReceiverBuilder, over the flow of the C library
    (ccsmpBackedPersistentReceiver of internal/impl/core/receiver.go).

    As for the direct receiver (DirectReceiver), the operations of the application, the goroutine of
    the asynchronous handler, the context thread of the C library and the goroutines that the
    receiver starts are programs of atomic actions over one shared state.  A critical section that
    only touches what its mutex protects is one action.  What the C library answers to a call is
    read from a list, which every theorem leaves arbitrary; an empty list accepts.  The results of
    requests to subscribe come as events, whenever the environment delivers them, to those whose
    correlation is still known; that part is what Correlation promises.  The executor of the state
    changes is what Executor promises: it runs its tasks in order until it is closed and empty.
    The fields of [history] record what happened and are read by no program. *)

From Stdlib Require Import ZArith Lia Ascii.
From stdpp Require Import base list gmap relations strings.
From S2P Require Import Prelude GoStrconv GoEffects GoConc Errors Resource Sdt Lifecycle Validation.
From S2P Require Import PersistentReceiverBuilder.
From S2P Require DirectReceiver.
Import DirectReceiver(UnableToModifySubscriptionBadState, ReceiverCannotReceiveNotStarted,
  ReceiverCannotReceiveAlreadyTerminated, ReceiverTimedOutWaitingForMessage,
  UnableToRegisterCallbackReceiverTerminating, nil_callback_error, FailedToAddSubscription,
  undelivered_error, insert_topic, splice_topic).

#[local] Open Scope Z_scope.

(** * Errors *)

Definition UnableToSettleAlreadyTerminated : go_error :=
  NewError IllegalStateError "unable to settle message: message receiver has been terminated" None.
Definition UnableToSettleNotStarted : go_error :=
  NewError IllegalStateError "unable to settle meessage: message receiver is not yet started" None.
Definition InvalidMessageSettlementOutcome : go_error :=
  NewError IllegalArgumentError "invalid message settlement outcome used to settle message" None.
Definition InvalidInboundMessageType (typeName : string) : go_error :=
  NewError IllegalArgumentError
    ("got an invalid InboundMessage, was it received with a receiver? backing type " +:+ typeName) None.
Definition UnableToRetrieveMessageID : go_error :=
  NewError IllegalArgumentError
    "unable to retrieve message ID from message, was the message received by a persistent receiver?" None.
Definition PersistentReceiverCannotPauseBadState : go_error :=
  NewError IllegalStateError "cannot pause message receiption when not in started state" None.
Definition PersistentReceiverCannotUnpauseBadState : go_error :=
  NewError IllegalStateError "cannot resume message receiption when not in started state" None.
Definition receiver_info_error : go_error :=
  NewError IllegalStateError "cannot access receiver info when not in started state" None.
Definition FailedToCreateFlow : string := "error while creating receiver flow: ".
Definition FailedToStartFlow : string := "error while starting receiver flow: ".
(** [subcode.EndpointAlreadyExists]. *)
Definition EndpointAlreadyExists : Z := 75.

(** * The flow of the C library *)

Inductive settlement : Type := SettlementOutcomeAccepted | SettlementOutcomeFailed | SettlementOutcomeRejected.

#[export] Instance settlement_eq_dec : EqDecision settlement.
Proof. solve_decision. Defined.

(** The calls that reach the C library. *)
Inductive flow_call : Type :=
| EndpointProvision (queueName : string) (isExclusive : bool)
| FlowCreate (properties : list string)
| FlowStart
| FlowStop
| FlowSubscribe (topic : string) (id : nat)
| FlowUnsubscribe (topic : string) (id : nat)
| EndpointUnsubscribe (queueName topic : string) (id : nat)
| FlowAck (msgID : Z)
| FlowSettle (msgID : Z) (outcome : settlement)
| FlowGetDestination
| FlowDestroy.

#[export] Instance flow_call_eq_dec : EqDecision flow_call.
Proof. solve_decision. Defined.

(** What it answers: an error, and a destination where one was asked for. *)
Definition flow_answer : Type := option ErrorInfo * (string * bool).

(** [internalFlow]: whether it is there, delivers messages, and has its callbacks. *)
Record flow_state : Type := mkFlow { created : bool; receiving : bool; attached : bool }.

(** The events of a flow. *)
Inductive flow_event : Type :=
| FlowEventUpNotice | FlowEventDownError | FlowEventBindFailedError | FlowEventRejectedMsgError
| FlowEventSessionDown | FlowEventActive | FlowEventInactive | FlowEventReconnecting
| FlowEventReconnected.

(** The results of the requests, by the number of the request, and the requests whose correlation
    is known to core. *)
Record correlation_table : Type := mkCorrelations {
  results : list (option (option go_error));
  known_ids : gset nat;
}.

(** The readers of [subscriptionTerminationLock], each under a number of its own. *)
Record read_lock : Type := mkReadLock { readers : gset nat; next_reader : nat }.

(** The executor of the state changes; [true] is a change to active. *)
Record executor_state : Type := mkExecutorState {
  exec_closed : bool;
  exec_tasks : list bool;
  exec_spawned : bool;
  exec_complete : bool;
}.

(** What is executed by [switch outcome] of [Settle]. *)
Definition settlement_of (outcome : string) : option settlement :=
  if String.eqb outcome PersistentReceiverAcceptedOutcome then Some SettlementOutcomeAccepted
  else if String.eqb outcome PersistentReceiverFailedOutcome then Some SettlementOutcomeFailed
  else if String.eqb outcome PersistentReceiverRejectedOutcome then Some SettlementOutcomeRejected
  else None.

Section persistent_receiver.
(** Messages of the C library and what [GetMessageID] finds in them, handlers of the application
    and whether one panics over a message, state change listeners. *)
Context {M MessageHandler Listener : Type} `{!EqDecision M}.
Context (GetMessageID : M → option Z) (handler_panics : MessageHandler → M → bool).

Abbreviation receiver_props := (@persistentMessageReceiverProps Listener).

(** * State *)

(** Goroutines to be started, besides those of [run] and of the executor. *)
Inductive goroutine : Type :=
| GoStart
| GoTerminate
| GoUnsolicited (cause : option go_error) (shouldCleanUpNative listener : bool)
| GoAddSubscription (subscription : Subscription) (listener : bool)
| GoRemoveSubscription (subscription : Subscription) (listener : bool).

(** What they tell the application, on a channel or through a listener. *)
Inductive async_result : Type :=
| Completed (err : option go_error)
| SubscriptionChanged (subscription : Subscription) (added : bool) (err : option go_error).

(** What the context thread is doing: nothing, about to push a message, about to answer whether the
    message is kept, with a metric still to be counted. *)
Inductive context_state : Type :=
| ContextFree
| Entered (m : M)
| Decided (m : M) (kept pending : bool).

(** The goroutine of [run]: what it holds is a message it has taken, or one that was handled and is to be
    acknowledged. *)
Inductive hand : Type := Empty | Holding (m : M) | ToAck (m : M).
Inductive runner_state : Type := NotSpawned | Spawned | Running (h : hand) | Finished.

(** What became of a message that arrived; who took a message off the buffer. *)
Inductive verdict : Type := Pushed | Full | Late | Closed.
Inductive fate : Type := Received | Handed | Drained.

#[export] Instance context_state_eq_dec : EqDecision context_state.
Proof using EqDecision0. solve_decision. Defined.
#[export] Instance hand_eq_dec : EqDecision hand.
Proof using EqDecision0. solve_decision. Defined.
#[export] Instance runner_state_eq_dec : EqDecision runner_state.
Proof using EqDecision0. solve_decision. Defined.
#[export] Instance verdict_eq_dec : EqDecision verdict.
Proof using Type. solve_decision. Defined.
#[export] Instance fate_eq_dec : EqDecision fate.
Proof using Type. solve_decision. Defined.

(** What is answered to the C library: [true] keeps the message from being freed. *)
Definition keeps (v : verdict) : bool := match v with Pushed | Full => true | Late | Closed => false end.

(** [called]: the handler, the message, and whether the handler panicked; [acks]: the messages
    acknowledged by the receiver itself, as received or as handed over; [reported]: the number of
    messages that a termination has reported; [notified]: the state changes the listener was told. *)
Record history : Type := mkHistory {
  context : context_state;
  runner : runner_state;
  arrived : list M;
  verdicts : list (M * verdict);
  taken : list (M * fate);
  answered : list (M * bool);
  freed : list (M * fate);
  called : list (MessageHandler * M * bool);
  acks : list (M * fate);
  flow_calls : list flow_call;
  reported : option nat;
  listened : list (option go_error);
  notified : list bool;
}.

Record receiver : Type := mkReceiver {
  machine : lifecycle;
  parent : bool;
  props : receiver_props;
  flow : flow_state;
  internalFlowStopped : Z;
  subscriptions : list string;
  subscriptionTerminationLock : read_lock;
  subscriptionsSynchronizationLock : bool;
  outstandingSubscriptionEvents : gset nat;
  correlations : correlation_table;
  buffer : chan M;
  bufferClosed : bool;
  doPause : bool;
  doUnpause : chan unit;
  pauseInterrupt : chan unit;
  bufferEmptyOnTerminateFlag : bool;
  bufferEmptyOnTerminate : bool;
  terminationNotification : bool;
  terminationComplete : bool;
  rxCallbackSet : chan bool;
  rxCallback : option MessageHandler;
  downHandler : bool;
  eventExecutor : executor_state;
  answers : list flow_answer;
  goroutines : list goroutine;
  async_results : list async_result;
  terminationDiscarded : Z;
  duplicateAcks : Z;
  past : history;
}.

Definition at_context (c : context_state) (h : history) : history :=
  mkHistory c (runner h) (arrived h) (verdicts h) (taken h) (answered h) (freed h) (called h)
    (acks h) (flow_calls h) (reported h) (listened h) (notified h).

Definition at_runner (r : runner_state) (h : history) : history :=
  mkHistory (context h) r (arrived h) (verdicts h) (taken h) (answered h) (freed h) (called h)
    (acks h) (flow_calls h) (reported h) (listened h) (notified h).

Definition note_arrived (m : M) (h : history) : history :=
  mkHistory (Entered m) (runner h) (arrived h ++ [m]) (verdicts h) (taken h) (answered h)
    (freed h) (called h) (acks h) (flow_calls h) (reported h) (listened h) (notified h).

Definition note_verdict (m : M) (v : verdict) (c : context_state) (h : history) : history :=
  mkHistory c (runner h) (arrived h) (verdicts h ++ [(m, v)]) (taken h) (answered h) (freed h)
    (called h) (acks h) (flow_calls h) (reported h) (listened h) (notified h).

Definition note_answered (m : M) (b : bool) (h : history) : history :=
  mkHistory ContextFree (runner h) (arrived h) (verdicts h) (taken h) (answered h ++ [(m, b)])
    (freed h) (called h) (acks h) (flow_calls h) (reported h) (listened h) (notified h).

Definition note_taken (m : M) (f : fate) (h : history) : history :=
  mkHistory (context h) (runner h) (arrived h) (verdicts h) (taken h ++ [(m, f)]) (answered h)
    (freed h) (called h) (acks h) (flow_calls h) (reported h) (listened h) (notified h).

Definition note_freed (m : M) (f : fate) (h : history) : history :=
  mkHistory (context h) (runner h) (arrived h) (verdicts h) (taken h) (answered h)
    (freed h ++ [(m, f)]) (called h) (acks h) (flow_calls h) (reported h) (listened h)
    (notified h).

Definition note_called (f : MessageHandler) (m : M) (b : bool) (n : hand) (h : history) : history :=
  mkHistory (context h) (Running n) (arrived h) (verdicts h) (taken h) (answered h) (freed h)
    (called h ++ [(f, m, b)]) (acks h) (flow_calls h) (reported h) (listened h) (notified h).

Definition note_ack (m : M) (f : fate) (h : history) : history :=
  mkHistory (context h) (runner h) (arrived h) (verdicts h) (taken h) (answered h) (freed h)
    (called h) (acks h ++ [(m, f)]) (flow_calls h) (reported h) (listened h) (notified h).

Definition note_flow (c : flow_call) (h : history) : history :=
  mkHistory (context h) (runner h) (arrived h) (verdicts h) (taken h) (answered h) (freed h)
    (called h) (acks h) (flow_calls h ++ [c]) (reported h) (listened h) (notified h).

Definition note_reported (n : nat) (h : history) : history :=
  mkHistory (context h) (runner h) (arrived h) (verdicts h) (taken h) (answered h) (freed h)
    (called h) (acks h) (flow_calls h) (Some n) (listened h) (notified h).

Definition note_listened (e : option go_error) (h : history) : history :=
  mkHistory (context h) (runner h) (arrived h) (verdicts h) (taken h) (answered h) (freed h)
    (called h) (acks h) (flow_calls h) (reported h) (listened h ++ [e]) (notified h).

Definition note_notified (b : bool) (h : history) : history :=
  mkHistory (context h) (runner h) (arrived h) (verdicts h) (taken h) (answered h) (freed h)
    (called h) (acks h) (flow_calls h) (reported h) (listened h) (notified h ++ [b]).

Definition set_machine (x : lifecycle) (s : receiver) : receiver :=
  mkReceiver x (parent s) (props s) (flow s) (internalFlowStopped s) (subscriptions s)
    (subscriptionTerminationLock s) (subscriptionsSynchronizationLock s)
    (outstandingSubscriptionEvents s) (correlations s) (buffer s) (bufferClosed s) (doPause s)
    (doUnpause s) (pauseInterrupt s) (bufferEmptyOnTerminateFlag s) (bufferEmptyOnTerminate s)
    (terminationNotification s) (terminationComplete s) (rxCallbackSet s) (rxCallback s)
    (downHandler s) (eventExecutor s) (answers s) (goroutines s) (async_results s)
    (terminationDiscarded s) (duplicateAcks s) (past s).

Definition set_parent (x : bool) (s : receiver) : receiver :=
  mkReceiver (machine s) x (props s) (flow s) (internalFlowStopped s) (subscriptions s)
    (subscriptionTerminationLock s) (subscriptionsSynchronizationLock s)
    (outstandingSubscriptionEvents s) (correlations s) (buffer s) (bufferClosed s) (doPause s)
    (doUnpause s) (pauseInterrupt s) (bufferEmptyOnTerminateFlag s) (bufferEmptyOnTerminate s)
    (terminationNotification s) (terminationComplete s) (rxCallbackSet s) (rxCallback s)
    (downHandler s) (eventExecutor s) (answers s) (goroutines s) (async_results s)
    (terminationDiscarded s) (duplicateAcks s) (past s).

Definition set_flow (x : flow_state) (s : receiver) : receiver :=
  mkReceiver (machine s) (parent s) (props s) x (internalFlowStopped s) (subscriptions s)
    (subscriptionTerminationLock s) (subscriptionsSynchronizationLock s)
    (outstandingSubscriptionEvents s) (correlations s) (buffer s) (bufferClosed s) (doPause s)
    (doUnpause s) (pauseInterrupt s) (bufferEmptyOnTerminateFlag s) (bufferEmptyOnTerminate s)
    (terminationNotification s) (terminationComplete s) (rxCallbackSet s) (rxCallback s)
    (downHandler s) (eventExecutor s) (answers s) (goroutines s) (async_results s)
    (terminationDiscarded s) (duplicateAcks s) (past s).

Definition set_stopped (x : Z) (s : receiver) : receiver :=
  mkReceiver (machine s) (parent s) (props s) (flow s) x (subscriptions s)
    (subscriptionTerminationLock s) (subscriptionsSynchronizationLock s)
    (outstandingSubscriptionEvents s) (correlations s) (buffer s) (bufferClosed s) (doPause s)
    (doUnpause s) (pauseInterrupt s) (bufferEmptyOnTerminateFlag s) (bufferEmptyOnTerminate s)
    (terminationNotification s) (terminationComplete s) (rxCallbackSet s) (rxCallback s)
    (downHandler s) (eventExecutor s) (answers s) (goroutines s) (async_results s)
    (terminationDiscarded s) (duplicateAcks s) (past s).

Definition set_subscriptions (x : list string) (s : receiver) : receiver :=
  mkReceiver (machine s) (parent s) (props s) (flow s) (internalFlowStopped s) x
    (subscriptionTerminationLock s) (subscriptionsSynchronizationLock s)
    (outstandingSubscriptionEvents s) (correlations s) (buffer s) (bufferClosed s) (doPause s)
    (doUnpause s) (pauseInterrupt s) (bufferEmptyOnTerminateFlag s) (bufferEmptyOnTerminate s)
    (terminationNotification s) (terminationComplete s) (rxCallbackSet s) (rxCallback s)
    (downHandler s) (eventExecutor s) (answers s) (goroutines s) (async_results s)
    (terminationDiscarded s) (duplicateAcks s) (past s).

Definition set_termination_lock (x : read_lock) (s : receiver) : receiver :=
  mkReceiver (machine s) (parent s) (props s) (flow s) (internalFlowStopped s) (subscriptions s) x
    (subscriptionsSynchronizationLock s) (outstandingSubscriptionEvents s) (correlations s)
    (buffer s) (bufferClosed s) (doPause s) (doUnpause s) (pauseInterrupt s)
    (bufferEmptyOnTerminateFlag s) (bufferEmptyOnTerminate s) (terminationNotification s)
    (terminationComplete s) (rxCallbackSet s) (rxCallback s) (downHandler s) (eventExecutor s)
    (answers s) (goroutines s) (async_results s) (terminationDiscarded s) (duplicateAcks s)
    (past s).

Definition set_synchronization (x : bool) (s : receiver) : receiver :=
  mkReceiver (machine s) (parent s) (props s) (flow s) (internalFlowStopped s) (subscriptions s)
    (subscriptionTerminationLock s) x (outstandingSubscriptionEvents s) (correlations s)
    (buffer s) (bufferClosed s) (doPause s) (doUnpause s) (pauseInterrupt s)
    (bufferEmptyOnTerminateFlag s) (bufferEmptyOnTerminate s) (terminationNotification s)
    (terminationComplete s) (rxCallbackSet s) (rxCallback s) (downHandler s) (eventExecutor s)
    (answers s) (goroutines s) (async_results s) (terminationDiscarded s) (duplicateAcks s)
    (past s).

Definition set_outstanding (x : gset nat) (s : receiver) : receiver :=
  mkReceiver (machine s) (parent s) (props s) (flow s) (internalFlowStopped s) (subscriptions s)
    (subscriptionTerminationLock s) (subscriptionsSynchronizationLock s) x (correlations s)
    (buffer s) (bufferClosed s) (doPause s) (doUnpause s) (pauseInterrupt s)
    (bufferEmptyOnTerminateFlag s) (bufferEmptyOnTerminate s) (terminationNotification s)
    (terminationComplete s) (rxCallbackSet s) (rxCallback s) (downHandler s) (eventExecutor s)
    (answers s) (goroutines s) (async_results s) (terminationDiscarded s) (duplicateAcks s)
    (past s).

Definition set_correlations (x : correlation_table) (s : receiver) : receiver :=
  mkReceiver (machine s) (parent s) (props s) (flow s) (internalFlowStopped s) (subscriptions s)
    (subscriptionTerminationLock s) (subscriptionsSynchronizationLock s)
    (outstandingSubscriptionEvents s) x (buffer s) (bufferClosed s) (doPause s) (doUnpause s)
    (pauseInterrupt s) (bufferEmptyOnTerminateFlag s) (bufferEmptyOnTerminate s)
    (terminationNotification s) (terminationComplete s) (rxCallbackSet s) (rxCallback s)
    (downHandler s) (eventExecutor s) (answers s) (goroutines s) (async_results s)
    (terminationDiscarded s) (duplicateAcks s) (past s).

Definition set_buffer (x : chan M) (s : receiver) : receiver :=
  mkReceiver (machine s) (parent s) (props s) (flow s) (internalFlowStopped s) (subscriptions s)
    (subscriptionTerminationLock s) (subscriptionsSynchronizationLock s)
    (outstandingSubscriptionEvents s) (correlations s) x (bufferClosed s) (doPause s)
    (doUnpause s) (pauseInterrupt s) (bufferEmptyOnTerminateFlag s) (bufferEmptyOnTerminate s)
    (terminationNotification s) (terminationComplete s) (rxCallbackSet s) (rxCallback s)
    (downHandler s) (eventExecutor s) (answers s) (goroutines s) (async_results s)
    (terminationDiscarded s) (duplicateAcks s) (past s).

Definition set_bufferClosed (x : bool) (s : receiver) : receiver :=
  mkReceiver (machine s) (parent s) (props s) (flow s) (internalFlowStopped s) (subscriptions s)
    (subscriptionTerminationLock s) (subscriptionsSynchronizationLock s)
    (outstandingSubscriptionEvents s) (correlations s) (buffer s) x (doPause s) (doUnpause s)
    (pauseInterrupt s) (bufferEmptyOnTerminateFlag s) (bufferEmptyOnTerminate s)
    (terminationNotification s) (terminationComplete s) (rxCallbackSet s) (rxCallback s)
    (downHandler s) (eventExecutor s) (answers s) (goroutines s) (async_results s)
    (terminationDiscarded s) (duplicateAcks s) (past s).

Definition set_doPause (x : bool) (s : receiver) : receiver :=
  mkReceiver (machine s) (parent s) (props s) (flow s) (internalFlowStopped s) (subscriptions s)
    (subscriptionTerminationLock s) (subscriptionsSynchronizationLock s)
    (outstandingSubscriptionEvents s) (correlations s) (buffer s) (bufferClosed s) x (doUnpause s)
    (pauseInterrupt s) (bufferEmptyOnTerminateFlag s) (bufferEmptyOnTerminate s)
    (terminationNotification s) (terminationComplete s) (rxCallbackSet s) (rxCallback s)
    (downHandler s) (eventExecutor s) (answers s) (goroutines s) (async_results s)
    (terminationDiscarded s) (duplicateAcks s) (past s).

Definition set_doUnpause (x : chan unit) (s : receiver) : receiver :=
  mkReceiver (machine s) (parent s) (props s) (flow s) (internalFlowStopped s) (subscriptions s)
    (subscriptionTerminationLock s) (subscriptionsSynchronizationLock s)
    (outstandingSubscriptionEvents s) (correlations s) (buffer s) (bufferClosed s) (doPause s) x
    (pauseInterrupt s) (bufferEmptyOnTerminateFlag s) (bufferEmptyOnTerminate s)
    (terminationNotification s) (terminationComplete s) (rxCallbackSet s) (rxCallback s)
    (downHandler s) (eventExecutor s) (answers s) (goroutines s) (async_results s)
    (terminationDiscarded s) (duplicateAcks s) (past s).

Definition set_pauseInterrupt (x : chan unit) (s : receiver) : receiver :=
  mkReceiver (machine s) (parent s) (props s) (flow s) (internalFlowStopped s) (subscriptions s)
    (subscriptionTerminationLock s) (subscriptionsSynchronizationLock s)
    (outstandingSubscriptionEvents s) (correlations s) (buffer s) (bufferClosed s) (doPause s)
    (doUnpause s) x (bufferEmptyOnTerminateFlag s) (bufferEmptyOnTerminate s)
    (terminationNotification s) (terminationComplete s) (rxCallbackSet s) (rxCallback s)
    (downHandler s) (eventExecutor s) (answers s) (goroutines s) (async_results s)
    (terminationDiscarded s) (duplicateAcks s) (past s).

Definition set_emptyFlag (x : bool) (s : receiver) : receiver :=
  mkReceiver (machine s) (parent s) (props s) (flow s) (internalFlowStopped s) (subscriptions s)
    (subscriptionTerminationLock s) (subscriptionsSynchronizationLock s)
    (outstandingSubscriptionEvents s) (correlations s) (buffer s) (bufferClosed s) (doPause s)
    (doUnpause s) (pauseInterrupt s) x (bufferEmptyOnTerminate s) (terminationNotification s)
    (terminationComplete s) (rxCallbackSet s) (rxCallback s) (downHandler s) (eventExecutor s)
    (answers s) (goroutines s) (async_results s) (terminationDiscarded s) (duplicateAcks s)
    (past s).

Definition set_bufferEmpty (x : bool) (s : receiver) : receiver :=
  mkReceiver (machine s) (parent s) (props s) (flow s) (internalFlowStopped s) (subscriptions s)
    (subscriptionTerminationLock s) (subscriptionsSynchronizationLock s)
    (outstandingSubscriptionEvents s) (correlations s) (buffer s) (bufferClosed s) (doPause s)
    (doUnpause s) (pauseInterrupt s) (bufferEmptyOnTerminateFlag s) x (terminationNotification s)
    (terminationComplete s) (rxCallbackSet s) (rxCallback s) (downHandler s) (eventExecutor s)
    (answers s) (goroutines s) (async_results s) (terminationDiscarded s) (duplicateAcks s)
    (past s).

Definition set_terminationNotification (x : bool) (s : receiver) : receiver :=
  mkReceiver (machine s) (parent s) (props s) (flow s) (internalFlowStopped s) (subscriptions s)
    (subscriptionTerminationLock s) (subscriptionsSynchronizationLock s)
    (outstandingSubscriptionEvents s) (correlations s) (buffer s) (bufferClosed s) (doPause s)
    (doUnpause s) (pauseInterrupt s) (bufferEmptyOnTerminateFlag s) (bufferEmptyOnTerminate s) x
    (terminationComplete s) (rxCallbackSet s) (rxCallback s) (downHandler s) (eventExecutor s)
    (answers s) (goroutines s) (async_results s) (terminationDiscarded s) (duplicateAcks s)
    (past s).

Definition set_terminationComplete (x : bool) (s : receiver) : receiver :=
  mkReceiver (machine s) (parent s) (props s) (flow s) (internalFlowStopped s) (subscriptions s)
    (subscriptionTerminationLock s) (subscriptionsSynchronizationLock s)
    (outstandingSubscriptionEvents s) (correlations s) (buffer s) (bufferClosed s) (doPause s)
    (doUnpause s) (pauseInterrupt s) (bufferEmptyOnTerminateFlag s) (bufferEmptyOnTerminate s)
    (terminationNotification s) x (rxCallbackSet s) (rxCallback s) (downHandler s)
    (eventExecutor s) (answers s) (goroutines s) (async_results s) (terminationDiscarded s)
    (duplicateAcks s) (past s).

Definition set_rxCallbackSet (x : chan bool) (s : receiver) : receiver :=
  mkReceiver (machine s) (parent s) (props s) (flow s) (internalFlowStopped s) (subscriptions s)
    (subscriptionTerminationLock s) (subscriptionsSynchronizationLock s)
    (outstandingSubscriptionEvents s) (correlations s) (buffer s) (bufferClosed s) (doPause s)
    (doUnpause s) (pauseInterrupt s) (bufferEmptyOnTerminateFlag s) (bufferEmptyOnTerminate s)
    (terminationNotification s) (terminationComplete s) x (rxCallback s) (downHandler s)
    (eventExecutor s) (answers s) (goroutines s) (async_results s) (terminationDiscarded s)
    (duplicateAcks s) (past s).

Definition set_rxCallback (x : option MessageHandler) (s : receiver) : receiver :=
  mkReceiver (machine s) (parent s) (props s) (flow s) (internalFlowStopped s) (subscriptions s)
    (subscriptionTerminationLock s) (subscriptionsSynchronizationLock s)
    (outstandingSubscriptionEvents s) (correlations s) (buffer s) (bufferClosed s) (doPause s)
    (doUnpause s) (pauseInterrupt s) (bufferEmptyOnTerminateFlag s) (bufferEmptyOnTerminate s)
    (terminationNotification s) (terminationComplete s) (rxCallbackSet s) x (downHandler s)
    (eventExecutor s) (answers s) (goroutines s) (async_results s) (terminationDiscarded s)
    (duplicateAcks s) (past s).

Definition set_downHandler (x : bool) (s : receiver) : receiver :=
  mkReceiver (machine s) (parent s) (props s) (flow s) (internalFlowStopped s) (subscriptions s)
    (subscriptionTerminationLock s) (subscriptionsSynchronizationLock s)
    (outstandingSubscriptionEvents s) (correlations s) (buffer s) (bufferClosed s) (doPause s)
    (doUnpause s) (pauseInterrupt s) (bufferEmptyOnTerminateFlag s) (bufferEmptyOnTerminate s)
    (terminationNotification s) (terminationComplete s) (rxCallbackSet s) (rxCallback s) x
    (eventExecutor s) (answers s) (goroutines s) (async_results s) (terminationDiscarded s)
    (duplicateAcks s) (past s).

Definition set_executor (x : executor_state) (s : receiver) : receiver :=
  mkReceiver (machine s) (parent s) (props s) (flow s) (internalFlowStopped s) (subscriptions s)
    (subscriptionTerminationLock s) (subscriptionsSynchronizationLock s)
    (outstandingSubscriptionEvents s) (correlations s) (buffer s) (bufferClosed s) (doPause s)
    (doUnpause s) (pauseInterrupt s) (bufferEmptyOnTerminateFlag s) (bufferEmptyOnTerminate s)
    (terminationNotification s) (terminationComplete s) (rxCallbackSet s) (rxCallback s)
    (downHandler s) x (answers s) (goroutines s) (async_results s) (terminationDiscarded s)
    (duplicateAcks s) (past s).

Definition set_answers (x : list flow_answer) (s : receiver) : receiver :=
  mkReceiver (machine s) (parent s) (props s) (flow s) (internalFlowStopped s) (subscriptions s)
    (subscriptionTerminationLock s) (subscriptionsSynchronizationLock s)
    (outstandingSubscriptionEvents s) (correlations s) (buffer s) (bufferClosed s) (doPause s)
    (doUnpause s) (pauseInterrupt s) (bufferEmptyOnTerminateFlag s) (bufferEmptyOnTerminate s)
    (terminationNotification s) (terminationComplete s) (rxCallbackSet s) (rxCallback s)
    (downHandler s) (eventExecutor s) x (goroutines s) (async_results s) (terminationDiscarded s)
    (duplicateAcks s) (past s).

Definition set_goroutines (x : list goroutine) (s : receiver) : receiver :=
  mkReceiver (machine s) (parent s) (props s) (flow s) (internalFlowStopped s) (subscriptions s)
    (subscriptionTerminationLock s) (subscriptionsSynchronizationLock s)
    (outstandingSubscriptionEvents s) (correlations s) (buffer s) (bufferClosed s) (doPause s)
    (doUnpause s) (pauseInterrupt s) (bufferEmptyOnTerminateFlag s) (bufferEmptyOnTerminate s)
    (terminationNotification s) (terminationComplete s) (rxCallbackSet s) (rxCallback s)
    (downHandler s) (eventExecutor s) (answers s) x (async_results s) (terminationDiscarded s)
    (duplicateAcks s) (past s).

Definition set_async_results (x : list async_result) (s : receiver) : receiver :=
  mkReceiver (machine s) (parent s) (props s) (flow s) (internalFlowStopped s) (subscriptions s)
    (subscriptionTerminationLock s) (subscriptionsSynchronizationLock s)
    (outstandingSubscriptionEvents s) (correlations s) (buffer s) (bufferClosed s) (doPause s)
    (doUnpause s) (pauseInterrupt s) (bufferEmptyOnTerminateFlag s) (bufferEmptyOnTerminate s)
    (terminationNotification s) (terminationComplete s) (rxCallbackSet s) (rxCallback s)
    (downHandler s) (eventExecutor s) (answers s) (goroutines s) x (terminationDiscarded s)
    (duplicateAcks s) (past s).

Definition set_terminationDiscarded (x : Z) (s : receiver) : receiver :=
  mkReceiver (machine s) (parent s) (props s) (flow s) (internalFlowStopped s) (subscriptions s)
    (subscriptionTerminationLock s) (subscriptionsSynchronizationLock s)
    (outstandingSubscriptionEvents s) (correlations s) (buffer s) (bufferClosed s) (doPause s)
    (doUnpause s) (pauseInterrupt s) (bufferEmptyOnTerminateFlag s) (bufferEmptyOnTerminate s)
    (terminationNotification s) (terminationComplete s) (rxCallbackSet s) (rxCallback s)
    (downHandler s) (eventExecutor s) (answers s) (goroutines s) (async_results s) x
    (duplicateAcks s) (past s).

Definition set_duplicateAcks (x : Z) (s : receiver) : receiver :=
  mkReceiver (machine s) (parent s) (props s) (flow s) (internalFlowStopped s) (subscriptions s)
    (subscriptionTerminationLock s) (subscriptionsSynchronizationLock s)
    (outstandingSubscriptionEvents s) (correlations s) (buffer s) (bufferClosed s) (doPause s)
    (doUnpause s) (pauseInterrupt s) (bufferEmptyOnTerminateFlag s) (bufferEmptyOnTerminate s)
    (terminationNotification s) (terminationComplete s) (rxCallbackSet s) (rxCallback s)
    (downHandler s) (eventExecutor s) (answers s) (goroutines s) (async_results s)
    (terminationDiscarded s) x (past s).

Definition set_past (x : history) (s : receiver) : receiver :=
  mkReceiver (machine s) (parent s) (props s) (flow s) (internalFlowStopped s) (subscriptions s)
    (subscriptionTerminationLock s) (subscriptionsSynchronizationLock s)
    (outstandingSubscriptionEvents s) (correlations s) (buffer s) (bufferClosed s) (doPause s)
    (doUnpause s) (pauseInterrupt s) (bufferEmptyOnTerminateFlag s) (bufferEmptyOnTerminate s)
    (terminationNotification s) (terminationComplete s) (rxCallbackSet s) (rxCallback s)
    (downHandler s) (eventExecutor s) (answers s) (goroutines s) (async_results s)
    (terminationDiscarded s) (duplicateAcks s) x.

Definition note (f : history → history) (s : receiver) : receiver := set_past (f (past s)) s.

#[export] Instance persistent_lifecycle : HasLifecycle receiver := {|
  lc := machine;
  put_lc := set_machine;
  parent_running := parent;
  lc_put _ _ := eq_refl;
  parent_put _ _ := eq_refl;
|}.

(** The size of the buffer is computed before [highwater] is assigned. *)
Definition maxWindowSize : Z := 255.
Definition bufferSize (highwater : Z) : nat := Z.to_nat (2 * maxWindowSize + 2 * highwater).

Definition construct (up : bool) (p : receiver_props) (ans : list flow_answer) : receiver :=
  mkReceiver new_lifecycle up p (mkFlow false false false) 0
    (subscription_name <$> startupSubscriptions p) (mkReadLock ∅ 0) false ∅
    (mkCorrelations [] ∅) (make_chan (bufferSize 0)) false false (make_chan 1) (make_chan 1)
    false false false false (make_chan 1) None false (mkExecutorState false [] false false) ans [] [] 0 0
    (mkHistory ContextFree NotSpawned [] [] [] [] [] [] [] [] None [] []).

Abbreviation rp A := (prog receiver A).

Definition go (g : goroutine) : rp unit := update (λ s, set_goroutines (goroutines s ++ [g]) s).
Definition tell (r : async_result) : rp unit :=
  update (λ s, set_async_results (async_results s ++ [r]) s).
Definition AddEventHandler : rp unit := update (set_downHandler true).
Definition RemoveEventHandler : rp unit := update (set_downHandler false).

(** * Calls of the C library *)

Definition next_answer (s : receiver) : flow_answer * list flow_answer :=
  match answers s with [] => ((None, (queue_name (endpoint (props s)), durable (endpoint (props s)))), []) | a :: l => (a, l) end.

(** A call of the session; [after] is what it does where it succeeds. *)
Definition session_call (c : flow_call) (after : receiver → receiver) : rp flow_answer :=
  action (λ s, let (a, l) := next_answer s in
    let s' := note (note_flow c) (set_answers l s) in
    AOk a (match fst a with None => after s' | Some _ => s' end)).

(** A call of the flow: there is none before it is created. *)
Definition flow_request (c : flow_call) (after : receiver → receiver) : rp flow_answer :=
  action (λ s, if created (flow s) then
    let (a, l) := next_answer s in
    let s' := note (note_flow c) (set_answers l s) in
    AOk a (match fst a with None => after s' | Some _ => s' end)
  else APanic NilDereference).

Definition set_receiving (b : bool) (s : receiver) : receiver :=
  set_flow (mkFlow (created (flow s)) b (attached (flow s))) s.

Definition NewPersistentReceiver : rp flow_answer :=
  let! properties := load (λ s, flowProperties (props s)) in
  session_call (FlowCreate properties) (set_flow (mkFlow true false true)).
Definition flow_Start : rp flow_answer := flow_request FlowStart (set_receiving true).
Definition flow_Stop : rp flow_answer := flow_request FlowStop (set_receiving false).
(** [noted] records the acknowledgement, whatever the library answers. *)
Definition flow_Ack (msgID : Z) (noted : history → history) : rp flow_answer :=
  action (λ s, if created (flow s) then
    let (a, l) := next_answer s in AOk a (note noted (note (note_flow (FlowAck msgID)) (set_answers l s)))
  else APanic NilDereference).
Definition flow_Settle (msgID : Z) (o : settlement) : rp flow_answer :=
  flow_request (FlowSettle msgID o) (λ s, s).
Definition flow_Destination : rp flow_answer := flow_request FlowGetDestination (λ s, s).

(** [Destroy]: the callbacks are removed whatever the library answers, which is only called to free
    its memory. *)
Definition detach (s : receiver) : receiver := set_flow (mkFlow (created (flow s)) false false) s.
Definition flow_Destroy (freeMemory : bool) : rp unit :=
  action (λ s, if created (flow s) then
    AOk tt (detach (if freeMemory then note (note_flow FlowDestroy) (set_answers (snd (next_answer s)) s) else s))
  else APanic NilDereference).

(** A request under a new correlation, which is forgotten again where the call fails. *)
Definition correlated (call : nat → flow_call) (s : receiver) : act receiver (res ErrorInfo nat) :=
  let t := correlations s in
  let id := length (results t) in
  let (a, l) := next_answer s in
  let s' := note (note_flow (call id)) (set_answers l s) in
  match fst a with
  | Some errInfo => AOk (Err errInfo) (set_correlations (mkCorrelations (results t ++ [None]) (known_ids t)) s')
  | None => AOk (Ok id) (set_correlations (mkCorrelations (results t ++ [None]) ({[id]} ∪ known_ids t)) s')
  end.
Definition flow_Subscribe (topic : string) : rp (res ErrorInfo nat) :=
  action (λ s, if created (flow s) then correlated (FlowSubscribe topic) s else APanic NilDereference).
Definition flow_Unsubscribe (topic : string) : rp (res ErrorInfo nat) :=
  action (λ s, if created (flow s) then correlated (FlowUnsubscribe topic) s else APanic NilDereference).
Definition session_EndpointUnsubscribe (name topic : string) : rp (res ErrorInfo nat) :=
  action (correlated (EndpointUnsubscribe name topic)).

(** The event of a request: to whoever waits for it, if core still knows the correlation. *)
Definition deliver_event (id : nat) (err : option go_error) (s : receiver) : receiver :=
  let t := correlations s in
  if bool_decide (id ∈ known_ids t)
  then set_correlations (mkCorrelations (<[id := Some err]> (results t)) (known_ids t ∖ {[id]})) s
  else s.
(** [event := <-result]. *)
Definition await_event (id : nat) : rp (option go_error) :=
  action (λ s, match results (correlations s) !! id with Some (Some ev) => AOk ev s | _ => ABlock end).
Definition ClearSubscriptionCorrelation (id : nat) (s : receiver) : receiver :=
  let t := correlations s in set_correlations (mkCorrelations (results t) (known_ids t ∖ {[id]})) s.

(** * The flow *)

(** [startFlow] and [stopFlow]: whether the flow was started, or stopped. *)
Definition startFlow : rp bool :=
  let! swapped := compare_and_swap internalFlowStopped set_stopped 1 0 in
  if (swapped : bool) then
    let! a := flow_Start in
    match fst a with
    | Some _ => store set_stopped 1 ;;;; PRet false
    | None => PRet true
    end
  else PRet false.

Definition stopFlow : rp bool :=
  let! stopped := load internalFlowStopped in
  if decide (stopped = 0) then
    let! a := flow_Stop in
    match fst a with
    | Some _ => PRet false
    | None => store set_stopped 1 ;;;; PRet true
    end
  else PRet false.

Definition buffer_length (s : receiver) : Z := Z.of_nat (length (chan_buf (buffer s))).
Definition at_highwater (s : receiver) : bool := bufferHighwater (props s) <=? buffer_length s.
Definition below_lowwater (s : receiver) : bool := buffer_length s <? bufferLowwater (props s).
Definition at_lowwater (s : receiver) : bool := buffer_length s <=? bufferLowwater (props s).

(** [if low(buffer) && receiver.getState() == started { receiver.startFlow() }]. *)
Definition resume_if (low : receiver → bool) : rp unit :=
  let! b := load low in
  if (b : bool) then
    let! state := getState in
    if decide (state = Started) then startFlow ;;;; PRet tt else PRet tt
  else PRet tt.

(** * Subscriptions *)

Definition termination_RLock : rp nat :=
  action (λ s, let l := subscriptionTerminationLock s in
    AOk (next_reader l)
      (set_termination_lock (mkReadLock ({[next_reader l]} ∪ readers l) (S (next_reader l))) s)).
Definition termination_RUnlock (t : nat) : rp unit :=
  action (λ s, let l := subscriptionTerminationLock s in
    if bool_decide (t ∈ readers l)
    then AOk tt (set_termination_lock (mkReadLock (readers l ∖ {[t]}) (next_reader l)) s)
    else APanic UnlockOfUnlocked).

Definition synchronization_Lock : rp unit :=
  action (λ s, if subscriptionsSynchronizationLock s then ABlock else AOk tt (set_synchronization true s)).
Definition synchronization_Unlock : rp unit :=
  action (λ s, if subscriptionsSynchronizationLock s then AOk tt (set_synchronization false s)
               else APanic UnlockOfUnlocked).

Definition subscribe (topic : string) : rp (res ErrorInfo nat) :=
  synchronization_Lock ;;;;
  let! r := flow_Subscribe topic in
  synchronization_Unlock ;;;; PRet r.

Definition isSubscribed (topic : string) : rp bool :=
  load (λ s, bool_decide (topic ∈ subscriptions s)).

(** A topic that is not subscribed may still be a subscription of a durable queue. *)
Definition unsubscribe_locked (topic : string) : rp (res ErrorInfo nat) :=
  let! subscribed := isSubscribed topic in
  if negb subscribed then
    let! a := flow_Destination in
    match a with
    | (Some errorInfo, _) => PRet (Err errorInfo)
    | (None, (name, true)) => session_EndpointUnsubscribe name topic
    | (None, (_, false)) => flow_Unsubscribe topic
    end
  else flow_Unsubscribe topic.
Definition unsubscribe (topic : string) : rp (res ErrorInfo nat) :=
  synchronization_Lock ;;;;
  let! r := unsubscribe_locked topic in
  synchronization_Unlock ;;;; PRet r.

Definition addCorrelation (id : nat) : rp unit :=
  update (λ s, set_outstanding ({[id]} ∪ outstandingSubscriptionEvents s) s).
Definition clearCorrelation (id : nat) : rp unit :=
  update (λ s, set_outstanding (outstandingSubscriptionEvents s ∖ {[id]}) s).

(** [addSubscription] and [removeSubscription]; [inl] is the request to be awaited. *)
Definition modify_subscription (request : string → rp (res ErrorInfo nat))
    (modify : string → list string → list string) (subscription : Subscription) : rp (nat + go_error) :=
  let! t := termination_RLock in
  let! currentState := getState in
  if decide (currentState ≠ Started) then
    termination_RUnlock t ;;;; PRet (inr (UnableToModifySubscriptionBadState currentState))
  else
    let topic := subscription_name subscription in
    let! r := request topic in
    match r with
    | Err internalErr => termination_RUnlock t ;;;; PRet (inr (ToNativeError internalErr ""))
    | Ok id =>
        addCorrelation id ;;;;
        update (λ s, set_subscriptions (modify topic (subscriptions s)) s) ;;;;
        termination_RUnlock t ;;;; PRet (inl id)
    end.

Definition addSubscription : Subscription → rp (nat + go_error) :=
  modify_subscription subscribe insert_topic.
Definition removeSubscription : Subscription → rp (nat + go_error) :=
  modify_subscription unsubscribe splice_topic.

(** The event of the request, which is then no longer outstanding. *)
Definition await_modification (r : nat + go_error) : rp (option go_error) :=
  match r with
  | inr err => PRet (Some err)
  | inl id => let! ev := await_event id in clearCorrelation id ;;;; PRet ev
  end.

(** The checks that the four operations on subscriptions make first. *)
Definition check_modify (subscription : Subscription) : rp (option go_error) :=
  let! currentState := getState in
  PRet (if decide (currentState ≠ Started)
        then Some (UnableToModifySubscriptionBadState currentState)
        else checkPersistentMessageReceiverSubscriptionType subscription).

Definition AddSubscription (subscription : Subscription) : rp (option go_error) :=
  let! err := check_modify subscription in
  match err with
  | Some err => PRet (Some err)
  | None => let! r := addSubscription subscription in await_modification r
  end.
Definition RemoveSubscription (subscription : Subscription) : rp (option go_error) :=
  let! err := check_modify subscription in
  match err with
  | Some err => PRet (Some err)
  | None => let! r := removeSubscription subscription in await_modification r
  end.

Definition AddSubscriptionAsync (subscription : Subscription) (listener : bool) : rp (option go_error) :=
  let! err := check_modify subscription in
  match err with
  | Some err => PRet (Some err)
  | None => go (GoAddSubscription subscription listener) ;;;; PRet None
  end.
Definition RemoveSubscriptionAsync (subscription : Subscription) (listener : bool) : rp (option go_error) :=
  let! err := check_modify subscription in
  match err with
  | Some err => PRet (Some err)
  | None => go (GoRemoveSubscription subscription listener) ;;;; PRet None
  end.

(** The goroutines of the last two: without a listener nobody waits. *)
Definition change_subscription (add : bool) (subscription : Subscription) (listener : bool)
    : rp (option go_error) :=
  let! r := (if add then addSubscription subscription else removeSubscription subscription) in
  if listener then
    let! err := await_modification r in tell (SubscriptionChanged subscription add err) ;;;; PRet None
  else PRet None.

(** * Receiving *)

(** What the application gets. *)
Inductive answer : Type :=
| Returned (err : option go_error)
| InboundMessage (m : M)
| ReceiverInfoOf (name : string) (isDurable : bool).

#[export] Instance answer_eq_dec : EqDecision answer.
Proof using EqDecision0. solve_decision. Defined.

Inductive received : Type := Got (m : M) | GotClosed | GotTimeout | GotTerminated.

(** [msgP, ok = <-receiver.buffer], where [f] is what becomes of the message. *)
Definition receive_buffer (f : fate) (then_ : M → receiver → receiver) (s : receiver) : act receiver received :=
  match chan_recv (buffer s) with
  | Done (Some m) c => AOk (Got m) (then_ m (note (note_taken m f) (set_buffer c s)))
  | Done None _ => AOk GotClosed s
  | Panicked p _ => APanic p
  | Blocked _ => ABlock
  end.

Definition buffer_empty (s : receiver) : bool := bool_decide (chan_buf (buffer s) = []).

(** [CompareAndSwapInt32(&receiver.bufferEmptyOnTerminateFlag, 0, 1)] and the close. *)
Definition notify_empty : rp bool :=
  let! swapped := compare_and_swap bufferEmptyOnTerminateFlag set_emptyFlag false true in
  if (swapped : bool) then close_signal bufferEmptyOnTerminate set_bufferEmpty ;;;; PRet true else PRet false.

Definition checkEmptyBufferAndNotify : rp bool :=
  let! closed := load bufferClosed in
  if (closed : bool) then
    let! empty := load buffer_empty in
    if (empty : bool) then notify_empty else PRet false
  else PRet false.

Definition count_duplicateAck (s : receiver) : receiver := set_duplicateAcks (duplicateAcks s + 1) s.

(** The message is acknowledged just before it is returned. *)
Definition ack_received (m : M) : rp answer :=
  let! doAck := load (λ s, doAutoAck (props s)) in
  if (doAck : bool) then
    match GetMessageID m with
    | Some msgID =>
        let! a := flow_Ack msgID (note_ack m Received) in
        match fst a with
        | Some errInfo =>
            update (note (note_freed m Received)) ;;;; PRet (Returned (Some (ToNativeError errInfo "")))
        | None => update count_duplicateAck ;;;; PRet (InboundMessage m)
        end
    | None => PRet (InboundMessage m)
    end
  else PRet (InboundMessage m).

(** [timer]: the timeout is not negative. *)
Definition ReceiveMessage (timer : bool) : rp answer :=
  let! state := getState in
  if decide (state = NotStarted ∨ state = Starting)
  then PRet (Returned (Some ReceiverCannotReceiveNotStarted))
  else
    let! r := select ([ receive_buffer Received (λ _ s, s);
                        (λ s, if bufferEmptyOnTerminate s then AOk GotTerminated s else ABlock) ] ++
                      (if timer then [ (λ s, AOk GotTimeout s) ] else [])) in
    match r with
    | Got m =>
        resume_if at_lowwater ;;;;
        let! a := ack_received m in
        checkEmptyBufferAndNotify ;;;; PRet a
    | GotTimeout =>
        checkEmptyBufferAndNotify ;;;; PRet (Returned (Some ReceiverTimedOutWaitingForMessage))
    | GotClosed | GotTerminated =>
        checkEmptyBufferAndNotify ;;;; PRet (Returned (Some ReceiverCannotReceiveAlreadyTerminated))
    end.

(** [select { case receiver.rxCallbackSet <- b: default: }]. *)
Definition offer_callback (b : bool) : rp bool :=
  atomically rxCallbackSet set_rxCallbackSet (chan_try_send b).

(** [callback] is [None] for nil. *)
Definition ReceiveAsync (callback : option MessageHandler) : rp (option go_error) :=
  let! terminating := IsTerminating in
  let! terminated := (if terminating : bool then PRet true else IsTerminated) in
  if (terminated : bool) then PRet (Some UnableToRegisterCallbackReceiverTerminating)
  else match callback with
  | None => PRet (Some nil_callback_error)
  | Some f =>
      let! first := action (λ s, match rxCallback s with
                                 | None => AOk true (set_rxCallback (Some f) s)
                                 | Some _ => AOk false s
                                 end) in
      (if (first : bool) then offer_callback true ;;;; PRet tt
       else update (set_rxCallback (Some f))) ;;;; PRet None
  end.

(** ** Settlement, information, pausing *)

(** A message, or the name of a type that is no message of a receiver. *)
Definition Settle (msg : M + string) (outcome : string) : rp (option go_error) :=
  let! state := getState in
  if decide (state ≠ Started ∧ state ≠ Terminating) then
    PRet (Some (if decide (state = Terminated) then UnableToSettleAlreadyTerminated else UnableToSettleNotStarted))
  else
    match msg with
    | inr typeName => PRet (Some (InvalidInboundMessageType typeName))
    | inl m =>
        match GetMessageID m with
        | None => PRet (Some UnableToRetrieveMessageID)
        | Some msgID =>
            match settlement_of outcome with
            | None => PRet (Some InvalidMessageSettlementOutcome)
            | Some o =>
                let! a := flow_Settle msgID o in
                PRet (match fst a with Some errInfo => Some (ToNativeError errInfo "") | None => None end)
            end
        end
    end.

Definition Ack (msg : M + string) : rp (option go_error) := Settle msg PersistentReceiverAcceptedOutcome.

Definition ReceiverInfo : rp answer :=
  let! state := getState in
  if decide (state ≠ Started) then PRet (Returned (Some receiver_info_error))
  else
    let! a := flow_Destination in
    match a with
    | (Some errorInfo, _) => PRet (Returned (Some (ToNativeError errorInfo "")))
    | (None, (name, isDurable)) => PRet (ReceiverInfoOf name isDurable)
    end.

(** [select { case <-c: default: }] and [select { case c <- nil: default: }]. *)
Definition drain_one (view : receiver → chan unit) (put : chan unit → receiver → receiver) : rp unit :=
  let! r := atomically view put chan_try_recv in PRet tt.
Definition offer_one (view : receiver → chan unit) (put : chan unit → receiver → receiver) : rp unit :=
  let! r := atomically view put (chan_try_send tt) in PRet tt.

Definition Pause : rp (option go_error) :=
  let! state := getState in
  if decide (state ≠ Started ∧ state ≠ Terminating) then PRet (Some PersistentReceiverCannotPauseBadState)
  else
    drain_one doUnpause set_doUnpause ;;;;
    store set_doPause true ;;;;
    offer_one pauseInterrupt set_pauseInterrupt ;;;;
    PRet None.

Definition Resume : rp (option go_error) :=
  let! state := getState in
  if decide (state ≠ Started ∧ state ≠ Terminating) then PRet (Some PersistentReceiverCannotUnpauseBadState)
  else
    drain_one pauseInterrupt set_pauseInterrupt ;;;;
    store set_doPause false ;;;;
    offer_one doUnpause set_doUnpause ;;;;
    PRet None.

(** ** The context thread *)

Inductive pushing : Type := PushOk | PushFull | PushClosed.

(** [case receiver.buffer <- msg], its default, and the panic of a closed buffer. *)
Definition push (m : M) : rp pushing :=
  action (λ s, match chan_try_send m (buffer s) with
               | Done true c => AOk PushOk (note (note_verdict m Pushed (Decided m true false)) (set_buffer c s))
               | Done false _ => AOk PushFull (note (note_verdict m Full (Decided m true false)) s)
               | _ => AOk PushClosed (note (note_verdict m Closed (Decided m false true)) s)
               end).

Definition count_termination (m : M) : rp unit :=
  update (λ s, note (at_context (Decided m false false)) (set_terminationDiscarded (terminationDiscarded s + 1) s)).

(** The flow is stopped at the high mark, and resumed if the buffer has been drained meanwhile. *)
Definition push_back : rp unit :=
  let! high := load at_highwater in
  if (high : bool) then
    let! stopped := stopFlow in
    if (stopped : bool) then resume_if below_lowwater else PRet tt
  else PRet tt.

(** [messageCallback]: whether the message is kept. *)
Definition messageCallback (m : M) : rp bool :=
  let! currentState := action (λ s, let st := state_of s in
    AOk st (if decide (st = Terminating ∨ st = Terminated)
            then note (note_verdict m Late (Decided m false true)) s else s)) in
  if decide (currentState = Terminating ∨ currentState = Terminated)
  then count_termination m ;;;; PRet false
  else
    let! r := push m in
    match r with
    | PushOk => push_back ;;;; PRet true
    | PushFull => PRet true
    | PushClosed => count_termination m ;;;; PRet false
    end.

(** A message of the flow: the context thread calls the callback, if there is one, and answers. *)
Definition flow_message (m : M) : rp (option go_error) :=
  let! called := action (λ s, match context (past s) with
    | ContextFree => if attached (flow s) then AOk true (note (note_arrived m) s) else AOk false s
    | _ => ABlock
    end) in
  if (called : bool) then
    let! kept := messageCallback m in
    update (note (note_answered m kept)) ;;;; PRet None
  else PRet None.

(** ** The goroutine of the handler *)

(** The handler is called and recovered from; what is left to be done with the message. *)
Definition call_handler (callback : option MessageHandler) (m : M) : rp unit :=
  update (λ s,
    let panicked := match callback with Some f => handler_panics f m | None => false end in
    let n := if doAutoAck (props s) && negb panicked then ToAck m else Empty in
    match callback with
    | Some f => note (note_called f m panicked n) s
    | None => note (at_runner (Running n)) s
    end).

(** The acknowledgement of a handled message: without an identifier it is that of 0. *)
Definition ack_handled (m : M) : rp unit :=
  let! doAck := load (λ s, match runner (past s) with Running (ToAck _) => true | _ => false end) in
  if (doAck : bool) then
    let! a := flow_Ack (default 0 (GetMessageID m)) (λ h, at_runner (Running Empty) (note_ack m Handed h)) in
    match fst a with Some _ => PRet tt | None => update count_duplicateAck end
  else PRet tt.

Inductive signal : Type := Unpaused | Ended.

(** What a paused loop waits for; [true] goes on. *)
Definition await_unpause : rp bool :=
  let! r := select [ (λ s, match chan_recv (doUnpause s) with
                           | Done _ c => AOk Unpaused (set_doUnpause c s)
                           | Panicked p _ => APanic p
                           | Blocked _ => ABlock
                           end);
                     (λ s, if terminationNotification s then AOk Ended s else ABlock);
                     (λ s, if bufferEmptyOnTerminate s then AOk Ended s else ABlock) ] in
  PRet (match r with Unpaused => true | Ended => false end).

(** The first part of a turn of the loop: whether it goes on. *)
Definition check_pause : rp bool :=
  let! paused := load doPause in
  if (paused : bool) then
    let! emptied := checkEmptyBufferAndNotify in
    if (emptied : bool) then PRet false else await_unpause
  else PRet true.

Inductive turn : Type := TurnMessage (m : M) | TurnClosed | TurnInterrupted | TurnEnded.

Definition next_turn : rp turn :=
  select [ (λ s, match receive_buffer Handed (λ m s, note (at_runner (Running (Holding m))) s) s with
                 | AOk (Got m) s' => AOk (TurnMessage m) s'
                 | AOk _ s' => AOk TurnClosed s'
                 | ABlock => ABlock
                 | APanic p => APanic p
                 end);
           (λ s, match chan_recv (pauseInterrupt s) with
                 | Done _ c => AOk TurnInterrupted (set_pauseInterrupt c s)
                 | Panicked p _ => APanic p
                 | Blocked _ => ABlock
                 end);
           (λ s, if terminationNotification s then AOk TurnEnded s else ABlock) ].

(** The loop, for at most [fuel] turns; [true] when it has left it. *)
Fixpoint run_loop (fuel : nat) : rp bool :=
  match fuel with
  | O => PRet false
  | S fuel =>
      let! goes_on := check_pause in
      if negb goes_on then PRet true
      else
        let! notified := load terminationNotification in
        if (notified : bool) then PRet true
        else
          let! t := next_turn in
          match t with
          | TurnMessage m =>
              let! callback := load rxCallback in
              call_handler callback m ;;;;
              ack_handled m ;;;;
              resume_if at_lowwater ;;;;
              run_loop fuel
          | TurnClosed => notify_empty ;;;; PRet true
          | TurnInterrupted => run_loop fuel
          | TurnEnded => PRet true
          end
  end.

(** [go receiver.run()], once it has been asked for. *)
Definition run_receiver (fuel : nat) : rp (option go_error) :=
  action (λ s, match runner (past s) with
               | Spawned => AOk tt (note (at_runner (Running Empty)) s)
               | _ => ABlock
               end) ;;;;
  let! cont := action (λ s, match chan_recv (rxCallbackSet s) with
                            | Done b c => AOk (default false b) (set_rxCallbackSet c s)
                            | Panicked p _ => APanic p
                            | Blocked _ => ABlock
                            end) in
  let! left_ := (if (cont : bool) then run_loop fuel else PRet true) in
  if (left_ : bool) then
    action (λ s, if terminationComplete s then APanic CloseOfClosedChannel
                 else AOk tt (note (at_runner Finished) (set_terminationComplete true s))) ;;;;
    PRet None
  else PRet None.

(** * Start and termination *)

Definition provisionEndpoint : rp (option go_error) :=
  let! queue := load (λ s, endpoint (props s)) in
  let! doCreate := load (λ s, doCreateMissingResource (props s)) in
  if (doCreate : bool) && durable queue then
    let! a := session_call (EndpointProvision (queue_name queue) (exclusivelyAccessible queue)) (λ s, s) in
    PRet match fst a with
         | Some errInfo =>
             if decide (SubCode errInfo = EndpointAlreadyExists) then None else Some (ToNativeError errInfo "")
         | None => None
         end
  else PRet None.

(** The requests for the subscriptions, up to the first that fails, and those made. *)
Fixpoint subscribe_all (topics : list string) (outstandingCorrelations : list nat)
    : rp (option go_error * list nat) :=
  match topics with
  | [] => PRet (None, outstandingCorrelations)
  | topic :: topics =>
      let! r := flow_Subscribe topic in
      match r with
      | Err errInfo => PRet (Some (ToNativeError errInfo FailedToAddSubscription), outstandingCorrelations)
      | Ok id => subscribe_all topics (outstandingCorrelations ++ [id])
      end
  end.

Fixpoint await_all (ids : list nat) : rp (option go_error) :=
  match ids with
  | [] => PRet None
  | id :: ids =>
      let! err := await_event id in
      match err with Some err => PRet (Some err) | None => await_all ids end
  end.

(** The deferred cleanup of a failed start: the event handler and, if there is one, the flow. *)
Definition start_failed (err : go_error) : rp (option go_error) :=
  RemoveEventHandler ;;;;
  let! there := load (λ s, created (flow s)) in
  (if (there : bool) then flow_Destroy true else PRet tt) ;;;;
  PRet (Some err).

Definition clear_all (ids : list nat) : rp unit :=
  update (λ s, foldl (λ s id, ClearSubscriptionCorrelation id s) s ids).

(** The goroutines of the executor and of [run]. *)
Definition spawn : rp unit :=
  update (λ s, let e := eventExecutor s in
    set_executor (mkExecutorState (exec_closed e) (exec_tasks e) true (exec_complete e)) s) ;;;;
  update (note (at_runner Spawned)).

Definition start_flow_and_subscribe : rp (option go_error) :=
  let! started := flow_Start in
  match fst started with
  | Some errInfo => start_failed (ToNativeError errInfo FailedToStartFlow)
  | None =>
      let! topics := load subscriptions in
      let! r := subscribe_all topics [] in
      match r with
      | (Some err, ids) => clear_all ids ;;;; start_failed err
      | (None, ids) =>
          let! err := await_all ids in
          match err with
          | Some err => clear_all ids ;;;; start_failed err
          | None => spawn ;;;; PRet None
          end
      end
  end.

Definition start_body : rp (option go_error) :=
  let! err := provisionEndpoint in
  match err with
  | Some err => start_failed err
  | None =>
      AddEventHandler ;;;;
      let! a := NewPersistentReceiver in
      match fst a with
      | Some errInfo => start_failed (ToNativeError errInfo FailedToCreateFlow)
      | None => start_flow_and_subscribe
      end
  end.

Definition Start : rp (option go_error) := start_around receiver_texts start_body.

(** ** The executor of the state changes *)

Definition executor_Submit (b : bool) : rp unit :=
  update (λ s, let e := eventExecutor s in
    if exec_closed e then s
    else set_executor (mkExecutorState false (exec_tasks e ++ [b]) (exec_spawned e) (exec_complete e)) s).
Definition executor_Terminate : rp unit :=
  update (λ s, let e := eventExecutor s in
    set_executor (mkExecutorState true (exec_tasks e) (exec_spawned e) (exec_complete e)) s).
Definition executor_AwaitTermination : rp unit :=
  executor_Terminate ;;;; await_closed (λ s, exec_complete (eventExecutor s)).

(** One turn of [eventExecutor.Run]: a task calls the listener, and the goroutine ends when the closed
    executor has none left. *)
Definition executor_turn : rp unit :=
  action (λ s, let e := eventExecutor s in
    if exec_spawned e then
      match exec_tasks e with
      | b :: tasks => AOk tt (note (note_notified b)
          (set_executor (mkExecutorState (exec_closed e) tasks true (exec_complete e)) s))
      | [] => if exec_closed e then AOk tt (set_executor (mkExecutorState true [] true true) s) else ABlock
      end
    else ABlock).

(** ** Termination *)

(** The range over the closed buffer, which frees what it takes.  The buffer holds at most
    its capacity, so its capacity and one more are turns enough: running out of them would be a
    crash. *)
Fixpoint drain_loop (fuel : nat) (undeliveredCount : nat) : rp nat :=
  match fuel with
  | O => action (λ _, APanic IndexOutOfRange)
  | S fuel =>
      let! more := action (λ s,
        match chan_recv (buffer s) with
        | Done (Some m) c => AOk true (note (note_freed m Drained) (note (note_taken m Drained) (set_buffer c s)))
        | Done None _ => AOk false s
        | Panicked p _ => APanic p
        | Blocked _ => ABlock
        end) in
      if (more : bool) then drain_loop fuel (S undeliveredCount) else PRet undeliveredCount
  end.

Definition drainQueue : rp nat :=
  let! capacity := load (λ s, chan_cap (buffer s)) in
  let! undeliveredCount := drain_loop (S capacity) 0 in
  notify_empty ;;;; PRet undeliveredCount.

Definition report_undelivered (n : nat) : rp (option go_error) :=
  if (0 <? n)%nat then
    update (λ s, note (note_reported n)
                   (set_terminationDiscarded (terminationDiscarded s + Z.of_nat n) s)) ;;;;
    PRet (Some (undelivered_error n))
  else PRet None.

Definition close_buffer : rp unit :=
  action (λ s, match chan_close (buffer s) with
               | Done _ c => AOk tt (set_buffer c s)
               | Panicked p _ => APanic p
               | Blocked _ => ABlock
               end).

Definition close_notification : rp unit :=
  close_signal terminationNotification set_terminationNotification.

(** What follows the wait: whether the grace period has passed. *)
Definition terminate_wait (timed_out : bool) : rp (option go_error) :=
  if timed_out then
    close_notification ;;;;
    await_closed terminationComplete ;;;;
    let! undeliveredCount := drainQueue in report_undelivered undeliveredCount
  else await_closed terminationComplete ;;;; PRet None.

(** The deferred calls: the executor, the correlations that are outstanding, the flow. *)
Definition clear_outstanding : rp unit :=
  update (λ s, let t := correlations s in
    set_outstanding ∅
      (set_correlations (mkCorrelations (results t) (known_ids t ∖ outstandingSubscriptionEvents s)) s)).
Definition terminate_deferred : rp unit :=
  executor_AwaitTermination ;;;; clear_outstanding ;;;; flow_Destroy true.

(** The answer to [Stop] is not looked at: the condition is on another variable. *)
Definition terminate_body : rp (option go_error) :=
  store set_stopped 2 ;;;;
  let! _ := flow_Stop in
  RemoveEventHandler ;;;;
  offer_callback false ;;;;
  close_buffer ;;;;
  store set_bufferClosed true ;;;;
  let! empty := load buffer_empty in
  (if (empty : bool) then notify_empty ;;;; PRet tt else PRet tt) ;;;;
  let! timed_out := select [ (λ s, AOk true s);
                             (λ s, if bufferEmptyOnTerminate s then AOk false s else ABlock) ] in
  let! err := terminate_wait timed_out in
  terminate_deferred ;;;; PRet err.

(** Any grace period passes: that of the timer of a negative one is over at once. *)
Definition Terminate : rp (option go_error) := terminate_around receiver_texts terminate_body.

Definition unsolicitedTermination (cause : option go_error) (shouldCleanUpNative listener : bool)
    : rp (option go_error) :=
  let! r := terminate receiver_texts in
  if negb (fst r) then PRet None
  else
    flow_Destroy shouldCleanUpNative ;;;;
    RemoveEventHandler ;;;;
    executor_Terminate ;;;;
    close_buffer ;;;;
    store set_bufferClosed true ;;;;
    offer_callback false ;;;;
    close_notification ;;;;
    let! undeliveredCount := drainQueue in
    let! err := report_undelivered undeliveredCount in
    terminated err ;;;;
    (if listener then update (note (note_listened cause)) else PRet tt) ;;;;
    PRet None.

(** [onDownEvent], while its handler is registered, and [onFlowEvent], while the flow has its callbacks. *)
Definition onDownEvent (cause : option go_error) (listener : bool) : rp (option go_error) :=
  let! registered := load downHandler in
  (if (registered : bool) then go (GoUnsolicited cause false listener) else PRet tt) ;;;; PRet None.

Definition state_changed (b : bool) : rp unit :=
  let! listener := load (λ s, bool_decide (is_Some (stateChangeListener (props s)))) in
  if (listener : bool) then executor_Submit b else PRet tt.

Definition onFlowEvent (event : flow_event) (cause : option go_error) (listener : bool) : rp unit :=
  match event with
  | FlowEventDownError => go (GoUnsolicited cause true listener)
  | FlowEventActive => state_changed true
  | FlowEventInactive => state_changed false
  | FlowEventUpNotice | FlowEventBindFailedError | FlowEventReconnecting | FlowEventReconnected
  | FlowEventSessionDown | FlowEventRejectedMsgError => PRet tt
  end.
Definition flow_event_of_library (event : flow_event) (cause : option go_error) (listener : bool)
    : rp (option go_error) :=
  let! called := load (λ s, attached (flow s)) in
  (if (called : bool) then onFlowEvent event cause listener else PRet tt) ;;;; PRet None.

Definition StartAsync : rp (option go_error) := go GoStart ;;;; PRet None.
Definition TerminateAsync : rp (option go_error) := go GoTerminate ;;;; PRet None.
Definition StartAsyncCallback : rp (option go_error) := go GoStart ;;;; PRet None.
Definition TerminateAsyncCallback : rp (option go_error) := go GoTerminate ;;;; PRet None.

Definition goroutine_prog (g : goroutine) : rp (option go_error) :=
  match g with
  | GoStart => let! err := Start in tell (Completed err) ;;;; PRet None
  | GoTerminate => let! err := Terminate in tell (Completed err) ;;;; PRet None
  | GoUnsolicited cause shouldCleanUpNative listener => unsolicitedTermination cause shouldCleanUpNative listener
  | GoAddSubscription subscription listener => change_subscription true subscription listener
  | GoRemoveSubscription subscription listener => change_subscription false subscription listener
  end.

(** A worker takes one of the goroutines that were asked for. *)
Definition worker (i : nat) : rp (option go_error) :=
  let! g := action (λ s, match goroutines s !! i with
                         | Some g => AOk g (set_goroutines (delete i (goroutines s)) s)
                         | None => ABlock
                         end) in
  goroutine_prog g.

(** * Any number of goroutines *)

(** The operations of the application; the messages and events of the flow, the down event of the
    session, the event of a request, the end of the session, which answers the requests that are
    still known; the service going up or down; the goroutines of the receiver. *)
Inductive call : Type :=
| CallStart
| CallStartAsync
| CallTerminate
| CallTerminateAsync
| CallAddSubscription (subscription : Subscription)
| CallRemoveSubscription (subscription : Subscription)
| CallAddSubscriptionAsync (subscription : Subscription) (listener : bool)
| CallRemoveSubscriptionAsync (subscription : Subscription) (listener : bool)
| CallReceiveMessage (timer : bool)
| CallReceiveAsync (callback : option MessageHandler)
| CallSettle (msg : M + string) (outcome : string)
| CallAck (msg : M + string)
| CallReceiverInfo
| CallPause
| CallResume
| Message (m : M)
| FlowEvent (event : flow_event) (cause : option go_error) (listener : bool)
| DownEvent (cause : option go_error) (listener : bool)
| SubscriptionResult (id : nat) (err : option go_error)
| SessionEnds (err : go_error)
| ParentChange (up : bool)
| Handler (fuel : nat)
| ExecutorTurn
| Worker (i : nat).

Definition returning (p : rp (option go_error)) : rp answer :=
  let! err := p in PRet (Returned err).

Definition end_session (err : go_error) (s : receiver) : receiver :=
  foldr (λ id s, deliver_event id (Some err) s) s (elements (known_ids (correlations s))).

Definition call_prog (c : call) : rp answer :=
  match c with
  | CallStart => returning Start
  | CallStartAsync => returning StartAsync
  | CallTerminate => returning Terminate
  | CallTerminateAsync => returning TerminateAsync
  | CallAddSubscription sub => returning (AddSubscription sub)
  | CallRemoveSubscription sub => returning (RemoveSubscription sub)
  | CallAddSubscriptionAsync sub listener => returning (AddSubscriptionAsync sub listener)
  | CallRemoveSubscriptionAsync sub listener => returning (RemoveSubscriptionAsync sub listener)
  | CallReceiveMessage timer => ReceiveMessage timer
  | CallReceiveAsync callback => returning (ReceiveAsync callback)
  | CallSettle msg outcome => returning (Settle msg outcome)
  | CallAck msg => returning (Ack msg)
  | CallReceiverInfo => ReceiverInfo
  | CallPause => returning Pause
  | CallResume => returning Resume
  | Message m => returning (flow_message m)
  | FlowEvent event cause listener => returning (flow_event_of_library event cause listener)
  | DownEvent cause listener => returning (onDownEvent cause listener)
  | SubscriptionResult id err => returning (update (deliver_event id err) ;;;; PRet None)
  | SessionEnds err => returning (update (end_session err) ;;;; PRet None)
  | ParentChange up => returning (update (set_parent up) ;;;; PRet None)
  | Handler fuel => returning (run_receiver fuel)
  | ExecutorTurn => returning (executor_turn ;;;; PRet None)
  | Worker i => returning (worker i)
  end.

(** The receiver with the goroutines of the given calls. *)
Definition scene (calls : list call) (s : receiver) : receiver * list (rp answer) :=
  (s, call_prog <$> calls).
End persistent_receiver.
