(* ===== verification/PersistentReceiverSafety.v ===== *)
(** The persistent receiver under interleaving: the invariant of its state, what each action may do,
    and the accounting of messages and acknowledgements that follows for any number of goroutines.
    The proof is that of the direct receiver (DirectReceiverSafety), by the rules of Rules; what the
    goroutines know besides is that the flow has been created, that a message was taken off the
    buffer, and that a handler is registered. *)

From Stdlib Require Import ZArith Lia Ascii.
From stdpp Require Import base list gmap relations strings.
From S2P Require Import Prelude GoStrconv GoEffects GoConc Errors Resource Sdt Lifecycle Rules Validation.
From S2P Require Import PersistentReceiverBuilder PersistentReceiver.

Section persistent_receiver_safety.
Context {M MessageHandler Listener : Type} `{!EqDecision M}.
Context (GetMessageID : M → option Z) (handler_panics : MessageHandler → M → bool).
Abbreviation receiver := (@PersistentReceiver.receiver M MessageHandler Listener).
Abbreviation context_state := (@PersistentReceiver.context_state M).
Abbreviation hand := (@PersistentReceiver.hand M).
Abbreviation answer := (@PersistentReceiver.answer M).
Abbreviation call := (@PersistentReceiver.call M MessageHandler).
Abbreviation rp A := (prog receiver A).

(** * Protocol *)

(** Actions that are done at most once. *)
Inductive once : Type := Spawn | CloseBuffer | CloseNotification.

(** The permits of the receiver: the positions of the context thread, of the goroutine of the
    handler and of the drain, to announce that the buffer is empty, and the locks. *)
Inductive mine : Type :=
| ContextAt (c : context_state)
| RunnerAt (h : hand)
| DrainAt (n : nat)
| AnnounceEmpty
| ReadingAt (t : nat)
| HoldSynchronization.

#[export] Instance once_eq_dec : EqDecision once.
Proof using Type. solve_decision. Defined.
#[export] Instance mine_eq_dec : EqDecision mine.
Proof using EqDecision0. solve_decision. Defined.

Definition gate (x : once) : phase := match x with Spawn => StartPhase | _ => TermPhase end.

Definition spent (s : receiver) (x : once) : bool :=
  match x with
  | Spawn => bool_decide (runner (past s) ≠ NotSpawned)
  | CloseBuffer => chan_closed (buffer s)
  | CloseNotification => terminationNotification s
  end.

(** The messages of a kind. *)
Definition as_kind {X} `{EqDecision X} (x : X) (l : list (M * X)) : list M := (filter (λ p, p.2 = x) l).*1.
Definition verdict_as (v : verdict) (s : receiver) : list M := as_kind v (verdicts (past s)).
Definition taken_as (f : fate) (s : receiver) : list M := as_kind f (taken (past s)).
Definition acked_as (f : fate) (s : receiver) : list M := as_kind f (acks (past s)).
Definition freed_as (f : fate) (s : receiver) : list M := as_kind f (freed (past s)).
Definition drained_count (s : receiver) : nat := length (taken_as Drained s).

(** The messages handled without a panic. *)
Definition handled (s : receiver) : list M := (filter (λ p, p.2 = false) (called (past s))).*1.*2.

Definition in_context (c : context_state) : list M := match c with Entered m => [m] | _ => [] end.
Definition deciding (c : context_state) : list (M * bool) := match c with Decided m b _ => [(m, b)] | _ => [] end.
Definition pending_metric (c : context_state) : nat := match c with Decided _ _ true => 1 | _ => 0 end.
Definition in_hand (s : receiver) : list M :=
  match runner (past s) with Running (Holding m) => [m] | _ => [] end.
Definition to_ack (s : receiver) : list M :=
  match runner (past s) with Running (ToAck m) => [m] | _ => [] end.

Definition extra (s : receiver) (y : mine) : nat :=
  match y with
  | ContextAt c => if decide (context (past s) = c ∧ c ≠ ContextFree) then 0 else 1
  | RunnerAt h => if decide (runner (past s) = Running h) then 0 else 1
  | DrainAt n => if decide (chan_closed (buffer s) = true ∧ drained_count s = n ∧ reported (past s) = None)
                 then 0 else 1
  | AnnounceEmpty => if bufferEmptyOnTerminateFlag s && negb (bufferEmptyOnTerminate s) then 0 else 1
  | ReadingAt t => if decide (t ∈ readers (subscriptionTerminationLock s)) then 0 else 1
  | HoldSynchronization => if subscriptionsSynchronizationLock s then 0 else 1
  end.

Section protocol_of_receiver.
Context (size : nat).

Definition closed (s : receiver) : Prop := chan_closed (buffer s) = true.
Definition flow_created (s : receiver) : Prop := created (flow s) = true.

Record pr_inv (s : receiver) : Prop := {
  inv_fifo : verdict_as Pushed s = (taken (past s)).*1 ++ chan_buf (buffer s);
  inv_cap : chan_cap (buffer s) = size;
  inv_len : length (chan_buf (buffer s)) ≤ size;
  inv_arrived : arrived (past s) = (verdicts (past s)).*1 ++ in_context (context (past s));
  inv_answered : prod_map id keeps <$> verdicts (past s) = answered (past s) ++ deciding (context (past s));
  inv_metric : (terminationDiscarded s + Z.of_nat (pending_metric (context (past s))) =
    Z.of_nat (length (verdict_as Late s) + length (verdict_as Closed s) + default 0%nat (reported (past s))))%Z;
  inv_full : verdict_as Full s ≠ [] → size ≤ length (verdict_as Pushed s);
  inv_attached : attached (flow s) = true → flow_created s;
  inv_messages : arrived (past s) ≠ [] → flow_created s;
  inv_started : state_of s = Started ∨ state_of s = Terminating → flow_created s;
  inv_closed : closed s → passed (state_of s) TermPhase = true;
  inv_flag : bufferEmptyOnTerminateFlag s = true → closed s ∧ chan_buf (buffer s) = [];
  inv_emptied : bufferEmptyOnTerminate s = true → bufferEmptyOnTerminateFlag s = true;
  inv_bufferClosed : bufferClosed s = true → closed s;
  inv_drained : freed_as Drained s = taken_as Drained s;
  inv_disposed : ∀ m, m ∈ freed_as Received s → m ∈ acked_as Received s;
  inv_handed_kept : freed_as Handed s = [];
  inv_open : chan_closed (buffer s) = false → drained_count s = 0;
  inv_reported : ∀ n, reported (past s) = Some n → closed s ∧ drained_count s = n;
  inv_complete : terminationComplete s = true → runner (past s) = Finished;
  inv_called : taken_as Handed s = (called (past s)).*1.*2 ++ in_hand s;
  inv_acked : acked_as Handed s ++ to_ack s = if doAutoAck (props s) then handled s else [];
  inv_acked_received : ∀ m, m ∈ acked_as Received s → m ∈ taken_as Received s ∧ doAutoAck (props s) = true;
  inv_callback : true ∈ chan_buf (rxCallbackSet s) → is_Some (rxCallback s);
  inv_signals : chan_closed (rxCallbackSet s) = false ∧ chan_closed (doUnpause s) = false ∧
    chan_closed (pauseInterrupt s) = false;
  inv_readers : ∀ t, t ∈ readers (subscriptionTerminationLock s) →
    t < next_reader (subscriptionTerminationLock s);
  inv_before : ∀ x, passed (state_of s) (gate x) = false → spent s x = false;
}.

Record pr_move (s s' : receiver) : Prop := {
  move_state : lstate_move (state_of s) (state_of s');
  move_verdicts : verdicts (past s) `prefix_of` verdicts (past s');
  move_taken : taken (past s) `prefix_of` taken (past s');
  move_closed : closed s → closed s' ∧ length (chan_buf (buffer s')) ≤ length (chan_buf (buffer s));
  move_callback : is_Some (rxCallback s) → is_Some (rxCallback s');
  move_created : flow_created s → flow_created s';
  move_props : props s' = props s;
  move_acks : acks (past s) `prefix_of` acks (past s');
}.

Abbreviation rheld := (lc_held gate spent extra).
Abbreviation rproto n := (proto pr_inv pr_move rheld lc_total n).
Abbreviation kr K l := (kproto pr_inv pr_move rheld lc_total K (own l)).
Abbreviation rfits s l := (fits rheld lc_total s (own l)).
Abbreviation rstable K := (stable pr_inv pr_move K).
Abbreviation permit := (lc_permit once mine).

(** An action that moves neither the machine nor the messages. *)
Lemma p_move_same s s' :
  state_of s' = state_of s → verdicts (past s') = verdicts (past s) → taken (past s') = taken (past s) →
  buffer s' = buffer s → (is_Some (rxCallback s) → is_Some (rxCallback s')) →
  (flow_created s → flow_created s') → props s' = props s → acks (past s') = acks (past s) → pr_move s s'.
Proof using Type.
  intros H1 H2 H3 H4 H5 H6 H7 H8.
  split; rewrite ?H1, ?H2, ?H3, ?H8; unfold closed; rewrite ?H4; try done. by left.
Qed.

Lemma persistent_state s st : pr_inv s → lstate_move (state_of s) st → (st = Started → flow_created s) →
  pr_inv (put_state st s) ∧ pr_move s (put_state st s).
Proof using Type.
  intros Hs Hm Hst. split.
  - assert (∀ ph, passed (state_of s) ph = true → passed st ph = true) as Hp.
    { intros []; destruct (state_of s), st; unfold lstate_move in Hm; naive_solver. }
    destruct Hs. split; try assumption; rewrite ?state_of_put_state.
    + intros [->| ->]; [by apply Hst|]. apply inv_started0. unfold lstate_move in Hm. naive_solver.
    + intros ?%inv_closed0. auto.
    + intros x Hx. apply inv_before0. destruct (passed (state_of s) (gate x)) eqn:He; [|done].
      apply Hp in He. congruence.
  - by split.
Qed.

Lemma persistent_embeds : EmbedsLifecycle pr_inv pr_move gate spent extra.
Proof using Type.
  split.
  - intros s. by apply p_move_same.
  - intros s st Hs Hm Hne. by apply persistent_state.
  - intros s f Hs. split; [destruct Hs; by split|by apply p_move_same].
  - intros s f Hs. split; [destruct Hs; by split|by apply p_move_same].
  - done.
  - intros s x Hs Hp. by apply (inv_before s Hs).
  - done.
Qed.
#[local] Existing Instance persistent_embeds.

(** ** What is known for good *)

Definition nothing (s : receiver) : Prop := True.
Definition emptied (s : receiver) : Prop := closed s ∧ chan_buf (buffer s) = [].
Definition at_most (n : nat) (s : receiver) : Prop := closed s ∧ length (chan_buf (buffer s)) ≤ n.
Definition has_callback (s : receiver) : Prop := is_Some (rxCallback s).
Definition has_taken (m : M) (s : receiver) : Prop := m ∈ taken_as Received s.
Definition has_acked (m : M) (s : receiver) : Prop := m ∈ acked_as Received s.

Lemma as_kind_prefix {X} `{EqDecision X} (x : X) (l l' : list (M * X)) m :
  l `prefix_of` l' → m ∈ as_kind x l → m ∈ as_kind x l'.
Proof using Type.
  intros [k ->]. unfold as_kind. rewrite filter_app, fmap_app, elem_of_app. auto.
Qed.

Lemma p_stable_nothing : rstable nothing.
Proof using Type. done. Qed.
Lemma p_stable_closed : rstable closed.
Proof using Type. intros s s' _ Hm. apply Hm. Qed.
Lemma p_stable_at_most n : rstable (at_most n).
Proof using Type. intros s s' _ Hm [Hc Hl]. destruct (move_closed _ _ Hm Hc). split; [done|lia]. Qed.
Lemma p_stable_emptied : rstable emptied.
Proof using Type.
  intros s s' _ Hm [Hc Hl]. destruct (move_closed _ _ Hm Hc) as [? Hl']. split; [done|].
  rewrite Hl in Hl'. simpl in Hl'. by apply nil_length_inv; lia.
Qed.
Lemma p_stable_callback : rstable has_callback.
Proof using Type. intros s s' _ Hm. apply Hm. Qed.
Lemma stable_created : rstable flow_created.
Proof using Type. intros s s' _ Hm. apply Hm. Qed.
Lemma stable_taken m : rstable (has_taken m).
Proof using Type. intros s s' _ Hm. apply as_kind_prefix, Hm. Qed.
Lemma stable_acked m : rstable (has_acked m).
Proof using Type. intros s s' _ Hm. apply as_kind_prefix, Hm. Qed.
Lemma p_stable_with K φ : rstable K → rstable φ → rstable (λ s, K s ∧ φ s).
Proof using Type. apply stable_and. Qed.
Hint Resolve p_stable_nothing p_stable_closed p_stable_at_most p_stable_emptied p_stable_callback stable_created
  stable_taken stable_acked p_stable_with : core.

(** A message that was taken came through the flow. *)
Lemma taken_created m s : pr_inv s → has_taken m s → flow_created s.
Proof using Type.
  intros Hs Hm. apply (inv_messages s Hs). rewrite (inv_arrived s Hs).
  assert (m ∈ verdict_as Pushed s) as Hp.
  { rewrite (inv_fifo s Hs). apply elem_of_app. left. revert Hm. unfold has_taken, taken_as, as_kind.
    intros ([? f] & -> & [_ Hin]%list_elem_of_filter)%list_elem_of_fmap. apply list_elem_of_fmap. by eexists. }
  intros Hn. apply app_eq_nil in Hn as [Hn _]. unfold verdict_as, as_kind in Hp.
  apply list_elem_of_fmap in Hp as (p & _ & [_ Hin]%list_elem_of_filter).
  apply fmap_nil_inv in Hn. rewrite Hn in Hin. by apply elem_of_nil in Hin.
Qed.

(** ** What the owner of a permit knows *)

Lemma p_fits_context s c (l : list permit) : rfits s (Extra (ContextAt c) :: l) →
  context (past s) = c ∧ c ≠ ContextFree.
Proof using Type. intros Hf%fits_extra_zero. simpl in Hf. by case_decide. Qed.
Lemma p_fits_runner s h (l : list permit) : rfits s (Extra (RunnerAt h) :: l) → runner (past s) = Running h.
Proof using Type. intros Hf%fits_extra_zero. simpl in Hf. by case_decide. Qed.
Lemma p_fits_drain s n (l : list permit) : rfits s (Extra (DrainAt n) :: l) →
  closed s ∧ drained_count s = n ∧ reported (past s) = None.
Proof using Type. intros Hf%fits_extra_zero. simpl in Hf. by case_decide. Qed.
Lemma p_fits_announce s (l : list permit) : rfits s (Extra AnnounceEmpty :: l) →
  bufferEmptyOnTerminateFlag s = true ∧ bufferEmptyOnTerminate s = false.
Proof using Type.
  intros Hf%fits_extra_zero. simpl in Hf. by destruct (bufferEmptyOnTerminateFlag s), (bufferEmptyOnTerminate s).
Qed.
Lemma p_fits_reading s t (l : list permit) : rfits s (Extra (ReadingAt t) :: l) →
  t ∈ readers (subscriptionTerminationLock s).
Proof using Type. intros Hf%fits_extra_zero. simpl in Hf. by case_decide. Qed.
Lemma p_fits_synchronization s (l : list permit) :
  rfits s (Extra HoldSynchronization :: l) → subscriptionsSynchronizationLock s = true.
Proof using Type. intros Hf%fits_extra_zero. simpl in Hf. by destruct (subscriptionsSynchronizationLock s). Qed.

(** The termination section is entered from the started state. *)
Lemma terminating_created s (l : list permit) : pr_inv s → rfits s (InPhase TermPhase :: l) → flow_created s.
Proof using Type. intros Hs Hf%fits_phase_list. apply (inv_started s Hs). rewrite Hf. by right. Qed.

(** The permits of a kind that an action does not look at. *)
Ltac permits_same := intros [?|[]|[]]; apply Nat.le_refl.

(** What is left of the invariant when other fields change. *)
Ltac inv_other Hs := destruct Hs; split; try assumption.

Lemma prefix_more {X} (l k : list X) : l `prefix_of` l ++ k.
Proof using Type. by exists k. Qed.
Hint Resolve prefix_more : core.

Lemma as_kind_snoc {X} `{EqDecision X} (x y : X) (l : list (M * X)) m :
  as_kind x (l ++ [(m, y)]) = as_kind x l ++ (if decide (y = x) then [m] else []).
Proof using Type.
  unfold as_kind. rewrite filter_app, fmap_app, filter_cons, filter_nil. simpl. by case_decide.
Qed.

(** ** Reads *)

Lemma k_read {V B} (view : receiver → V) K l (k : V → rp B) Q :
  rstable K → (∀ v, kr K l (k v) Q) → kr K l (pbind (load view) k) Q.
Proof using Type. intros Hst Hk. eapply k_load; [apply _|done|]. intros s _ _. apply Hk. Qed.

(** The started and the terminating receiver have their flow. *)
Definition if_running (st : lstate) (s : receiver) : Prop :=
  st = Started ∨ st = Terminating → flow_created s.
Lemma stable_if_running st : rstable (if_running st).
Proof using Type. by apply stable_impl. Qed.
Hint Resolve stable_if_running : core.

Lemma k_state {B} K l (k : lstate → rp B) Q :
  rstable K → (∀ st, kr (λ s, K s ∧ if_running st s) l (k st) Q) → kr K l (pbind getState k) Q.
Proof using Type.
  intros Hst Hk. apply k_see; [done|]. intros s Hs _ _.
  split_and!; [done|by apply p_move_same|lia|]. exists (if_running (state_of s)).
  split_and!; [|done|apply Hk]. intros H. by apply (inv_started s Hs).
Qed.

Lemma k_other {B} (g : receiver → receiver) K l (k : unit → rp B) Q :
  rstable K → (∀ s, pr_inv s → pr_inv (g s)) → (∀ s, pr_move s (g s)) →
  (∀ s x, rheld (g s) x = rheld s x) → kr K l (k tt) Q → kr K l (pbind (update g) k) Q.
Proof using Type. apply k_update. Qed.

(** An update of a field that nothing here depends on. *)
Ltac k_field := apply k_other; [auto|intros ? Hs'; by inv_other Hs'|intros ?; by apply p_move_same|by intros ? [?|[]|[]]|].

Lemma pk_go {B} g K l (k : unit → rp B) Q :
  rstable K → kr K l (k tt) Q → kr K l (pbind (go g) k) Q.
Proof using Type. intros Hst Hk. by k_field. Qed.
Lemma pk_tell {B} r K l (k : unit → rp B) Q :
  rstable K → kr K l (k tt) Q → kr K l (pbind (tell r) k) Q.
Proof using Type. intros Hst Hk. by k_field. Qed.
Lemma pk_handler {B} b K l (k : unit → rp B) Q :
  rstable K → kr K l (k tt) Q → kr K l (pbind (update (set_downHandler b)) k) Q.
Proof using Type. intros Hst Hk. by k_field. Qed.
Lemma k_stopped {B} z K l (k : unit → rp B) Q :
  rstable K → kr K l (k tt) Q → kr K l (pbind (store set_stopped z) k) Q.
Proof using Type. intros Hst Hk. by k_field. Qed.

(** ** Calls of the C library *)

Definition harmless (after : receiver → receiver) : Prop :=
  after = (λ s, s) ∨ ∃ b, after = set_receiving b.

Lemma inv_call c l s : pr_inv s → pr_inv (note (note_flow c) (set_answers l s)).
Proof using Type. intros Hs. by inv_other Hs. Qed.

Lemma inv_receiving b s : pr_inv s → pr_inv (set_receiving b s).
Proof using Type. intros Hs. by inv_other Hs. Qed.

Lemma k_flow_request {B} c after K l (k : flow_answer → rp B) Q :
  rstable K → (∀ s, pr_inv s → rfits s l → K s → flow_created s) → harmless after →
  (∀ a, kr K l (k a) Q) → kr K l (pbind (flow_request c after) k) Q.
Proof using Type.
  intros Hst Hc Ha Hk. apply k_change; [done|]. intros s Hs Hf HK. rewrite (Hc s Hs Hf HK).
  destruct (next_answer s) as [[[e|] d] an] eqn:Hn; simpl.
  - split_and!; [by apply inv_call|by apply p_move_same|]. exists l. split; [|apply Hk]. by intros [?|[]|[]].
  - destruct Ha as [->|[b ->]].
    + split_and!; [by apply inv_call|by apply p_move_same|]. exists l. split; [|apply Hk]. by intros [?|[]|[]].
    + split_and!; [by apply inv_receiving, inv_call|by apply p_move_same|].
      exists l. split; [|apply Hk]. by intros [?|[]|[]].
Qed.

Lemma harmless_id : harmless (λ s, s).
Proof using Type. by left. Qed.
Lemma harmless_receiving b : harmless (set_receiving b).
Proof using Type. right. by exists b. Qed.
Hint Resolve harmless_id harmless_receiving : core.

Lemma k_correlated {B} call K l (k : res ErrorInfo nat → rp B) Q :
  rstable K → (∀ r, kr K l (k r) Q) → kr K l (PAct (correlated call) k) Q.
Proof using Type.
  intros Hst Hk. apply k_same; [done|]. intros s Hs _. unfold correlated.
  destruct (next_answer s) as [[[e|] d] an]; simpl;
    (split_and!; [by inv_other Hs|by apply p_move_same|by intros [?|[]|[]]|apply Hk]).
Qed.

Lemma k_flow_correlated {B} call K l (k : res ErrorInfo nat → rp B) Q :
  rstable K → (∀ s, K s → flow_created s) → (∀ r, kr K l (k r) Q) →
  kr K l (PAct (λ s, if created (flow s) then correlated call s else APanic NilDereference) k) Q.
Proof using Type.
  intros Hst Hc Hk. pose proof (k_correlated call K l k Q Hst Hk) as Hp.
  intros s Hs Hf HK. rewrite (Hc s HK). exact (Hp s Hs Hf HK).
Qed.

Lemma k_flow_Destroy {B} b K l (k : unit → rp B) Q :
  rstable K → (∀ s, pr_inv s → rfits s l → K s → flow_created s) → kr K l (k tt) Q →
  kr K l (pbind (flow_Destroy b) k) Q.
Proof using Type.
  intros Hst Hc Hk. apply k_change; [done|]. intros s Hs Hf HK. rewrite (Hc s Hs Hf HK).
  pose proof (Hc s Hs Hf HK) as Hcr.
  split_and!; [|destruct b; by apply p_move_same|].
  - destruct b; (inv_other Hs; done).
  - exists l. split; [|done]. destruct b; by intros [?|[]|[]].
Qed.

(** ** The flow *)

Lemma k_startFlow {B} K l (k : bool → rp B) Q :
  rstable K → (∀ s, K s → flow_created s) → (∀ b, kr K l (k b) Q) → kr K l (pbind startFlow k) Q.
Proof using Type.
  intros Hst Hc Hk. apply kproto_bind. apply k_same; [done|]. intros s Hs _. case_decide.
  - split_and!; [by inv_other Hs|by apply p_move_same|by intros [?|[]|[]]|].
    apply k_flow_request; [done|auto|auto|]. intros [[e|] d]; [|apply Hk].
    apply k_stopped; [done|]. apply Hk.
  - split_and!; [done|by apply p_move_same|lia|]. apply Hk.
Qed.

Lemma k_stopFlow {B} K l (k : bool → rp B) Q :
  rstable K → (∀ s, pr_inv s → rfits s l → K s → flow_created s) → (∀ b, kr K l (k b) Q) →
  kr K l (pbind stopFlow k) Q.
Proof using Type.
  intros Hst Hc Hk. apply kproto_bind. apply k_read; [done|]. intros z. case_decide; [|apply Hk].
  apply k_flow_request; [done|done|auto|]. intros [[e|] d]; [apply Hk|].
  apply k_stopped; [done|]. apply Hk.
Qed.

Lemma k_resume_if {B} low K l (k : unit → rp B) Q :
  rstable K → (∀ K', rstable K' → (∀ s, K' s → K s) → kr K' l (k tt) Q) →
  kr K l (pbind (resume_if low) k) Q.
Proof using Type.
  intros Hst Hk. apply kproto_bind. apply k_read; [done|]. intros [|]; [|by apply Hk].
  apply k_state; [done|]. intros st.
  assert (kr (λ s, K s ∧ if_running st s) l (k tt) Q) as Hend by (apply Hk; [auto|by intros s [? _]]).
  lazy beta. case_decide as Hs; [|done].
  apply k_startFlow; [auto|intros s [_ Hr]; apply Hr; auto|]. by intros b.
Qed.

(** ** Subscriptions *)

Lemma k_sync_lock {B} K l (k : unit → rp B) Q :
  rstable K → kr K (Extra HoldSynchronization :: l) (k tt) Q →
  kr K l (pbind synchronization_Lock k) Q.
Proof using Type.
  intros Hst Hk. apply k_change; [done|]. intros s Hs _ _.
  destruct (subscriptionsSynchronizationLock s) eqn:Hl; [done|].
  split_and!; [by inv_other Hs|by apply p_move_same|]. eexists. split; [|exact Hk].
  apply conserves_take; [intros [?|[]|[]] Hn; try apply Nat.le_refl; done|done|simpl; by rewrite Hl].
Qed.

Lemma k_sync_unlock {B} K l (k : unit → rp B) Q :
  rstable K → kr K l (k tt) Q → kr K (Extra HoldSynchronization :: l) (pbind synchronization_Unlock k) Q.
Proof using Type.
  intros Hst Hk. apply k_change; [done|]. intros s Hs Hf _. rewrite (p_fits_synchronization _ _ Hf).
  split_and!; [by inv_other Hs|by apply p_move_same|]. eexists. split; [|exact Hk].
  apply conserves_give; [intros [?|[]|[]] Hn; try apply Nat.le_refl; done|done].
Qed.

Lemma pk_RLock {B} K l (k : nat → rp B) Q :
  rstable K → (∀ t, kr K (Extra (ReadingAt t) :: l) (k t) Q) → kr K l (pbind termination_RLock k) Q.
Proof using Type.
  intros Hst Hk. apply k_change; [done|]. intros s Hs _ _. lazy beta zeta.
  split_and!; [|by apply p_move_same|].
  - inv_other Hs. simpl. intros t Ht. apply elem_of_union in Ht as [->%elem_of_singleton|Ht]; [lia|].
    apply inv_readers0 in Ht. lia.
  - eexists. split; [|apply Hk]. apply conserves_take.
    + intros [?|[]|[| | | |t|]] Hn; try apply Nat.le_refl. simpl. repeat case_decide; try lia. set_solver.
    + simpl. by rewrite decide_True by set_solver.
    + simpl. rewrite decide_False; [done|]. intros Hin%(inv_readers s Hs). lia.
Qed.

Lemma pk_RUnlock {B} t K l (k : unit → rp B) Q :
  rstable K → kr K l (k tt) Q → kr K (Extra (ReadingAt t) :: l) (pbind (termination_RUnlock t) k) Q.
Proof using Type.
  intros Hst Hk. apply k_change; [done|]. intros s Hs Hf _. pose proof (p_fits_reading _ _ _ Hf) as Hr.
  lazy beta zeta. rewrite bool_decide_true by done. split_and!; [|by apply p_move_same|].
  - inv_other Hs. simpl. intros u Hu. apply inv_readers0. set_solver.
  - eexists. split; [|exact Hk]. apply conserves_give.
    + intros [?|[]|[| | | |u|]] Hn; try apply Nat.le_refl. simpl. repeat case_decide; try lia. set_solver.
    + simpl. case_decide; lia.
Qed.

Lemma pk_subscribe {B} topic K l (k : res ErrorInfo nat → rp B) Q :
  rstable K → (∀ s, K s → flow_created s) → (∀ r, kr K l (k r) Q) → kr K l (pbind (subscribe topic) k) Q.
Proof using Type.
  intros Hst Hc Hk. apply k_sync_lock; [done|]. apply k_flow_correlated; [done..|].
  intros r. apply k_sync_unlock; [done|]. apply Hk.
Qed.

Lemma pk_unsubscribe {B} topic K l (k : res ErrorInfo nat → rp B) Q :
  rstable K → (∀ s, K s → flow_created s) → (∀ r, kr K l (k r) Q) → kr K l (pbind (unsubscribe topic) k) Q.
Proof using Type.
  intros Hst Hc Hk. apply kproto_bind. apply k_sync_lock; [done|].
  apply kproto_bind.
  assert (∀ r, kr K (Extra HoldSynchronization :: l) (synchronization_Unlock ;;;; PRet r)
    (λ b K m, kproto pr_inv pr_move rheld lc_total K m (k b) Q)) as Hend.
  { intros r. apply k_sync_unlock; [done|]. apply Hk. }
  unfold unsubscribe_locked. apply k_read; [done|]. intros [|]; simpl negb; lazy iota.
  - apply k_flow_correlated; [done..|]. exact Hend.
  - apply k_flow_request; [done|auto|auto|]. intros [[e|] [name [|]]]; [apply Hend..| |].
    + apply k_correlated; [done|]. exact Hend.
    + apply k_flow_correlated; [done..|]. exact Hend.
Qed.

Lemma pk_modify {B} request modify subscription K l (k : nat + go_error → rp B) Q :
  rstable K →
  (∀ K C topic l (k : res ErrorInfo nat → rp C) Q, rstable K → (∀ s, K s → flow_created s) →
     (∀ r, kr K l (k r) Q) → kr K l (pbind (request topic) k) Q) →
  (∀ K' r, rstable K' → (∀ s, K' s → K s) → kr K' l (k r) Q) →
  kr K l (pbind (modify_subscription request modify subscription) k) Q.
Proof using Type.
  intros Hst Hreq Hk. apply kproto_bind. apply pk_RLock; [done|]. intros t.
  apply k_state; [done|]. intros st. lazy beta. case_decide as Hn.
  - apply pk_RUnlock; [auto|]. apply Hk; [auto|by intros s [? _]].
  - assert (rstable (λ s, K s ∧ if_running st s)) as Hst' by auto.
    apply Hreq; [done|intros s [_ Hr]; apply Hr; by left|].
    intros [id|e]; lazy iota beta.
    + k_field. k_field. apply pk_RUnlock; [done|]. apply Hk; [done|by intros s [? _]].
    + apply pk_RUnlock; [done|]. apply Hk; [done|by intros s [? _]].
Qed.

Lemma pk_addSubscription {B} subscription K l (k : nat + go_error → rp B) Q :
  rstable K → (∀ K' r, rstable K' → (∀ s, K' s → K s) → kr K' l (k r) Q) →
  kr K l (pbind (addSubscription subscription) k) Q.
Proof using Type. intros Hst Hk. apply pk_modify; [done| |done]. intros. by apply pk_subscribe. Qed.

Lemma pk_removeSubscription {B} subscription K l (k : nat + go_error → rp B) Q :
  rstable K → (∀ K' r, rstable K' → (∀ s, K' s → K s) → kr K' l (k r) Q) →
  kr K l (pbind (removeSubscription subscription) k) Q.
Proof using Type. intros Hst Hk. apply pk_modify; [done| |done]. intros. by apply pk_unsubscribe. Qed.

Lemma pk_await_event {B} id K l (k : option go_error → rp B) Q :
  rstable K → (∀ ev, kr K l (k ev) Q) → kr K l (pbind (await_event id) k) Q.
Proof using Type.
  intros Hst Hk. apply k_same; [done|]. intros s Hs _.
  destruct (results (correlations s) !! id) as [[ev|]|]; [|done..].
  split_and!; [done|by apply p_move_same|lia|apply Hk].
Qed.

Lemma pk_await_modification {B} r K l (k : option go_error → rp B) Q :
  rstable K → (∀ err, kr K l (k err) Q) → kr K l (pbind (await_modification r) k) Q.
Proof using Type.
  intros Hst Hk. destruct r as [id|err]; [|apply Hk]. apply kproto_bind. apply pk_await_event; [done|].
  intros ev. k_field. apply Hk.
Qed.

Lemma pk_check_modify {B} subscription K l (k : option go_error → rp B) Q :
  rstable K → (∀ err, kr K l (k err) Q) → kr K l (pbind (check_modify subscription) k) Q.
Proof using Type. intros Hst Hk. apply k_read; [done|]. intros st. apply Hk. Qed.

Definition over {B} (b : B) (K : receiver → Prop) (n : permit → nat) : Prop := True.

Lemma pk_AddSubscription subscription K l : rstable K → kr K l (AddSubscription subscription) over.
Proof using Type.
  intros Hst. apply pk_check_modify; [done|]. intros [err|]; [done|].
  apply pk_addSubscription; [done|]. intros K' r HK' _. by apply kproto_unbind, pk_await_modification.
Qed.

Lemma pk_RemoveSubscription subscription K l : rstable K → kr K l (RemoveSubscription subscription) over.
Proof using Type.
  intros Hst. apply pk_check_modify; [done|]. intros [err|]; [done|].
  apply pk_removeSubscription; [done|]. intros K' r HK' _. by apply kproto_unbind, pk_await_modification.
Qed.

Lemma pk_change_subscription add subscription listener K l :
  rstable K → kr K l (change_subscription add subscription listener) over.
Proof using Type.
  intros Hst. unfold change_subscription.
  assert (∀ K r, rstable K → kr K l (if listener then
    let! err := await_modification r in tell (SubscriptionChanged subscription add err) ;;;; PRet None
    else PRet None) (@over (option go_error))) as Hl.
  { intros K' r HK'. destruct listener; [|done]. apply pk_await_modification; [done|]. intros err.
    by apply pk_tell. }
  destruct add; [apply pk_addSubscription; [done|]|apply pk_removeSubscription; [done|]];
    intros K' r HK' _; by apply Hl.
Qed.

(** ** The buffer *)

(** Taking the oldest message off. *)
Definition take_off (m : M) (xs : list M) (f : fate) (s : receiver) : receiver :=
  note (note_taken m f) (set_buffer (mkChan (chan_cap (buffer s)) xs (chan_closed (buffer s))) s).

Lemma p_receive_buffer_spec f g s :
  match receive_buffer f g s with
  | AOk (Got m) s' => ∃ xs, chan_buf (buffer s) = m :: xs ∧ s' = g m (take_off m xs f s)
  | AOk GotClosed s' => s' = s ∧ emptied s
  | AOk _ _ | APanic _ => False
  | ABlock => True
  end.
Proof using Type.
  unfold receive_buffer, chan_recv. destruct (chan_buf (buffer s)) as [|x xs] eqn:Hb.
  - destruct (chan_closed (buffer s)) eqn:Hc; done.
  - by exists xs.
Qed.

Ltac unfold_inv :=
  unfold drained_count, taken_as, verdict_as, acked_as, freed_as, handled, in_hand, to_ack, closed, flow_created in *;
  simpl in *; rewrite ?as_kind_snoc in *; simpl in *; rewrite ?app_nil_r in *.

(** Off the buffer into the hands of the application or of the drain. *)
Lemma inv_take m xs f s : pr_inv s → chan_buf (buffer s) = m :: xs → f = Received →
  pr_inv (take_off m xs f s).
Proof using Type.
  intros Hs Hb ->. destruct Hs. split; try assumption; unfold_inv; rewrite ?Hb in *; try assumption.
  - rewrite inv_fifo0, fmap_app, <-app_assoc. done.
  - simpl in *. lia.
  - intros [_ [=]]%inv_flag0.
  - intros x Hx. destruct (inv_acked_received0 x Hx). split; [|done]. apply elem_of_app. by left.
Qed.

Lemma p_inv_take_handed m xs s : pr_inv s → chan_buf (buffer s) = m :: xs →
  runner (past s) = Running Empty →
  pr_inv (note (at_runner (Running (Holding m))) (take_off m xs Handed s)).
Proof using Type.
  intros Hs Hb Hr. destruct Hs. split; try assumption; unfold_inv; rewrite ?Hb, ?Hr in *; simpl in *;
    rewrite ?app_nil_r in *; try assumption.
  - rewrite inv_fifo0, fmap_app, <-app_assoc. done.
  - lia.
  - intros [_ [=]]%inv_flag0.
  - by intros ?%inv_complete0.
  - by rewrite inv_called0.
  - intros x Hx. specialize (inv_before0 x Hx). destruct x; simpl in *; try done.
    rewrite Hr in inv_before0. by apply bool_decide_eq_false in inv_before0 as [].
Qed.

Definition drain_off (m : M) (xs : list M) (s : receiver) : receiver :=
  note (note_freed m Drained) (take_off m xs Drained s).

Lemma p_inv_take_drained m xs n s : pr_inv s → chan_buf (buffer s) = m :: xs → closed s →
  reported (past s) = None → drained_count s = n →
  pr_inv (drain_off m xs s) ∧ drained_count (drain_off m xs s) = S n.
Proof using Type.
  intros Hs Hb Hc Hr Hn. split.
  - destruct Hs. split; try assumption; unfold_inv; rewrite ?Hb in *; simpl in *; try assumption.
    + rewrite inv_fifo0, fmap_app, <-app_assoc. done.
    + lia.
    + intros [_ [=]]%inv_flag0.
    + by rewrite inv_drained0.
    + congruence.
    + intros k Hk. congruence.
  - unfold_inv. rewrite length_app. simpl. lia.
Qed.

Lemma p_move_take m xs f s : chan_buf (buffer s) = m :: xs → pr_move s (take_off m xs f s).
Proof using Type.
  intros Hb. split; try done; [by left|apply prefix_more|]. unfold closed. simpl. rewrite Hb. simpl.
  auto with lia.
Qed.

Lemma p_drained_take m xs f s : f ≠ Drained → drained_count (take_off m xs f s) = drained_count s.
Proof using Type. intros Hf. unfold_inv. by rewrite decide_False, app_nil_r. Qed.

Lemma p_held_take m xs f s x : f ≠ Drained → rheld (take_off m xs f s) x = rheld s x.
Proof using Type.
  intros Hf. destruct x as [ph|y|y]; simpl; [done|by destruct y|].
  destruct y; simpl; try done. by rewrite p_drained_take.
Qed.

(** The announcement that the closed buffer is empty. *)
Lemma pk_notify {B} K l (k : bool → rp B) Q :
  rstable K → (∀ s, K s → emptied s) → (∀ b, kr K l (k b) Q) → kr K l (pbind notify_empty k) Q.
Proof using Type.
  intros Hst HK Hk. apply k_change; [done|]. intros s Hs Hf HKs. destruct (HK s HKs) as [Hc He].
  destruct (decide (bufferEmptyOnTerminateFlag s = false)) as [Hfl|Hfl].
  - pose proof (inv_emptied s Hs) as Hem. rewrite Hfl in Hem.
    assert (bufferEmptyOnTerminate s = false) as Hb by (by destruct (bufferEmptyOnTerminate s); [discriminate Hem|]).
    split_and!; [destruct Hs; split; try assumption; auto|by apply p_move_same|].
    exists (Extra AnnounceEmpty :: l). split.
    + apply conserves_take; [intros [?|[]|[]] Hn; try apply Nat.le_refl; done|simpl; by rewrite Hb|simpl; by rewrite Hfl].
    + apply k_change; [done|]. clear s Hs Hf HKs Hc He Hfl Hem Hb. intros s Hs Hf HKs.
      destruct (p_fits_announce _ _ Hf) as [Hfl Hb]. rewrite Hb.
      split_and!; [by destruct Hs; split|by apply p_move_same|]. exists l. split; [|apply Hk].
      apply conserves_give; [intros [?|[]|[]] Hn; try apply Nat.le_refl; done|simpl; destruct (_ && _); lia].
  - split_and!; [done|by apply p_move_same|]. exists l. split; [intros x; lia|]. apply Hk.
Qed.

Lemma pk_check_empty {B} K l (k : bool → rp B) Q :
  rstable K → (∀ K' b, rstable K' → (∀ s, K' s → K s) → kr K' l (k b) Q) →
  kr K l (pbind checkEmptyBufferAndNotify k) Q.
Proof using Type.
  intros Hst Hk. apply (k_learn bufferClosed closed); [auto..| | |by apply Hk].
  { intros s Hs _ Hb. by apply (inv_bufferClosed s Hs). }
  apply (k_learn buffer_empty emptied); [auto..| | |].
  - intros s Hs [_ Hc] Hb. unfold buffer_empty in Hb. apply bool_decide_eq_true in Hb. done.
  - apply pk_notify; [auto|by intros s [_ ?]|]. intros b. apply Hk; [auto|]. by intros s [[? _] _].
  - apply Hk; [auto|]. by intros s [? _].
Qed.

(** ** Receiving *)

Lemma inv_ack_received m c an s : pr_inv s → has_taken m s → doAutoAck (props s) = true →
  pr_inv (note (note_ack m Received) (note (note_flow c) (set_answers an s))).
Proof using Type.
  intros Hs Hm Hd. destruct Hs. split; try assumption; unfold_inv; try assumption.
  - intros x Hx. apply elem_of_app. left. by apply inv_disposed0.
  - intros x [Hx| ->%list_elem_of_singleton]%elem_of_app; [by apply inv_acked_received0|done].
Qed.

Definition acks_itself (s : receiver) : Prop := doAutoAck (props s) = true.
Lemma stable_acks_itself : rstable acks_itself.
Proof using Type. intros s s' _ Hm. unfold acks_itself. by rewrite (move_props _ _ Hm). Qed.
Hint Resolve stable_acks_itself : core.

Lemma k_ack_received m K l (k : answer → rp answer) Q :
  rstable K → (∀ s, K s → has_taken m s) →
  (∀ K' a, rstable K' → kr K' l (k a) Q) → kr K l (pbind (ack_received GetMessageID m) k) Q.
Proof using Type.
  intros Hst Hm Hk. apply kproto_bind.
  apply (k_learn (λ s, doAutoAck (props s)) acks_itself); [auto..|done| |by apply Hk].
  destruct (GetMessageID m) as [id|]; [|apply Hk; auto].
  apply k_see; [auto|]. intros s Hs Hf [HK Hd]. pose proof (taken_created m s Hs (Hm s HK)) as Hc.
  unfold flow_created in Hc. rewrite Hc. destruct (next_answer s) as [a an].
  split_and!; [by apply inv_ack_received; [done|apply Hm|]| |by intros [?|[]|[]]|].
  { split; try done; [by left|apply prefix_more]. }
  exists (has_acked m). split; [|split; [auto|]].
  { unfold has_acked, acked_as. simpl. rewrite as_kind_snoc, decide_True by done. apply elem_of_app. right.
    by apply list_elem_of_here. }
  destruct a as [[e|] d]; lazy iota beta delta [fst].
  - apply k_same; [auto|]. clear s Hs Hf HK Hd Hc. intros s Hs [_ Ha].
    split_and!; [|by apply p_move_same|by intros [?|[]|[]]|apply Hk; auto].
    destruct Hs. split; try assumption; unfold_inv; try assumption.
    intros x [Hx| ->%list_elem_of_singleton]%elem_of_app; [by apply inv_disposed0|done].
  - k_field. apply Hk. auto.
Qed.

Lemma pk_ReceiveMessage timer K l : rstable K → kr K l (ReceiveMessage GetMessageID timer) over.
Proof using Type.
  intros Hst. apply k_read; [done|]. intros st. case_decide; [done|].
  assert (∀ K a, rstable K → kr K l (checkEmptyBufferAndNotify ;;;; PRet a) (@over answer)) as Hend.
  { intros K' a HK'. by apply pk_check_empty. }
  intros s Hs _ HK f Hin. apply elem_of_app in Hin as [Hin|Hin].
  - apply elem_of_cons in Hin as [->|Hin%list_elem_of_singleton].
    + pose proof (p_receive_buffer_spec Received (λ _ s, s) s) as Hr.
      destruct (receive_buffer _ _ _) as [[m| | |] s'| |]; try done.
      * destruct Hr as (xs & Hb & ->). split_and!; [by apply inv_take|by apply p_move_take|].
        exists (own l), (λ s, K s ∧ has_taken m s). split; [intros x; rewrite p_held_take by done; lia|].
        split; [|split; [auto|]].
        { split; [by apply (Hst s); [|apply p_move_take|]|]. unfold has_taken. unfold_inv.
          apply elem_of_app. right. by apply list_elem_of_here. }
        apply k_resume_if; [auto|]. intros K' HK' Hle. apply k_ack_received; [done|by intros s' [_ ?]%Hle|].
        intros K2 a HK2. by apply Hend.
      * destruct Hr as [-> _]. split_and!; [done|by apply p_move_same|]. exists (own l), K.
        split_and!; [intros x; lia|done..|by apply Hend].
    + subst f. destruct (bufferEmptyOnTerminate s); [|done].
      split_and!; [done|by apply p_move_same|]. exists (own l), K.
      split_and!; [intros x; lia|done..|by apply Hend].
  - destruct timer; [|by apply elem_of_nil in Hin]. apply list_elem_of_singleton in Hin as ->.
    split_and!; [done|by apply p_move_same|]. exists (own l), K.
    split_and!; [intros x; lia|done..|by apply Hend].
Qed.

Lemma pk_offer_callback {B} b K l (k : bool → rp B) Q :
  rstable K → (∀ s, K s → b = true → has_callback s) → (∀ r, kr K l (k r) Q) →
  kr K l (pbind (offer_callback b) k) Q.
Proof using Type.
  intros Hst Hb Hk. apply k_same; [done|]. intros s Hs HK.
  destruct (inv_signals s Hs) as (Hc & Hu & Hp). unfold chan_try_send. rewrite Hc. case_decide; simpl.
  - split_and!; [|by apply p_move_same|by intros [?|[]|[]]|apply Hk].
    inv_other Hs; [|done]. simpl. rewrite elem_of_app, list_elem_of_singleton.
    intros [?| <-]; [by apply inv_callback0|by apply Hb].
  - split_and!; [|by apply p_move_same|by intros [?|[]|[]]|apply Hk]. inv_other Hs; done.
Qed.

Lemma pk_ReceiveAsync callback K l : rstable K → kr K l (ReceiveAsync callback) over.
Proof using Type.
  intros Hst. apply k_read; [done|]. intros b.
  assert (∀ b : bool, kr K l (if b then PRet (Some DirectReceiver.UnableToRegisterCallbackReceiverTerminating)
    else match callback with
  | None => PRet (Some DirectReceiver.nil_callback_error)
  | Some f =>
      let! first := action (λ s, match rxCallback s with
                                 | None => AOk true (set_rxCallback (Some f) s)
                                 | Some _ => AOk false s
                                 end) in
      (if (first : bool) then offer_callback true ;;;; PRet tt
       else update (set_rxCallback (Some f))) ;;;; PRet None
  end) (@over (option go_error))) as Hgo.
  { intros [|]; [done|]. destruct callback as [f|]; [|done]. apply k_act. intros s Hs _ HK.
    destruct (rxCallback s) eqn:Hc.
    - split_and!; [done|by apply p_move_same|]. exists l, K. split_and!; [intros x; lia|done..|].
      by k_field.
    - split_and!; [by inv_other Hs|by apply p_move_same|].
      exists l, (λ s, K s ∧ has_callback s). split; [by intros [?|[]|[]]|]. split; [|split; [auto|]].
      + split; [|by eexists]. apply (Hst s); [done|by apply p_move_same|done].
      + apply pk_offer_callback; [auto|by intros s' [_ ?]|done]. }
  destruct b; [apply (Hgo true)|]. apply k_read; [done|]. intros b. apply Hgo.
Qed.

(** ** Settlement, information, pausing *)

Lemma k_Settle msg outcome K l : rstable K → kr K l (Settle GetMessageID msg outcome) over.
Proof using Type.
  intros Hst. apply k_state; [done|]. intros st. lazy beta. case_decide as Hd; [done|].
  destruct msg as [m|]; [|done]. destruct (GetMessageID m) as [id|]; [|done].
  destruct (settlement_of outcome) as [o|]; [|done].
  apply k_flow_request; [auto| |auto|]; [|by intros a].
  intros s _ _ [_ Hr]. apply Hr. destruct st; naive_solver.
Qed.

Lemma k_ReceiverInfo K l : rstable K → kr K l ReceiverInfo over.
Proof using Type.
  intros Hst. apply k_state; [done|]. intros st. lazy beta. case_decide as Hd; [done|].
  apply k_flow_request; [auto| |auto|].
  - intros s _ _ [_ Hr]. apply Hr. by left.
  - by intros [[e|] [name b]].
Qed.

(** The two channels of a pause. *)
Inductive pause_channel : (receiver → chan unit) → (chan unit → receiver → receiver) → Prop :=
| pause_unpause : pause_channel doUnpause set_doUnpause
| pause_interrupt : pause_channel pauseInterrupt set_pauseInterrupt.

Lemma pause_inv view put c s : pause_channel view put → pr_inv s → chan_closed c = false → pr_inv (put c s).
Proof using Type. intros [] Hs Hc; inv_other Hs; simpl; naive_solver. Qed.
Lemma pause_move view put c s : pause_channel view put → pr_move s (put c s).
Proof using Type. intros []; by apply p_move_same. Qed.
Lemma pause_held view put c s x : pause_channel view put → rheld (put c s) x ≤ rheld s x.
Proof using Type. intros []; destruct x as [?|[]|[]]; apply Nat.le_refl. Qed.
Lemma pause_open view put s : pause_channel view put → pr_inv s → chan_closed (view s) = false.
Proof using Type. intros [] Hs; apply (inv_signals s Hs). Qed.

Lemma k_drain_one {B} view put K l (k : unit → rp B) Q :
  pause_channel view put → rstable K → kr K l (k tt) Q → kr K l (pbind (drain_one view put) k) Q.
Proof using Type.
  intros Hch Hst Hk. apply k_same; [done|]. intros s Hs _.
  pose proof (pause_open view put s Hch Hs) as Ho. unfold chan_try_recv.
  destruct (chan_buf (view s)); rewrite ?Ho;
    (split_and!; [by apply (pause_inv view)|by apply (pause_move view)|intros x; by apply (pause_held view)|done]).
Qed.

Lemma k_offer_one {B} view put K l (k : unit → rp B) Q :
  pause_channel view put → rstable K → kr K l (k tt) Q → kr K l (pbind (offer_one view put) k) Q.
Proof using Type.
  intros Hch Hst Hk. apply k_same; [done|]. intros s Hs _.
  pose proof (pause_open view put s Hch Hs) as Ho. unfold chan_try_send. rewrite Ho.
  case_decide; (split_and!; [by apply (pause_inv view)|by apply (pause_move view)|intros x; by apply (pause_held view)|done]).
Qed.

Lemma k_Pause K l : rstable K → kr K l Pause over.
Proof using Type.
  intros Hst. apply k_read; [done|]. intros st. case_decide; [done|].
  apply (k_drain_one doUnpause set_doUnpause); [constructor|done|]. k_field.
  apply (k_offer_one pauseInterrupt set_pauseInterrupt); [constructor|done..].
Qed.

Lemma k_Resume K l : rstable K → kr K l Resume over.
Proof using Type.
  intros Hst. apply k_read; [done|]. intros st. case_decide; [done|].
  apply (k_drain_one pauseInterrupt set_pauseInterrupt); [constructor|done|]. k_field.
  apply (k_offer_one doUnpause set_doUnpause); [constructor|done..].
Qed.

(** ** The context thread *)

Definition others_same (s s' : receiver) : Prop :=
  ∀ x, match x with Extra (ContextAt _) => True | _ => rheld s' x = rheld s x end.

Lemma p_conserves_context s s' c c' l :
  others_same s s' → context (past s) = c → c ≠ ContextFree → context (past s') = c' → c' ≠ ContextFree →
  conserves rheld s (own (Extra (ContextAt c) :: l)) s' (own (Extra (ContextAt c') :: l)).
Proof using Type.
  intros Hx Hc Hn Hc' Hn'. apply conserves_position; simpl; rewrite ?Hc, ?Hc'.
  - intros x Hx1 Hx2. specialize (Hx x).
    destruct x as [?|?|[c2| | | | |]]; try (rewrite Hx; lia). simpl. rewrite Hc, Hc'.
    repeat case_decide; try lia; exfalso; destruct_and?; congruence.
  - case_decide; lia.
  - by rewrite decide_True.
  - by rewrite decide_True.
  - intros Hne. rewrite decide_False; [done|]. intros [? _]. congruence.
Qed.

Lemma pk_context {V B} (f : receiver → act receiver V) c K l (k : V → rp B) Q :
  rstable K →
  (∀ s, pr_inv s → K s → context (past s) = c →
    match f s with
    | AOk v s' => pr_inv s' ∧ pr_move s s' ∧ others_same s s' ∧ ∃ c', context (past s') = c' ∧
        c' ≠ ContextFree ∧ kr K (Extra (ContextAt c') :: l) (k v) Q
    | ABlock => True
    | APanic _ => False
    end) → kr K (Extra (ContextAt c) :: l) (PAct f k) Q.
Proof using Type.
  intros Hst Hk. apply k_change; [done|]. intros s Hs Hf HK. destruct (p_fits_context _ _ _ Hf) as [Hc Hn].
  specialize (Hk s Hs HK Hc). destruct (f s) as [v s'| |]; [|done..].
  destruct Hk as (? & ? & Hx & c' & Hc' & Hn' & Hk). split_and!; [done..|]. eexists. split; [|exact Hk].
  by apply p_conserves_context.
Qed.

(** The invariant over the steps of a callback. *)
Lemma inv_verdict m v b p s : pr_inv s → context (past s) = Entered m → keeps v = b → v ≠ Pushed →
  p = bool_decide (v = Late ∨ v = Closed) → (v = Full → size ≤ length (chan_buf (buffer s))) →
  pr_inv (note (note_verdict m v (Decided m b p)) s).
Proof using Type.
  intros Hs Hc Hb Hv Hp Hfull.
  assert (length (chan_buf (buffer s)) ≤ length (verdict_as Pushed s)) as Hle.
  { rewrite (inv_fifo s Hs), length_app. lia. }
  destruct Hs. split; try assumption; unfold_inv; rewrite ?Hc in *; simpl in *; rewrite ?app_nil_r in *;
    try assumption.
  - rewrite decide_False, app_nil_r by done. done.
  - by rewrite inv_arrived0, fmap_app.
  - by rewrite fmap_app, inv_answered0, <-Hb.
  - assert (p = match v with Late | Closed => true | _ => false end) as -> by (subst p; by destruct v).
    rewrite !length_app. destruct v; simpl in *; try done; lia.
  - clear Hp. rewrite (decide_False _ _ Hv), app_nil_r. case_decide as Hf; [|by intros Hn; apply inv_full0; rewrite app_nil_r in Hn].
    specialize (Hfull Hf). lia.
Qed.

Lemma inv_pushed m s : pr_inv s → context (past s) = Entered m → length (chan_buf (buffer s)) < size →
  chan_closed (buffer s) = false →
  pr_inv (note (note_verdict m Pushed (Decided m true false))
    (set_buffer (mkChan (chan_cap (buffer s)) (chan_buf (buffer s) ++ [m]) false) s)).
Proof using Type.
  intros Hs Hc Hl Ho. destruct Hs. split; try assumption; unfold_inv; rewrite ?Hc in *; simpl in *;
    rewrite ?app_nil_r in *; try assumption; try done.
  - by rewrite inv_fifo0, <-app_assoc.
  - rewrite length_app. simpl. lia.
  - by rewrite inv_arrived0, fmap_app.
  - by rewrite fmap_app, inv_answered0.
  - intros Hf. rewrite length_app. specialize (inv_full0 Hf). lia.
  - by intros [? _]%inv_flag0; congruence.
  - by intros ?%inv_bufferClosed0; congruence.
  - by intros _; apply inv_open0.
  - intros n Hn. destruct (inv_reported0 n Hn). congruence.
  - intros x Hx. specialize (inv_before0 x Hx). by destruct x.
Qed.

Lemma inv_counted m s : pr_inv s → context (past s) = Decided m false true →
  pr_inv (note (at_context (Decided m false false)) (set_terminationDiscarded (terminationDiscarded s + 1) s)).
Proof using Type.
  intros Hs Hc. destruct Hs. split; try assumption; unfold_inv; rewrite ?Hc in *; simpl in *;
    rewrite ?app_nil_r in *; try assumption. lia.
Qed.

Lemma inv_answer m b s : pr_inv s → context (past s) = Decided m b false → pr_inv (note (note_answered m b) s).
Proof using Type.
  intros Hs Hc. destruct Hs. split; try assumption; unfold_inv; rewrite ?Hc in *; simpl in *;
    rewrite ?app_nil_r in *; try assumption.
Qed.

Lemma context_created s : pr_inv s → context (past s) ≠ ContextFree → flow_created s.
Proof using Type.
  intros Hs Hc. apply (inv_messages s Hs). rewrite (inv_arrived s Hs). pose proof (inv_answered s Hs) as Ha.
  destruct (context (past s)); simpl in *; [done|by destruct (verdicts (past s))|].
  destruct (verdicts (past s)); simpl in *; [by destruct (answered (past s))|done].
Qed.

Lemma move_verdict m v c s : pr_move s (note (note_verdict m v c) s).
Proof using Type. split; try done; [by left|apply prefix_more]. Qed.

Lemma pk_count_termination {B} m K l (k : unit → rp B) Q :
  rstable K → kr K (Extra (ContextAt (Decided m false false)) :: l) (k tt) Q →
  kr K (Extra (ContextAt (Decided m false true)) :: l) (pbind (count_termination m) k) Q.
Proof using Type.
  intros Hst Hk. apply pk_context; [done|]. intros s Hs _ Hc.
  split_and!; [by apply inv_counted|by apply p_move_same|by intros [?|[]|[]]|]. by eexists.
Qed.

Lemma pk_push {B} m K l (k : pushing → rp B) Q :
  rstable K → kr K (Extra (ContextAt (Decided m true false)) :: l) (k PushOk) Q →
  kr K (Extra (ContextAt (Decided m true false)) :: l) (k PushFull) Q →
  kr K (Extra (ContextAt (Decided m false true)) :: l) (k PushClosed) Q →
  kr K (Extra (ContextAt (Entered m)) :: l) (pbind (push m) k) Q.
Proof using Type.
  intros Hst Hok Hfull Hcl. apply pk_context; [done|]. intros s Hs _ Hc. unfold chan_try_send.
  destruct (chan_closed (buffer s)) eqn:Hb; [|case_decide as Hl].
  - split_and!; [by apply inv_verdict|apply move_verdict|by intros [?|[]|[]]|]. by eexists.
  - split_and!; [apply inv_pushed; try done; by rewrite <-(inv_cap s Hs)| |
      intros [?|[]|[]]; simpl; rewrite ?Hb; done|by eexists].
    split; try done; [by left|apply prefix_more|]. unfold closed. by rewrite Hb.
  - split_and!; [|apply move_verdict|by intros [?|[]|[]]|by eexists].
    apply inv_verdict; try done. rewrite <-(inv_cap s Hs). intros _. lia.
Qed.

Lemma k_push_back {B} m K l (k : unit → rp B) Q :
  rstable K →
  (∀ K', rstable K' → kr K' (Extra (ContextAt (Decided m true false)) :: l) (k tt) Q) →
  kr K (Extra (ContextAt (Decided m true false)) :: l) (pbind push_back k) Q.
Proof using Type.
  intros Hst Hk. apply kproto_bind. apply k_read; [done|]. intros [|]; [|by apply Hk].
  apply k_stopFlow; [done| |].
  - intros s Hs Hf _. apply context_created; [done|]. by destruct (p_fits_context _ _ _ Hf) as [-> ?].
  - intros [|]; [|by apply Hk]. apply kproto_unbind, k_resume_if; [done|]. intros K' HK' _. by apply Hk.
Qed.

Lemma pk_messageCallback {B} m K l (k : bool → rp B) Q :
  rstable K → (∀ K' b, rstable K' → kr K' (Extra (ContextAt (Decided m b false)) :: l) (k b) Q) →
  kr K (Extra (ContextAt (Entered m)) :: l) (pbind (messageCallback m) k) Q.
Proof using Type.
  intros Hst Hk. apply kproto_bind. apply pk_context; [done|]. intros s Hs _ Hc. lazy beta zeta.
  case_decide as Hterm.
  { split_and!; [by apply inv_verdict|apply move_verdict|by intros [?|[]|[]]|]. eexists.
    split_and!; [done..|]. lazy beta. rewrite decide_True by done. apply pk_count_termination; [done|]. by apply Hk. }
  split_and!; [done|by apply p_move_same|by intros [?|[]|[]]|]. exists (Entered m).
  split_and!; [done..|]. lazy beta. rewrite decide_False by done. apply pk_push; [done|..]; lazy iota beta.
  - apply k_push_back; [done|]. intros K' HK'. by apply Hk.
  - by apply Hk.
  - apply pk_count_termination; [done|]. by apply Hk.
Qed.

Lemma k_flow_message m K l : rstable K → kr K l (flow_message m) over.
Proof using Type.
  intros Hst. apply k_change; [done|]. intros s Hs _ _. destruct (context (past s)) eqn:Hc; [|done..].
  destruct (attached (flow s)) eqn:Ha.
  - pose proof (inv_attached s Hs Ha) as Hcr. split_and!; [|by apply p_move_same|].
    + destruct Hs. split; try assumption; unfold_inv; rewrite ?Hc in *; simpl in *;
        rewrite ?app_nil_r in *; try assumption; try done. by rewrite inv_arrived0.
    + exists (Extra (ContextAt (Entered m)) :: l). split.
      * apply conserves_take.
        -- intros [?|[]|[c| | | | |]] Hx; try apply Nat.le_refl. simpl. rewrite Hc.
           repeat case_decide; try lia; exfalso; destruct_and?; congruence.
        -- simpl. by rewrite decide_True.
        -- simpl. rewrite decide_False; [done|]. intros [? _]. congruence.
      * apply pk_messageCallback; [done|]. clear s Hs Hc Ha Hcr. intros K' b HK'.
        apply k_change; [done|]. intros s Hs Hf _. destruct (p_fits_context _ _ _ Hf) as [Hc Hn].
        split_and!; [by apply inv_answer|by apply p_move_same|]. exists l. split; [|done].
        apply conserves_give; [|simpl; repeat case_decide; lia].
        intros [?|[]|[c| | | | |]] Hx; try apply Nat.le_refl. simpl. rewrite Hc.
        repeat case_decide; try lia; exfalso; destruct_and?; congruence.
  - split_and!; [done|by apply p_move_same|]. exists l. split; [intros x; lia|done].
Qed.

(** ** The goroutine of the handler *)

Lemma pk_runner {V B} (f : receiver → act receiver V) h K l (k : V → rp B) Q :
  rstable K →
  (∀ s, pr_inv s → K s → runner (past s) = Running h →
    match f s with
    | AOk v s' => pr_inv s' ∧ pr_move s s' ∧
        (∀ x, match x with Extra (RunnerAt _) => True | _ => rheld s' x ≤ rheld s x end) ∧
        ∃ h', runner (past s') = Running h' ∧ kr K (Extra (RunnerAt h') :: l) (k v) Q
    | ABlock => True
    | APanic _ => False
    end) → kr K (Extra (RunnerAt h) :: l) (PAct f k) Q.
Proof using Type.
  intros Hst Hk. apply k_change; [done|]. intros s Hs Hf HK. pose proof (p_fits_runner _ _ _ Hf) as Hr.
  specialize (Hk s Hs HK Hr). destruct (f s) as [v s'| |]; [|done..].
  destruct Hk as (? & ? & Hx & h' & Hr' & Hk). split_and!; [done..|]. eexists. split; [|exact Hk].
  apply conserves_position; simpl; rewrite ?Hr, ?Hr'.
  - intros x Hn Hn'. specialize (Hx x). destruct x as [ph|y|[| h2| | | |]]; try exact Hx.
    simpl. rewrite Hr, Hr'. repeat case_decide; try lia; exfalso; congruence.
  - case_decide; lia.
  - by rewrite decide_True.
  - by rewrite decide_True.
  - intros Hne. rewrite decide_False; congruence.
Qed.

(** What [Spawn] says of a spawned goroutine. *)
Lemma spawned_before s r : pr_inv s → runner (past s) ≠ NotSpawned → ∀ x,
  passed (state_of s) (gate x) = false → spent (note (at_runner r) s) x = false.
Proof using Type.
  intros Hs Hr x Hx. pose proof (inv_before s Hs x Hx) as Hb. destruct x; [|done..].
  simpl in Hb. by apply bool_decide_eq_false in Hb as [].
Qed.

Lemma p_inv_runner r s : pr_inv s → runner (past s) ≠ NotSpawned →
  in_hand (note (at_runner r) s) = in_hand s → to_ack (note (at_runner r) s) = to_ack s →
  terminationComplete s = false → pr_inv (note (at_runner r) s).
Proof using Type.
  intros Hs Hr Hh Ha Hc. pose proof (spawned_before s r Hs Hr). destruct Hs. split; try assumption.
  - simpl. congruence.
  - by rewrite Hh.
  - by rewrite Ha.
Qed.

Lemma running_incomplete s h : pr_inv s → runner (past s) = Running h → terminationComplete s = false.
Proof using Type.
  intros Hs Hr. destruct (terminationComplete s) eqn:Hc; [|done]. apply (inv_complete s Hs) in Hc. congruence.
Qed.

(** The handler has been called; its message is to be acknowledged, or done with. *)
Lemma inv_called_one f m b s : pr_inv s → runner (past s) = Running (Holding m) →
  pr_inv (note (note_called f m b (if doAutoAck (props s) && negb b then ToAck m else Empty)) s).
Proof using Type.
  intros Hs Hr. pose proof (running_incomplete s _ Hs Hr) as Hc.
  pose proof (spawned_before s (Running (Holding m)) Hs ltac:(congruence)) as Hb.
  destruct Hs. split; try assumption; unfold_inv; rewrite ?Hr in *; simpl in *; rewrite ?app_nil_r in *.
  - congruence.
  - rewrite inv_called0, !fmap_app. simpl. by destruct (doAutoAck (props s)), b; rewrite ?app_nil_r.
  - rewrite filter_app, filter_cons, filter_nil, inv_acked0.
    destruct (doAutoAck (props s)), b; simpl; rewrite ?app_nil_r, ?fmap_app; done.
Qed.

Lemma inv_acked_handled m c an s : pr_inv s → runner (past s) = Running (ToAck m) →
  pr_inv (note (λ h, at_runner (Running Empty) (note_ack m Handed h)) (note (note_flow c) (set_answers an s))).
Proof using Type.
  intros Hs Hr. pose proof (running_incomplete s _ Hs Hr) as Hc.
  pose proof (spawned_before s (Running Empty) Hs ltac:(congruence)) as Hb.
  destruct Hs. split; try assumption; unfold_inv; rewrite ?Hr in *; simpl in *; rewrite ?app_nil_r in *;
    try assumption; try done.
  congruence.
Qed.

Lemma to_ack_created m s : pr_inv s → runner (past s) = Running (ToAck m) → flow_created s.
Proof using Type.
  intros Hs Hr. pose proof (inv_acked s Hs) as Ha. pose proof (inv_called s Hs) as Hc.
  pose proof (inv_fifo s Hs) as Hf. apply (inv_messages s Hs). rewrite (inv_arrived s Hs).
  intros Hn%app_nil. destruct Hn as [Hn%fmap_nil_inv _]. unfold_inv. rewrite Hr, Hn in *. simpl in *.
  symmetry in Hf. apply app_nil in Hf as [Hf%fmap_nil_inv _]. rewrite Hf in Hc. simpl in Hc.
  symmetry in Hc. apply app_nil in Hc as [Hc%fmap_nil_inv%fmap_nil_inv _]. rewrite Hc in Ha. simpl in Ha.
  destruct (doAutoAck (props s)); by apply app_nil in Ha as [].
Qed.

Lemma k_call_handler {B} f m K l (k : unit → rp B) Q :
  rstable K → (∀ n, n = Empty ∨ n = ToAck m → kr K (Extra (RunnerAt n) :: l) (k tt) Q) →
  kr K (Extra (RunnerAt (Holding m)) :: l) (pbind (call_handler handler_panics (Some f) m) k) Q.
Proof using Type.
  intros Hst Hk. apply pk_runner; [done|]. intros s Hs _ Hr.
  split_and!; [by apply inv_called_one|by apply p_move_same| |].
  - intros [|[]|[]]; simpl; rewrite ?Hr; done.
  - eexists. split; [done|]. apply Hk. destruct (_ && _); auto.
Qed.

Lemma k_ack_handled {B} n m K l (k : unit → rp B) Q :
  rstable K → n = Empty ∨ n = ToAck m → kr K (Extra (RunnerAt Empty) :: l) (k tt) Q →
  kr K (Extra (RunnerAt n) :: l) (pbind (ack_handled GetMessageID m) k) Q.
Proof using Type.
  intros Hst Hn Hk. apply kproto_bind. apply pk_runner; [done|]. intros s Hs _ Hr.
  split_and!; [done|by apply p_move_same|by intros [|[]|[]]|]. exists n. split; [done|]. rewrite Hr.
  destruct Hn as [->| ->]; [exact Hk|].
  apply pk_runner; [done|]. clear s Hs Hr. intros s Hs _ Hr. pose proof (to_ack_created m s Hs Hr) as Hc.
  unfold flow_created in Hc. rewrite Hc. destruct (next_answer s) as [a an].
  split_and!; [by apply inv_acked_handled| | |exists Empty; split; [done|]].
  - split; try done; [by left|apply prefix_more].
  - intros [|[]|[]]; simpl; rewrite ?Hr; done.
  - destruct a as [[e|] d]; [exact Hk|]. by k_field.
Qed.

Lemma k_await_unpause {B} K l (k : bool → rp B) Q :
  rstable K → (∀ b, kr K l (k b) Q) → kr K l (pbind await_unpause k) Q.
Proof using Type.
  intros Hst Hk. apply kproto_bind. intros s Hs Hf HKs f Hin.
  assert (∀ r, kr K l (PRet (match r with Unpaused => true | Ended => false end))
    (λ b K m, kproto pr_inv pr_move rheld lc_total K m (k b) Q)) as Hret by (intros []; [exact (Hk true)|exact (Hk false)]).
  apply elem_of_cons in Hin as [->|Hin].
  - pose proof (pause_open doUnpause set_doUnpause s (pause_unpause) Hs) as Ho. unfold chan_recv. rewrite Ho.
    destruct (chan_buf (doUnpause s)); [done|].
    split_and!; [by apply (pause_inv doUnpause set_doUnpause); [constructor| |]|by apply p_move_same|].
    exists (own l), K. split_and!; [by intros [?|[]|[]]| |done|exact (Hret Unpaused)].
    by apply (Hst s); [|apply p_move_same|].
  - assert (∀ b : bool, match (if b then AOk Ended s else ABlock) with
      | AOk v s' => pr_inv s' ∧ pr_move s s' ∧ ∃ n' K', conserves rheld s (own l) s' n' ∧ K' s' ∧ rstable K' ∧
          kproto pr_inv pr_move rheld lc_total K' n' (PRet (match v with Unpaused => true | Ended => false end))
            (λ b K m, kproto pr_inv pr_move rheld lc_total K m (k b) Q)
      | ABlock => True
      | APanic _ => False
      end) as Hb.
    { intros [|]; [|done]. split_and!; [done|by apply p_move_same|]. exists (own l), K.
      split_and!; [intros x; lia|done..|exact (Hret Ended)]. }
    apply elem_of_cons in Hin as [->|Hin%list_elem_of_singleton]; [apply Hb|subst f; apply Hb].
Qed.

Lemma k_check_pause {B} K l (k : bool → rp B) Q :
  rstable K → (∀ K' b, rstable K' → (∀ s, K' s → K s) → kr K' l (k b) Q) →
  kr K l (pbind check_pause k) Q.
Proof using Type.
  intros Hst Hk. apply kproto_bind. apply k_read; [done|]. intros [|]; [|by apply Hk].
  apply pk_check_empty; [done|]. intros K' [|] HK' Hle; [by apply Hk|].
  apply kproto_unbind, k_await_unpause; [done|]. intros b. by apply Hk.
Qed.

(** The message that a turn takes, and what else may end it. *)
Lemma k_next_turn {B} K l (k : turn → rp B) Q :
  rstable K → (∀ m, kr K (Extra (RunnerAt (Holding m)) :: l) (k (TurnMessage m)) Q) →
  kr (λ s, K s ∧ emptied s) (Extra (RunnerAt Empty) :: l) (k TurnClosed) Q →
  kr K (Extra (RunnerAt Empty) :: l) (k TurnInterrupted) Q →
  kr K (Extra (RunnerAt Empty) :: l) (k TurnEnded) Q →
  kr K (Extra (RunnerAt Empty) :: l) (pbind next_turn k) Q.
Proof using Type.
  intros Hst Hm Hc Hi He s Hs Hf HKs f Hin. pose proof (p_fits_runner _ _ _ Hf) as Hr.
  apply elem_of_cons in Hin as [->|Hin]; [|apply elem_of_cons in Hin as [->|Hin%list_elem_of_singleton]].
  - pose proof (p_receive_buffer_spec Handed (λ m s, note (at_runner (Running (Holding m))) s) s) as Hb.
    destruct (receive_buffer _ _ _) as [[m| | |] s'| |]; try done.
    + destruct Hb as (xs & Hb & ->).
      assert (pr_move s (note (at_runner (Running (Holding m))) (take_off m xs Handed s))) as Hmv.
      { by destruct (p_move_take m xs Handed s Hb); split. }
      split_and!; [by apply p_inv_take_handed|done|].
      exists (own (Extra (RunnerAt (Holding m)) :: l)), K. split_and!; [|by apply (Hst s)|done|apply Hm].
      apply conserves_position; simpl; rewrite ?Hr, ?decide_True by done; try done; try lia.
      * intros x Hn Hn'. pose proof (p_held_take m xs Handed s x ltac:(done)) as Hx.
        destruct x as [ph|[]|[| h2| | | |]]; try (rewrite <-Hx; apply Nat.le_refl);
          simpl; rewrite ?Hr; try done. repeat case_decide; try lia; exfalso; congruence.
    + destruct Hb as [-> Hem]. split_and!; [done|by apply p_move_same|].
      exists (own (Extra (RunnerAt Empty) :: l)), (λ s, K s ∧ emptied s).
      split_and!; [intros x; lia|done|done|auto|done].
  - pose proof (pause_open pauseInterrupt set_pauseInterrupt s (pause_interrupt) Hs) as Ho.
    unfold chan_recv. rewrite Ho. destruct (chan_buf (pauseInterrupt s)); [done|].
    split_and!; [by apply (pause_inv pauseInterrupt set_pauseInterrupt); [constructor| |]|by apply p_move_same|].
    eexists _, K. split_and!; [by intros [?|[]|[]]| |done|exact Hi]. by apply (Hst s); [|apply p_move_same|].
  - subst f. destruct (terminationNotification s); [|done]. split_and!; [done|by apply p_move_same|].
    eexists _, K. split_and!; [|done|done|exact He]. intros x; lia.
Qed.

Lemma pk_run_loop {B} fuel K l (k : bool → rp B) Q :
  rstable K → (∀ s, K s → has_callback s) →
  (∀ b K', rstable K' → kr K' (Extra (RunnerAt Empty) :: l) (k b) Q) →
  kr K (Extra (RunnerAt Empty) :: l) (pbind (run_loop GetMessageID handler_panics fuel) k) Q.
Proof using Type.
  intros Hst HK Hk. apply kproto_bind.
  assert (∀ b K', rstable K' → kr K' (Extra (RunnerAt Empty) :: l) (PRet b)
    (λ b K m, kproto pr_inv pr_move rheld lc_total K m (k b) Q)) as Hret by done.
  clear Hk. revert K Hst HK. induction fuel as [|fuel IH]; intros K Hst HK; [by apply Hret|].
  apply k_check_pause; [done|]. intros K1 [|] HK1 Hle; [|by apply Hret].
  apply k_read; [done|]. intros [|]; [by apply Hret|].
  apply k_next_turn; [done|..].
  - intros m. eapply k_load; [apply _|done|]. intros s _ HKs. destruct (HK s (Hle s HKs)) as [f Hf]. rewrite Hf. clear s HKs Hf.
    apply k_call_handler; [done|]. intros n Hn. apply k_ack_handled; [done..|].
    apply k_resume_if; [done|]. intros K2 HK2 Hle2. apply IH; [done|]. auto.
  - apply pk_notify; [auto|by intros s [_ ?]|]. intros b. apply Hret. auto.
  - apply IH; [done|]. auto.
  - by apply Hret.
Qed.

Lemma pk_finish K l (a : option go_error) :
  rstable K → kr K (Extra (RunnerAt Empty) :: l)
    (action (λ s, if terminationComplete s then APanic CloseOfClosedChannel
                 else AOk tt (note (at_runner Finished) (set_terminationComplete true s))) ;;;; PRet a) over.
Proof using Type.
  intros Hst. apply k_change; [done|]. intros s Hs Hf _. pose proof (p_fits_runner _ _ _ Hf) as Hr.
  rewrite (running_incomplete s _ Hs Hr). split_and!; [|by apply p_move_same|].
  - pose proof (spawned_before s Finished Hs ltac:(congruence)).
    inv_other Hs; unfold_inv; rewrite ?Hr, ?app_nil_r in *; done.
  - exists l. split; [|done]. apply conserves_give; [|simpl; repeat case_decide; lia].
    intros [?|[]|[|h2| | | |]] Hx; try apply Nat.le_refl; simpl; rewrite ?Hr; try done.
    repeat case_decide; try lia; exfalso; congruence.
Qed.

Lemma pk_run_receiver fuel K l : rstable K → kr K l (run_receiver GetMessageID handler_panics fuel) over.
Proof using Type.
  intros Hst. apply k_change; [done|]. intros s Hs _ _.
  destruct (runner (past s)) eqn:Hr; try done. split_and!; [|by apply p_move_same|].
  - apply p_inv_runner; [done|congruence|unfold in_hand; simpl; by rewrite Hr|unfold to_ack; simpl; by rewrite Hr|].
    destruct (terminationComplete s) eqn:Hc; [|done]. apply (inv_complete s Hs) in Hc. congruence.
  - exists (Extra (RunnerAt Empty) :: l). split.
    { apply conserves_take; simpl; rewrite ?Hr; try done.
      intros [?|[]|[|h2| | | |]] Hx; try apply Nat.le_refl; simpl; rewrite ?Hr; try done.
      repeat case_decide; try lia; exfalso; congruence. }
    apply k_see; [done|]. clear s Hs Hr. intros s Hs _ HKs. unfold chan_recv.
    destruct (inv_signals s Hs) as (Hcl & _).
    destruct (chan_buf (rxCallbackSet s)) as [|b bs] eqn:Hb; [by rewrite Hcl|].
    pose proof (inv_callback s Hs) as Hcb. rewrite Hb in Hcb.
    split_and!; [|by apply p_move_same|by intros [?|[]|[]]|].
    { inv_other Hs. intros Hin. apply Hcb. by apply list_elem_of_further. }
    exists (λ s, b = true → has_callback s). split_and!.
    + intros ->. apply Hcb. apply list_elem_of_here.
    + by apply stable_impl.
    + assert (rstable (λ s, K s ∧ (b = true → has_callback s))) as Hst'.
      { apply p_stable_with; [done|]. by apply stable_impl. }
      destruct b; simpl.
      * apply pk_run_loop; [done|by intros s' [_ ?]; auto|]. intros [|] K' HK'; [|done]. by apply pk_finish.
      * by apply pk_finish.
Qed.

(** ** Start *)

Lemma k_session_call {B} c after K l (k : flow_answer → rp B) Q :
  rstable K → after = (λ s, s) → (∀ a, kr K l (k a) Q) → kr K l (pbind (session_call c after) k) Q.
Proof using Type.
  intros Hst -> Hk. apply k_same; [done|]. intros s Hs _. destruct (next_answer s) as [[[e|] d] an]; simpl;
    (split_and!; [by apply inv_call|by apply p_move_same|by intros [?|[]|[]]|apply Hk]).
Qed.

Lemma k_provisionEndpoint {B} K l (k : option go_error → rp B) Q :
  rstable K → (∀ err, kr K l (k err) Q) → kr K l (pbind provisionEndpoint k) Q.
Proof using Type.
  intros Hst Hk. apply kproto_bind. apply k_read; [done|]. intros queue. apply k_read; [done|]. intros b.
  destruct (b && durable queue); [|apply Hk]. apply k_session_call; [done..|]. intros a. apply Hk.
Qed.

(** With the flow comes the knowledge of it. *)
Lemma k_NewPersistentReceiver {B} K l (k : flow_answer → rp B) Q :
  rstable K → (∀ e d, kr K l (k (Some e, d)) Q) →
  (∀ d, kr (λ s, K s ∧ flow_created s) l (k (None, d)) Q) →
  kr K l (pbind NewPersistentReceiver k) Q.
Proof using Type.
  intros Hst He Hk. apply kproto_bind. apply k_read; [done|]. intros properties.
  apply k_act. intros s Hs _ HKs. destruct (next_answer s) as [[[e|] d] an]; simpl.
  - split_and!; [by apply inv_call|by apply p_move_same|]. exists l, K.
    split_and!; [by intros [?|[]|[]]| |done|apply He]. by apply (Hst s); [|apply p_move_same|].
  - split_and!; [by inv_other Hs|by apply p_move_same|]. exists l, (λ s, K s ∧ flow_created s).
    split_and!; [by intros [?|[]|[]]| |done|auto|apply Hk]. by apply (Hst s); [|apply p_move_same|].
Qed.

Lemma pk_subscribe_all {B} topics ids K l (k : option go_error * list nat → rp B) Q :
  rstable K → (∀ s, K s → flow_created s) → (∀ r, kr K l (k r) Q) →
  kr K l (pbind (subscribe_all topics ids) k) Q.
Proof using Type.
  intros Hst Hc Hk. revert ids. induction topics as [|t topics IH]; intros ids; [apply Hk|].
  apply k_flow_correlated; [done..|]. intros [id|e]; [apply IH|apply Hk].
Qed.

Lemma pk_await_all {B} ids K l (k : option go_error → rp B) Q :
  rstable K → (∀ err, kr K l (k err) Q) → kr K l (pbind (await_all ids) k) Q.
Proof using Type.
  intros Hst Hk. induction ids as [|id ids IH]; [apply Hk|].
  apply pk_await_event; [done|]. intros [e|]; [apply Hk|apply IH].
Qed.

Lemma clear_all_correlations ids (s : receiver) :
  foldl (λ s id, ClearSubscriptionCorrelation id s) s ids = s ∨
  ∃ t, foldl (λ s id, ClearSubscriptionCorrelation id s) s ids = set_correlations t s.
Proof using Type.
  revert s. induction ids as [|id ids IH]; intros s; [by left|]. right. simpl.
  destruct (IH (ClearSubscriptionCorrelation id s)) as [->|[t ->]]; by eexists.
Qed.

Lemma k_clear_all {B} ids K l (k : unit → rp B) Q :
  rstable K → kr K l (k tt) Q → kr K l (pbind (clear_all ids) k) Q.
Proof using Type.
  intros Hst Hk. apply k_same; [done|]. intros s Hs _.
  destruct (clear_all_correlations ids s) as [->|[t ->]];
    (split_and!; [done || by inv_other Hs|by apply p_move_same|by intros [?|[]|[]]|done]).
Qed.

Lemma k_start_failed {B} err K l (k : option go_error → rp B) Q :
  rstable K → (∀ K', rstable K' → kr K' l (k (Some err)) Q) → kr K l (pbind (start_failed err) k) Q.
Proof using Type.
  intros Hst Hk. apply kproto_bind, pk_handler; [done|].
  apply (k_learn (λ s, created (flow s)) flow_created); [auto..|done| |by apply Hk].
  apply kproto_unbind, k_flow_Destroy; [auto|by intros s _ _ [_ ?]|]. apply Hk. auto.
Qed.

Lemma pk_spawn {B} K (k : unit → rp B) Q :
  rstable K → kr K [InPhase StartPhase] (k tt) Q →
  kr K [InPhase StartPhase; Once Spawn] (pbind spawn k) Q.
Proof using Type.
  intros Hst Hk. apply kproto_bind. k_field.
  apply (k_drop [Once Spawn; InPhase StartPhase]); [done|intros [[]|[]|[]]; simpl; lia|].
  apply k_change; [done|]. intros s Hs Hf _. destruct (fits_once_list _ _ _ Hf) as [Hp Hr].
  simpl in Hp, Hr. apply bool_decide_eq_false, dec_stable in Hr.
  split_and!; [|by apply p_move_same|].
  - inv_other Hs; unfold_inv; rewrite ?Hr, ?app_nil_r in *; try done.
    + intros ?%inv_complete0. congruence.
    + intros x Hx. specialize (inv_before0 x Hx). destruct x; simpl in *; try done. unfold state_of in *. simpl in *. congruence.
  - exists [InPhase StartPhase]. split; [|done]. apply conserves_give; [|simpl; destruct (_ && _); lia].
    intros [?|[]|[| h2| | | |]] Hx; try apply Nat.le_refl; simpl; rewrite ?Hr; done.
Qed.

Lemma p_grant_start (x : permit) : grant gate StartPhase x = own [InPhase StartPhase; Once Spawn] x.
Proof using Type. by destruct x as [[]|[]|[]]. Qed.

Lemma p_grant_term (x : permit) :
  grant gate TermPhase x = own [InPhase TermPhase; Once CloseBuffer; Once CloseNotification] x.
Proof using Type. by destruct x as [[]|[]|[]]. Qed.

Lemma pk_start_body {B} K (k : option go_error → rp B) Q :
  rstable K →
  (∀ K' err l, rstable K' → (err = None → ∀ s, K' s → flow_created s) →
     kr K' (InPhase StartPhase :: l) (k err) Q) →
  kr K [InPhase StartPhase; Once Spawn] (pbind start_body k) Q.
Proof using Type.
  intros Hst Hk. apply kproto_bind, k_provisionEndpoint; [done|].
  assert (∀ K err, rstable K → kr K [InPhase StartPhase; Once Spawn] (start_failed err)
    (λ err K m, kproto pr_inv pr_move rheld lc_total K m (k err) Q)) as Hfail.
  { clear K Hst. intros K err Hst. apply kproto_unbind, k_start_failed; [done|]. intros K' HK'. by apply Hk. }
  intros [err|]; [by apply Hfail|]. apply pk_handler; [done|].
  apply k_NewPersistentReceiver; [done|intros e d; by apply Hfail|]. intros d. lazy iota beta delta [fst].
  assert (rstable (λ s, K s ∧ flow_created s)) as Hst' by auto.
  apply k_flow_request; [done|by intros s _ _ [_ ?]|auto|]. intros [[e|] d']; [by apply Hfail|].
  apply k_read; [done|]. intros topics. apply pk_subscribe_all; [done|by intros s [_ ?]|].
  assert (∀ ids err, kr (λ s, K s ∧ flow_created s) [InPhase StartPhase; Once Spawn] (clear_all ids ;;;; start_failed err)
    (λ err K m, kproto pr_inv pr_move rheld lc_total K m (k err) Q)) as Hclear.
  { intros ids err. apply k_clear_all; [done|]. by apply Hfail. }
  intros [[err|] ids]; [apply Hclear|]. apply pk_await_all; [done|]. intros [err|]; [apply Hclear|].
  apply pk_spawn; [done|]. apply Hk; [done|]. by intros _ s [_ ?].
Qed.

Lemma pk_Start {B} (k : option go_error → rp B) Q :
  (∀ K err, rstable K → kr K [] (k err) Q) → kr nothing [] (pbind Start k) Q.
Proof using Type.
  intros Hk. apply kproto_bind. unfold Start, start_around.
  apply kproto_frame; [done|]. apply proto_starting; try apply _; cbn [fst snd negb].
  { intros err. by apply Hk. }
  eapply k_grant; [done|apply p_grant_start|]. apply pk_start_body; [done|]. intros K err l Hst Hc.
  apply (k_drop [InPhase StartPhase]); [by destruct err|intros x; cbn [own]; lia|]. destruct err as [err|].
  - apply k_machine; [done|]. eapply (proto_terminated _ _ _ _ _ StartPhase); try apply _; [done|].
    apply (k_machine _ _ []); [done|]. apply proto_complete_start; try apply _. by apply Hk.
  - eapply k_started; [apply _|done|done| |by apply Hk].
    intros s Hs HKs Hst'. apply persistent_state; [done| |intros _; by apply Hc].
    rewrite Hst'. unfold lstate_move. tauto.
Qed.

(** ** Termination *)

Lemma pk_close_buffer {B} K l (k : unit → rp B) Q :
  rstable K → kr (λ s, K s ∧ closed s) (Extra (DrainAt 0) :: l) (k tt) Q →
  kr K (Once CloseBuffer :: l) (pbind close_buffer k) Q.
Proof using Type.
  intros Hst Hk. apply k_act. intros s Hs Hf HKs.
  destruct (fits_once_list _ _ _ Hf) as [Hp Ho]. simpl in Hp, Ho. unfold chan_close. rewrite Ho.
  assert (reported (past s) = None) as Hn.
  { destruct (reported (past s)) eqn:He; [|done]. destruct (inv_reported s Hs _ He). unfold closed in *. congruence. }
  pose proof (inv_open s Hs Ho) as Hd.
  assert (pr_move s (set_buffer (mkChan (chan_cap (buffer s)) (chan_buf (buffer s)) true) s)) as Hm.
  { split; try done. by left. }
  split_and!; [|done|].
  - inv_other Hs; unfold closed in *; simpl in *; try done.
    + by intros [? _]%inv_flag0; congruence.
    + by intros n [? _]%inv_reported0; congruence.
    + intros [] Hx; specialize (inv_before0 _ Hx); simpl in *; try done. unfold state_of in *. simpl in *. congruence.
  - exists (Extra (DrainAt 0) :: l), (λ s, K s ∧ closed s). split; [|split; [split; [by apply (Hst s)|done]|auto]].
    apply conserves_swap; [|done|simpl; destruct (_ && _); lia| |].
    + intros [?|[]|[| |k0| | |]] Hx Hx'; try apply Nat.le_refl; try done. simpl. repeat case_decide; try lia; naive_solver.
    + simpl. by rewrite decide_True.
    + simpl. rewrite decide_False by naive_solver congruence. done.
Qed.

Lemma pk_bufferClosed {B} K l (k : unit → rp B) Q :
  rstable K → (∀ s, K s → closed s) → kr K l (k tt) Q → kr K l (pbind (store set_bufferClosed true) k) Q.
Proof using Type.
  intros Hst HK Hk. apply k_same; [done|]. intros s Hs HKs.
  split_and!; [|by apply p_move_same|by intros [?|[]|[]]|done]. inv_other Hs. intros _. exact (HK s HKs).
Qed.

Lemma pk_close_notification {B} K l (k : unit → rp B) Q :
  rstable K → kr K l (k tt) Q → kr K (Once CloseNotification :: l) (pbind close_notification k) Q.
Proof using Type.
  intros Hst Hk. apply k_change; [done|]. intros s Hs Hf _.
  destruct (fits_once_list _ _ _ Hf) as [Hp Ho]. simpl in Hp, Ho. rewrite Ho.
  split_and!; [|by apply p_move_same|].
  - inv_other Hs. intros [] Hx; specialize (inv_before0 _ Hx); simpl in *; try done.
    unfold state_of in *. simpl in *. congruence.
  - exists l. split; [|done]. apply conserves_give; [|simpl; destruct (_ && _); lia].
    intros [?|[]|[]] Hx; try apply Nat.le_refl. done.
Qed.

Lemma p_conserves_drain s s' n n' (l : list permit) :
  (∀ x, match x with Extra (DrainAt _) => True | _ => rheld s' x ≤ rheld s x end) →
  closed s ∧ drained_count s = n ∧ reported (past s) = None →
  closed s' ∧ drained_count s' = n' ∧ reported (past s') = None →
  conserves rheld s (own (Extra (DrainAt n) :: l)) s' (own (Extra (DrainAt n') :: l)).
Proof using Type.
  intros Hx Hd Hd'. unfold closed in *.
  assert (∀ k, n ≠ k → extra s (DrainAt k) = 1) as Hone by (intros k Hk; simpl; rewrite decide_False; naive_solver).
  apply conserves_position; [|simpl; case_decide; lia|simpl; by rewrite decide_True|simpl; by rewrite decide_True|].
  - intros x Hn Hn'. specialize (Hx x). destruct x as [ph|y|[| |k| | |]]; try exact Hx. cbn [lc_held].
    rewrite Hone by congruence. simpl. case_decide; lia.
  - intros Hn. apply Hone. congruence.
Qed.

Lemma pk_drain_loop {B} fuel n K l (k : nat → rp B) Q :
  rstable K → (∀ s, K s → at_most (fuel - 1) s) → 0 < fuel →
  (∀ m K', rstable K' → (∀ s, K' s → emptied s) → kr K' (Extra (DrainAt m) :: l) (k m) Q) →
  kr K (Extra (DrainAt n) :: l) (pbind (drain_loop fuel n) k) Q.
Proof using Type.
  intros Hst HK Hfuel Hk. revert n K Hst HK Hfuel.
  induction fuel as [|fuel IH]; intros n K Hst HK Hfuel; [lia|].
  apply k_act. intros s Hs Hf HKs. destruct (p_fits_drain _ _ _ Hf) as (Hc & Hn & Hr).
  destruct (HK s HKs) as [_ Hl]. unfold chan_recv.
  destruct (chan_buf (buffer s)) as [|m xs] eqn:Hb.
  - rewrite Hc. split_and!; [done|by apply p_move_same|].
    exists (Extra (DrainAt n) :: l), (λ s, K s ∧ emptied s). split; [intros x; lia|].
    split; [done|]. split; [auto|]. apply Hk; [auto|by intros ? [_ ?]].
  - destruct (p_inv_take_drained m xs n s Hs Hb Hc Hr Hn) as [Hs' Hn'].
    split_and!; [done|by destruct (p_move_take m xs Drained s Hb); split|].
    exists (Extra (DrainAt (S n)) :: l), (at_most (fuel - 1)). split; [|split; [|split; [auto|]]].
    + apply p_conserves_drain; [|done|by split_and!]. by intros [|[]|[]].
    + split; [done|]. simpl in *. lia.
    + simpl in Hl. apply IH; [auto..|]. lia.
Qed.

Lemma pk_drainQueue {B} K l (k : nat → rp B) Q :
  rstable K → (∀ s, K s → closed s) →
  (∀ m K', rstable K' → kr K' (Extra (DrainAt m) :: l) (k m) Q) →
  kr K (Extra (DrainAt 0) :: l) (pbind drainQueue k) Q.
Proof using Type.
  intros Hst HK Hk. apply kproto_bind. apply k_see; [done|]. intros s Hs Hf HKs. rewrite (inv_cap s Hs).
  split_and!; [done|by apply p_move_same|lia|]. exists (at_most size).
  split_and!; [split; [by apply HK|by apply (inv_len s Hs)]|done|].
  apply pk_drain_loop; [auto|intros s' [_ [? ?]]; split; [done|lia]|lia|].
  intros m K' HK' He. apply pk_notify; [done..|]. intros b. by apply Hk.
Qed.

Lemma pk_report {B} n K l (k : option go_error → rp B) Q :
  rstable K → (∀ err l', l' = l ∨ l' = Extra (DrainAt n) :: l → kr K l' (k err) Q) →
  kr K (Extra (DrainAt n) :: l) (pbind (report_undelivered n) k) Q.
Proof using Type.
  intros Hst Hk. unfold report_undelivered. destruct (0 <? n) eqn:Hn; [|apply Hk; by right].
  apply k_change; [done|]. intros s Hs Hf _. destruct (p_fits_drain _ _ _ Hf) as (Hc & Hd & Hr).
  split_and!; [|by apply p_move_same|].
  - inv_other Hs; simpl; [|by intros m [= <-]]. unfold_inv. rewrite Hr in inv_metric0. simpl in *. lia.
  - exists l. split; [|apply Hk; by left]. apply conserves_give; [|simpl; repeat case_decide; lia].
    intros [?|[]|[| |k0| | |]] Hx; try apply Nat.le_refl. simpl. unfold drained_count, taken_as in *. simpl.
    repeat case_decide; try lia; naive_solver.
Qed.

Lemma pk_await {B} view K l (k : unit → rp B) Q :
  rstable K → kr K l (k tt) Q → kr K l (pbind (await_closed view) k) Q.
Proof using Type.
  intros Hst Hk. apply k_same; [done|]. intros s Hs _. destruct (view s); [|done].
  split_and!; [done|by apply p_move_same|lia|done].
Qed.

Lemma pk_drain_and_report {B} K l (k : option go_error → rp B) Q :
  rstable K → (∀ s, K s → closed s) → (∀ err b, k err ≠ PRet b) →
  (∀ K' err, rstable K' → kr K' l (k err) Q) →
  kr K (Extra (DrainAt 0) :: l)
    (let! undeliveredCount := drainQueue in
     let! err := report_undelivered undeliveredCount in k err) Q.
Proof using Type.
  intros Hst HK Hr Hk. apply pk_drainQueue; [done..|]. intros m K' HK'. apply pk_report; [done|].
  intros err l' [->| ->]; [by apply Hk|]. apply (k_drop l); [apply Hr|intros x; simpl; lia|by apply Hk].
Qed.

Lemma pk_leave {B} K (err : option go_error) (k : unit → rp B) Q :
  rstable K → kr K [] (k tt) Q → kr K [InPhase TermPhase] (terminated err ;;;; k tt) Q.
Proof using Type.
  intros Hst Hk. apply k_machine; [done|]. by eapply (proto_terminated _ _ _ _ _ TermPhase); try apply _.
Qed.

Lemma k_terminate_deferred {B} K l (k : unit → rp B) Q :
  rstable K → kr K (InPhase TermPhase :: l) (k tt) Q →
  kr K (InPhase TermPhase :: l) (pbind terminate_deferred k) Q.
Proof using Type.
  intros Hst Hk. apply kproto_bind. k_field. apply pk_await; [done|]. k_field.
  apply kproto_unbind, k_flow_Destroy; [done| |done]. intros s Hs Hf _. by eapply terminating_created.
Qed.

Lemma pk_Terminate {B} (k : option go_error → rp B) Q :
  (∀ K err, rstable K → kr K [] (k err) Q) → kr nothing [] (pbind Terminate k) Q.
Proof using Type.
  intros Hk. apply kproto_bind. unfold Terminate, terminate_around.
  apply kproto_frame; [done|]. apply proto_terminate; try apply _; cbn [fst snd negb].
  { intros err. by apply Hk. }
  eapply k_grant; [done|apply p_grant_term|].
  assert (∀ K err l, rstable K → 1 ≤ own l (InPhase TermPhase : permit) →
    kr K l (terminate_deferred ;;;; PRet err)
    (λ err K m, kproto pr_inv pr_move rheld lc_total K m (terminated err ;;;; PRet err)
       (λ b K m, kproto pr_inv pr_move rheld lc_total K m (k b) Q))) as Hleave.
  { intros K err l HK Hl. apply (k_drop [InPhase TermPhase]);
      [done|intros x; simpl in *; case_decide; simplify_eq; lia|].
    apply k_terminate_deferred; [done|]. apply (pk_leave K err (λ _, PRet err)); [done|]. by apply Hk. }
  assert (∀ K timed_out, rstable K → (∀ s, K s → closed s) →
    kr K [Extra (DrainAt 0); InPhase TermPhase; Once CloseNotification]
      (let! err := terminate_wait timed_out in terminate_deferred ;;;; PRet err)
      (λ err K m, kproto pr_inv pr_move rheld lc_total K m (terminated err ;;;; PRet err)
         (λ b K m, kproto pr_inv pr_move rheld lc_total K m (k b) Q))) as Hwait.
  { intros K timed_out Hst HK. apply kproto_bind. unfold terminate_wait. destruct timed_out; lazy iota.
    - apply (k_drop [Once CloseNotification; Extra (DrainAt 0); InPhase TermPhase]);
        [done|intros [[]|[]|[]]; simpl; lia|].
      apply pk_close_notification; [done|]. apply pk_await; [done|].
      apply pk_drainQueue; [done..|]. intros m K' HK'.
      apply kproto_unbind, pk_report; [done|]. intros err l' Hl'. apply Hleave; [done|].
      destruct Hl' as [->| ->]; simpl; lia.
    - apply (k_drop [InPhase TermPhase]); [done|intros [[]|[]|[]]; simpl; lia|].
      apply pk_await; [done|]. apply Hleave; [done|simpl; lia]. }
  assert (∀ K, rstable K → (∀ s, K s → closed s) →
    kr K [Extra (DrainAt 0); InPhase TermPhase; Once CloseNotification]
      (let! timed_out := select [ (λ s, AOk true s);
                               (λ s, if bufferEmptyOnTerminate s then AOk false s else ABlock) ] in
       let! err := terminate_wait timed_out in terminate_deferred ;;;; PRet err)
      (λ err K m, kproto pr_inv pr_move rheld lc_total K m (terminated err ;;;; PRet err)
         (λ b K m, kproto pr_inv pr_move rheld lc_total K m (k b) Q))) as Hsel.
  { intros K Hst HK s Hs Hf HKs f Hin.
    assert (∀ b, pr_inv s ∧ pr_move s s ∧ ∃ n' K', conserves rheld s
      (own [Extra (DrainAt 0); InPhase TermPhase; Once CloseNotification]) s n' ∧ K' s ∧ rstable K' ∧
      kproto pr_inv pr_move rheld lc_total K' n' (let! err := terminate_wait b in terminate_deferred ;;;; PRet err)
        (λ err K m, kproto pr_inv pr_move rheld lc_total K m (terminated err ;;;; PRet err)
         (λ b K m, kproto pr_inv pr_move rheld lc_total K m (k b) Q))) as Hb.
    { intros b. split_and!; [done|by apply p_move_same|]. eexists _, K.
      split_and!; [|done..|by apply Hwait]. intros x; lia. }
    apply elem_of_cons in Hin as [->|Hin%list_elem_of_singleton]; [apply Hb|].
    subst f. destruct (bufferEmptyOnTerminate s); [apply Hb|done]. }
  apply kproto_bind. unfold terminate_body. apply k_stopped; [done|].
  apply k_flow_request; [done| |auto|].
  { intros s Hs Hf _. by eapply terminating_created. }
  intros a. apply pk_handler; [done|]. apply pk_offer_callback; [done..|]. intros b. clear a b.
  apply (k_drop [Once CloseBuffer; InPhase TermPhase; Once CloseNotification]);
    [done|intros [[]|[]|[]]; simpl; lia|].
  apply pk_close_buffer; [done|]. apply pk_bufferClosed; [auto|by intros s [_ ?]|].
  apply (k_learn buffer_empty emptied); [auto|auto| | |].
  - intros s Hs [_ Hc] Hb. unfold buffer_empty in Hb. by apply bool_decide_eq_true in Hb.
  - apply kproto_bind, pk_notify; [auto|by intros s [_ ?]|]. intros _. apply Hsel; [auto|]. by intros s [[_ ?] _].
  - apply Hsel; [auto|]. by intros s [_ ?].
Qed.

Lemma pk_unsolicitedTermination cause shouldCleanUpNative listener :
  kr nothing [] (unsolicitedTermination cause shouldCleanUpNative listener) over.
Proof using Type.
  unfold unsolicitedTermination.
  apply kproto_frame; [done|]. apply proto_terminate; try apply _; cbn [fst snd negb]; [done|].
  eapply k_grant; [done|apply p_grant_term|].
  apply k_flow_Destroy; [done| |].
  { intros s Hs Hf _. by eapply terminating_created. }
  apply pk_handler; [done|]. k_field.
  apply (k_drop [Once CloseBuffer; InPhase TermPhase; Once CloseNotification]);
    [done|intros [[]|[]|[]]; simpl; lia|].
  apply pk_close_buffer; [done|]. apply pk_bufferClosed; [auto|by intros s [_ ?]|].
  apply pk_offer_callback; [auto|done|]. intros b.
  apply (k_drop [Once CloseNotification; Extra (DrainAt 0); InPhase TermPhase]);
    [done|intros [[]|[]|[]]; simpl; lia|].
  apply pk_close_notification; [auto|].
  apply (pk_drain_and_report _ [InPhase TermPhase] (λ err, terminated err ;;;;
    (if listener then update (note (note_listened cause)) else PRet tt) ;;;; PRet None));
    [auto|by intros s [_ ?]|done|].
  intros K err HK. apply (pk_leave K err (λ _,
    (if listener then update (note (note_listened cause)) else PRet tt) ;;;; PRet None)); [done|].
  destruct listener; [|done]. by k_field.
Qed.

(** ** The events of the flow, the goroutines *)

Lemma k_flow_event event cause listener : kr nothing [] (flow_event_of_library event cause listener) over.
Proof using Type.
  apply k_read; [done|]. intros [|]; [|done].
  assert (∀ b, kr nothing [] (pbind (state_changed b) (λ _, PRet None)) (@over (option go_error))) as Hst.
  { intros b. apply k_read; [done|]. intros [|]; [|done]. apply k_same; [done|]. intros s Hs _. lazy beta zeta.
    destruct (exec_closed (eventExecutor s)).
    - by split_and!; [|apply p_move_same| |].
    - split_and!; [by inv_other Hs|by apply p_move_same|by intros [?|[]|[]]|done]. }
  destruct event; try done; [by apply pk_go|apply Hst..].
Qed.

Lemma k_executor_turn : kr nothing [] (executor_turn ;;;; PRet None) (@over (option go_error)).
Proof using Type.
  apply k_same; [done|]. intros s Hs _. lazy beta zeta. destruct (exec_spawned (eventExecutor s)); [|done].
  destruct (exec_tasks (eventExecutor s)); [destruct (exec_closed (eventExecutor s)); [|done]|];
    (split_and!; [by inv_other Hs|by apply p_move_same|by intros [?|[]|[]]|done]).
Qed.

Lemma pk_returning K l p : rstable K → kr K l p over → kr K l (returning p) over.
Proof using Type. intros Hst Hp. apply kproto_bind. by eapply kproto_weaken. Qed.

Lemma pk_goroutine g : kr nothing [] (goroutine_prog g) over.
Proof using Type.
  destruct g as [| |cause native listener|sub listener|sub listener]; cbn [goroutine_prog].
  - apply pk_Start. intros K err Hst. by apply pk_tell.
  - apply pk_Terminate. intros K err Hst. by apply pk_tell.
  - apply pk_unsolicitedTermination.
  - by apply pk_change_subscription.
  - by apply pk_change_subscription.
Qed.

Lemma pk_worker i : kr nothing [] (worker i) over.
Proof using Type.
  apply k_same; [done|]. intros s Hs _. destruct (goroutines s !! i) as [g|]; [|done].
  split_and!; [by inv_other Hs|by apply p_move_same|by intros [?|[]|[]]|apply pk_goroutine].
Qed.

Lemma deliver_event_correlations id err (s : receiver) :
  deliver_event id err s = s ∨ ∃ t, deliver_event id err s = set_correlations t s.
Proof using Type. unfold deliver_event. case_bool_decide; [right; by eexists|by left]. Qed.

Lemma end_session_correlations err (s : receiver) :
  end_session err s = s ∨ ∃ t, end_session err s = set_correlations t s.
Proof using Type.
  unfold end_session. generalize (elements (known_ids (correlations s))). intros ids.
  induction ids as [|id ids IH]; [by left|]. simpl.
  destruct (deliver_event_correlations id (Some err) (foldr (λ id s, deliver_event id (Some err) s) s ids)) as [->|[t ->]];
    [done|]. right. destruct IH as [->|[t' ->]]; by eexists.
Qed.

Lemma k_correlations g K l :
  (∀ s : receiver, g s = s ∨ ∃ t, g s = set_correlations t s) → rstable K →
  kr K l (update g ;;;; PRet None) (@over (option go_error)).
Proof using Type.
  intros Hg Hst. apply k_same; [done|]. intros s Hs _.
  destruct (Hg s) as [->|[t ->]];
    (split_and!; [done || by inv_other Hs|by apply p_move_same|by intros [?|[]|[]]|done]).
Qed.

Lemma pk_call c : kr nothing [] (call_prog GetMessageID handler_panics c) over.
Proof using Type.
  assert (∀ g sub, kr nothing [] (let! err := check_modify sub in
    match err with
    | Some err => PRet (Some err)
    | None => go g ;;;; PRet None
    end) (@over (option go_error))) as Hmodify.
  { intros g sub. apply pk_check_modify; [done|]. intros [err|]; [done|]. by apply pk_go. }
  destruct c; cbn [call_prog]; try apply pk_returning; try done.
  - apply kproto_unbind, pk_Start. done.
  - by apply pk_go.
  - apply kproto_unbind, pk_Terminate. done.
  - by apply pk_go.
  - by apply pk_AddSubscription.
  - by apply pk_RemoveSubscription.
  - apply Hmodify.
  - apply Hmodify.
  - by apply pk_ReceiveMessage.
  - by apply pk_ReceiveAsync.
  - by apply k_Settle.
  - by apply k_Settle.
  - by apply k_ReceiverInfo.
  - by apply k_Pause.
  - by apply k_Resume.
  - by apply k_flow_message.
  - apply k_flow_event.
  - apply k_read; [done|]. intros [|]; [by apply pk_go|done].
  - apply k_correlations; [|done]. intros s. apply deliver_event_correlations.
  - apply k_correlations; [|done]. intros s. apply end_session_correlations.
  - by k_field.
  - by apply pk_run_receiver.
  - apply k_executor_turn.
  - apply pk_worker.
Qed.
End protocol_of_receiver.

Lemma persistent_construct_inv up p ans : pr_inv (bufferSize 0) (construct up p ans : receiver).
Proof using Type.
  split; try done; simpl; try lia.
  - by intros [].
  - by destruct (doAutoAck p).
  - intros m Hm. by apply elem_of_nil in Hm.
  - intros Hin. by apply elem_of_nil in Hin.
  - by intros [].
Qed.

Lemma persistent_receiver_scene_ok calls up p ans :
  kpool_ok (pr_inv (bufferSize 0)) pr_move (lc_held gate spent extra) lc_total
    (scene GetMessageID handler_panics calls (construct up p ans)).
Proof using Type.
  apply kpool_init.
  - apply persistent_construct_inv.
  - intros [[]|[]|[]]; unfold lc_total; simpl; repeat case_decide; lia.
  - apply Forall_fmap, Forall_true. intros c. apply pk_call.
Qed.

Lemma persistent_moves s s' : rtc pr_move s s' → rtc lstate_move (state_of s) (state_of s') ∧ props s' = props s.
Proof using Type.
  induction 1 as [s|s1 s2 s3 Hm _ [IH1 IH2]]; [done|]. split.
  - eapply rtc_l; [apply Hm|exact IH1].
  - by rewrite IH2, (move_props _ _ Hm).
Qed.

(** C38: the persistent receiver under any interleaving of the operations of the application, the
    messages and events of the flow, the goroutine of the asynchronous handler, the executor of the
    state changes and the goroutines that the receiver starts, whatever the C library
    answers and whatever the handlers do.  Nothing panics: no channel is closed twice, no lock is
    released that is not held, and the flow is used only when there is one.  The state moves along
    the lifecycle.  What is pushed into the buffer leaves it in that order, once: to the
    application, to its handler (which is called in that order) or drained at the end.  Every
    message that arrived is pushed, lost to the full buffer of 510, refused by a terminating
    receiver or met the closed buffer, or is in hand; the C library is told that the first two are
    kept and that the others are not, and the metric counts the others and those reported.  The
    receiver acknowledges by itself only what is configured so: of those that were handed to the
    handler exactly those it returned from, in that order, and of those received only such as were
    taken; it frees those drained and, of those received, only such as it tried to acknowledge.
    The announcement that the buffer is empty is made only when it is closed and empty, and the termination
    reports exactly the messages it drained. *)
Theorem persistent_receiver_accounts calls up p ans s ts :
  pool_steps (scene GetMessageID handler_panics calls (construct up p ans)) (s, ts) →
  ¬ pool_panics (s, ts) ∧
  rtc lstate_move NotStarted (state_of s) ∧
  (verdict_as Pushed s = (taken (past s)).*1 ++ chan_buf (buffer s) ∧ length (chan_buf (buffer s)) ≤ 510) ∧
  (arrived (past s) = (verdicts (past s)).*1 ++ in_context (context (past s)) ∧
   prod_map id keeps <$> verdicts (past s) = answered (past s) ++ deciding (context (past s))) ∧
  (context (past s) = ContextFree → terminationDiscarded s =
     Z.of_nat (length (verdict_as Late s) + length (verdict_as Closed s) + default 0%nat (reported (past s)))) ∧
  (verdict_as Full s ≠ [] → 510 ≤ length (verdict_as Pushed s)) ∧
  (taken_as Handed s = (called (past s)).*1.*2 ++ in_hand s ∧
   acked_as Handed s ++ to_ack s = if doAutoAck p then handled s else []) ∧
  (∀ m, m ∈ acked_as Received s → m ∈ taken_as Received s ∧ doAutoAck p = true) ∧
  (freed_as Drained s = taken_as Drained s ∧ freed_as Handed s = [] ∧
   ∀ m, m ∈ freed_as Received s → m ∈ acked_as Received s) ∧
  (bufferEmptyOnTerminate s = true → closed s ∧ chan_buf (buffer s) = []) ∧
  (∀ n, reported (past s) = Some n → length (taken_as Drained s) = n).
Proof using All.
  intros Hsteps.
  destruct (kpool_steps_ok _ _ _ _ _ _ (persistent_receiver_scene_ok calls up p ans) Hsteps) as [Hok Hmoves].
  pose proof (kpool_ok_inv _ _ _ _ _ Hok) as Hs. simpl in Hs. destruct (persistent_moves _ _ Hmoves) as [Hl Hp].
  simpl in Hp. change (bufferSize 0) with 510 in Hs. destruct Hs. rewrite Hp in *.
  split; [by eapply kpool_ok_no_panic|]. split; [exact Hl|]. split_and!; try done.
  - intros Hc. rewrite Hc in inv_metric0. simpl in *. lia.
  - intros He. by apply inv_flag0, inv_emptied0.
  - intros n Hn. by apply inv_reported0.
Qed.
End persistent_receiver_safety.
