(* ===== verification/PersistentReceiverRuns.v ===== *)
(** The persistent receiver, one operation at a time: how it stops and starts its flow, what pausing does
    to the goroutine of the handler, and schedules in which the receiver goes wrong. *)

From Stdlib Require Import ZArith Lia Ascii.
From stdpp Require Import base list gmap relations strings.
From S2P Require Import Prelude GoStrconv GoEffects GoConc Errors Resource Sdt Lifecycle Validation.
From S2P Require Import PersistentReceiverBuilder PersistentReceiver PersistentReceiverSafety.
Import DirectReceiver(ReceiverTimedOutWaitingForMessage).

#[local] Open Scope Z_scope.

Section persistent_receiver_runs.
Context {M MessageHandler Listener : Type} `{!EqDecision M}.
Context (GetMessageID : M → option Z) (handler_panics : MessageHandler → M → bool).
Abbreviation receiver := (@PersistentReceiver.receiver M MessageHandler Listener).
Abbreviation answer := (@PersistentReceiver.answer M).
Abbreviation rp A := (prog receiver A).

(** * Flow control *)

(** A message comes, or the application asks for one, with a timeout. *)
Inductive operation : Type := Arrives (m : M) | Takes.

Definition operate (o : operation) : rp answer :=
  match o with
  | Arrives m => returning (flow_message m)
  | Takes => ReceiveMessage GetMessageID true
  end.

Fixpoint operate_all (os : list operation) : rp (list answer) :=
  match os with
  | [] => PRet []
  | o :: os => let! a := operate o in let! l := operate_all os in PRet (a :: l)
  end.

(** The reference: the buffer, whether the flow is stopped, and the calls to the flow. *)
Record control : Type := mkControl { held_back : list M; stopped : bool; asked : list flow_call }.

Definition len (buf : list M) : Z := Z.of_nat (length buf).

(** Full, the buffer loses the message; at the high mark the flow is stopped, and started again at once
    where the low mark is above it. *)
Definition arrives (cap : nat) (low high : Z) (m : M) (c : control) : control :=
  if decide (length (held_back c) < cap)%nat then
    let buf := held_back c ++ [m] in
    if (high <=? len buf) && negb (stopped c) then
      if len buf <? low then mkControl buf false (asked c ++ [FlowStop; FlowStart])
      else mkControl buf true (asked c ++ [FlowStop])
    else mkControl buf (stopped c) (asked c)
  else c.

(** At the low mark the flow is started, before the message is acknowledged. *)
Definition takes (auto : bool) (low : Z) (c : control) : control * answer :=
  match held_back c with
  | [] => (c, Returned (Some ReceiverTimedOutWaitingForMessage))
  | m :: buf =>
      let ack := if auto then match GetMessageID m with Some id => [FlowAck id] | None => [] end else [] in
      (if (len buf <=? low) && stopped c then mkControl buf false (asked c ++ FlowStart :: ack)
       else mkControl buf (stopped c) (asked c ++ ack), InboundMessage m)
  end.

Definition controls (auto : bool) (cap : nat) (low high : Z) (o : operation) (c : control) : control * answer :=
  match o with
  | Arrives m => (arrives cap low high m c, Returned None)
  | Takes => takes auto low c
  end.

Fixpoint controls_all (auto : bool) (cap : nat) (low high : Z) (os : list operation) (c : control)
    : control * list answer :=
  match os with
  | [] => (c, [])
  | o :: os =>
      let (c, a) := controls auto cap low high o c in
      let (c, l) := controls_all auto cap low high os c in (c, a :: l)
  end.

(** A receiver in service, whose C library accepts every call. *)
Record live (s : receiver) : Prop := {
  live_state : state_of s = Started;
  live_flow : created (flow s) = true;
  live_stopped : internalFlowStopped s = 0 ∨ internalFlowStopped s = 1;
  live_answers : answers s = [];
}.

Record serving (s : receiver) : Prop := {
  serving_live : live s;
  serving_attached : attached (flow s) = true;
  serving_context : context (past s) = ContextFree;
  serving_open : chan_closed (buffer s) = false;
  serving_closed : bufferClosed s = false;
  serving_empty : bufferEmptyOnTerminate s = false;
}.

Definition control_of (s : receiver) : control :=
  mkControl (chan_buf (buffer s)) (internalFlowStopped s =? 1) (flow_calls (past s)).

Definition same_setting (s s' : receiver) : Prop :=
  props s' = props s ∧ chan_cap (buffer s') = chan_cap (buffer s).

(** The flow is started, or stopped. *)
Definition restarted (s : receiver) : receiver :=
  set_receiving true (note (note_flow FlowStart) (set_answers [] (set_stopped 0 s))).
Definition halted (s : receiver) : receiver :=
  set_stopped 1 (set_receiving false (note (note_flow FlowStop) (set_answers [] s))).

Lemma run_resume_if low s : live s →
  run (resume_if low) s = Done tt (if low s && (internalFlowStopped s =? 1) then restarted s else s).
Proof using Type.
  intros [Hst Hc Hstop Ha]. unfold resume_if. cbn [pbind load action run]. destruct (low s); [|done].
  cbn [pbind getState load action run]. rewrite Hst. cbn [decide]. rewrite decide_True by done.
  unfold startFlow, compare_and_swap. cbn [pbind action run].
  destruct Hstop as [Hz|Hz]; rewrite Hz; [by rewrite decide_False|]. rewrite decide_True by done.
  simpl. rewrite Hc. unfold next_answer. simpl. by rewrite Ha.
Qed.

Lemma run_push_back s : live s →
  run push_back s = Done tt (if at_highwater s && negb (internalFlowStopped s =? 1)
    then (if below_lowwater s then restarted (halted s) else halted s) else s).
Proof using Type.
  intros [Hst Hc Hstop Ha]. unfold push_back. cbn [pbind load action run]. destruct (at_highwater s); [|done].
  rewrite run_bind. unfold bind. unfold stopFlow. cbn [pbind load action run].
  destruct Hstop as [Hz|Hz]; rewrite Hz; [|by rewrite decide_False]. rewrite decide_True by done.
  assert (run (let! a := flow_Stop in match fst a with Some _ => PRet false | None => store set_stopped 1 ;;;; PRet true end) s
    = Done true (halted s)) as ->.
  { simpl. rewrite Hc. unfold next_answer. simpl. by rewrite Ha. }
  cbn [andb negb Z.eqb]. rewrite run_resume_if; [|split; simpl; auto].
  change (below_lowwater (halted s)) with (below_lowwater s). by destruct (below_lowwater s).
Qed.

Definition pushed (m : M) (s : receiver) : receiver :=
  note (note_verdict m Pushed (Decided m true false))
    (set_buffer (mkChan (chan_cap (buffer s)) (chan_buf (buffer s) ++ [m]) (chan_closed (buffer s))) s).

Lemma run_messageCallback m s : live s → chan_closed (buffer s) = false →
  run (messageCallback m) s = Done true
    (if decide (length (chan_buf (buffer s)) < chan_cap (buffer s))%nat then
       let s := pushed m s in
       if at_highwater s && negb (internalFlowStopped s =? 1)
       then (if below_lowwater s then restarted (halted s) else halted s) else s
     else note (note_verdict m Full (Decided m true false)) s).
Proof using Type.
  intros Hl Ho. unfold messageCallback. cbn [pbind action run]. destruct (live_state s Hl).
  rewrite (live_state s Hl). rewrite !decide_False by (by intros [|]).
  unfold push. cbn [pbind action run]. unfold chan_try_send. rewrite Ho. case_decide; [|done].
  rewrite run_bind. unfold bind. assert (live (pushed m s)) as Hl' by (by destruct Hl).
  unfold pushed in *. rewrite Ho in *. by rewrite run_push_back.
Qed.

Lemma run_arrives m s : serving s →
  ∃ s', run (operate (Arrives m)) s = Done (Returned None) s' ∧ serving s' ∧ same_setting s s' ∧
    control_of s' = arrives (chan_cap (buffer s)) (bufferLowwater (props s)) (bufferHighwater (props s)) m (control_of s).
Proof using Type.
  intros [Hl Hat Hc Ho Hbc Hbe]. unfold operate, returning, flow_message.
  assert (live (note (note_arrived m) s)) as Hl' by (by destruct Hl).
  eexists. split.
  { rewrite run_bind. unfold bind at 1. cbn [pbind action run]. rewrite Hc, Hat. rewrite run_bind. unfold bind at 1.
    rewrite run_messageCallback by done. reflexivity. }
  change (buffer (note (note_arrived m) s)) with (buffer s). unfold arrives. simpl held_back.
  destruct Hl as [Hst Hcr Hstop Ha].
  case_decide; [|by split; [split|]].
  unfold at_highwater, below_lowwater, buffer_length, len. simpl.
  destruct (_ <=? _), Hstop as [Hz|Hz]; rewrite ?Hz; simpl; try (destruct (_ <? _));
    (split; [split; [split|..]; simpl; auto|split; [done|]]);
    unfold control_of; simpl; rewrite ?Hz, <-?app_assoc; done.
Qed.

Lemma run_checkEmpty {A} (k : bool → rp A) s : bufferClosed s = false →
  run (pbind checkEmptyBufferAndNotify k) s = run (k false) s.
Proof using Type. intros Hc. unfold checkEmptyBufferAndNotify. simpl. by rewrite Hc. Qed.

(** What remains of a receiver whose next message was taken. *)
Definition removed (m : M) (buf : list M) (s : receiver) : receiver :=
  note (note_taken m Received) (set_buffer (mkChan (chan_cap (buffer s)) buf false) s).

Definition acknowledged (m : M) (s : receiver) : receiver :=
  match GetMessageID m with
  | Some id => if doAutoAck (props s)
      then count_duplicateAck (note (note_ack m Received) (note (note_flow (FlowAck id)) (set_answers [] s))) else s
  | None => s
  end.

Lemma run_ack_received m s : live s →
  run (ack_received GetMessageID m) s = Done (InboundMessage m) (acknowledged m s).
Proof using Type.
  intros [_ Hc _ Ha]. unfold ack_received, acknowledged. cbn [pbind load action run].
  destruct (doAutoAck (props s)), (GetMessageID m); try done. simpl. rewrite Hc. unfold next_answer. by rewrite Ha.
Qed.

Definition ack_call (auto : bool) (m : M) : list flow_call :=
  if auto then match GetMessageID m with Some id => [FlowAck id] | None => [] end else [].

Lemma acknowledged_serving m s : serving s →
  serving (acknowledged m s) ∧ same_setting s (acknowledged m s) ∧
  control_of (acknowledged m s) =
    mkControl (chan_buf (buffer s)) (internalFlowStopped s =? 1) (flow_calls (past s) ++ ack_call (doAutoAck (props s)) m).
Proof using Type.
  intros Hs. unfold acknowledged, ack_call, control_of.
  destruct (GetMessageID m), (doAutoAck (props s)); rewrite ?app_nil_r; try done.
  split; [|done]. by destruct Hs as [[] ? ? ? ? ?]; split.
Qed.

Lemma run_takes s : serving s →
  ∃ s', run (operate Takes) s = Done (takes (doAutoAck (props s)) (bufferLowwater (props s)) (control_of s)).2 s' ∧
    serving s' ∧ same_setting s s' ∧
    control_of s' = (takes (doAutoAck (props s)) (bufferLowwater (props s)) (control_of s)).1.
Proof using Type.
  intros [Hl Hat Hc Ho Hbc Hbe]. unfold operate, ReceiveMessage, takes. simpl held_back.
  cbn [pbind getState load action run]. rewrite (live_state s Hl), decide_False by (by intros [|]).
  unfold select. cbn [pbind run app first_ready]. unfold receive_buffer, chan_recv. rewrite Ho, Hbe.
  destruct (chan_buf (buffer s)) as [|m buf] eqn:Hb; cbn [first_ready].
  { exists s. rewrite run_checkEmpty by done. by split_and!. }
  fold (removed m buf s).
  assert (live (removed m buf s)) as Hl' by (by destruct Hl).
  rewrite run_bind. unfold bind at 1. rewrite run_resume_if by done. simpl fst.
  set (b := at_lowwater _ && _). set (s1 := if b then _ else _).
  assert (serving s1 ∧ same_setting s s1) as [Hs1 [Hp1 Hcap1]].
  { unfold s1. destruct b.
    - split; [|done]. destruct Hl as [Hst Hcr Hstop Ha]. split; try done. split; simpl; auto.
    - split; [by split|done]. }
  rewrite run_bind. unfold bind at 1. rewrite run_ack_received by apply Hs1.
  destruct (acknowledged_serving m s1 Hs1) as (Hs2 & [Hp2 Hcap2] & Hcon).
  rewrite run_checkEmpty by apply Hs2. eexists. split; [reflexivity|].
  split; [done|]. split; [split; congruence|]. rewrite Hcon, Hp1. fold (ack_call (doAutoAck (props s)) m).
  change ((len buf <=? bufferLowwater (props s)) && (internalFlowStopped s =? 1)) with b.
  unfold s1. destruct b; simpl; [by rewrite <-app_assoc|done].
Qed.

(** The flow stopped at the high mark and running at the low one. *)
Definition in_hysteresis (low high : Z) (c : control) : Prop :=
  (high ≤ len (held_back c) → stopped c = true) ∧ (len (held_back c) ≤ low → stopped c = false).

Lemma controls_hysteresis auto cap low high o c :
  low < high → in_hysteresis low high c → in_hysteresis low high (controls auto cap low high o c).1.
Proof using Type.
  intros Hlt [Hh Hl]. destruct o as [m|]; simpl.
  - unfold arrives. case_decide; [|done]. unfold in_hysteresis.
    destruct (Z.leb_spec high (len (held_back c ++ [m]))), (stopped c) eqn:Hs; simpl;
      try (destruct (Z.ltb_spec (len (held_back c ++ [m])) low); [lia|]); simpl; rewrite ?Hs;
      unfold len in *; rewrite length_app in *; simpl in *; (split; [|intros ?]; lia || (intros; try done; try lia)).
  - unfold takes, in_hysteresis. destruct (held_back c) as [|m buf] eqn:Hb; simpl; [by rewrite Hb|].
    unfold len in *. simpl in *.
    destruct (Z.leb_spec (Z.of_nat (length buf)) low), (stopped c) eqn:Hs; simpl; rewrite ?Hs;
      (split; intros ?; try done; try lia; by apply Hh; lia).
Qed.

Lemma run_operation o s : serving s →
  let (c, a) := controls (doAutoAck (props s)) (chan_cap (buffer s)) (bufferLowwater (props s))
                  (bufferHighwater (props s)) o (control_of s) in
  ∃ s', run (operate o) s = Done a s' ∧ serving s' ∧ same_setting s s' ∧ control_of s' = c.
Proof using Type.
  intros Hs. destruct o as [m|]; simpl; [by apply run_arrives|].
  destruct (run_takes s Hs) as (s' & Hr & ? & ? & ?). destruct (takes _ _ _). by exists s'.
Qed.


(** * Pausing *)

Definition toggle (b : bool) : rp (option go_error) := if b then Pause else Resume.
Fixpoint toggles (bs : list bool) : rp (option go_error) :=
  match bs with
  | [] => PRet None
  | b :: bs => toggle b ;;;; toggles bs
  end.

Definition signalled (c : chan unit) : Prop := c = mkChan 1 [] false ∨ c = mkChan 1 [tt] false.

(** A receiver in service with the goroutine of its handler. *)
Record handling (f : MessageHandler) (s : receiver) : Prop := {
  handling_serving : serving s;
  handling_signals : signalled (doUnpause s) ∧ signalled (pauseInterrupt s);
  handling_callback : rxCallback s = Some f;
  handling_runner : runner (past s) = Running Empty;
  handling_notification : terminationNotification s = false;
}.

(** What is left by a pause, and by a resumption. *)
Definition toggled (b : bool) (s : receiver) : receiver :=
  if b then set_pauseInterrupt (mkChan 1 [tt] false) (set_doPause true (set_doUnpause (mkChan 1 [] false) s))
  else set_doUnpause (mkChan 1 [tt] false) (set_doPause false (set_pauseInterrupt (mkChan 1 [] false) s)).

Lemma run_toggle b s : state_of s = Started → signalled (doUnpause s) → signalled (pauseInterrupt s) →
  run (toggle b) s = Done None (toggled b s).
Proof using Type.
  intros Hst Hu Hi. unfold toggle. destruct b; unfold Pause, Resume; cbn [pbind getState load action run];
    rewrite Hst, decide_False by (by intros [? _]); unfold drain_one, offer_one, toggled;
    simpl; destruct Hu as [Hu|Hu], Hi as [Hi|Hi]; do 3 (rewrite ?Hu, ?Hi; simpl); try done.
Qed.

Lemma toggled_handling f b s : handling f s → handling f (toggled b s).
Proof using Type.
  intros [[[] ? ? ? ? ?] [Hu Hi] ? ? ?]. destruct b; split; try done; try (by split); (split; [by left|by right]) || (split; [by right|by left]).
Qed.

Lemma run_toggles bs b f s : handling f s →
  ∃ s', run (toggles (bs ++ [b])) s = Done None (toggled b s') ∧ handling f s' ∧
    props s' = props s ∧ buffer s' = buffer s ∧ past s' = past s.
Proof using Type.
  revert s. induction bs as [|c bs IH]; intros s Hs.
  - exists s. split; [|done]. simpl. eapply run_then; [|done].
    apply run_toggle; [apply Hs|apply (handling_signals _ _ Hs)..].
  - destruct (IH (toggled c s) (toggled_handling f c s Hs)) as (s' & Hr & Hs' & Hp & Hb & Ht).
    exists s'. split; [|split; [done|]].
    + simpl. eapply run_then; [|exact Hr].
      apply run_toggle; [apply Hs|apply (handling_signals _ _ Hs)..].
    + rewrite Hp, Hb, Ht. by destruct c.
Qed.

Abbreviation run_loop := (run_loop GetMessageID handler_panics).

Lemma loop_paused f fuel s : handling f s → run (run_loop (S fuel)) (toggled true s) = Blocked (toggled true s).
Proof using Type.
  intros [[[] ? ? ? Hbc Hbe] _ _ _ Hn]. cbn [PersistentReceiver.run_loop]. unfold check_pause.
  cbn [pbind load action run]. change (doPause (toggled true s)) with true. cbn [pbind run].
  rewrite run_bind. unfold bind. rewrite run_checkEmpty by done. cbn [pbind run].
  unfold await_unpause, select. cbn [pbind run first_ready]. unfold chan_recv. simpl. by rewrite Hn, Hbe.
Qed.

(** What the handling of a message leaves. *)
Definition handled_one (f : MessageHandler) (m : M) (buf : list M) (s : receiver) : receiver :=
  let s := note (at_runner (Running (Holding m))) (note (note_taken m Handed)
             (set_buffer (mkChan (chan_cap (buffer s)) buf false) s)) in
  let p := handler_panics f m in
  if doAutoAck (props s) && negb p then
    count_duplicateAck (note (λ h, at_runner (Running Empty) (note_ack m Handed h))
      (note (note_flow (FlowAck (default 0 (GetMessageID m)))) (set_answers [] (note (note_called f m p (ToAck m)) s))))
  else note (note_called f m p Empty) s.

(** A receiver whose loop takes messages. *)
Definition looping (f : MessageHandler) (s : receiver) : Prop :=
  handling f s ∧ doPause s = false ∧ pauseInterrupt s = mkChan 1 [] false.

Lemma run_ack_handled f m buf s : live s →
  let s1 := note (at_runner (Running (Holding m))) (note (note_taken m Handed)
             (set_buffer (mkChan (chan_cap (buffer s)) buf false) s)) in
  run (call_handler handler_panics (Some f) m ;;;; ack_handled GetMessageID m) s1 = Done tt (handled_one f m buf s).
Proof using Type.
  intros [_ Hc _ Ha]. cbv zeta. unfold handled_one, call_handler. cbn [pbind update action run].
  unfold ack_handled. cbn [pbind load action run]. simpl.
  destruct (doAutoAck (props s)), (handler_panics f m); simpl; try done.
  rewrite Hc. unfold next_answer. simpl. by rewrite Ha.
Qed.

Lemma handled_one_looping f m buf s : looping f s →
  let s' := handled_one f m buf s in
  looping f s' ∧ props s' = props s ∧ chan_buf (buffer s') = buf ∧
  called (past s') = called (past s) ++ [(f, m, handler_panics f m)] ∧
  acks (past s') = acks (past s) ++ (if doAutoAck (props s) && negb (handler_panics f m) then [(m, Handed)] else []).
Proof using Type.
  intros [[[[] ? ? ? ? ?] ? ? ? ?] [? ?]]. unfold handled_one. simpl.
  destruct (doAutoAck (props s)), (handler_panics f m); simpl; rewrite ?app_nil_r;
    (split; [split; [split; [split; [split|..]|..]|]; done|done]).
Qed.

Lemma loop_turn f fuel m buf s : looping f s → chan_buf (buffer s) = m :: buf →
  ∃ s', run (run_loop (S fuel)) s = run (run_loop fuel) s' ∧ looping f s' ∧ props s' = props s ∧
    chan_buf (buffer s') = buf ∧ called (past s') = called (past s) ++ [(f, m, handler_panics f m)] ∧
    acks (past s') = acks (past s) ++ (if doAutoAck (props s) && negb (handler_panics f m) then [(m, Handed)] else []).
Proof using Type.
  intros Hl Hb. destruct (handled_one_looping f m buf s Hl) as (Hl' & Hp & Hb' & Hca & Hak).
  destruct Hl as [[[Hlv ? ? Ho Hbc Hbe] _ Hcb Hr Hn] [Hd Hi]].
  set (s' := handled_one f m buf s) in *.
  exists (if at_lowwater s' && (internalFlowStopped s' =? 1) then restarted s' else s'). split.
  - cbn [PersistentReceiver.run_loop]. unfold check_pause. cbn [pbind load action run]. rewrite Hd.
    cbn [pbind negb load action run]. rewrite Hn. unfold next_turn, select. cbn [pbind run first_ready].
    unfold receive_buffer, chan_recv. rewrite Hb. cbn [run pbind load action]. rewrite Ho. simpl rxCallback. rewrite Hcb.
    rewrite run_bind. unfold bind at 1.
    pose proof (run_ack_handled f m buf s Hlv) as Hack. cbv zeta in Hack. rewrite run_bind in Hack.
    unfold bind at 1 in Hack. destruct (run (call_handler _ _ _) _); [|done..].
    rewrite run_bind. unfold bind at 1. rewrite Hack.
    rewrite run_bind. unfold bind at 1. fold s'. rewrite run_resume_if by apply Hl'. done.
  - destruct (at_lowwater s' && _); [|done].
    destruct Hl' as [[[[] ? ? ? ? ?] ? ? ? ?] [? ?]].
    split; [|done]. split; [split; [split; [split; simpl; auto|..]|..]|]; done.
Qed.

(** The acknowledgements of messages that were handled. *)
Definition handled_acks (auto : bool) (f : MessageHandler) (ms : list M) : list (M * fate) :=
  if auto then (., Handed) <$> filter (λ m, handler_panics f m = false) ms else [].

Lemma loop_runs f ms s : looping f s → chan_buf (buffer s) = ms →
  ∃ s', run (run_loop (S (length ms))) s = Blocked s' ∧ looping f s' ∧ chan_buf (buffer s') = [] ∧
    called (past s') = called (past s) ++ ((λ m, (f, m, handler_panics f m)) <$> ms) ∧
    acks (past s') = acks (past s) ++ handled_acks (doAutoAck (props s)) f ms.
Proof using Type.
  revert s. induction ms as [|m ms IH]; intros s Hl Hb.
  - exists s. split; [|split_and!; try done; unfold handled_acks; simpl; rewrite ?app_nil_r; try done; by destruct (doAutoAck _); rewrite ?app_nil_r].
    destruct Hl as [[[Hlv ? ? Ho Hbc Hbe] _ Hcb Hr Hn] [Hd Hi]].
    cbn [PersistentReceiver.run_loop]. unfold check_pause. cbn [pbind load action run]. rewrite Hd.
    cbn [pbind negb load action run]. rewrite Hn. unfold next_turn, select. cbn [pbind run first_ready].
    unfold receive_buffer, chan_recv. rewrite Hb, Ho, Hi, Hn. done.
  - destruct (loop_turn f (S (length ms)) m ms s Hl Hb) as (s1 & Hr1 & Hl1 & Hp1 & Hb1 & Hc1 & Ha1).
    destruct (IH s1 Hl1 Hb1) as (s2 & Hr2 & Hl2 & Hb2 & Hc2 & Ha2).
    exists s2. split; [etrans; [exact Hr1|exact Hr2]|]. split_and!; try done.
    + by rewrite Hc2, Hc1, <-app_assoc.
    + rewrite Ha2, Ha1, Hp1, <-app_assoc. f_equal. unfold handled_acks. destruct (doAutoAck (props s)); [|done].
      rewrite filter_cons. destruct (handler_panics f m); done.
Qed.

End persistent_receiver_runs.

(** * Concrete runs *)

#[local] Instance runs_print : GoPrint := {| sprint_other _ := "?" |}.

Definition queue : Queue := QueueDurableExclusive "orders".

(** The default configuration, and one that acknowledges by itself. *)
Definition plain_props : @persistentMessageReceiverProps nat :=
  mkProps
    ["FLOW_BIND_ENTITY_ID"; "2"; "FLOW_ACKMODE"; "2"; "FLOW_ACTIVE_FLOW_IND"; "1"; "FLOW_START_STATE"; "0";
     "FLOW_BIND_NAME"; "orders"; "FLOW_BIND_ENTITY_DURABLE"; "1"] [] queue 50 40 false false None.

Example plain_builds : Build (λ _, "f") (Some queue) NewPersistentMessageReceiverBuilderImpl = Ok plain_props.
Proof. vm_compute. reflexivity. Qed.

Definition auto_props_unsubscribed : @persistentMessageReceiverProps nat :=
  mkProps (flowProperties plain_props) [] queue 50 40 true true None.
Definition auto_props : @persistentMessageReceiverProps nat :=
  mkProps (flowProperties plain_props) [inl (TopicSubscriptionOf "a")] queue 50 40 true true None.

Example auto_builds :
  Build (λ _, "f") (Some queue)
    (WithMessageAutoAcknowledgement (WithMissingResourcesCreationStrategy PersistentReceiverCreateOnStartMissingResources
       (WithSubscriptions [inl (TopicSubscriptionOf "a")] NewPersistentMessageReceiverBuilderImpl))) = Ok auto_props.
Proof. vm_compute. reflexivity. Qed.

(** Messages are their own identifiers; a handler panics over 6. *)
Definition panics_over_6 (f : nat) (m : Z) : bool := bool_decide (m = 6).

Definition fresh (p : persistentMessageReceiverProps) : @receiver Z nat nat := construct true p [].

Definition after {A} (p : prog (@receiver Z nat nat) A) (s : receiver) : receiver :=
  match run p s with Done _ s => s | Panicked _ s => s | Blocked s => s end.

Definition started_receiver (p : persistentMessageReceiverProps) : receiver := after Start (fresh p).

Definition the_scene (p : persistentMessageReceiverProps) (calls : list (@call Z nat)) :=
  scene Some panics_over_6 calls (fresh p).

Lemma persistent_receiver_accounts_witness : ∃ s ts,
  pool_steps (the_scene auto_props [CallStart; CallReceiveAsync (Some 9%nat); Message 5; Message 6; Message 7;
    Handler 5; SubscriptionResult 0 None; ExecutorTurn; CallTerminate]) (s, ts) ∧
  ¬ pool_panics (s, ts) ∧ state_of s = Terminated ∧
  called (past s) = [(9%nat, 5, false); (9%nat, 6, true); (9%nat, 7, false)] ∧
  acked_as Handed s ++ to_ack s = [5; 7].
Proof.
  destruct (plays_to_steps [(0, 12); (6, 1); (0, 5); (2, 5); (3, 5); (4, 5); (1, 4); (5, 35); (8, 12); (5, 3);
      (8, 5); (7, 1); (8, 5)]%nat
    (the_scene auto_props [CallStart; CallReceiveAsync (Some 9%nat); Message 5; Message 6; Message 7;
       Handler 5; SubscriptionResult 0 None; ExecutorTurn; CallTerminate])
    (λ s, bool_decide (state_of s = Terminated) &&
       bool_decide (called (past s) = [(9%nat, 5, false); (9%nat, 6, true); (9%nat, 7, false)])))
    as (s & ts & Hs & [H1 H2]%andb_true_iff); [by vm_compute|].
  apply bool_decide_eq_true in H1, H2.
  destruct (persistent_receiver_accounts Some panics_over_6 _ _ _ _ s ts Hs)
    as (Hp & _ & _ & _ & _ & _ & [_ Ha] & _).
  exists s, ts. split_and!; [exact Hs|exact Hp|exact H1|exact H2|].
  rewrite Ha. unfold handled. rewrite H2. by vm_compute.
Defined.

Definition in_service : receiver := started_receiver plain_props.


(** A receiver in service whose handler is set, with three messages in its buffer. *)
Definition handling_receiver : receiver :=
  note (at_runner (Running Empty)) (after (operate_all Some [Arrives 5; Arrives 6; Arrives 7])
    (after (ReceiveAsync (Some 9%nat)) (started_receiver auto_props_unsubscribed))).


(** * What goes wrong *)

Definition topic_sub : Subscription := inl (TopicSubscriptionOf "a").

(** Calls that never return.  [ReceiveMessage] without a timeout on a receiver that was
    terminated before it was started waits for a buffer that nobody closes; and the event of a
    subscription that comes after a termination finds its correlation forgotten, so that
    [AddSubscription], which holds no lock then, waits for ever although the termination has
    finished. *)
Theorem persistent_waits_forever :
  (∃ s ts, pool_steps (the_scene plain_props [CallTerminate; CallReceiveMessage false]) (s, ts) ∧
     state_of s = Terminated ∧ returned <$> ts = [Some (Returned None); None] ∧ ∀ c, ¬ pool_step (s, ts) c) ∧
  (∃ s ts, pool_steps (the_scene plain_props [CallStart; CallAddSubscription topic_sub; CallTerminate; Handler 5;
                         ExecutorTurn; SubscriptionResult 0 None]) (s, ts) ∧
     state_of s = Terminated ∧
     returned <$> ts = [Some (Returned None); None; Some (Returned None); Some (Returned None);
                        Some (Returned None); Some (Returned None)] ∧
     ∀ c, ¬ pool_step (s, ts) c).
Proof.
  split.
  - destruct (plays_out_steps [(0, 4); (1, 1)]%nat (the_scene plain_props [CallTerminate; CallReceiveMessage false])
      (λ s rs, bool_decide (state_of s = Terminated) && bool_decide (rs = [Some (Returned None); None])))
      as (s & ts & Hs & [H1 H2]%andb_true_iff & Hstuck); [by vm_compute|].
    apply bool_decide_eq_true in H1, H2. by exists s, ts.
  - destruct (plays_out_steps [(0, 14); (1, 9); (2, 12); (3, 3); (2, 5); (4, 1); (2, 5); (5, 1)]%nat
      (the_scene plain_props [CallStart; CallAddSubscription topic_sub; CallTerminate; Handler 5;
         ExecutorTurn; SubscriptionResult 0 None])
      (λ s rs, bool_decide (state_of s = Terminated) &&
         bool_decide (rs = [Some (Returned None); None; Some (Returned None); Some (Returned None);
                            Some (Returned None); Some (Returned None)])))
      as (s & ts & Hs & [H1 H2]%andb_true_iff & Hstuck); [by vm_compute|].
    apply bool_decide_eq_true in H1, H2. by exists s, ts.
Qed.

(** A termination whose stop of the flow is undone.  The context thread stops the flow at the
    high mark while [Terminate] does, and stores its own value over that of the termination; a request
    that has seen the low mark in the started receiver then starts the flow of the terminating
    one. *)
Theorem flow_restarted_while_terminating : ∃ s ts,
  pool_steps (the_scene plain_props (CallStart :: (Message ∘ Z.of_nat <$> seq 1 50) ++
                replicate 10 (CallReceiveMessage true) ++ [CallTerminate])) (s, ts) ∧
  state_of s = Terminating ∧ receiving (flow s) = true ∧ internalFlowStopped s = 0 ∧
  drop 2 (flow_calls (past s)) = [FlowStop; FlowStop; FlowStart].
Proof.
  destruct (plays_to_steps ((0, 14)%nat :: ((λ i, (i, 5%nat)) <$> seq 1 59) ++ [(60, 4); (61, 6); (50, 4); (60, 4)]%nat)
    (the_scene plain_props (CallStart :: (Message ∘ Z.of_nat <$> seq 1 50) ++
       replicate 10 (CallReceiveMessage true) ++ [CallTerminate]))
    (λ s, bool_decide (state_of s = Terminating) && receiving (flow s) && bool_decide (internalFlowStopped s = 0) &&
       bool_decide (drop 2 (flow_calls (past s)) = [FlowStop; FlowStop; FlowStart])))
    as (s & ts & Hs & [[[H1 H2]%andb_true_iff H3]%andb_true_iff H4]%andb_true_iff); [by vm_compute|].
  apply bool_decide_eq_true in H1, H3, H4. by exists s, ts.
Qed.

Lemma run_starving n (s : @receiver Z nat nat) : serving s → chan_buf (buffer s) = [] →
  ∃ s', run (operate_all Some (replicate n Takes)) s =
      Done (replicate n (Returned (Some ReceiverTimedOutWaitingForMessage))) s' ∧ control_of s' = control_of s.
Proof.
  revert s. induction n as [|n IH]; intros s Hs Hb; [by exists s|].
  destruct (run_takes Some s Hs) as (s1 & Hr1 & Hs1 & _ & Hc1). unfold takes in *. simpl in Hr1, Hc1.
  rewrite Hb in Hr1, Hc1. simpl in Hr1, Hc1.
  destruct (IH s1 Hs1) as (s2 & Hr2 & Hc2); [by apply (f_equal held_back) in Hc1; simpl in Hc1; rewrite Hc1|].
  exists s2. split; [|by rewrite Hc2].
  simpl. eapply run_then; [exact Hr1|]. by eapply run_then; [exact Hr2|].
Qed.

Definition accepted : flow_answer := (None, ("", false)).
Definition refused : flow_answer := (Some (mkErrorInfo ReturnCodeFail None), ("", false)).

(** A flow that stays stopped.  When the C library refuses to start the flow while the buffer is
    drained, the last request that takes a message is the last to try: the receiver is started, its buffer
    is empty and its flow stopped, and every later request times out without a call to the
    flow, although the library accepts every call. *)
Theorem stopped_flow_starves : ∃ s ts,
  pool_steps (scene Some panics_over_6
    (CallStart :: (Message ∘ Z.of_nat <$> seq 1 50) ++ replicate 50 (CallReceiveMessage true))
    (construct true plain_props (replicate 3 accepted ++ replicate 41 refused))) (s, ts) ∧
  state_of s = Started ∧ receiving (flow s) = false ∧ answers s = [] ∧
  ∀ n, ∃ s', run (operate_all Some (replicate n Takes)) s =
      Done (replicate n (Returned (Some ReceiverTimedOutWaitingForMessage))) s' ∧
    flow_calls (past s') = flow_calls (past s).
Proof.
  destruct (plays_to_steps ((0, 14)%nat :: ((λ i, (i, 5%nat)) <$> seq 1 49) ++ [(50, 9)]%nat ++
      ((λ i, (i, 5%nat)) <$> seq 51 9) ++ ((λ i, (i, 9%nat)) <$> seq 60 41))
    (scene Some panics_over_6 (CallStart :: (Message ∘ Z.of_nat <$> seq 1 50) ++ replicate 50 (CallReceiveMessage true))
      (construct true plain_props (replicate 3 accepted ++ replicate 41 refused)))
    (λ s, bool_decide (state_of s = Started) && negb (receiving (flow s)) && bool_decide (answers s = []) &&
       (created (flow s) && attached (flow s) && bool_decide (internalFlowStopped s = 1) &&
        bool_decide (context (past s) = ContextFree) && negb (chan_closed (buffer s)) && negb (bufferClosed s) &&
        negb (bufferEmptyOnTerminate s) && bool_decide (chan_buf (buffer s) = []))))
    as (s & ts & Hs & Hc); [by vm_compute|].
  rewrite !andb_true_iff, !negb_true_iff, !bool_decide_eq_true in Hc. destruct_and!.
  exists s, ts. split_and!; try done. intros n.
  destruct (run_starving n s) as (s' & Hr & Hcon); [split; try done; split; auto|done|].
  exists s'. split; [exact Hr|]. by apply (f_equal asked) in Hcon.
Qed.
